(* ===== verification/_CoqProject ===== *)
-Q . S2P
Prelude.v
Sha256.v
GoStrings.v
Fingerprint.v
HasherPool.v
GoJSON.v
GoTime.v
Store.v
LocalCache.v
Metrics.v
CachedStore.v
Interleaving.v
Locking.v
GoDuration.v
DurationText.v
Config.v
RedisStore.v
Gin.v
Handler.v
Middleware.v
Server.v
Service.v
Conformance.v
