(* ===== verification/Prelude.v ===== *)
(** * dedup-service: a verification library

    dedup-service is a Go program that stands behind nginx and refuses HTTP
    requests that repeat an earlier one.  A request's method, URI and body are
    hashed to a key ([internal/fingerprint]); the key is recorded in Redis with a
    time to live, [SET key 1 NX PX ttl], and a key that is already there makes the
    request a duplicate ([internal/store]).  A request that is new is answered by
    an [X-Accel-Redirect] header, upon which nginx forwards it; a duplicate is
    answered by 409; and when the store fails, [dedup.fail_open] decides between
    redirect and 500 ([internal/handler]).  In front of Redis there may be an
    in-process cache of 256 shards; around the handlers there is a chain of
    middlewares; [cmd/server] wires it all up from a configuration.

    ** The files, in dependency order, and the code they model

    - [Prelude]: bytes and strings, machine integers ([i64], [u64], ...), Go's
      error values with [errors.Is], results, tactics and hint databases.
    - [Sha256]: the interface [Hash] to [crypto/sha256] with its law ([Sum] is a
      function of what was written since [Reset]), and SHA-256 itself as its
      instance, so that examples compute real keys.
    - [GoStrings], [GoTime], [GoDuration]: what the code uses of [encoding/hex],
      [unicode/utf8], [strings], [strconv], [time] and [context].  A clock is a
      stream of readings consumed in order; a context is its deadline.
    - [DurationText]: that [time.ParseDuration] reads back what [Duration.String]
      writes, for every [int64], with the parser's [float64] fractions.
    - [GoJSON]: [json.Marshal] of the flat objects of the responses, and a reader.
    - [Fingerprint]: internal/fingerprint/fingerprint.go, one call at a time;
      [HasherPool]: any number of calls at once, on hashers that are objects of a
      heap and move between the pool and the goroutines.
    - [Store]: internal/store/store.go, the interface as the class [Store], its
      contract as the abstract specification [StoreLaws] (a map from keys to the
      instants until which they are recorded, and three outcomes of a call), the
      weaker client-side contract [AdmissionLaws], and the MemoryStore.
    - [LocalCache]: internal/store/localcache.go.
    - [Metrics]: internal/metrics/metrics.go, collectors as data, calls as events.
    - [CachedStore]: internal/store/cached_store.go over any [Store].
    - [Interleaving]: goroutines of several instances, each with a cache of its own,
      calling [CachedStore.IsDuplicate] on one backend at the same time, as a step
      relation whose atomic steps are the critical sections of the code.
    - [Locking]: the same code one operation at a time over the [sync.RWMutex] of
      each shard ([Contains_code], [Set_code], [Len_code], [sweep_code],
      [IsDuplicate_code], run by [exec]), which shows that those sections may be
      taken as atomic.
    - [Config]: internal/config/config.go.
    - [RedisStore]: internal/store/store.go, the Redis implementation.
    - [Gin]: what handlers read of and ask from the framework; the monad [prog]
      in which they run, over the [world] of one request, with panics.
    - [Handler]: internal/handler/xaccel.go and health.go.
    - [Middleware]: internal/middleware/middleware.go.
    - [Server]: cmd/server/main.go.
    - [Service]: the parts together: concurrent requests through the handler, the
      store call a request makes, and the types of what reaches the metrics.
    - [Conformance]: the repository's unit tests, evaluated on the model.

    A Go method on a receiver is a function on the receiver's record that returns
    the new record; [(T, error)] is a pair or [res]; a method with a clock takes and
    returns it.  Definitions have the names of the code, with a prefix where one
    name has several owners ([memory_IsDuplicate], [redis_IsDuplicate],
    [cached_IsDuplicate]); their order of effects is the code's.

    ** Parameters

    Code outside the repository is a class, with what the code relies on as laws:
    the hasher ([Hash], [HashLaws]), the tables of [unicode] beyond ASCII
    ([UnicodeTables]), Viper ([Viper], [ViperLaws]), the Redis client
    ([RedisClient], [RedisLaws]), gin ([Gin], [GinLaws]) and the operating system,
    HTTP server and traffic ([Host]).  Each set of laws has an instance that the
    examples run on.  [RedisLaws] says that a command that failed has been
    executed or dropped by the time the call returns.

    ** What the theorems show

    - The promise.  Over any store that honours the contract, no two requests with
      one key are let through within a window ([Handler.replay_blocked],
      [Server.service_replay_blocked] for the stack the process runs on), nor
      under any interleaving of goroutines, instances, sweeps and evictions
      ([Interleaving.no_double_admission]), where every "duplicate" goes back to a
      record at most two windows old ([duplicate_verdict_evidence]).  With the
      handler on top, the requests forwarded under one key are at most one more
      than the windows passed ([Service.concurrent_forwarding_rate]); each asks the
      store once, within its deadline ([store_asked_once]).  The sequential
      definitions are schedules of the concurrent system
      ([sequential_call_is_a_schedule]).
    - The locks.  With the mutexes spelled out there is no data race
      ([Locking.no_data_race]), no deadlock and no endless schedule
      ([no_deadlock]), and every run is one of the interleavings above
      ([locks_refine_atomic]).
    - The answers.  What a request is answered on every branch, alone
      ([Handler.handle_decides], [replay_timeline]) and through the whole chain
      ([Server.service_answers], [health_served]); what fail-open and fail-closed
      each guarantee; what counters and logs then say, and that every metric call
      is well typed ([metrics_well_typed]); what becomes of a panic; that the JSON
      answers can be read back ([health_json_roundtrip]).  Counters, log lines and
      calls are stated exactly, as functions of the request and the clock
      ([Handle_exact], [logging_levels], [service_answers]).
    - Refinements.  The MemoryStore and the RedisStore implement the contract, the
      CachedStore its client side, the sharded cache one map; streaming a body
      gives the key of the buffered request, also when goroutines share their
      hashers ([shared_hashers_invisible]); [statusStr] is [strconv.Itoa].
    - Configuration and life cycle.  What [Load] accepts, rejects and defaults to
      (an error blames the first rule that the one configuration described by the
      settings breaks, [load_errors]), and that a loaded configuration written down
      is loaded again ([load_roundtrip]); in what state a run leaves the store it
      opened ([run_closes_store]), and exactly how the process exits ([main_exits]).
    - Bounds.  The size of the cache after a sweep ([sweep_bounds_cache]), the
      expiry arithmetic of the cache and the server's timeouts at
      [int64], the shard index and the hash at their widths.

    Some theorems state where the code departs from what it says: the key does not
    separate its fields ([redis_key_field_boundary]), the cache stretches the
    window ([cached_window_stretches]), a body that cannot be read counts as a
    store failure ([unreadable_body_is_a_store_failure]), a panicking request is
    in no metric ([panicking_requests_uncounted]), duplicates are louder with
    request logging disabled ([quiet_logging_raises_duplicates]), and the limit on
    the body has no effect ([max_body_bytes_has_no_effect]).

    ** Fuel

    Three kinds of recursion are not structural.  [ParseDuration] uses the length of its
    argument, since every term consumes a byte; it never runs out
    ([ParseDuration_total]).  The rune loops of [GoStrings] and [GoJSON] use the
    length of the string, since every rune has a positive width; the reader of
    JSON members uses the length of the text, since every member consumes a byte
    ([read_Marshal]).  Everything else is structural.  The step bound of [Locking]
    is not fuel: a sweep takes 1025 steps (one reading of the clock, four for each
    of 256 shards), a call at most 16.

    ** Not modelled

    How lumberjack rotates the log file (its settings are data); requests that gin
    answers itself, before any handler or middleware, as it redirects a path with a
    trailing slash too many; go-redis's retries of a command ([RedisLaws] speaks of
    commands that are executed at most once); the routes whose
    handlers are other packages' ([promhttp], [pprof]: arbitrary programs in
    [Server]); what gin writes around the marshalled objects; which log events the
    global level drops; the wall clock going backwards
    (clocks are monotone where a theorem says so); nginx, which carries out the
    redirect; benchmarks, scripts and dashboards. *)

From Stdlib Require Export ZArith Lia ZifyNat Strings.Byte.
From stdpp Require Export base tactics list gmap strings fin_maps.

#[global] Set Default Goal Selector "!".

(** ** Notations *)

Declare Scope go_scope.
Delimit Scope go_scope with go.

(** Go's [[]byte] is a list of bytes; Go's [string] is Rocq's [string], whose
    characters are bytes. *)
Abbreviation bytes := (list Byte.byte).
Definition bytes_of (s : string) : bytes := String.list_byte_of_string s.
Definition string_of (b : bytes) : string := String.string_of_list_byte b.

(** ** Machine integers

    A Go integer is a [Z] together with the wrap-around its width imposes. *)
Section Ints.
Local Open Scope Z_scope.

Definition u8 (x : Z) : Z := x mod 2 ^ 8.
Definition u32 (x : Z) : Z := x mod 2 ^ 32.
Definition u64 (x : Z) : Z := x mod 2 ^ 64.
(** two's complement: the representative in [-2^63, 2^63) *)
Definition i64 (x : Z) : Z := (x + 2 ^ 63) mod 2 ^ 64 - 2 ^ 63.

Definition in_i64 (x : Z) : Prop := - 2 ^ 63 <= x < 2 ^ 63.
Definition in_u64 (x : Z) : Prop := 0 <= x < 2 ^ 64.

Lemma i64_id x : in_i64 x -> i64 x = x.
Proof. unfold in_i64, i64. intros H. rewrite Z.mod_small; lia. Qed.

Lemma i64_range x : in_i64 (i64 x).
Proof.
  unfold in_i64, i64.
  pose proof (Z.mod_pos_bound (x + 2 ^ 63) (2 ^ 64) ltac:(lia)). lia.
Qed.

Lemma u64_id x : in_u64 x -> u64 x = x.
Proof. apply Z.mod_small. Qed.

Lemma u64_range x : in_u64 (u64 x).
Proof. unfold in_u64, u64. apply Z.mod_pos_bound. lia. Qed.

Lemma u32_range x : 0 <= u32 x < 2 ^ 32.
Proof. apply Z.mod_pos_bound. lia. Qed.

Lemma u8_range x : 0 <= u8 x < 256.
Proof. apply (Z.mod_pos_bound x 256). lia. Qed.

(** One step beyond the top of the range wraps exactly once. *)
Lemma i64_overflow x : 2 ^ 63 <= x < 2 ^ 63 + 2 ^ 64 -> i64 x = x - 2 ^ 64.
Proof.
  intros H. unfold i64.
  replace (x + 2 ^ 63) with (x + 2 ^ 63 - 2 ^ 64 + 1 * 2 ^ 64) by lia.
  rewrite Z.mod_add by lia. rewrite Z.mod_small; lia.
Qed.

Lemma u64_add_l x y : u64 (u64 x + y) = u64 (x + y).
Proof. unfold u64. apply Zplus_mod_idemp_l. Qed.

(** Additions that wrap after every step agree with one final wrap. *)
Lemma i64_add_l x y : i64 (i64 x + y) = i64 (x + y).
Proof.
  unfold i64.
  replace ((x + 2 ^ 63) mod 2 ^ 64 - 2 ^ 63 + y + 2 ^ 63)
    with ((x + 2 ^ 63) mod 2 ^ 64 + y) by lia.
  rewrite Zplus_mod_idemp_l. do 2 f_equal. lia.
Qed.
End Ints.

Create HintDb goint.
Create Rewrite HintDb goint.
Create Rewrite HintDb gostr.
#[export] Hint Resolve i64_range u64_range u32_range u8_range : goint.
#[export] Hint Rewrite u64_add_l i64_add_l : goint.
#[export] Hint Rewrite i64_id u64_id using (unfold in_i64, in_u64; lia) : goint.

(** ** Bytes as numbers *)
Definition byte_Z (b : Byte.byte) : Z := Z.of_N (Byte.to_N b).
Definition Z_byte (z : Z) : Byte.byte :=
  match Byte.of_N (Z.to_N (u8 z)) with Some b => b | None => x00 end.

Lemma byte_Z_range b : (0 <= byte_Z b < 256)%Z.
Proof. unfold byte_Z. pose proof (Byte.to_N_bounded b). lia. Qed.

Lemma byte_Z_inj b1 b2 : byte_Z b1 = byte_Z b2 -> b1 = b2.
Proof.
  unfold byte_Z. intros H%N2Z.inj.
  pose proof (Byte.of_to_N b1). pose proof (Byte.of_to_N b2). congruence.
Qed.

Lemma Z_byte_Z b : Z_byte (byte_Z b) = b.
Proof.
  unfold Z_byte, u8. rewrite Z.mod_small by apply byte_Z_range.
  unfold byte_Z. by rewrite N2Z.id, Byte.of_to_N.
Qed.

Lemma byte_Z_byte z : byte_Z (Z_byte z) = u8 z.
Proof.
  pose proof (u8_range z) as Hr. unfold Z_byte.
  destruct (Byte.of_N (Z.to_N (u8 z))) as [b|] eqn:E.
  - unfold byte_Z. apply Byte.to_of_N in E. lia.
  - apply Byte.of_N_None_iff in E. lia.
Qed.

#[export] Hint Resolve byte_Z_range : goint.

#[global] Instance byte_eq_dec : EqDecision Byte.byte := Byte.byte_eq_dec.

(** ** Strings and byte lists *)
Lemma string_of_bytes_of s : string_of (bytes_of s) = s.
Proof. apply String.string_of_list_byte_of_string. Qed.
Lemma bytes_of_string_of b : bytes_of (string_of b) = b.
Proof. apply String.list_byte_of_string_of_list_byte. Qed.

#[global] Instance bytes_of_inj : Inj (=) (=) bytes_of.
Proof. intros s1 s2 H. rewrite <-(string_of_bytes_of s1), H. apply string_of_bytes_of. Qed.
#[global] Instance string_of_inj : Inj (=) (=) string_of.
Proof. intros s1 s2 H. rewrite <-(bytes_of_string_of s1), H. apply bytes_of_string_of. Qed.

Lemma bytes_of_app s1 s2 : bytes_of (s1 +:+ s2) = bytes_of s1 ++ bytes_of s2.
Proof.
  unfold bytes_of, String.list_byte_of_string.
  induction s1 as [|a s1 IH]; simpl; [done|]. by f_equal.
Qed.

Lemma string_of_app b1 b2 : string_of (b1 ++ b2) = string_of b1 +:+ string_of b2.
Proof. apply (inj bytes_of). by rewrite bytes_of_app, !bytes_of_string_of. Qed.

#[export] Hint Rewrite string_of_bytes_of bytes_of_string_of : gostr.

(** Indexing helpers used by buffers of a fixed size. *)
Lemma length_bytes_of s : length (bytes_of s) = String.length s.
Proof.
  unfold bytes_of, String.list_byte_of_string.
  induction s as [|a s IH]; simpl; [done|]. by f_equal.
Qed.

(** ** Go errors

    [errors.New] makes a sentinel with an identity of its own (the package
    variable that holds it) and a message; [fmt.Errorf] with one [%w] wraps one
    error under a prefix, and with ["%w: %w"] joins two.  Errors that come from
    outside the repository are sentinels of their own package. *)
Inductive error :=
  | ErrNew (id msg : string)
  | ErrWrap (prefix : string) (e : error)      (** [fmt.Errorf("prefix: %w", e)] *)
  | ErrWrap2 (e1 e2 : error).                  (** [fmt.Errorf("%w: %w", e1, e2)] *)

#[global] Instance error_eq_dec : EqDecision error.
Proof. solve_decision. Defined.

Local Open Scope string_scope.
(** [err.Error()] *)
Fixpoint error_text (e : error) : string :=
  match e with
  | ErrNew _ msg => msg
  | ErrWrap prefix e => prefix +:+ ": " +:+ error_text e
  | ErrWrap2 e1 e2 => error_text e1 +:+ ": " +:+ error_text e2
  end.
Local Close Scope string_scope.

(** [errors.Is]: the target is the error itself or is found by a depth-first
    walk of what it wraps. *)
Fixpoint errors_is (e target : error) : bool :=
  bool_decide (e = target) ||
  match e with
  | ErrNew _ _ => false
  | ErrWrap _ e => errors_is e target
  | ErrWrap2 e1 e2 => errors_is e1 target || errors_is e2 target
  end.

Lemma errors_is_refl e : errors_is e e = true.
Proof. destruct e; simpl; by rewrite bool_decide_eq_true_2. Qed.

Lemma errors_is_wrap p e t : errors_is e t = true -> errors_is (ErrWrap p e) t = true.
Proof. intros H. simpl. rewrite H. apply orb_true_r. Qed.

Lemma errors_is_wrap2_l e1 e2 t : errors_is e1 t = true -> errors_is (ErrWrap2 e1 e2) t = true.
Proof. intros H. simpl. rewrite H. simpl. apply orb_true_r. Qed.

Create HintDb goerr.
#[export] Hint Resolve errors_is_refl errors_is_wrap errors_is_wrap2_l : goerr.

(** A result of a Go call that returns [(T, error)] where the value is only
    meaningful when the error is nil. *)
Inductive res (A : Type) :=
  | Ok (a : A)
  | Err (e : error).
Arguments Ok {A} a.
Arguments Err {A} e.

Notation "'let?' x := e 'in' k" :=
  (match e with Ok x => k | Err err => Err err end)
  (at level 10, x pattern, e at level 100, k at level 200) : go_scope.

(** ** Tactics *)

(** Destruct the scrutinee of some [match] or [if] of the goal, remembering
    the equation. *)
Ltac case_goal :=
  match goal with
  | |- context [match ?x with _ => _ end] =>
      lazymatch x with context [match _ with _ => _ end] => fail | _ => destruct x eqn:? end
  end.

(** The same for a hypothesis. *)
Ltac case_in H :=
  match type of H with
  | context [match ?x with _ => _ end] =>
      lazymatch x with context [match _ with _ => _ end] => fail | _ => destruct x eqn:? end
  end.

(** Turn boolean comparisons in the context into their propositions. *)
Ltac bool_props :=
  repeat match goal with
  | H : (_ && _)%bool = true |- _ => apply andb_true_iff in H as [? ?]
  | H : (_ || _)%bool = false |- _ => apply orb_false_iff in H as [? ?]
  | H : negb _ = true |- _ => apply negb_true_iff in H
  | H : negb _ = false |- _ => apply negb_false_iff in H
  | H : Z.leb _ _ = true |- _ => apply Z.leb_le in H
  | H : Z.leb _ _ = false |- _ => apply Z.leb_gt in H
  | H : Z.ltb _ _ = true |- _ => apply Z.ltb_lt in H
  | H : Z.ltb _ _ = false |- _ => apply Z.ltb_ge in H
  | H : Z.eqb _ _ = true |- _ => apply Z.eqb_eq in H
  | H : Z.eqb _ _ = false |- _ => apply Z.eqb_neq in H
  | H : bool_decide _ = true |- _ => apply bool_decide_eq_true_1 in H
  | H : bool_decide _ = false |- _ => apply bool_decide_eq_false_1 in H
  end.
