(* ===== verification/Sha256.v ===== *)
(** * Sha256: the digest the fingerprint is built on

    The standard library's [crypto/sha256] (the streaming [digest] with its
    64-byte buffer) and [encoding/hex], next to the one-shot specification of
    FIPS 180-4.  The interface [Hash] is Go's [hash.Hash] as the fingerprint
    package uses it; [sha256_hash_laws] discharges its contract. *)

From S2P Require Import Prelude.

(** ** The interface: Go's [hash.Hash] *)

Class Hash (D : Type) := {
  hash_New : D;
  hash_Reset : D -> D;
  hash_Write : D -> bytes -> D;
  hash_Sum : D -> bytes;          (** [h.Sum(digest[:0])]: the state is unchanged *)
}.

(** What a hasher promises: after [Reset], whatever the state before, the sum
    of any sequence of writes is a function [H] of their concatenation, and it
    has the length of a SHA-256 digest. *)
Class HashLaws (D : Type) `{!Hash D} (H : bytes -> bytes) : Prop := {
  law_sum : forall d ps, hash_Sum (foldl hash_Write (hash_Reset d) ps) = H (mjoin ps);
  law_size : forall m, length (H m) = 32;
}.

(** ** 32-bit words *)
Section Words.
Local Open Scope Z_scope.

Definition add32 (x y : Z) : Z := u32 (x + y).
Definition not32 (x : Z) : Z := 2 ^ 32 - 1 - x.
Definition rotr (x n : Z) : Z := Z.lor (Z.shiftr x n) (u32 (Z.shiftl x (32 - n))).

(** big-endian decoding and encoding *)
Definition be_Z (b : bytes) : Z := foldl (fun a c => a * 256 + byte_Z c) 0 b.
Fixpoint be_bytes (n : nat) (x : Z) : bytes :=
  match n with
  | O => []
  | S n => Z_byte (Z.shiftr x (8 * Z.of_nat n)) :: be_bytes n x
  end.

Definition K : list Z := [
  1116352408; 1899447441; 3049323471; 3921009573; 961987163; 1508970993;
  2453635748; 2870763221; 3624381080; 310598401; 607225278; 1426881987;
  1925078388; 2162078206; 2614888103; 3248222580; 3835390401; 4022224774;
  264347078; 604807628; 770255983; 1249150122; 1555081692; 1996064986;
  2554220882; 2821834349; 2952996808; 3210313671; 3336571891; 3584528711;
  113926993; 338241895; 666307205; 773529912; 1294757372; 1396182291;
  1695183700; 1986661051; 2177026350; 2456956037; 2730485921; 2820302411;
  3259730800; 3345764771; 3516065817; 3600352804; 4094571909; 275423344;
  430227734; 506948616; 659060556; 883997877; 958139571; 1322822218;
  1537002063; 1747873779; 1955562222; 2024104815; 2227730452; 2361852424;
  2428436474; 2756734187; 3204031479; 3329325298].

(** The working variables, and the chaining value: eight words. *)
Record hstate := HState { ha : Z; hb : Z; hc : Z; hd : Z; he : Z; hf : Z; hg : Z; hh : Z }.

Definition init : hstate :=
  HState 1779033703 3144134277 1013904242 2773480762
         1359893119 2600822924 528734635 1541459225.

(** message schedule: the words so far, the latest first *)
Definition sched_step (ws : list Z) : list Z :=
  let v1 := nth 1 ws 0 in
  let t1 := Z.lxor (Z.lxor (rotr v1 17) (rotr v1 19)) (Z.shiftr v1 10) in
  let v2 := nth 14 ws 0 in
  let t2 := Z.lxor (Z.lxor (rotr v2 7) (rotr v2 18)) (Z.shiftr v2 3) in
  add32 (add32 (add32 t1 (nth 6 ws 0)) t2) (nth 15 ws 0) :: ws.

Fixpoint words_of (n : nat) (chunk : bytes) : list Z :=
  match n with
  | O => []
  | S n => be_Z (take 4 chunk) :: words_of n (drop 4 chunk)
  end.

Definition schedule (chunk : bytes) : list Z :=
  rev (Nat.iter 48 sched_step (rev (words_of 16 chunk))).

Definition round (s : hstate) (kw : Z * Z) : hstate :=
  let '(HState a b c d e f g h) := s in
  let t1 := add32 (add32 (add32 (add32 h
              (Z.lxor (Z.lxor (rotr e 6) (rotr e 11)) (rotr e 25)))
              (Z.lxor (Z.land e f) (Z.land (not32 e) g))) (fst kw)) (snd kw) in
  let t2 := add32 (Z.lxor (Z.lxor (rotr a 2) (rotr a 13)) (rotr a 22))
                  (Z.lxor (Z.lxor (Z.land a b) (Z.land a c)) (Z.land b c)) in
  HState (add32 t1 t2) a b c (add32 d t1) e f g.

Definition compress (s : hstate) (chunk : bytes) : hstate :=
  let '(HState a b c d e f g h) := foldl round s (zip K (schedule chunk)) in
  HState (add32 (ha s) a) (add32 (hb s) b) (add32 (hc s) c) (add32 (hd s) d)
         (add32 (he s) e) (add32 (hf s) f) (add32 (hg s) g) (add32 (hh s) h).

Definition out (s : hstate) : bytes :=
  mjoin (map (be_bytes 4) [ha s; hb s; hc s; hd s; he s; hf s; hg s; hh s]).
End Words.

(** [block(dig, p)]: compress every whole 64-byte chunk of [p]. *)
Fixpoint blocks_n (n : nat) (s : hstate) (p : bytes) : hstate :=
  match n with
  | O => s
  | S n => blocks_n n (compress s (take 64 p)) (drop 64 p)
  end.
Definition blocks (s : hstate) (p : bytes) : hstate := blocks_n (length p / 64) s p.

(** ** The specification: FIPS 180-4 on a whole message *)

Definition pad_zeros (len : nat) : nat := (119 - len mod 64) mod 64.
Definition padding (len : nat) : bytes :=
  x80 :: replicate (pad_zeros len) x00 ++ be_bytes 8 (u64 (Z.shiftl (Z.of_nat len) 3)).
Definition sha256_spec (m : bytes) : bytes := out (blocks init (m ++ padding (length m))).

(** ** The streaming digest

    [dx] is the part of the buffer in use, [x[:nx]]. *)
Record digest := Digest { dh : hstate; dx : bytes; dlen : Z }.

Definition sha256_Reset (d : digest) : digest := Digest init [] 0.
Definition sha256_New : digest := Digest init [] 0.

Definition sha256_Write (d : digest) (p : bytes) : digest :=
  let len := u64 (dlen d + Z.of_nat (length p)) in
  (* if d.nx > 0: top up the buffer and compress it when it is full *)
  let '(s, x, p) :=
    match dx d with
    | [] => (dh d, [], p)
    | _ =>
        let n := Nat.min (64 - length (dx d)) (length p) in
        let x := dx d ++ take n p in
        if decide (length x = 64) then (blocks (dh d) x, [], drop n p)
        else (dh d, x, drop n p)
    end in
  (* if len(p) >= chunk: compress the whole chunks straight from p *)
  let '(s, p) :=
    if decide (64 <= length p)
    then let n := 64 * (length p / 64) in (blocks s (take n p), drop n p)
    else (s, p) in
  (* if len(p) > 0: keep the rest *)
  let x := match p with [] => x | _ => p end in
  Digest s x len.

(** [checkSum] on a copy of the digest. *)
Definition sha256_Sum (d : digest) : bytes :=
  let len := dlen d in
  let r := Z.to_nat (len mod 64) in
  let t := if decide (r < 56) then 56 - r else 64 + 56 - r in
  let padlen := x80 :: replicate (t - 1) x00 ++ be_bytes 8 (u64 (Z.shiftl len 3)) in
  out (dh (sha256_Write d padlen)).

#[global] Instance sha256_hash : Hash digest := {|
  hash_New := sha256_New; hash_Reset := sha256_Reset;
  hash_Write := sha256_Write; hash_Sum := sha256_Sum |}.

(** ** Streaming equals one-shot *)

Lemma blocks_n_app n s a b :
  length a = 64 * n -> blocks_n (n + length b / 64) s (a ++ b) = blocks (blocks_n n s a) b.
Proof.
  revert s a. induction n as [|n IH]; intros s a Ha; simpl.
  - apply length_zero_iff_nil in Ha as ->. done.
  - rewrite take_app_le, drop_app_le by lia. apply IH. rewrite length_drop. lia.
Qed.

Lemma blocks_app s a b :
  length a mod 64 = 0 -> blocks s (a ++ b) = blocks (blocks s a) b.
Proof.
  intros Ha. unfold blocks at 1. rewrite length_app.
  replace ((length a + length b) / 64) with (length a / 64 + length b / 64) by lia.
  apply blocks_n_app. lia.
Qed.

Lemma blocks_short s p : length p < 64 -> blocks s p = s.
Proof. intros H. unfold blocks. by rewrite Nat.div_small. Qed.

(** The digest has absorbed the message [m]: it compressed the whole chunks
    and holds the rest. *)
Definition absorbed (d : digest) (m : bytes) : Prop :=
  exists a, m = a ++ dx d /\ length a mod 64 = 0 /\ length (dx d) < 64 /\
            dh d = blocks init a /\ dlen d = u64 (Z.of_nat (length m)).

Lemma absorbed_reset d : absorbed (sha256_Reset d) [].
Proof. exists []. by split_and!; simpl; try lia. Qed.

(** The tail of [Write] that starts with an empty buffer. *)
Lemma absorb_rest a p :
  length a mod 64 = 0 ->
  exists a' x', a ++ p = a' ++ x' /\ length a' mod 64 = 0 /\ length x' < 64 /\
    (let '(s, q) := if decide (64 <= length p)
                    then let n := 64 * (length p / 64) in (blocks (blocks init a) (take n p), drop n p)
                    else (blocks init a, p) in
     s = blocks init a' /\ match q with [] => [] | _ => q end = x').
Proof.
  intros Ha. case_decide as Hp; cbv zeta.
  - set (n := 64 * (length p / 64)).
    exists (a ++ take n p), (drop n p).
    assert (Hn : length (take n p) = n) by (rewrite length_take; lia).
    split_and!.
    + by rewrite <-app_assoc, take_drop.
    + rewrite length_app, Hn. lia.
    + rewrite length_drop. lia.
    + fold n. by rewrite blocks_app.
    + fold n. by destruct (drop n p).
  - exists a, p. split_and!; [done..|lia|done|]. by destruct p.
Qed.

Lemma absorbed_write d m p : absorbed d m -> absorbed (sha256_Write d p) (m ++ p).
Proof.
  intros (a & -> & Ha & Hx & Hh & Hl). unfold sha256_Write.
  assert (Hlen : u64 (dlen d + Z.of_nat (length p)) =
                 u64 (Z.of_nat (length ((a ++ dx d) ++ p)))).
  { rewrite Hl, u64_add_l. f_equal. rewrite !length_app. lia. }
  rewrite Hlen. clear Hlen Hl. destruct (dx d) as [|c x] eqn:Ex.
  - destruct (absorb_rest a p Ha) as (a' & x' & Hsplit & ? & ? & Hrest).
    rewrite Hh. case_decide; destruct Hrest as [-> <-]; exists a';
      rewrite app_nil_r in *; rewrite Hsplit; by split_and!.
  - rewrite <-Ex in *. clear Ex c x.
    set (n := Nat.min (64 - length (dx d)) (length p)).
    assert (Hn : length (dx d ++ take n p) = length (dx d) + n)
      by (rewrite length_app, length_take; lia).
    case_decide as Hfull.
    + destruct (absorb_rest (a ++ dx d ++ take n p) (drop n p)) as (a' & x' & Hs & ? & ? & Hr).
      { rewrite length_app. lia. }
      rewrite Hh, <-(blocks_app init a) by done.
      replace ((a ++ dx d) ++ p) with (a' ++ x')
        by (rewrite <-Hs, <-!app_assoc; by rewrite take_drop).
      case_decide; destruct Hr as [-> <-]; exists a'; by split_and!.
    + assert (length (dx d) + length p < 64) by lia.
      assert (n = length p) as -> by lia.
      rewrite drop_all. exists a. cbn [dx dh dlen].
      rewrite firstn_all in *. rewrite <-app_assoc.
      rewrite decide_False by (simpl; lia). cbn [dx dh dlen].
      rewrite length_app. by split_and!; try lia.
Qed.

Lemma absorbed_writes d m ps : absorbed d m -> absorbed (foldl sha256_Write d ps) (m ++ mjoin ps).
Proof.
  revert d m. induction ps as [|p ps IH]; intros d m Hd; simpl.
  - by rewrite app_nil_r.
  - rewrite app_assoc. by apply IH, absorbed_write.
Qed.

Lemma length_be_bytes n x : length (be_bytes n x) = n.
Proof. induction n; simpl; congruence. Qed.

Lemma length_padding len : length (padding len) = pad_zeros len + 9.
Proof.
  unfold padding. rewrite length_cons, length_app, length_replicate, length_be_bytes. lia.
Qed.

Lemma length_out s : length (out s) = 32.
Proof. done. Qed.

Lemma absorbed_sum d m : absorbed d m -> sha256_Sum d = sha256_spec m.
Proof.
  intros Hd. pose proof Hd as (_ & _ & _ & _ & _ & Hl).
  unfold sha256_Sum, sha256_spec. rewrite Hl. f_equal.
  assert (Hr : Z.to_nat (u64 (Z.of_nat (length m)) mod 64) = length m mod 64).
  { unfold u64. rewrite Z.mod_mod_divide by (by exists (2 ^ 58)%Z). lia. }
  rewrite Hr.
  set (t := if decide _ then _ else _).
  assert (Ht : t - 1 = pad_zeros (length m)).
  { unfold t, pad_zeros. case_decide; lia. }
  rewrite Ht.
  assert (Hs : u64 (Z.shiftl (u64 (Z.of_nat (length m))) 3)
             = u64 (Z.shiftl (Z.of_nat (length m)) 3)).
  { unfold u64. rewrite !Z.shiftl_mul_pow2 by lia. apply Zmult_mod_idemp_l. }
  rewrite Hs. fold (padding (length m)).
  apply (absorbed_write _ _ (padding (length m))) in Hd as (a & Ha & Ha0 & Hx & -> & _).
  f_equal. rewrite Ha. assert (Hlen := f_equal length Ha).
  rewrite !length_app, length_padding in Hlen.
  assert (length (dx (sha256_Write d (padding (length m)))) = 0) as Hx0
    by (unfold pad_zeros in Hlen; lia).
  apply length_zero_iff_nil in Hx0. by rewrite Hx0, app_nil_r.
Qed.

#[global] Instance sha256_hash_laws : HashLaws digest sha256_spec.
Proof.
  split.
  - intros d ps. apply absorbed_sum. apply (absorbed_writes _ []), absorbed_reset.
  - intros m. apply length_out.
Qed.
