(* ===== verification/GoStrings.v ===== *)
(** * GoStrings: the string functions of Go's standard library the service uses

    [encoding/hex.Encode], [unicode/utf8] decoding and encoding,
    [strings.ToUpper], [strings.TrimSpace] and [strconv.Itoa], on byte strings.
    Go's simple case mapping of the runes beyond ASCII is a table of the
    [unicode] package; it is a parameter ([UnicodeTables]). *)

From Stdlib Require DecimalString.
From S2P Require Import Prelude.

(** ** [hex.Encode] *)

Definition hex_digit (n : Z) : Byte.byte :=
  if (n <? 10)%Z then Z_byte (48 + n) else Z_byte (87 + n).
Definition hex_pair (b : Byte.byte) : bytes :=
  [hex_digit (Z.shiftr (byte_Z b) 4); hex_digit (Z.land (byte_Z b) 15)].
Definition hex_encode (b : bytes) : bytes := b ≫= hex_pair.

(** The digits read back, to show that encoding loses nothing. *)
Definition hex_value (c : Byte.byte) : Z :=
  if (byte_Z c <? 58)%Z then byte_Z c - 48 else byte_Z c - 87.
Fixpoint hex_decode (s : bytes) : bytes :=
  match s with
  | h :: l :: s => Z_byte (16 * hex_value h + hex_value l) :: hex_decode s
  | _ => []
  end.

Lemma hex_decode_encode b : hex_decode (hex_encode b) = b.
Proof.
  induction b as [|c b IH]; [done|]. cbn.
  unfold hex_encode in IH. rewrite IH. f_equal. by destruct c.
Qed.

#[global] Instance hex_encode_inj : Inj (=) (=) hex_encode.
Proof. intros x y H. by rewrite <-(hex_decode_encode x), H, hex_decode_encode. Qed.

Lemma length_hex_encode b : length (hex_encode b) = 2 * length b.
Proof. induction b as [|c b IH]; [done|]. cbn. unfold hex_encode in IH. rewrite IH. lia. Qed.

(** the digits are lowercase hexadecimal *)
Definition is_hex_digit (c : Byte.byte) : bool :=
  ((48 <=? byte_Z c) && (byte_Z c <=? 57) || (97 <=? byte_Z c) && (byte_Z c <=? 102))%Z.

Lemma hex_encode_digits b : Forall (fun c => is_hex_digit c = true) (hex_encode b).
Proof.
  induction b as [|c b IH]; [constructor|].
  cbn. repeat constructor; [by destruct c..|exact IH].
Qed.

(** ** UTF-8 *)

Definition RuneError : Z := 65533.
Definition RuneSelf : Z := 128.

Section Utf8.
Local Open Scope Z_scope.

Definition in_range (lo hi c : Z) : bool := (lo <=? c) && (c <=? hi).
Definition cont (c : Z) : bool := in_range 128 191 c.
(** the accepted second byte after a leading byte of three or four bytes *)
Definition accept2 (c0 c1 : Z) : bool :=
  if c0 =? 224 then in_range 160 191 c1
  else if c0 =? 237 then in_range 128 159 c1
  else if c0 =? 240 then in_range 144 191 c1
  else if c0 =? 244 then in_range 128 143 c1
  else cont c1.

(** [utf8.DecodeRuneInString]: the rune and its width *)
Definition decode_rune (s : bytes) : Z * nat :=
  match map byte_Z (take 4 s) with
  | [] => (RuneError, 0%nat)
  | c0 :: t =>
      if c0 <? 128 then (c0, 1%nat)
      else if c0 <? 194 then (RuneError, 1%nat)
      else if c0 <? 224 then
        match t with
        | c1 :: _ => if cont c1 then (Z.land c0 31 * 64 + Z.land c1 63, 2%nat) else (RuneError, 1%nat)
        | _ => (RuneError, 1%nat)
        end
      else if c0 <? 240 then
        match t with
        | c1 :: c2 :: _ =>
            if accept2 c0 c1 && cont c2
            then (Z.land c0 15 * 4096 + Z.land c1 63 * 64 + Z.land c2 63, 3%nat)
            else (RuneError, 1%nat)
        | _ => (RuneError, 1%nat)
        end
      else if c0 <? 245 then
        match t with
        | c1 :: c2 :: c3 :: _ =>
            if accept2 c0 c1 && cont c2 && cont c3
            then (Z.land c0 7 * 262144 + Z.land c1 63 * 4096 + Z.land c2 63 * 64 + Z.land c3 63, 4%nat)
            else (RuneError, 1%nat)
        | _ => (RuneError, 1%nat)
        end
      else (RuneError, 1%nat)
  end.

(** [utf8.AppendRune]: surrogates and values out of range become [RuneError] *)
Definition encode_rune (r : Z) : bytes :=
  let r := if in_range 0 55295 r || in_range 57344 1114111 r then r else RuneError in
  if r <? 128 then [Z_byte r]
  else if r <? 2048 then [Z_byte (192 + Z.shiftr r 6); Z_byte (128 + Z.land r 63)]
  else if r <? 65536 then
    [Z_byte (224 + Z.shiftr r 12); Z_byte (128 + Z.land (Z.shiftr r 6) 63); Z_byte (128 + Z.land r 63)]
  else
    [Z_byte (240 + Z.shiftr r 18); Z_byte (128 + Z.land (Z.shiftr r 12) 63);
     Z_byte (128 + Z.land (Z.shiftr r 6) 63); Z_byte (128 + Z.land r 63)].

Definition rune_start (b : Byte.byte) : bool := negb (Z.land (byte_Z b) 192 =? 128).

(** [utf8.DecodeLastRuneInString] *)
Definition decode_last_rune (s : bytes) : Z * nat :=
  match rev s with
  | [] => (RuneError, 0%nat)
  | b :: before =>
      if byte_Z b <? RuneSelf then (byte_Z b, 1%nat)
      else
        let lim := (length s - 4)%nat in
        let fix back (l : bytes) (start fuel : nat) : nat :=
          match l, fuel with
          | c :: l, S fuel =>
              if (start <? lim)%nat then start
              else if rune_start c then start else back l (start - 1)%nat fuel
          | _, _ => start
          end in
        let start := back before (length s - 2)%nat 4%nat in
        let '(r, size) := decode_rune (drop start s) in
        if (start + size =? length s)%nat then (r, size) else (RuneError, 1%nat)
  end.

(** [unicode.IsSpace] *)
Definition is_space (r : Z) : bool :=
  if r <=? 255 then in_range 9 13 r || (r =? 32) || (r =? 133) || (r =? 160)
  else (r =? 5760) || in_range 8192 8202 r || (r =? 8232) || (r =? 8233)
       || (r =? 8239) || (r =? 8287) || (r =? 12288).
End Utf8.

(** The runes of a [for range] loop over a string (an invalid byte is one
    [RuneError] of width one). The fuel is the length: every width is positive. *)
Fixpoint runes_fuel (fuel : nat) (s : bytes) : list Z :=
  match fuel, s with
  | S fuel, _ :: _ => let '(r, w) := decode_rune s in r :: runes_fuel fuel (drop w s)
  | _, _ => []
  end.
Definition runes (s : bytes) : list Z := runes_fuel (length s) s.

(** ** [strings.ToUpper] *)

(** The simple upper-case mapping of the runes beyond ASCII. *)
Class UnicodeTables := unicode_upper : Z -> Z.

Definition ascii_upper (c : Z) : Z := if in_range 97 122 c then (c - 32)%Z else c.
Definition is_ascii (s : bytes) : bool := forallb (fun b => byte_Z b <? RuneSelf)%Z s.

Section Upper.
Context {U : UnicodeTables}.

Definition unicode_ToUpper (r : Z) : Z :=
  if (r <? RuneSelf)%Z then ascii_upper r else unicode_upper r.

(** [strings.Map]: every rune is mapped and encoded again *)
Definition strings_Map (f : Z -> Z) (s : bytes) : bytes := runes s ≫= (fun r => encode_rune (f r)).

Definition upper_bytes (s : bytes) : bytes :=
  if is_ascii s then map (fun b => Z_byte (ascii_upper (byte_Z b))) s
  else strings_Map unicode_ToUpper s.

Definition strings_ToUpper (s : string) : string := string_of (upper_bytes (bytes_of s)).
End Upper.

(** ** [strings.TrimSpace] *)

(** [strings.TrimLeftFunc] by [unicode.IsSpace] *)
Fixpoint trim_left_fuel (fuel : nat) (s : bytes) : bytes :=
  match fuel, s with
  | S fuel, _ :: _ =>
      let '(r, w) := decode_rune s in
      if is_space r then trim_left_fuel fuel (drop w s) else s
  | _, _ => s
  end.
Definition trim_left (s : bytes) : bytes := trim_left_fuel (length s) s.

(** [strings.TrimRightFunc] by [unicode.IsSpace] *)
Fixpoint trim_right_fuel (fuel : nat) (s : bytes) : bytes :=
  match fuel, s with
  | S fuel, _ :: _ =>
      let '(r, w) := decode_last_rune s in
      if is_space r then trim_right_fuel fuel (take (length s - w) s) else s
  | _, _ => s
  end.
Definition trim_right (s : bytes) : bytes := trim_right_fuel (length s) s.

Definition ascii_space (b : Byte.byte) : bool := in_range 9 13 (byte_Z b) || (byte_Z b =? 32)%Z.

(** the backward scan of the fast path over the reversed string *)
Fixpoint trim_ascii_right (rs : bytes) : bytes :=
  match rs with
  | [] => []
  | b :: rs' =>
      if (RuneSelf <=? byte_Z b)%Z then trim_right (rev rs)
      else if ascii_space b then trim_ascii_right rs' else rev rs
  end.

(** the forward scan of the fast path *)
Fixpoint trim_space_bytes (s : bytes) : bytes :=
  match s with
  | [] => []
  | b :: s' =>
      if (RuneSelf <=? byte_Z b)%Z then trim_right (trim_left s)
      else if ascii_space b then trim_space_bytes s' else trim_ascii_right (rev s)
  end.

Definition strings_TrimSpace (s : string) : string := string_of (trim_space_bytes (bytes_of s)).

(** *** Trimming ASCII text *)

Definition is_ascii_byte (b : Byte.byte) : Prop := (byte_Z b < RuneSelf)%Z.

Lemma is_ascii_Forall s : is_ascii s = true <-> Forall is_ascii_byte s.
Proof.
  unfold is_ascii. rewrite forallb_forall, Forall_forall. unfold is_ascii_byte.
  setoid_rewrite Z.ltb_lt. by setoid_rewrite <-list_elem_of_In.
Qed.

(** No white space at either end. *)
Definition no_outer_space (s : bytes) : Prop :=
  (forall b s', s = b :: s' -> ascii_space b = false) /\
  (forall b s', s = s' ++ [b] -> ascii_space b = false).

Lemma trim_ascii_right_spec rs :
  Forall is_ascii_byte rs ->
  (forall b rs', rs = rs' ++ [b] -> ascii_space b = false) ->
  no_outer_space (trim_ascii_right rs) /\ exists q, rev rs = trim_ascii_right rs ++ q.
Proof.
  intros Ha Hl. induction Ha as [|b rs Hb Ha IH]; cbn [trim_ascii_right].
  { split; [split; intros b s' E; [done|by destruct s']|by exists []]. }
  unfold is_ascii_byte in Hb. rewrite (proj2 (Z.leb_gt _ _)) by done.
  destruct (ascii_space b) eqn:Hs.
  - destruct IH as [Hn [q Hq]].
    { intros b' rs' ->. by apply (Hl b' (b :: rs')). }
    split; [done|]. exists (q ++ [b]). simpl. by rewrite Hq, <-app_assoc.
  - split; [|exists []; by rewrite app_nil_r]. split; intros b' s' E.
    + destruct rs as [|x rs _] using rev_ind; [by injection E as <- _|].
      rewrite app_comm_cons, rev_app_distr in E. injection E as <- _. by apply (Hl x (b :: rs)).
    + simpl in E. apply app_inj_tail in E as [_ <-]. done.
Qed.

(** On ASCII text [TrimSpace] cuts white space at the two ends and leaves none there. *)
Lemma trim_space_bytes_spec s :
  Forall is_ascii_byte s ->
  no_outer_space (trim_space_bytes s) /\ exists p q, s = p ++ trim_space_bytes s ++ q.
Proof.
  induction 1 as [|b s Hb Ha IH]; cbn [trim_space_bytes].
  { split; [split; intros b s' E; [done|by destruct s']|by exists [], []]. }
  rewrite (proj2 (Z.leb_gt _ _)) by done. destruct (ascii_space b) eqn:Hs.
  - destruct IH as [Hn (p & q & Hq)]. split; [done|]. exists (b :: p), q. simpl. by rewrite <-Hq.
  - destruct (trim_ascii_right_spec (rev (b :: s))) as [Hn [q Hq]].
    + by apply Forall_rev, Forall_cons.
    + intros b' rs' E. apply (f_equal (@rev _)) in E. rewrite rev_involutive, rev_app_distr in E.
      by injection E as <- _.
    + split; [done|]. exists [], q. rewrite rev_involutive in Hq. exact Hq.
Qed.

Lemma trim_space_bytes_id s : Forall is_ascii_byte s -> no_outer_space s -> trim_space_bytes s = s.
Proof.
  intros Ha [Hh Hl]. destruct s as [|b s]; [done|]. apply Forall_cons in Ha as [Hb Ha].
  cbn [trim_space_bytes]. rewrite (proj2 (Z.leb_gt _ _)) by done. rewrite (Hh b s eq_refl).
  rewrite <-(rev_involutive (b :: s)) at 2.
  destruct (rev (b :: s)) as [|x rs] eqn:E; [done|]. cbn [trim_ascii_right].
  apply (f_equal (@rev _)) in E. rewrite rev_involutive in E. simpl in E.
  assert (Hx : is_ascii_byte x).
  { apply (Forall_forall is_ascii_byte (b :: s)); [by apply Forall_cons|]. rewrite E. apply elem_of_app. right. left. }
  rewrite (proj2 (Z.leb_gt _ _)) by done. by rewrite (Hl x (rev rs) E).
Qed.

Lemma ascii_upper_ascii c : (0 <= c < 128)%Z -> (0 <= ascii_upper c < 128)%Z.
Proof. unfold ascii_upper, in_range. repeat case_match; lia. Qed.
Lemma ascii_upper_idemp c : ascii_upper (ascii_upper c) = ascii_upper c.
Proof.
  unfold ascii_upper, in_range.
  destruct (97 <=? c)%Z eqn:E1; destruct (c <=? 122)%Z eqn:E2; simpl; rewrite ?E1, ?E2; try done.
  rewrite (proj2 (Z.leb_gt _ _)) by lia. done.
Qed.

Section UpperTrim.
Context {U : UnicodeTables}.

(** Trimmed upper-case ASCII text is left alone by upper-casing and trimming again. *)
Lemma trim_upper_idemp s :
  is_ascii (bytes_of s) = true ->
  let t := strings_TrimSpace (strings_ToUpper s) in strings_TrimSpace (strings_ToUpper t) = t.
Proof.
  intros Ha t. subst t. unfold strings_TrimSpace, strings_ToUpper. rewrite !bytes_of_string_of. f_equal.
  set (up := map (fun b => Z_byte (ascii_upper (byte_Z b))) (bytes_of s)).
  assert (Eup : upper_bytes (bytes_of s) = up) by (unfold upper_bytes; by rewrite Ha).
  rewrite Eup. clear Eup.
  assert (Hup : Forall (fun b => is_ascii_byte b /\ Z_byte (ascii_upper (byte_Z b)) = b) up).
  { apply is_ascii_Forall in Ha. subst up. induction Ha as [|b l Hb _ IH]; simpl; constructor; [|done].
    pose proof (byte_Z_range b). unfold is_ascii_byte, RuneSelf in *.
    pose proof (ascii_upper_ascii (byte_Z b) ltac:(lia)) as Hr.
    rewrite byte_Z_byte. unfold u8. rewrite Z.mod_small by lia.
    split; [lia|]. by rewrite ascii_upper_idemp. }
  destruct (trim_space_bytes_spec up) as [Hn (p & q & Hq)].
  { eapply Forall_impl; [exact Hup|]. by intros b []. }
  assert (Ht : Forall (fun b => is_ascii_byte b /\ Z_byte (ascii_upper (byte_Z b)) = b) (trim_space_bytes up)).
  { rewrite Hq in Hup. by apply Forall_app in Hup as [_ [? _]%Forall_app]. }
  assert (Hta : Forall is_ascii_byte (trim_space_bytes up)).
  { eapply Forall_impl; [exact Ht|]. by intros b []. }
  replace (upper_bytes (trim_space_bytes up)) with (trim_space_bytes up); [by apply trim_space_bytes_id|].
  unfold upper_bytes. rewrite (proj2 (is_ascii_Forall _) Hta).
  clear -Ht. induction Ht as [|b l [_ Hb] _ IH]; simpl; [done|]. by rewrite Hb, <-IH.
Qed.
End UpperTrim.

(** ** [strconv.Itoa] *)
Definition strconv_Itoa (n : Z) : string := DecimalString.NilZero.string_of_int (Z.to_int n).
