(* ===== verification/Fingerprint.v ===== *)
(** * Fingerprint: internal/fingerprint/fingerprint.go

    The Redis key of a request: ["dedup:"] and the hexadecimal SHA-256 of
    method, URI and body, computed on a buffered request ([RedisKey], [Hash])
    or by streaming the body through a pooled hasher ([StreamingRedisKey],
    [StreamingHash]).  The hasher is an instance of [Hash]; the theorems use
    only its contract [HashLaws]. *)

From S2P Require Import Prelude Sha256 GoStrings.

(** ** Readers: [io.Reader] as the results its successive [Read] calls give *)

Inductive read_status :=
  | RNil                  (** [err == nil] *)
  | REOF                  (** [err == io.EOF] *)
  | RErr (e : error).     (** any other error *)

(** A reader past its listed results is at [io.EOF]. *)
Abbreviation reader := (list (bytes * read_status)).

(** What a reader delivers up to the first status that ends it. *)
Fixpoint content (r : reader) : bytes * option error :=
  match r with
  | [] => ([], None)
  | (b, RNil) :: r => let '(bs, e) := content r in (b ++ bs, e)
  | (b, REOF) :: _ => (b, None)
  | (b, RErr e) :: _ => (b, Some e)
  end.

(** [io.ReadAll] *)
Fixpoint io_ReadAll (acc : bytes) (r : reader) : bytes * option error :=
  match r with
  | [] => (acc, None)
  | (b, st) :: r =>
      let acc := acc ++ b in
      match st with
      | RNil => io_ReadAll acc r
      | REOF => (acc, None)
      | RErr e => (acc, Some e)
      end
  end.

Definition redisKeyPrefix : string := "dedup:".
Definition sha256Len : nat := 32.
Definition sha256HexLen : nat := sha256Len * 2.

(** [copy(dst[off:], src)] into a buffer of fixed size *)
Definition buf_copy (off : nat) (src dst : bytes) : bytes :=
  let src := take (length dst - off) src in
  take off dst ++ src ++ drop (off + length src) dst.

Definition zero_buf (n : nat) : bytes := replicate n x00.

(** The raw inputs of the fingerprint. *)
Record Request := mkRequest { Method : string; URI : string; Body : bytes }.

(** The parts of [*http.Request] that [FromHTTP] reads and those it does not. *)
Record http_request := HTTPRequest {
  r_Method : string;
  r_RequestURI : string;
  r_Body : option reader;               (** [nil] is [None] *)
  r_Header : list (string * string);
  r_RemoteAddr : string;
}.

Definition FromHTTP (r : http_request) : res Request :=
  match r_Body r with
  | None => Ok (mkRequest (r_Method r) (r_RequestURI r) [])
  | Some rd =>
      match io_ReadAll [] rd with
      | (_, Some err) => Err err
      | (body, None) => Ok (mkRequest (r_Method r) (r_RequestURI r) body)
      end
  end.

Section Fingerprint.
Context {D : Type} `{!Hash D}.

(** ** [hasherPool]: a [sync.Pool] hands out one of the hashers returned to
    it, in whatever state it was left, or a new one. *)
Definition pool := list D.
Definition pool_Get (pick : nat) (p : list D) : D * list D :=
  match p !! pick with
  | Some h => (h, delete pick p)
  | None => (hash_New, p)
  end.
Definition pool_Put (h : D) (p : list D) : list D := h :: p.

(** [io.Copy(h, body)]: hashing never fails, so only reads can; the count is
    an [int64]. *)
Fixpoint io_Copy (h : D) (written : Z) (r : reader) : D * Z * option error :=
  match r with
  | [] => (h, written, None)
  | (b, st) :: r =>
      let '(h, written) :=
        if decide (length b = 0) then (h, written)
        else (hash_Write h b, i64 (written + Z.of_nat (length b))) in
      match st with
      | RNil => io_Copy h written r
      | REOF => (h, written, None)
      | RErr e => (h, written, Some e)
      end
  end.

(** [(f *Request) hashInto(dst)]: [dst] with the digest written over it, and
    the pool. *)
Definition hashInto (pick : nat) (f : Request) (off : nat) (dst : bytes) (p : list D)
  : bytes * list D :=
  let '(h, p) := pool_Get pick p in
  let h := hash_Reset h in
  let h := hash_Write h (bytes_of (Method f)) in
  let h := hash_Write h (bytes_of (URI f)) in
  let h := hash_Write h (Body f) in
  let dst := buf_copy off (hex_encode (hash_Sum h)) dst in
  (dst, pool_Put h p).

Definition RedisKey (pick : nat) (f : Request) (p : list D) : string * list D :=
  let buf := zero_buf (String.length redisKeyPrefix + sha256HexLen) in
  let buf := buf_copy 0 (bytes_of redisKeyPrefix) buf in
  let '(buf, p) := hashInto pick f (String.length redisKeyPrefix) buf p in
  (string_of buf, p).

Definition Request_Hash (pick : nat) (f : Request) (p : list D) : string * list D :=
  let '(buf, p) := hashInto pick f 0 (zero_buf sha256HexLen) p in
  (string_of buf, p).

(** [streamHashInto]: the deferred [Put] runs on both paths; on a read error
    [dst] is left as it was. *)
Definition streamHashInto (pick : nat) (method uri : string) (body : reader)
    (off : nat) (dst : bytes) (p : list D) : bytes * (Z * option error) * list D :=
  let '(h, p) := pool_Get pick p in
  let h := hash_Reset h in
  let h := hash_Write h (bytes_of method) in
  let h := hash_Write h (bytes_of uri) in
  let '(h, bodyLen, err) := io_Copy h 0 body in
  match err with
  | Some e => (dst, (bodyLen, Some e), pool_Put h p)
  | None =>
      (buf_copy off (hex_encode (hash_Sum h)) dst, (bodyLen, None), pool_Put h p)
  end.

Definition StreamingRedisKey (pick : nat) (method uri : string) (body : reader) (p : list D)
  : (string * Z * option error) * list D :=
  let buf := zero_buf (String.length redisKeyPrefix + sha256HexLen) in
  let buf := buf_copy 0 (bytes_of redisKeyPrefix) buf in
  let '(buf, (bodyLen, err), p) :=
    streamHashInto pick method uri body (String.length redisKeyPrefix) buf p in
  ((string_of buf, bodyLen, err), p).

Definition StreamingHash (pick : nat) (method uri : string) (body : reader) (p : list D)
  : (string * Z * option error) * list D :=
  let '(buf, (bodyLen, err), p) :=
    streamHashInto pick method uri body 0 (zero_buf sha256HexLen) p in
  ((string_of buf, bodyLen, err), p).
End Fingerprint.

(** ** What the operations compute *)

(** The string that is hashed: the three fields one after the other. *)
Definition hash_input (f : Request) : bytes := bytes_of (Method f) ++ bytes_of (URI f) ++ Body f.

Section Spec.
Context {D : Type} `{!Hash D} {H : bytes -> bytes} `{!HashLaws D H}.

Definition key_spec (f : Request) : string :=
  redisKeyPrefix +:+ string_of (hex_encode (H (hash_input f))).
Definition hash_spec (f : Request) : string := string_of (hex_encode (H (hash_input f))).

Lemma length_hex_sum m : length (hex_encode (H m)) = sha256HexLen.
Proof. by rewrite length_hex_encode, (law_size (D:=D)). Qed.

(** Writing exactly the space left in a buffer replaces its tail. *)
Lemma buf_copy_tail off src dst :
  length dst = off + length src -> buf_copy off src dst = take off dst ++ src.
Proof.
  intros Hl. unfold buf_copy.
  rewrite (take_ge src) by lia. by rewrite <-Hl, drop_all, app_nil_r.
Qed.

Lemma key_buf m :
  string_of (buf_copy (String.length redisKeyPrefix) (hex_encode (H m))
    (buf_copy 0 (bytes_of redisKeyPrefix)
       (zero_buf (String.length redisKeyPrefix + sha256HexLen))))
  = redisKeyPrefix +:+ string_of (hex_encode (H m)).
Proof.
  rewrite buf_copy_tail by (by rewrite length_hex_sum).
  rewrite string_of_app. by rewrite <-(string_of_bytes_of redisKeyPrefix) at 2.
Qed.

Lemma hash_buf m :
  string_of (buf_copy 0 (hex_encode (H m)) (zero_buf sha256HexLen)) = string_of (hex_encode (H m)).
Proof. by rewrite buf_copy_tail by (by rewrite length_hex_sum). Qed.

Lemma sum_three d (m u b : bytes) :
  hash_Sum (hash_Write (hash_Write (hash_Write (hash_Reset d) m) u) b) = H (m ++ u ++ b).
Proof. rewrite <-(app_nil_r b) at 2. apply (law_sum d [m; u; b]). Qed.

Lemma fst_RedisKey pick f p : fst (RedisKey pick f p) = key_spec f.
Proof.
  unfold RedisKey, hashInto. destruct (pool_Get pick p) as [h p']. simpl fst.
  rewrite sum_three. apply key_buf.
Qed.

Lemma fst_Request_Hash pick f p : fst (Request_Hash pick f p) = hash_spec f.
Proof.
  unfold Request_Hash, hashInto. destruct (pool_Get pick p) as [h p']. simpl fst.
  rewrite sum_three. apply hash_buf.
Qed.

(** [io.Copy] feeds the hasher exactly the content of the reader, in chunks. *)
Lemma io_Copy_content h w r : in_i64 w ->
  exists ps, io_Copy h w r =
    (foldl hash_Write h ps, i64 (w + Z.of_nat (length (fst (content r)))), snd (content r))
    /\ mjoin ps = fst (content r).
Proof.
  revert h w. induction r as [|[b st] r IH]; intros h w Hw.
  { exists []. split; [|done]. simpl. by rewrite Z.add_0_r, i64_id. }
  assert (Hone : exists ps w', mjoin ps = b /\ w' = i64 (w + Z.of_nat (length b)) /\
    (if decide (length b = 0) then (h, w)
     else (hash_Write h b, i64 (w + Z.of_nat (length b)))) = (foldl hash_Write h ps, w')).
  { case_decide as E.
    - apply length_zero_iff_nil in E as ->. exists [], w. simpl.
      by rewrite Z.add_0_r, i64_id.
    - exists [b], (i64 (w + Z.of_nat (length b))). simpl. by rewrite app_nil_r. }
  destruct Hone as (ps & w' & Hps & Hw' & E). simpl io_Copy. rewrite E.
  destruct st; simpl.
  - destruct (IH (foldl hash_Write h ps) w') as (qs & -> & Hqs).
    { subst. auto with goint. }
    exists (ps ++ qs). destruct (content r) as [bs e]. simpl in *. subst.
    rewrite foldl_app, join_app, i64_add_l, length_app, Nat2Z.inj_add.
    by rewrite Z.add_assoc.
  - exists ps. by subst.
  - exists ps. by subst.
Qed.

Lemma io_ReadAll_content acc r :
  io_ReadAll acc r = (acc ++ fst (content r), snd (content r)).
Proof.
  revert acc. induction r as [|[b st] r IH]; intros acc; simpl; [by rewrite app_nil_r|].
  destruct st; [|done..].
  rewrite IH. destruct (content r). simpl. by rewrite app_assoc.
Qed.

Lemma streamHashInto_content pick method uri body off dst p :
  fst (streamHashInto pick method uri body off dst p) =
  (match snd (content body) with
   | Some _ => dst
   | None => buf_copy off (hex_encode (H (hash_input (mkRequest method uri (fst (content body)))))) dst
   end, (i64 (Z.of_nat (length (fst (content body)))), snd (content body))).
Proof.
  unfold streamHashInto. destruct (pool_Get pick p) as [h p'].
  destruct (io_Copy_content (hash_Write (hash_Write (hash_Reset h) (bytes_of method)) (bytes_of uri))
              0 body) as (ps & -> & Hps); [done|].
  destruct (snd (content body)); [done|]. simpl. do 2 f_equal. do 2 f_equal.
  rewrite <-Hps. apply (law_sum h (bytes_of method :: bytes_of uri :: ps)).
Qed.

Lemma fst_StreamingRedisKey pick method uri body p :
  fst (StreamingRedisKey pick method uri body p) =
  (match snd (content body) with
   | Some _ => redisKeyPrefix +:+ string_of (zero_buf sha256HexLen)
   | None => key_spec (mkRequest method uri (fst (content body)))
   end, i64 (Z.of_nat (length (fst (content body)))), snd (content body)).
Proof.
  unfold StreamingRedisKey.
  destruct (streamHashInto _ _ _ _ _ _ _) as [[buf [n err]] p'] eqn:E.
  apply (f_equal fst) in E. rewrite streamHashInto_content in E. cbn [fst] in E.
  apply pair_equal_spec in E as [<- [<- <-]%pair_equal_spec]. cbn [fst].
  destruct (snd (content body)); [done|]. by rewrite key_buf.
Qed.

Lemma fst_StreamingHash pick method uri body p :
  fst (StreamingHash pick method uri body p) =
  (match snd (content body) with
   | Some _ => string_of (zero_buf sha256HexLen)
   | None => hash_spec (mkRequest method uri (fst (content body)))
   end, i64 (Z.of_nat (length (fst (content body)))), snd (content body)).
Proof.
  unfold StreamingHash.
  destruct (streamHashInto _ _ _ _ _ _ _) as [[buf [n err]] p'] eqn:E.
  apply (f_equal fst) in E. rewrite streamHashInto_content in E. cbn [fst] in E.
  apply pair_equal_spec in E as [<- [<- <-]%pair_equal_spec]. cbn [fst].
  destruct (snd (content body)); [done|]. by rewrite hash_buf.
Qed.

Lemma FromHTTP_content r f :
  FromHTTP r = Ok f <->
  f = mkRequest (r_Method r) (r_RequestURI r) (fst (content (default [] (r_Body r)))) /\
  snd (content (default [] (r_Body r))) = None.
Proof.
  unfold FromHTTP. destruct (r_Body r) as [rd|]; simpl.
  - rewrite io_ReadAll_content. destruct (content rd) as [bs [e|]]; simpl; naive_solver.
  - naive_solver.
Qed.

Lemma key_spec_eq f g : key_spec f = key_spec g <-> H (hash_input f) = H (hash_input g).
Proof.
  unfold key_spec. split; [|congruence]. intros E.
  apply (inj hex_encode), (inj string_of), (inj (String.append redisKeyPrefix)), E.
Qed.

Lemma String_length_string_of b : String.length (string_of b) = length b.
Proof. by rewrite <-length_bytes_of, bytes_of_string_of. Qed.

Lemma length_key_spec f : String.length (key_spec f) = 70.
Proof.
  unfold key_spec. rewrite <-length_bytes_of, bytes_of_app, length_app.
  rewrite bytes_of_string_of, length_hex_sum. done.
Qed.
End Spec.
Arguments key_spec H f : clear implicits.
Arguments hash_spec H f : clear implicits.

(** ** Properties *)

Section Properties.
Context {D : Type} `{!Hash D} {H : bytes -> bytes} `{HL : !HashLaws D H}.

(** C11: streaming and buffering agree.  However the body arrives in chunks,
    whichever pooled hasher each path draws and in whatever state it was left,
    [StreamingRedisKey] and [StreamingHash] give the key and the hash that
    [RedisKey] and [Hash] give on the request [FromHTTP] buffers, and report
    its body length. *)
Theorem streaming_equals_buffered r f pick pick' p p' :
  FromHTTP r = Ok f ->
  let body := default [] (r_Body r) in
  let n := i64 (Z.of_nat (length (Body f))) in
  fst (StreamingRedisKey pick (r_Method r) (r_RequestURI r) body p)
    = (fst (RedisKey pick' f p'), n, None) /\
  fst (StreamingHash pick (r_Method r) (r_RequestURI r) body p)
    = (fst (Request_Hash pick' f p'), n, None).
Proof.
  intros [-> He]%FromHTTP_content. cbv zeta.
  rewrite fst_StreamingRedisKey, fst_StreamingHash, fst_RedisKey, fst_Request_Hash.
  by rewrite He.
Qed.

(** The format of a key: ["dedup:"] and 64 lowercase hexadecimal digits,
    70 bytes in all; [Hash] is the part after the prefix. *)
Theorem redis_key_format pick pick' f p p' :
  let digits := fst (Request_Hash pick' f p') in
  fst (RedisKey pick f p) = redisKeyPrefix +:+ digits /\
  String.length (fst (RedisKey pick f p)) = 70 /\
  String.length digits = 64 /\
  Forall (fun c => is_hex_digit c = true) (bytes_of digits).
Proof.
  cbv zeta. rewrite fst_RedisKey, fst_Request_Hash.
  split_and!; [done|apply length_key_spec| |]; unfold hash_spec.
  - rewrite String_length_string_of. apply length_hex_sum.
  - rewrite bytes_of_string_of. apply hex_encode_digits.
Qed.

(** Two requests get the same key exactly when the digests of their
    concatenated method, URI and body coincide; nothing else of the request
    (headers, client address, chunking of the body, state of the pool) enters
    the key. *)
Theorem redis_key_determined r1 r2 f1 f2 pick1 pick2 p1 p2 :
  FromHTTP r1 = Ok f1 -> FromHTTP r2 = Ok f2 ->
  (fst (RedisKey pick1 f1 p1) = fst (RedisKey pick2 f2 p2) <->
   H (bytes_of (r_Method r1) ++ bytes_of (r_RequestURI r1) ++ fst (content (default [] (r_Body r1)))) =
   H (bytes_of (r_Method r2) ++ bytes_of (r_RequestURI r2) ++ fst (content (default [] (r_Body r2))))).
Proof.
  intros [-> _]%FromHTTP_content [-> _]%FromHTTP_content.
  rewrite !fst_RedisKey. apply key_spec_eq.
Qed.

(** C34: the three fields are hashed without separators, so moving bytes from
    the end of the method to the front of the URI, or from the end of the URI
    to the front of the body, leaves the key unchanged: distinct requests are
    taken for duplicates of one another. *)
Theorem redis_key_field_boundary m u s b pick1 pick2 p1 p2 :
  fst (RedisKey pick1 (mkRequest m (u +:+ s) b) p1)
    = fst (RedisKey pick2 (mkRequest m u (bytes_of s ++ b)) p2) /\
  fst (RedisKey pick1 (mkRequest (m +:+ s) u b) p1)
    = fst (RedisKey pick2 (mkRequest m (s +:+ u) b) p2).
Proof.
  rewrite !fst_RedisKey. unfold key_spec, hash_input. simpl.
  by rewrite !bytes_of_app, !app_assoc.
Qed.

(** A read error in the middle of the body is reported with the number of
    bytes read, the digits of the key buffer are left zero, and the half-used
    hasher goes back to the pool without harm: every key computed with the
    resulting pool is still the right one. *)
Theorem streaming_read_error method uri body e pick p :
  snd (content body) = Some e ->
  exists p',
    StreamingRedisKey pick method uri body p =
      ((redisKeyPrefix +:+ string_of (zero_buf 64),
        i64 (Z.of_nat (length (fst (content body)))), Some e), p') /\
    length p' = (if decide (pick < length p) then length p else S (length p)) /\
    forall pick' f, fst (RedisKey pick' f p') = key_spec H f.
Proof.
  intros He. pose proof (fst_StreamingRedisKey pick method uri body p) as E.
  rewrite He in E. destruct (StreamingRedisKey pick method uri body p) as [out p'] eqn:Ep.
  exists p'. split_and!; [simpl in E; by subst| |intros; apply fst_RedisKey].
  revert Ep. unfold StreamingRedisKey, streamHashInto, pool_Get.
  destruct (p !! pick) as [h|] eqn:Hp.
  - apply lookup_lt_Some in Hp as Hlt. rewrite decide_True by done.
    destruct (io_Copy _ _ _) as [[h' n] [err|]]; intros [= <- <-]; simpl;
      rewrite length_delete by done; lia.
  - apply lookup_ge_None in Hp. rewrite decide_False by lia.
    destruct (io_Copy _ _ _) as [[h' n] [err|]]; intros [= <- <-]; destruct p; simpl; lia.
Qed.
End Properties.

(** ** The contract holds of SHA-256: the properties at concrete requests *)

Definition sample_http : http_request :=
  HTTPRequest "POST" "/api/orders"
    (Some [(bytes_of "amount=", RNil); ([], RNil); (bytes_of "100", REOF)])
    [("Authorization", "Bearer userA")] "1.2.3.4:9000".
Definition sample_request : Request := mkRequest "POST" "/api/orders" (bytes_of "amount=100").
(** a hasher left dirty by an earlier request *)
Definition dirty : digest := hash_Write sha256_New (bytes_of "left over").

(** The key the service stores for the sample request. *)
Example sample_key :
  fst (RedisKey 0 sample_request [dirty])
    = "dedup:ae67066aab772446218c26ae59eb63f9e55707767b807f22138f6791e5f7f001".
Proof. vm_compute. reflexivity. Qed.

Lemma streaming_equals_buffered_witness :
  fst (StreamingRedisKey 0 "POST" "/api/orders" (default [] (r_Body sample_http)) [dirty])
    = (fst (RedisKey 7 sample_request []), 10%Z, None).
Proof.
  exact (proj1 (streaming_equals_buffered (H:=sha256_spec) sample_http sample_request 0 7 [dirty] []
    eq_refl)).
Defined.

Lemma redis_key_format_witness :
  String.length (fst (RedisKey 0 sample_request [dirty])) = 70.
Proof. apply (redis_key_format (H:=sha256_spec) 0 0 sample_request [dirty] []). Defined.

Lemma redis_key_determined_witness :
  let other := HTTPRequest "POST" "/api/orders" (Some [(bytes_of "amount=100", REOF)])
                 [("Authorization", "Bearer userB")] "9.9.9.9:9000" in
  FromHTTP sample_http = Ok sample_request /\ FromHTTP other = Ok sample_request /\
  fst (RedisKey 0 sample_request [dirty]) = fst (RedisKey 1 sample_request ([] : list digest)).
Proof.
  cbv zeta. split; [reflexivity|split; [reflexivity|]].
  apply (redis_key_determined (H:=sha256_spec) sample_http
    (HTTPRequest "POST" "/api/orders" (Some [(bytes_of "amount=100", REOF)])
       [("Authorization", "Bearer userB")] "9.9.9.9:9000")
    sample_request sample_request 0 1 [dirty] [] eq_refl eq_refl).
  reflexivity.
Defined.

Lemma redis_key_field_boundary_witness :
  fst (RedisKey 0 (mkRequest "POST" ("/api/orders" +:+ "1") (bytes_of "0")) [dirty])
    = fst (RedisKey 0 (mkRequest "POST" "/api/orders" (bytes_of "1" ++ bytes_of "0")) [dirty]).
Proof.
  exact (proj1 (redis_key_field_boundary (H:=sha256_spec) "POST" "/api/orders" "1" (bytes_of "0")
    0 0 [dirty] [dirty])).
Defined.

Lemma streaming_read_error_witness :
  exists p', fst (StreamingRedisKey 0 "POST" "/api/orders"
                   [(bytes_of "amount", RNil); (bytes_of "=", RErr (ErrNew "net" "connection reset"))] [dirty])
             = (redisKeyPrefix +:+ string_of (zero_buf 64), 7%Z, Some (ErrNew "net" "connection reset"))
             /\ length p' = 1
             /\ forall pick f, fst (RedisKey (D:=digest) pick f p') = key_spec sha256_spec f.
Proof.
  destruct (streaming_read_error (H:=sha256_spec) "POST" "/api/orders"
    [(bytes_of "amount", RNil); (bytes_of "=", RErr (ErrNew "net" "connection reset"))]
    (ErrNew "net" "connection reset") 0 [dirty] eq_refl) as (p' & E & Hl & Hk).
  exists p'. rewrite E. split; [reflexivity|]. split; [exact Hl|exact Hk].
Defined.
