(* ===== verification/HasherPool.v ===== *)
(** * HasherPool: goroutines that share the pool of hashers

    [streamHashInto] borrows a hasher from a [sync.Pool], writes to it while it
    reads a body that may take its time to arrive, and puts it back.  Here any
    number of goroutines do so at the same time, and hashers are objects: a heap
    maps their addresses to their states, the pool and the goroutines hold
    addresses, so that a hasher in two hands would be seen.  The outcome of every
    goroutine is that of the sequential definition of [Fingerprint]. *)

From S2P Require Import Prelude Sha256 GoStrings Fingerprint.

Local Open Scope Z_scope.

Section HasherPool.
Context {D : Type} `{!Hash D}.

(** What [StreamingRedisKey] returns. *)
Abbreviation result := (string * Z * option error)%type.

(** Where a goroutine is inside [StreamingRedisKey]; [h] is the address of its
    hasher. *)
Inductive stage :=
  | SGet                                         (** before [hasherPool.Get()] *)
  | SReset (h : nat)                             (** before [h.Reset()] *)
  | SMethod (h : nat)                            (** before the write of the method *)
  | SURI (h : nat)                               (** before the write of the URI *)
  | SCopy (h : nat) (rest : reader) (n : Z)      (** in [io.Copy]: what is still to be read, bytes so far *)
  | SSum (h : nat) (n : Z)                       (** before [h.Sum] *)
  | SPut (h : nat) (r : result)                  (** before the deferred [hasherPool.Put(h)] *)
  | SDone (r : result).

Record worker := Worker { wk_method : string; wk_uri : string; wk_body : reader; wk_stage : stage }.

Record pool_state := PoolState {
  p_heap : gmap nat D;       (** the hashers allocated so far *)
  p_free : list nat;         (** those in the pool *)
  p_workers : list worker;
}.

Definition at_stage (w : worker) (st : stage) : worker := Worker (wk_method w) (wk_uri w) (wk_body w) st.

(** The buffer of [StreamingRedisKey] before and after the digest is written. *)
Definition key_buffer : bytes :=
  buf_copy 0 (bytes_of redisKeyPrefix) (zero_buf (String.length redisKeyPrefix + sha256HexLen)).
Definition key_of_sum (sum : bytes) : string :=
  string_of (buf_copy (String.length redisKeyPrefix) (hex_encode sum) key_buffer).

(** One round of [io.Copy]: a read, and the write of what it gave. *)
Definition copy_round (d : D) (h : nat) (n : Z) (b : bytes) (st : read_status) (rest : reader) : D * stage :=
  let '(d, n) := if decide (length b = 0%nat) then (d, n) else (hash_Write d b, i64 (n + Z.of_nat (length b))) in
  (d, match st with
      | RNil => SCopy h rest n
      | REOF => SSum h n
      | RErr e => SPut h (string_of key_buffer, n, Some e)
      end).

(** A step of goroutine [i]: one operation on the pool or on a hasher. *)
Inductive worker_step (i : nat) : pool_state -> pool_state -> Prop :=
  | step_get_pooled m free ws w j h :
      ws !! i = Some w -> wk_stage w = SGet -> free !! j = Some h ->
      worker_step i (PoolState m free ws) (PoolState m (delete j free) (<[i := at_stage w (SReset h)]> ws))
  | step_get_new m free ws w h :
      ws !! i = Some w -> wk_stage w = SGet -> m !! h = None ->
      worker_step i (PoolState m free ws)
        (PoolState (<[h := hash_New]> m) free (<[i := at_stage w (SReset h)]> ws))
  | step_reset m free ws w h d :
      ws !! i = Some w -> wk_stage w = SReset h -> m !! h = Some d ->
      worker_step i (PoolState m free ws)
        (PoolState (<[h := hash_Reset d]> m) free (<[i := at_stage w (SMethod h)]> ws))
  | step_method m free ws w h d :
      ws !! i = Some w -> wk_stage w = SMethod h -> m !! h = Some d ->
      worker_step i (PoolState m free ws)
        (PoolState (<[h := hash_Write d (bytes_of (wk_method w))]> m) free (<[i := at_stage w (SURI h)]> ws))
  | step_uri m free ws w h d :
      ws !! i = Some w -> wk_stage w = SURI h -> m !! h = Some d ->
      worker_step i (PoolState m free ws)
        (PoolState (<[h := hash_Write d (bytes_of (wk_uri w))]> m) free
           (<[i := at_stage w (SCopy h (wk_body w) 0)]> ws))
  | step_copy m free ws w h d b st rest n :
      ws !! i = Some w -> wk_stage w = SCopy h ((b, st) :: rest) n -> m !! h = Some d ->
      worker_step i (PoolState m free ws)
        (PoolState (<[h := fst (copy_round d h n b st rest)]> m) free
           (<[i := at_stage w (snd (copy_round d h n b st rest))]> ws))
  | step_copy_end m free ws w h n :
      ws !! i = Some w -> wk_stage w = SCopy h [] n ->
      worker_step i (PoolState m free ws) (PoolState m free (<[i := at_stage w (SSum h n)]> ws))
  | step_sum m free ws w h d n :
      ws !! i = Some w -> wk_stage w = SSum h n -> m !! h = Some d ->
      worker_step i (PoolState m free ws)
        (PoolState m free (<[i := at_stage w (SPut h (key_of_sum (hash_Sum d), n, None))]> ws))
  | step_put m free ws w h r :
      ws !! i = Some w -> wk_stage w = SPut h r ->
      worker_step i (PoolState m free ws) (PoolState m (h :: free) (<[i := at_stage w (SDone r)]> ws)).

(** A goroutine steps, a request arrives, or the runtime drops a pooled hasher. *)
Inductive pool_step : pool_state -> pool_state -> Prop :=
  | pool_worker i s s' : worker_step i s s' -> pool_step s s'
  | pool_arrive m free ws method uri body :
      pool_step (PoolState m free ws) (PoolState m free (ws ++ [Worker method uri body SGet]))
  | pool_drop m free ws j : pool_step (PoolState m free ws) (PoolState m (delete j free) ws).

Definition pool_reachable (s : pool_state) : Prop := rtc pool_step (PoolState ∅ [] []) s.

(** The hasher a goroutine holds. *)
Definition holds (st : stage) : option nat :=
  match st with
  | SReset h | SMethod h | SURI h | SCopy h _ _ | SSum h _ | SPut h _ => Some h
  | SGet | SDone _ => None
  end.
End HasherPool.
Arguments pool_state D : clear implicits.

(** ** The invariant *)

Section Invariant.
Context {D : Type} `{!Hash D} {H : bytes -> bytes} `{!HashLaws D H}.
Implicit Types (m : gmap nat D) (w : worker).

(** The hasher at [h] has been reset and has been given [text] since. *)
Definition given m (h : nat) (text : bytes) : Prop :=
  exists d ps, m !! h = Some (foldl hash_Write (hash_Reset d) ps) /\ mjoin ps = text.

(** What the sequential definition returns. *)
Definition expected w : string * Z * option error :=
  let '(body, err) := content (wk_body w) in
  (match err with
   | Some _ => string_of key_buffer
   | None => key_spec H (mkRequest (wk_method w) (wk_uri w) body)
   end, i64 (Z.of_nat (length body)), err).

Definition head_of w : bytes := bytes_of (wk_method w) ++ bytes_of (wk_uri w).

Definition worker_ok m w : Prop :=
  match wk_stage w with
  | SGet => True
  | SReset h => is_Some (m !! h)
  | SMethod h => given m h []
  | SURI h => given m h (bytes_of (wk_method w))
  | SCopy h rest n => exists read,
      given m h (head_of w ++ read) /\ n = i64 (Z.of_nat (length read)) /\
      (read ++ fst (content rest), snd (content rest)) = content (wk_body w)
  | SSum h n =>
      given m h (head_of w ++ fst (content (wk_body w))) /\
      n = i64 (Z.of_nat (length (fst (content (wk_body w))))) /\ snd (content (wk_body w)) = None
  | SPut h r => is_Some (m !! h) /\ r = expected w
  | SDone r => r = expected w
  end.

Record PInv (s : pool_state D) : Prop := {
  pi_ok : forall i w, p_workers s !! i = Some w -> worker_ok (p_heap s) w;
  (** no hasher is in two hands, or in a hand and in the pool *)
  pi_own : forall i j w1 w2 h, p_workers s !! i = Some w1 -> p_workers s !! j = Some w2 ->
             holds (wk_stage w1) = Some h -> holds (wk_stage w2) = Some h -> i = j;
  pi_free : forall i w h, p_workers s !! i = Some w -> holds (wk_stage w) = Some h -> h ∉ p_free s;
  pi_nodup : NoDup (p_free s);
  pi_alive : forall h, h ∈ p_free s -> is_Some (p_heap s !! h);
}.

(** What a goroutine knows is about its own hasher. *)
Lemma worker_ok_heap m m' w :
  (forall h, holds (wk_stage w) = Some h -> m' !! h = m !! h) -> worker_ok m w -> worker_ok m' w.
Proof.
  unfold worker_ok, given. destruct (wk_stage w); simpl; try done; intros Hh;
    specialize (Hh _ eq_refl); rewrite Hh; try done.
Qed.

Lemma worker_alive m w h : worker_ok m w -> holds (wk_stage w) = Some h -> is_Some (m !! h).
Proof.
  unfold worker_ok, given. destruct (wk_stage w); simpl; try done; intros Hok [= <-]; naive_solver.
Qed.

(** One goroutine moves on, touching no hasher but its own. *)
Lemma PInv_move m free ws i w st m' free' :
  PInv (PoolState m free ws) -> ws !! i = Some w ->
  (forall h, holds (wk_stage w) <> Some h -> holds st <> Some h -> m' !! h = m !! h) ->
  worker_ok m' (at_stage w st) ->
  (forall h, holds st = Some h -> (h ∉ free') /\ (holds (wk_stage w) = Some h \/ h ∈ free \/ m !! h = None)) ->
  (forall h, h ∈ free' -> h ∈ free \/ holds (wk_stage w) = Some h) ->
  NoDup free' -> (forall h, h ∈ free' -> is_Some (m' !! h)) ->
  PInv (PoolState m' free' (<[i := at_stage w st]> ws)).
Proof.
  intros [Hok Hown Hfree Hnd Hal] Hi Hm Hst Hnew Hsub Hnd' Hal'. simpl in *.
  (* another goroutine holds neither the old nor the new hasher *)
  assert (Hother : forall j w2 h, j <> i -> ws !! j = Some w2 -> holds (wk_stage w2) = Some h ->
    holds (wk_stage w) <> Some h /\ holds st <> Some h).
  { intros j w2 h Hne Hj Hh. split; intros Hh'.
    - apply Hne. by eapply Hown.
    - destruct (Hnew h Hh') as (_ & [Hw|[Hf|Hn]]).
      + apply Hne. by eapply Hown.
      + by eapply Hfree.
      + destruct (worker_alive m w2 h (Hok j w2 Hj) Hh) as [d Hd]. congruence. }
  split; simpl.
  - intros j w2 Hj. destruct (decide (j = i)) as [->|Hne].
    + rewrite list_lookup_insert_eq in Hj by (by eapply lookup_lt_Some). by injection Hj as <-.
    + rewrite list_lookup_insert_ne in Hj by done. eapply worker_ok_heap; [|by apply (Hok j)].
      intros h Hh. destruct (Hother j w2 h Hne Hj Hh). by apply Hm.
  - intros j k w1 w2 h Hj Hk H1 H2.
    destruct (decide (j = i)) as [->|Hnj], (decide (k = i)) as [->|Hnk]; [done| | |].
    + rewrite list_lookup_insert_eq in Hj by (by eapply lookup_lt_Some). injection Hj as <-.
      rewrite list_lookup_insert_ne in Hk by done. by destruct (Hother k w2 h Hnk Hk H2).
    + rewrite list_lookup_insert_eq in Hk by (by eapply lookup_lt_Some). injection Hk as <-.
      rewrite list_lookup_insert_ne in Hj by done. by destruct (Hother j w1 h Hnj Hj H1).
    + rewrite list_lookup_insert_ne in Hj, Hk by done. by eapply Hown.
  - intros j w2 h Hj Hh Hin. destruct (decide (j = i)) as [->|Hne].
    + rewrite list_lookup_insert_eq in Hj by (by eapply lookup_lt_Some). injection Hj as <-.
      by destruct (Hnew h Hh).
    + rewrite list_lookup_insert_ne in Hj by done. destruct (Hsub h Hin) as [Hf|Hw].
      * by eapply Hfree.
      * by destruct (Hother j w2 h Hne Hj Hh).
  - done.
  - done.
Qed.

(** A step that keeps the hasher and changes its state. *)
Lemma PInv_write m free ws i w st h d d' :
  PInv (PoolState m free ws) -> ws !! i = Some w ->
  holds (wk_stage w) = Some h -> holds st = Some h -> m !! h = Some d ->
  worker_ok (<[h := d']> m) (at_stage w st) ->
  PInv (PoolState (<[h := d']> m) free (<[i := at_stage w st]> ws)).
Proof.
  intros HI Hi Hw Hst Hd Hok. eapply PInv_move; [exact HI|exact Hi|..|exact (pi_nodup _ HI)|]; simpl.
  - intros h' _ Hne. apply lookup_insert_ne. congruence.
  - done.
  - intros h' Hh. assert (h' = h) as -> by congruence. split; [|by left].
    exact (pi_free _ HI i w h Hi Hw).
  - auto.
  - intros h' Hin. destruct (decide (h' = h)) as [->|Hne]; [rewrite lookup_insert_eq; by eexists|].
    rewrite lookup_insert_ne by done. exact (pi_alive _ HI h' Hin).
Qed.

Lemma PInv_stay m free ws i w st h :
  PInv (PoolState m free ws) -> ws !! i = Some w ->
  holds (wk_stage w) = Some h -> holds st = Some h -> worker_ok m (at_stage w st) ->
  PInv (PoolState m free (<[i := at_stage w st]> ws)).
Proof.
  intros HI Hi Hw Hst Hok.
  eapply PInv_move; [exact HI|exact Hi|done|done| |auto|exact (pi_nodup _ HI)|exact (pi_alive _ HI)].
  intros h' Hh. assert (h' = h) as -> by congruence. split; [|by left]. exact (pi_free _ HI i w h Hi Hw).
Qed.

Lemma given_write m h text d b : m !! h = Some d -> given m h text -> given (<[h := hash_Write d b]> m) h (text ++ b).
Proof.
  intros Hd (d0 & ps & Hh & <-). exists d0, (ps ++ [b]). rewrite lookup_insert_eq, foldl_app, join_app. simpl.
  split; [congruence|by rewrite app_nil_r].
Qed.

Lemma given_sum m h text d : m !! h = Some d -> given m h text -> hash_Sum d = H text.
Proof. intros Hd (d0 & ps & Hh & <-). assert (d = foldl hash_Write (hash_Reset d0) ps) as -> by congruence. apply law_sum. Qed.

(** A round of [io.Copy]: what has been read goes to the hasher. *)
Lemma copy_round_ok m h n b st rest w d :
  wk_stage w = SCopy h ((b, st) :: rest) n -> m !! h = Some d -> worker_ok m w ->
  holds (snd (copy_round d h n b st rest)) = Some h /\
  worker_ok (<[h := fst (copy_round d h n b st rest)]> m) (at_stage w (snd (copy_round d h n b st rest))).
Proof.
  intros Hs Hd. unfold worker_ok at 1. rewrite Hs. intros (read & Hg & Hn & Hc).
  (* the chunk, empty or not *)
  assert (Hchunk : exists d', (if decide (length b = 0%nat) then (d, n)
      else (hash_Write d b, i64 (n + Z.of_nat (length b)))) = (d', i64 (Z.of_nat (length (read ++ b)))) /\
      given (<[h := d']> m) h (head_of w ++ read ++ b)).
  { case_decide as E.
    - apply length_zero_iff_nil in E as ->. exists d. rewrite app_nil_r. split; [by subst|]. by rewrite insert_id.
    - exists (hash_Write d b). split.
      + f_equal. subst n. rewrite i64_add_l, length_app. f_equal. lia.
      + rewrite app_assoc. by apply given_write. }
  destruct Hchunk as (d' & Hcr & Hg'). unfold copy_round. rewrite Hcr. cbn [fst snd].
  destruct st; simpl in Hc; unfold worker_ok; cbn [wk_stage at_stage holds].
  - split; [done|]. exists (read ++ b). split; [done|]. split; [done|].
    destruct (content rest) as [bs e]. rewrite <-app_assoc. exact Hc.
  - split; [done|]. unfold at_stage, head_of in *. cbn [wk_body wk_method wk_uri]. by rewrite <-Hc.
  - split; [done|]. split; [rewrite lookup_insert_eq; by eexists|].
    unfold expected. cbn [wk_body at_stage]. by rewrite <-Hc.
Qed.

Lemma PInv_worker i s s' : worker_step i s s' -> PInv s -> PInv s'.
Proof.
  intros Hst HI.
  destruct Hst as [m free ws w j h Hi Hs Hj|m free ws w h Hi Hs Hn|m free ws w h d Hi Hs Hd|m free ws w h d Hi Hs Hd
    |m free ws w h d Hi Hs Hd|m free ws w h d b st rest n Hi Hs Hd|m free ws w h n Hi Hs|m free ws w h d n Hi Hs Hd
    |m free ws w h r Hi Hs]; pose proof (pi_ok _ HI i w Hi) as Hok; cbn [p_heap] in Hok.
  - assert (Hin : h ∈ free) by (by eapply list_elem_of_lookup_2).
    assert (Hdel : free ≡ₚ h :: delete j free) by (by apply delete_Permutation).
    pose proof (pi_nodup _ HI) as Hnd. cbn [p_free] in Hnd. rewrite Hdel in Hnd. apply NoDup_cons in Hnd as [Hnin Hnd].
    assert (Hsub : forall h', h' ∈ delete j free -> h' ∈ free) by (intros h' Hh; rewrite Hdel; by right).
    eapply PInv_move; [exact HI|exact Hi|done|exact (pi_alive _ HI h Hin)| |auto|done|intros h' Hh; by apply (pi_alive _ HI), Hsub].
    intros h' [= <-]. split; [done|]. right. by left.
  - eapply PInv_move; [exact HI|exact Hi| | | |auto|exact (pi_nodup _ HI)|].
    + intros h' _ Hne. apply lookup_insert_ne. simpl in Hne. congruence.
    + unfold worker_ok. simpl. rewrite lookup_insert_eq. by eexists.
    + intros h' [= <-]. split; [|by do 2 right]. intros Hin. destruct (pi_alive _ HI h Hin) as [d Hd]. simpl in Hd. congruence.
    + intros h' Hin. destruct (pi_alive _ HI h' Hin) as [d Hd]. simpl in Hd.
      rewrite lookup_insert_ne; [by eexists|congruence].
  - eapply PInv_write; [exact HI|exact Hi|by rewrite Hs|done|exact Hd|].
    exists d, []. by rewrite lookup_insert_eq.
  - eapply PInv_write; [exact HI|exact Hi|by rewrite Hs|done|exact Hd|].
    unfold worker_ok in *. rewrite Hs in Hok. exact (given_write m h [] d _ Hd Hok).
  - eapply PInv_write; [exact HI|exact Hi|by rewrite Hs|done|exact Hd|].
    unfold worker_ok in *. rewrite Hs in Hok. exists []. rewrite app_nil_r.
    split; [by apply given_write|]. split; [done|]. simpl. by destruct (content (wk_body w)).
  - destruct (copy_round_ok m h n b st rest w d Hs Hd Hok) as [Hh Hok'].
    eapply PInv_write; [exact HI|exact Hi|by rewrite Hs|exact Hh|exact Hd|exact Hok'].
  - eapply PInv_stay; [exact HI|exact Hi|by rewrite Hs|done|].
    unfold worker_ok in *. rewrite Hs in Hok. destruct Hok as (read & Hg & -> & Hc). simpl in Hc. rewrite app_nil_r in Hc.
    unfold head_of in *. simpl. by rewrite <-Hc.
  - eapply PInv_stay; [exact HI|exact Hi|by rewrite Hs|done|].
    unfold worker_ok in *. rewrite Hs in Hok. destruct Hok as (Hg & -> & He). simpl. split; [by eexists|].
    rewrite (given_sum m h _ d Hd Hg). unfold expected, key_of_sum, key_buffer. rewrite (key_buf (D:=D)).
    cbn [wk_body at_stage]. destruct (content (wk_body w)) as [body e]. simpl in *. subst e.
    unfold key_spec, hash_input, head_of. simpl. by rewrite <-app_assoc.
  - assert (Hh : holds (wk_stage w) = Some h) by (by rewrite Hs).
    unfold worker_ok in Hok. rewrite Hs in Hok. destruct Hok as [Hal Hr].
    eapply PInv_move; [exact HI|exact Hi|done|exact Hr|done| | |].
    + intros h' [->|Hin]%elem_of_cons; [by right|by left].
    + constructor; [exact (pi_free _ HI i w h Hi Hh)|exact (pi_nodup _ HI)].
    + intros h' [->|Hin]%elem_of_cons; [done|exact (pi_alive _ HI h' Hin)].
Qed.

Lemma PInv_step s s' : pool_step s s' -> PInv s -> PInv s'.
Proof.
  intros Hst HI. destruct Hst as [i s s' Hst|m free ws method uri body|m free ws j]; [by eapply PInv_worker| |].
  - destruct HI as [Hok Hown Hfree Hnd Hal]. simpl in *.
    assert (Hnew : forall i w, (ws ++ [Worker method uri body SGet]) !! i = Some w ->
      ws !! i = Some w \/ w = Worker method uri body SGet).
    { intros i w [[_ Hi]|[_ <-]]%lookup_snoc_Some; auto. }
    split; simpl; [| | |done|done].
    + intros i w Hi. destruct (Hnew i w Hi) as [Hi'| ->]; [by eapply Hok|done].
    + intros i j w1 w2 h Hi Hj H1 H2.
      destruct (Hnew i w1 Hi) as [Hi'| ->], (Hnew j w2 Hj) as [Hj'| ->]; [by eapply Hown|done..].
    + intros i w h Hi Hh. destruct (Hnew i w Hi) as [Hi'| ->]; [by eapply Hfree|done].
  - destruct HI as [Hok Hown Hfree Hnd Hal]. simpl in *.
    assert (Hsub : forall h, h ∈ delete j free -> h ∈ free).
    { intros h Hh. eapply elem_of_submseteq; [exact Hh|]. apply sublist_submseteq, sublist_delete. }
    split; simpl; [done|done| | |].
    + intros i w h Hi Hh Hin. by eapply Hfree, Hsub.
    + eapply sublist_NoDup; [exact Hnd|apply sublist_delete].
    + intros h Hin. by apply Hal, Hsub.
Qed.

Lemma PInv_reachable s : pool_reachable s -> PInv s.
Proof.
  intros Hr. unfold pool_reachable in Hr.
  assert (H0 : PInv (PoolState ∅ [] [])).
  { split; simpl; [done|done|done|constructor|]. intros h Hh. by apply not_elem_of_nil in Hh. }
  induction Hr as [|s1 s2 s3 Hst _ IH]; [done|]. eauto using PInv_step.
Qed.

(** The sequential definition returns what is expected, whatever the pool. *)
Lemma expected_sequential w pick (p : list D) :
  fst (StreamingRedisKey pick (wk_method w) (wk_uri w) (wk_body w) p) = expected w.
Proof.
  rewrite (fst_StreamingRedisKey (H:=H)). unfold expected.
  assert (E : string_of key_buffer = redisKeyPrefix +:+ string_of (zero_buf sha256HexLen))
    by (vm_compute; reflexivity).
  rewrite E. by destruct (content (wk_body w)) as [body [e|]].
Qed.
End Invariant.

(** ** Properties *)

Section Properties.
Context {D : Type} `{!Hash D} {H : bytes -> bytes} `{!HashLaws D H}.

(** C12: sharing the hashers is invisible.  In whatever order goroutines borrow
    hashers, read their bodies chunk by chunk, write, sum and put back, and
    whatever the runtime drops from the pool: no hasher is ever in the hands of
    two goroutines, or in a hand and in the pool; every goroutine that is done
    returns the key, the byte count and the error that the sequential definition
    returns for its own request, over any pool; and one that is not done can
    always take its next step. *)
Theorem shared_hashers_invisible (s : pool_state D) :
  pool_reachable s ->
  (forall i j w1 w2 h, p_workers s !! i = Some w1 -> p_workers s !! j = Some w2 ->
     holds (wk_stage w1) = Some h -> holds (wk_stage w2) = Some h -> i = j) /\
  (forall i w h, p_workers s !! i = Some w -> holds (wk_stage w) = Some h -> h ∉ p_free s) /\
  (forall i w r pick (p : list D), p_workers s !! i = Some w -> wk_stage w = SDone r ->
     r = fst (StreamingRedisKey pick (wk_method w) (wk_uri w) (wk_body w) p)) /\
  (forall i w, p_workers s !! i = Some w -> (forall r, wk_stage w <> SDone r) ->
     exists s', worker_step i s s').
Proof.
  intros Hr. pose proof (PInv_reachable (H:=H) s Hr) as HI.
  split; [exact (pi_own _ HI)|]. split; [exact (pi_free _ HI)|]. split.
  - intros i w r pick p Hi Hs. rewrite (expected_sequential (H:=H)).
    pose proof (pi_ok _ HI i w Hi) as Hok. unfold worker_ok in Hok. by rewrite Hs in Hok.
  - intros i w Hi Hnd. pose proof (worker_alive (H:=H) (p_heap s) w) as Hal.
    specialize (fun h => Hal h (pi_ok _ HI i w Hi)). destruct s as [m free ws]. cbn [p_heap p_workers] in *.
    destruct (wk_stage w) as [|h|h|h|h [|[b st] rest] n|h n|h r|r] eqn:Hs; simpl in Hal;
      try (destruct (Hal _ eq_refl) as [d Hd]); try (by destruct (Hnd r)); eexists.
    + by eapply (step_get_new i _ _ _ _ (fresh (dom m))), not_elem_of_dom, is_fresh.
    + by eapply step_reset.
    + by eapply step_method.
    + by eapply step_uri.
    + by eapply step_copy_end.
    + by eapply step_copy.
    + by eapply step_sum.
    + by eapply step_put.
Qed.
End Properties.

(** ** Witness: two goroutines, the second with the hasher the first put back *)

Lemma sample_run :
  exists (s : pool_state digest) r, pool_reachable s /\
    p_workers s !! 0%nat = Some (Worker "POST" "/a" [(bytes_of "x", REOF)] (SDone r)) /\
    p_workers s !! 1%nat = Some (Worker "POST" "/b" [] (SReset 0)).
Proof.
  eexists _, _. split.
  - unfold pool_reachable.
    eapply rtc_l; [apply (pool_arrive _ _ _ "POST" "/a" [(bytes_of "x", REOF)])|].
    eapply rtc_l; [apply (pool_arrive _ _ _ "POST" "/b" [])|]. cbn [app].
    eapply rtc_l; [eapply (pool_worker 0), (step_get_new 0 _ _ _ _ 0%nat); reflexivity|]. simpl.
    eapply rtc_l; [eapply (pool_worker 0), step_reset; [reflexivity|reflexivity|apply lookup_insert_eq]|]. simpl.
    eapply rtc_l; [eapply (pool_worker 0), step_method; [reflexivity|reflexivity|apply lookup_insert_eq]|]. simpl.
    eapply rtc_l; [eapply (pool_worker 0), step_uri; [reflexivity|reflexivity|apply lookup_insert_eq]|]. simpl.
    eapply rtc_l; [eapply (pool_worker 0), step_copy; [reflexivity|reflexivity|apply lookup_insert_eq]|]. simpl.
    eapply rtc_l; [eapply (pool_worker 0), step_sum; [reflexivity|reflexivity|apply lookup_insert_eq]|]. simpl.
    eapply rtc_l; [eapply (pool_worker 0), step_put; reflexivity|]. simpl.
    eapply rtc_l; [eapply (pool_worker 1), (step_get_pooled 1 _ _ _ _ 0%nat); reflexivity|].
    apply rtc_refl.
  - split; reflexivity.
Qed.

Lemma shared_hashers_invisible_witness :
  exists (s : pool_state digest) w r, pool_reachable s /\ p_workers s !! 0%nat = Some w /\ wk_stage w = SDone r /\
    r = fst (StreamingRedisKey (D:=digest) 0 "POST" "/a" [(bytes_of "x", REOF)] []).
Proof.
  destruct sample_run as (s & r & Hr & Hi & _). exists s, (Worker "POST" "/a" [(bytes_of "x", REOF)] (SDone r)), r. split; [exact Hr|]. split; [exact Hi|].
  split; [reflexivity|].
  exact (proj1 (proj2 (proj2 (shared_hashers_invisible (H:=sha256_spec) s Hr))) 0%nat _ r 0%nat [] Hi eq_refl).
Defined.
