(* ===== verification/GoJSON.v ===== *)
(** * GoJSON: what the responses use of Go's [encoding/json]

    [json.Marshal] of the flat objects the handlers answer with, a struct with
    its fields in order or a [map[string]any] with its keys sorted: the escapes
    of strings, among them those that keep the text inert inside HTML, the
    replacement of bytes that are not UTF-8, and decimal integers.  A reader of
    such objects, after RFC 8259, shows that nothing is lost. *)

From Stdlib Require DecimalString DecimalZ.
From stdpp Require Import sorting.
From S2P Require Import Prelude GoStrings.

Local Open Scope Z_scope.

(** ** Objects *)

(** A [gin.H] literal is listed in the order of the source. *)
Inductive json_value := JString (s : string) | JInt (n : Z).
Abbreviation members := (list (string * json_value)).
Inductive json := JStruct (fields : members) | JMap (entries : members).

(** ** [json.Marshal] *)

(** [htmlSafeSet], for bytes below [utf8.RuneSelf] *)
Definition htmlSafe (c : Z) : bool :=
  (32 <=? c) && negb ((c =? 34) || (c =? 38) || (c =? 60) || (c =? 62) || (c =? 92)).

Definition escape_byte (b : Byte.byte) : bytes :=
  let c := byte_Z b in
  if htmlSafe c then [b]
  else if (c =? 92) || (c =? 34) then [x5c; b]
  else if c =? 8 then bytes_of "\b"
  else if c =? 12 then bytes_of "\f"
  else if c =? 10 then bytes_of "\n"
  else if c =? 13 then bytes_of "\r"
  else if c =? 9 then bytes_of "\t"
  else bytes_of "\u00" ++ hex_pair b.

(** The loop of [appendString]; the fuel is the length of the string. *)
Fixpoint escape_fuel (fuel : nat) (s : bytes) : bytes :=
  match fuel, s with
  | S fuel, b :: s' =>
      if byte_Z b <? RuneSelf then escape_byte b ++ escape_fuel fuel s'
      else
        let '(c, size) := decode_rune s in
        if (c =? RuneError) && (size =? 1)%nat then bytes_of "\ufffd" ++ escape_fuel fuel (drop size s)
        else if (c =? 8232) || (c =? 8233)
        then bytes_of "\u202" ++ [hex_digit (Z.land c 15)] ++ escape_fuel fuel (drop size s)
        else take size s ++ escape_fuel fuel (drop size s)
  | _, _ => []
  end.
Definition appendString (s : bytes) : bytes := x22 :: escape_fuel (length s) s ++ [x22].

Definition encode_value (v : json_value) : bytes :=
  match v with JString s => appendString (bytes_of s) | JInt n => bytes_of (strconv_Itoa n) end.

Definition encode_member (m : string * json_value) : bytes :=
  appendString (bytes_of (fst m)) ++ x3a :: encode_value (snd m).
Fixpoint encode_members (ms : members) : bytes :=
  match ms with
  | [] => []
  | [m] => encode_member m
  | m :: ms => encode_member m ++ x2c :: encode_members ms
  end.

(** Map entries are sorted by their keys. *)
Definition key_le (m1 m2 : string * json_value) : Prop := String.leb (fst m1) (fst m2) = true.
#[global] Instance key_le_dec m1 m2 : Decision (key_le m1 m2).
Proof. unfold key_le. apply _. Defined.
Definition json_members (o : json) : members :=
  match o with JStruct ms => ms | JMap ms => merge_sort key_le ms end.

Definition json_Marshal (o : json) : bytes := x7b :: encode_members (json_members o) ++ [x7d].

(** ** UTF-8 as [encoding/json] coerces it *)

(** Every byte that is not part of a valid encoding becomes U+FFFD. *)
Fixpoint coerce_fuel (fuel : nat) (s : bytes) : bytes :=
  match fuel, s with
  | S fuel, _ :: _ =>
      let '(c, size) := decode_rune s in
      (if (c =? RuneError) && (size =? 1)%nat then encode_rune RuneError else take size s)
        ++ coerce_fuel fuel (drop size s)
  | _, _ => []
  end.
Definition coerce (s : string) : string := string_of (coerce_fuel (String.length s) (bytes_of s)).

(** [utf8.ValidString] *)
Fixpoint valid_fuel (fuel : nat) (s : bytes) : bool :=
  match fuel, s with
  | S fuel, _ :: _ =>
      let '(c, size) := decode_rune s in
      negb ((c =? RuneError) && (size =? 1)%nat) && valid_fuel fuel (drop size s)
  | _, _ => true
  end.
Definition ValidString (s : string) : bool := valid_fuel (String.length s) (bytes_of s).

Definition coerce_value (v : json_value) : json_value :=
  match v with JString s => JString (coerce s) | JInt n => JInt n end.
Definition coerce_member (m : string * json_value) : string * json_value :=
  (coerce (fst m), coerce_value (snd m)).

(** ** A reader *)

Definition hex_digit_value (b : Byte.byte) : option Z :=
  let c := byte_Z b in
  if in_range 48 57 c then Some (c - 48)
  else if in_range 97 102 c then Some (c - 87)
  else if in_range 65 70 c then Some (c - 55) else None.

Definition simple_escape (b : Byte.byte) : option Byte.byte :=
  let c := byte_Z b in
  if (c =? 34) || (c =? 92) || (c =? 47) then Some b
  else if c =? 98 then Some x08
  else if c =? 102 then Some x0c
  else if c =? 110 then Some x0a
  else if c =? 114 then Some x0d
  else if c =? 116 then Some x09 else None.

(** The rest of a string after its opening quote: its text, and what follows
    the closing quote.  Escapes of one code unit are read. *)
Fixpoint unquote (s : bytes) : option (bytes * bytes) :=
  match s with
  | [] => None
  | b :: s =>
      let c := byte_Z b in
      if c =? 34 then Some ([], s)
      else if c <? 32 then None
      else if c =? 92 then
        match s with
        | [] => None
        | e :: s =>
            if byte_Z e =? 117 then
              match s with
              | h1 :: h2 :: h3 :: h4 :: s =>
                  match hex_digit_value h1, hex_digit_value h2, hex_digit_value h3, hex_digit_value h4 with
                  | Some d1, Some d2, Some d3, Some d4 =>
                      match unquote s with
                      | Some (t, rest) => Some (encode_rune (d1 * 4096 + d2 * 256 + d3 * 16 + d4) ++ t, rest)
                      | None => None
                      end
                  | _, _, _, _ => None
                  end
              | _ => None
              end
            else
              match simple_escape e, unquote s with
              | Some c, Some (t, rest) => Some (c :: t, rest)
              | _, _ => None
              end
        end
      else match unquote s with Some (t, rest) => Some (b :: t, rest) | None => None end
  end.

Definition is_digit (b : Byte.byte) : bool := in_range 48 57 (byte_Z b) || (byte_Z b =? 45).
Fixpoint span_digits (s : bytes) : bytes * bytes :=
  match s with
  | b :: s' => if is_digit b then let '(d, rest) := span_digits s' in (b :: d, rest) else ([], s)
  | [] => ([], [])
  end.

Definition read_string (s : bytes) : option (string * bytes) :=
  match s with
  | b :: s => if byte_Z b =? 34
              then match unquote s with Some (t, rest) => Some (string_of t, rest) | None => None end
              else None
  | [] => None
  end.
Definition read_int (s : bytes) : option (Z * bytes) :=
  let '(d, rest) := span_digits s in
  match DecimalString.NilZero.int_of_string (string_of d) with
  | Some i => Some (Z.of_int i, rest)
  | None => None
  end.
Definition read_value (s : bytes) : option (json_value * bytes) :=
  match read_string s with
  | Some (t, rest) => Some (JString t, rest)
  | None => match read_int s with Some (n, rest) => Some (JInt n, rest) | None => None end
  end.

Definition expect (b : Byte.byte) (s : bytes) : option bytes :=
  match s with c :: s => if decide (c = b) then Some s else None | [] => None end.

(** Members up to the closing brace; each consumes a byte, so the length of the
    input is fuel enough. *)
Fixpoint read_members (fuel : nat) (s : bytes) : option (members * bytes) :=
  match fuel with
  | O => None
  | S fuel =>
      match read_string s with
      | None => None
      | Some (k, s) =>
          match expect x3a s with
          | None => None
          | Some s =>
              match read_value s with
              | None => None
              | Some (v, s) =>
                  match expect x7d s with
                  | Some s => Some ([(k, v)], s)
                  | None =>
                      match expect x2c s with
                      | Some s =>
                          match read_members fuel s with
                          | Some (ms, s) => Some ((k, v) :: ms, s)
                          | None => None
                          end
                      | None => None
                      end
                  end
              end
          end
      end
  end.

Definition read_object (s : bytes) : option members :=
  match expect x7b s with
  | Some s =>
      match expect x7d s with
      | Some [] => Some []
      | Some _ => None
      | None => match read_members (length s) s with Some (ms, []) => Some ms | _ => None end
      end
  | None => None
  end.

(** ** Runes: decoding and encoding are inverse *)

Lemma Z_byte_of b z : z = byte_Z b -> Z_byte z = b.
Proof. intros ->. apply Z_byte_Z. Qed.

Lemma land_low z n : 0 <= n -> Z.land z (Z.ones n) = z mod 2 ^ n.
Proof. apply Z.land_ones. Qed.

Ltac bits_to_arith :=
  change 31 with (Z.ones 5) in *; change 15 with (Z.ones 4) in *; change 7 with (Z.ones 3) in *;
  change 63 with (Z.ones 6) in *; rewrite ?Z.shiftr_div_pow2, ?land_low by lia;
  change (2 ^ 6) with 64 in *; change (2 ^ 5) with 32 in *; change (2 ^ 4) with 16 in *;
  change (2 ^ 3) with 8 in *; change (2 ^ 12) with 4096 in *; change (2 ^ 18) with 262144 in *.

Lemma encode_rune_1 r : 0 <= r < 128 -> encode_rune r = [Z_byte r].
Proof.
  intros H. unfold encode_rune, in_range.
  rewrite (proj2 (Z.leb_le 0 r)), (proj2 (Z.leb_le r 55295)) by lia. simpl.
  by rewrite (proj2 (Z.ltb_lt r 128)) by lia.
Qed.
Lemma encode_rune_2 r : 128 <= r < 2048 ->
  encode_rune r = [Z_byte (192 + r / 64); Z_byte (128 + r mod 64)].
Proof.
  intros H. unfold encode_rune, in_range.
  rewrite (proj2 (Z.leb_le 0 r)), (proj2 (Z.leb_le r 55295)) by lia. simpl.
  rewrite (proj2 (Z.ltb_ge r 128)), (proj2 (Z.ltb_lt r 2048)) by lia. by bits_to_arith.
Qed.
Lemma encode_rune_3 r : 2048 <= r < 65536 -> ~ 55296 <= r <= 57343 ->
  encode_rune r = [Z_byte (224 + r / 4096); Z_byte (128 + r / 64 mod 64); Z_byte (128 + r mod 64)].
Proof.
  intros H Hs. unfold encode_rune, in_range.
  assert ((0 <=? r) && (r <=? 55295) || (57344 <=? r) && (r <=? 1114111) = true) as ->
    by (destruct (Z.leb_spec r 55295), (Z.leb_spec 57344 r), (Z.leb_spec r 1114111), (Z.leb_spec 0 r);
        simpl; lia || done).
  rewrite (proj2 (Z.ltb_ge r 128)), (proj2 (Z.ltb_ge r 2048)), (proj2 (Z.ltb_lt r 65536)) by lia.
  by bits_to_arith.
Qed.
Lemma encode_rune_4 r : 65536 <= r <= 1114111 ->
  encode_rune r = [Z_byte (240 + r / 262144); Z_byte (128 + r / 4096 mod 64);
                   Z_byte (128 + r / 64 mod 64); Z_byte (128 + r mod 64)].
Proof.
  intros H. unfold encode_rune, in_range.
  assert ((0 <=? r) && (r <=? 55295) || (57344 <=? r) && (r <=? 1114111) = true) as ->
    by (destruct (Z.leb_spec r 55295), (Z.leb_spec 57344 r), (Z.leb_spec r 1114111), (Z.leb_spec 0 r);
        simpl; lia || done).
  rewrite (proj2 (Z.ltb_ge r 128)), (proj2 (Z.ltb_ge r 2048)), (proj2 (Z.ltb_ge r 65536)) by lia.
  by bits_to_arith.
Qed.

(** A decoded rune is the encoding of the bytes it was decoded from, none of
    which is ASCII unless the rune is. *)
Definition high (b : Byte.byte) : Prop := 128 <= byte_Z b.

Inductive decoded (s : bytes) : Z * nat -> Prop :=
  | decoded_ascii b t : s = b :: t -> byte_Z b < 128 -> decoded s (byte_Z b, 1%nat)
  | decoded_invalid b t : s = b :: t -> high b -> decoded s (RuneError, 1%nat)
  | decoded_rune c n : (2 <= n <= 4)%nat -> (n <= length s)%nat -> Forall high (take n s) ->
      encode_rune c = take n s -> 0 <= c -> decoded s (c, n).

Ltac rune_arith := Z.div_mod_to_equations; lia.

Lemma decoded_2 b0 b1 s :
  194 <= byte_Z b0 < 224 -> cont (byte_Z b1) = true ->
  decoded (b0 :: b1 :: s) (Z.land (byte_Z b0) 31 * 64 + Z.land (byte_Z b1) 63, 2%nat).
Proof.
  unfold cont, in_range. intros H0 H1. bool_props. bits_to_arith.
  apply decoded_rune; simpl; [lia|lia|repeat constructor; unfold high; lia| |rune_arith].
  rewrite encode_rune_2 by rune_arith.
  by rewrite (Z_byte_of b0), (Z_byte_of b1) by rune_arith.
Qed.

Lemma accept2_cont c0 c1 : accept2 c0 c1 = true ->
  128 <= c1 <= 191 /\ (c0 = 224 -> 160 <= c1) /\ (c0 = 237 -> c1 <= 159) /\
  (c0 = 240 -> 144 <= c1) /\ (c0 = 244 -> c1 <= 143).
Proof.
  unfold accept2, cont, in_range. intros H. repeat case_in H; bool_props; lia.
Qed.

Lemma decoded_3 b0 b1 b2 s :
  224 <= byte_Z b0 < 240 -> accept2 (byte_Z b0) (byte_Z b1) = true -> cont (byte_Z b2) = true ->
  decoded (b0 :: b1 :: b2 :: s)
    (Z.land (byte_Z b0) 15 * 4096 + Z.land (byte_Z b1) 63 * 64 + Z.land (byte_Z b2) 63, 3%nat).
Proof.
  unfold cont, in_range. intros H0 H1%accept2_cont H2. bool_props. bits_to_arith.
  apply decoded_rune; simpl; [lia|lia|repeat constructor; unfold high; lia| |rune_arith].
  rewrite encode_rune_3 by rune_arith.
  by rewrite (Z_byte_of b0), (Z_byte_of b1), (Z_byte_of b2) by rune_arith.
Qed.

Lemma decoded_4 b0 b1 b2 b3 s :
  240 <= byte_Z b0 < 245 -> accept2 (byte_Z b0) (byte_Z b1) = true ->
  cont (byte_Z b2) = true -> cont (byte_Z b3) = true ->
  decoded (b0 :: b1 :: b2 :: b3 :: s)
    (Z.land (byte_Z b0) 7 * 262144 + Z.land (byte_Z b1) 63 * 4096 + Z.land (byte_Z b2) 63 * 64
     + Z.land (byte_Z b3) 63, 4%nat).
Proof.
  unfold cont, in_range. intros H0 H1%accept2_cont H2 H3. bool_props. bits_to_arith.
  apply decoded_rune; simpl; [lia|lia|repeat constructor; unfold high; lia| |rune_arith].
  rewrite encode_rune_4 by rune_arith.
  by rewrite (Z_byte_of b0), (Z_byte_of b1), (Z_byte_of b2), (Z_byte_of b3) by rune_arith.
Qed.

Lemma decode_rune_decoded b s : decoded (b :: s) (decode_rune (b :: s)).
Proof.
  unfold decode_rune.
  destruct (Z.ltb_spec (byte_Z b) 128) as [|Hb].
  { destruct s as [|b1 [|b2 [|b3 s]]]; simpl; rewrite (proj2 (Z.ltb_lt _ _)) by done;
      by eapply decoded_ascii. }
  assert (Hbad : forall t, decoded (b :: t) (RuneError, 1%nat)) by (intros; by eapply decoded_invalid).
  destruct s as [|b1 [|b2 [|b3 s]]]; simpl; repeat case_goal; bool_props;
    first [by auto | exfalso; lia | apply decoded_2 | apply decoded_3 | apply decoded_4]; done || lia.
Qed.

Lemma decode_rune_width b s : (1 <= snd (decode_rune (b :: s)) <= S (length s))%nat.
Proof.
  destruct (decode_rune_decoded b s) as [b' t [= <- <-] _|b' t [= <- <-] _|c n Hn Hl _ _ _]; simpl in *; lia.
Qed.

(** One step of a loop over runes, by what it decodes: the fuel of the loop is
    enough for the rest. *)
Lemma drop_fuel (b : Byte.byte) s n fuel :
  (1 <= n)%nat -> (length (b :: s) <= S fuel)%nat -> (length (drop n (b :: s)) <= fuel)%nat.
Proof. rewrite length_drop. simpl. lia. Qed.

(** ** Reading back a string *)

(** What a reader does with a piece of text whose meaning is [t]. *)
Definition reads_as (piece t : bytes) : Prop :=
  forall rest, unquote (piece ++ rest) =
    match unquote rest with Some (t', rest') => Some (t ++ t', rest') | None => None end.

Lemma reads_as_app p1 t1 p2 t2 : reads_as p1 t1 -> reads_as p2 t2 -> reads_as (p1 ++ p2) (t1 ++ t2).
Proof.
  intros H1 H2 rest. rewrite <-app_assoc, H1, H2.
  destruct (unquote rest) as [[t' r]|]; [by rewrite app_assoc|done].
Qed.
Lemma reads_as_nil : reads_as [] [].
Proof. intros rest. simpl. by destruct (unquote rest) as [[t r]|]. Qed.

Lemma reads_as_high l : Forall high l -> reads_as l l.
Proof.
  intros Hl. induction Hl as [|b l Hb _ IH]; [apply reads_as_nil|].
  intros rest. specialize (IH rest). unfold high in Hb. simpl.
  rewrite (proj2 (Z.eqb_neq (byte_Z b) 34)), (proj2 (Z.ltb_ge (byte_Z b) 32)), (proj2 (Z.eqb_neq (byte_Z b) 92)) by lia.
  rewrite IH. by destruct (unquote rest) as [[t r]|].
Qed.

Lemma reads_as_escape b : byte_Z b < 128 -> reads_as (escape_byte b) [b].
Proof.
  intros Hb rest.
  destruct b; try (exfalso; vm_compute in Hb; discriminate Hb); reflexivity.
Qed.

Lemma reads_as_replacement : reads_as (bytes_of "\ufffd") (encode_rune RuneError).
Proof. intros rest. reflexivity. Qed.
Lemma reads_as_separator c : c = 8232 \/ c = 8233 ->
  reads_as (bytes_of "\u202" ++ [hex_digit (Z.land c 15)]) (encode_rune c).
Proof. intros [-> | ->] rest; reflexivity. Qed.

Lemma escape_reads_as fuel s : (length s <= fuel)%nat -> reads_as (escape_fuel fuel s) (coerce_fuel fuel s).
Proof.
  revert s. induction fuel as [|fuel IH]; intros [|b s] Hl; [apply reads_as_nil|simpl in Hl; lia|apply reads_as_nil|].
  cbn [escape_fuel coerce_fuel].
  destruct (decode_rune_decoded b s) as [b' t [= <- <-] Hb|b' t [= <- <-] Hb|c n Hn Hl' Hh He Hc].
  - rewrite (proj2 (Z.ltb_lt (byte_Z b) RuneSelf)) by done.
    rewrite (proj2 (Z.eqb_neq (byte_Z b) RuneError)) by (unfold RuneError; lia). simpl andb. cbv iota.
    apply reads_as_app; [by apply reads_as_escape|]. apply IH. by apply (drop_fuel b s 1).
  - unfold high in Hb. rewrite (proj2 (Z.ltb_ge (byte_Z b) RuneSelf)) by (unfold RuneSelf; lia).
    rewrite Z.eqb_refl. simpl andb. cbv iota.
    apply reads_as_app; [apply reads_as_replacement|]. apply IH. by apply (drop_fuel b s 1).
  - assert (Hb : high b) by (destruct n as [|n]; [lia|]; by inversion Hh). unfold high in Hb.
    rewrite (proj2 (Z.ltb_ge (byte_Z b) RuneSelf)) by (unfold RuneSelf; lia).
    rewrite (proj2 (Nat.eqb_neq n 1)), andb_false_r by lia. cbv iota.
    assert (Hrest : reads_as (escape_fuel fuel (drop n (b :: s))) (coerce_fuel fuel (drop n (b :: s))))
      by (apply IH, drop_fuel; [lia|done]).
    destruct ((c =? 8232) || (c =? 8233)) eqn:Ec.
    + rewrite <-He. rewrite app_assoc. apply reads_as_app; [|exact Hrest]. apply reads_as_separator.
      apply orb_true_iff in Ec as [?%Z.eqb_eq|?%Z.eqb_eq]; auto.
    + apply reads_as_app; [by apply reads_as_high|exact Hrest].
Qed.

Lemma read_appendString s rest :
  read_string (appendString (bytes_of s) ++ rest) = Some (coerce s, rest).
Proof.
  unfold appendString, read_string. cbn [app]. change (byte_Z x22 =? 34) with true. cbv iota.
  rewrite <-app_assoc. rewrite escape_reads_as by done. cbn [app unquote].
  change (byte_Z x22 =? 34) with true. cbv iota. rewrite app_nil_r.
  unfold coerce. by rewrite length_bytes_of.
Qed.

(** What is valid UTF-8 is left as it is, and the coercion is what mapping the
    runes by the identity gives. *)
Lemma coerce_valid s : ValidString s = true -> coerce s = s.
Proof.
  unfold ValidString, coerce. rewrite <-length_bytes_of. intros Hv.
  rewrite <-(string_of_bytes_of s) at 3. f_equal. revert Hv.
  generalize (bytes_of s) as l. intros l.
  assert (Hl : (length l <= length l)%nat) by done. revert Hl. generalize (length l) at 2 3 4 as fuel.
  intros fuel. revert l. induction fuel as [|fuel IH]; intros [|b l] Hl; [done|simpl in Hl; lia|done|].
  cbn [valid_fuel coerce_fuel].
  pose proof (decode_rune_width b l) as Hw. destruct (decode_rune (b :: l)) as [c n]. simpl snd in Hw.
  intros [->%negb_true_iff Hv]%andb_true_iff.
  rewrite IH; [by rewrite take_drop|apply drop_fuel; [lia|done]|done].
Qed.

Lemma coerce_Map s : coerce s = string_of (strings_Map id (bytes_of s)).
Proof.
  unfold coerce, strings_Map, runes. f_equal. rewrite <-length_bytes_of.
  generalize (bytes_of s) as l. intros l.
  assert (Hl : (length l <= length l)%nat) by done. revert Hl. generalize (length l) at 2 3 4 as fuel.
  intros fuel. revert l. induction fuel as [|fuel IH]; intros [|b l] Hl; [done|simpl in Hl; lia|done|].
  cbn [runes_fuel coerce_fuel].
  destruct (decode_rune_decoded b l) as [b' t [= <- <-] Hb|b' t [= <- <-] Hb|c n Hn Hl' Hh He Hc];
    rewrite IH by (apply drop_fuel; [lia|done]); rewrite bind_cons; unfold id.
  - rewrite (proj2 (Z.eqb_neq (byte_Z b) RuneError)) by (unfold RuneError; lia).
    rewrite (encode_rune_1 (byte_Z b)) by (pose proof (byte_Z_range b); lia). by rewrite Z_byte_Z.
  - by rewrite Z.eqb_refl.
  - rewrite (proj2 (Nat.eqb_neq n 1)), andb_false_r by lia. by rewrite He.
Qed.

(** ** Reading back an integer *)

Lemma strconv_Itoa_digits n : Forall (fun b => is_digit b = true) (bytes_of (strconv_Itoa n)).
Proof.
  unfold strconv_Itoa.
  assert (Hu : forall u, Forall (fun b => is_digit b = true) (bytes_of (DecimalString.NilEmpty.string_of_uint u))).
  { unfold bytes_of, String.list_byte_of_string. induction u; simpl; by constructor. }
  assert (Hz : forall u, Forall (fun b => is_digit b = true) (bytes_of (DecimalString.NilZero.string_of_uint u))).
  { intros u. destruct u as [|u|u|u|u|u|u|u|u|u|u]; [by constructor| | | | | | | | | | ];
      match goal with |- context [DecimalString.NilZero.string_of_uint ?d] => apply (Hu d) end. }
  destruct (Z.to_int n) as [u|u]; [apply Hz|]. unfold bytes_of, String.list_byte_of_string in *.
  simpl. constructor; [done|apply Hz].
Qed.

Lemma span_digits_app d rest :
  Forall (fun b => is_digit b = true) d -> (forall b t, rest = b :: t -> is_digit b = false) ->
  span_digits (d ++ rest) = (d, rest).
Proof.
  intros Hd Hr. induction Hd as [|b d Hb _ IH]; simpl.
  - destruct rest as [|b t]; [done|]. simpl. by rewrite (Hr b t).
  - by rewrite Hb, IH.
Qed.

Lemma read_Itoa n rest :
  (forall b t, rest = b :: t -> is_digit b = false) ->
  read_int (bytes_of (strconv_Itoa n) ++ rest) = Some (n, rest).
Proof.
  intros Hr. unfold read_int. rewrite span_digits_app by (apply strconv_Itoa_digits || done).
  rewrite string_of_bytes_of. unfold strconv_Itoa.
  rewrite DecimalString.NilZero.isi; [by rewrite DecimalZ.of_to|..]; unfold Z.to_int;
    destruct n; try discriminate; intros [=]; by eapply DecimalPos.Unsigned.to_uint_nonnil.
Qed.

(** ** Reading back an object *)

(** What may follow a value does not continue a number. *)
Definition ends_value (rest : bytes) : Prop := forall b t, rest = b :: t -> is_digit b = false.

Lemma Itoa_not_string n rest : read_string (bytes_of (strconv_Itoa n) ++ rest) = None \/ bytes_of (strconv_Itoa n) = [].
Proof.
  pose proof (strconv_Itoa_digits n) as Hd. destruct (bytes_of (strconv_Itoa n)) as [|b l]; [by right|].
  left. inversion Hd as [|? ? Hb _]; subst. simpl.
  destruct (Z.eqb_spec (byte_Z b) 34) as [E|]; [|done].
  unfold is_digit, in_range in Hb. rewrite E in Hb. discriminate Hb.
Qed.

Lemma Itoa_not_empty n : bytes_of (strconv_Itoa n) <> [].
Proof.
  intros E. pose proof (read_Itoa n [] ltac:(done)) as H. rewrite E in H. discriminate H.
Qed.

Lemma read_encode_value v rest :
  ends_value rest -> read_value (encode_value v ++ rest) = Some (coerce_value v, rest).
Proof.
  intros Hr. unfold read_value. destruct v as [s|n]; simpl encode_value.
  - by rewrite read_appendString.
  - destruct (Itoa_not_string n rest) as [->|E]; [by rewrite read_Itoa|by destruct (Itoa_not_empty n)].
Qed.

Lemma read_encode_members ms rest fuel :
  ms <> [] -> (length ms <= fuel)%nat ->
  read_members fuel (encode_members ms ++ x7d :: rest) = Some (map coerce_member ms, rest).
Proof.
  revert fuel. induction ms as [|[k v] ms IH]; intros fuel Hne Hf; [done|].
  destruct fuel as [|fuel]; [simpl in Hf; lia|]. cbn [read_members].
  assert (E : encode_members ((k, v) :: ms) ++ x7d :: rest =
    appendString (bytes_of k) ++ x3a :: encode_value v ++
      (match ms with [] => [] | _ => x2c :: encode_members ms end) ++ x7d :: rest).
  { destruct ms; cbn [encode_members]; unfold encode_member; cbn [fst snd];
      rewrite <-!app_assoc; cbn [app]; by rewrite <-?app_assoc. }
  rewrite E, read_appendString. cbn [expect]. rewrite decide_True by done.
  rewrite read_encode_value.
  - destruct ms as [|m ms]; [by cbn [app expect]; rewrite decide_True by done|].
    cbn [app expect]. rewrite decide_False, decide_True by done.
    rewrite IH by (done || simpl in *; lia). done.
  - intros b t. destruct ms; cbn [app]; by intros [= <- _].
Qed.

Lemma encode_members_length ms : (length ms <= length (encode_members ms))%nat.
Proof.
  induction ms as [|m ms IH]; [done|].
  assert (H : (1 <= length (encode_member m))%nat)
    by (unfold encode_member, appendString; rewrite length_app; simpl; lia).
  destruct ms as [|m' ms]; [simpl; lia|].
  change (encode_members (m :: m' :: ms)) with (encode_member m ++ x2c :: encode_members (m' :: ms)).
  rewrite length_app. simpl in *. lia.
Qed.

(** The reader gives back the members [Marshal] wrote, in its order, with every
    string as UTF-8. *)
Lemma read_Marshal o : read_object (json_Marshal o) = Some (map coerce_member (json_members o)).
Proof.
  unfold read_object, json_Marshal. cbn [expect]. rewrite decide_True by done.
  destruct (json_members o) as [|m ms] eqn:E; [done|]. rewrite <-E in *.
  assert (Hq : exists l, encode_members (json_members o) = x22 :: l).
  { rewrite E. destruct ms; simpl; unfold encode_member, appendString; by eexists. }
  destruct Hq as [l Hq]. rewrite Hq at 1. cbn [app expect]. rewrite decide_False by done.
  rewrite (read_encode_members (json_members o) []); [done|by rewrite E|].
  rewrite length_app. pose proof (encode_members_length (json_members o)). simpl. lia.
Qed.

(** ** The order of a map *)

Lemma json_members_map ms : json_members (JMap ms) ≡ₚ ms.
Proof. apply merge_sort_Permutation. Qed.

#[global] Instance key_le_total : Total key_le.
Proof. intros m1 m2. apply String.leb_total. Qed.

Lemma json_members_sorted ms : Sorted key_le (json_members (JMap ms)).
Proof. apply Sorted_merge_sort, _. Qed.

Example Marshal_samples :
  json_Marshal (JMap [("b", JInt (-7)); ("a", JString (string_of [x3c; x22; x0a; x01; xff; xc3; xa9]))])
  = [x7b] ++ [x22; x61; x22; x3a] ++ [x22] ++ bytes_of "\u003c" ++ [x5c; x22] ++ bytes_of "\n" ++ bytes_of "\u0001"
    ++ bytes_of "\ufffd" ++ [xc3; xa9; x22] ++ [x2c] ++ [x22; x62; x22; x3a; x2d; x37; x7d].
Proof. vm_compute. reflexivity. Qed.
