(* ===== verification/GoTime.v ===== *)
(** * GoTime: clocks and contexts

    Durations and instants are nanoseconds in [Z].  A program reads the clock
    by [time.Now]; the readings a run gets are a stream, consumed in order, and
    a monotone stream is a clock that never goes back. *)

From S2P Require Import Prelude.

Local Open Scope Z_scope.

Definition Nanosecond : Z := 1.
Definition Microsecond : Z := 1000 * Nanosecond.
Definition Millisecond : Z := 1000 * Microsecond.
Definition Second : Z := 1000 * Millisecond.
Definition Minute : Z := 60 * Second.
Definition Hour : Z := 60 * Minute.

(** ** The clock *)

Record clock := Clock { ticks : nat -> Z; pos : nat }.

(** [time.Now()] *)
Definition time_Now (c : clock) : Z * clock := (ticks c (pos c), Clock (ticks c) (S (pos c))).

Definition now_of (c : clock) : Z := ticks c (pos c).

Definition monotone (c : clock) : Prop := forall i j, (i <= j)%nat -> ticks c i <= ticks c j.

(** [later c c']: [c'] is [c] after some more readings. *)
Definition later (c c' : clock) : Prop := ticks c' = ticks c /\ (pos c <= pos c')%nat.

#[global] Instance later_preorder : PreOrder later.
Proof.
  split; unfold later.
  - intros c. split; [done|lia].
  - intros c1 c2 c3 [-> ?] [-> ?]. split; [done|lia].
Qed.

Lemma later_now c : later c (snd (time_Now c)).
Proof. split; simpl; [done|lia]. Qed.

Lemma later_monotone c c' : later c c' -> monotone c -> monotone c'.
Proof. intros [Ht _] Hm i j. rewrite Ht. apply Hm. Qed.

Lemma later_le c c' : later c c' -> monotone c -> now_of c <= now_of c'.
Proof. intros [Ht Hp] Hm. unfold now_of. rewrite Ht. by apply Hm. Qed.

Create HintDb gotime.
#[export] Hint Resolve later_now later_monotone later_le : gotime.

(** A clock that shows the listed readings and then stays at the last one. *)
Definition clock_of (l : list Z) : clock := Clock (fun i => nth i l (List.last l 0)) 0.

(** Two stretches of the same value, [n] readings at [x] and then [y] for ever. *)
Definition step_clock (n : nat) (x y : Z) : clock := Clock (fun i => if (i <? n)%nat then x else y) 0.

Lemma step_clock_monotone n x y : x <= y -> monotone (step_clock n x y).
Proof.
  intros H i j Hij. simpl.
  destruct (Nat.ltb_spec i n), (Nat.ltb_spec j n); lia.
Qed.

(** ** Contexts: what matters of one is its deadline *)

Abbreviation context := (option Z).
Definition context_Background : context := None.

(** [context.WithTimeout(parent, d)]: the earlier of the two deadlines *)
Definition context_WithTimeout (parent : context) (d : Z) (c : clock) : context * clock :=
  let '(now, c) := time_Now c in
  (Some (match parent with Some p => Z.min p (now + d) | None => now + d end), c).
