(* ===== verification/Store.v ===== *)
(** * Store: internal/store/store.go, the interface and the MemoryStore

    [Store] is the Go interface; [StoreLaws] is its documented contract as an
    abstract specification: a map from recorded keys to the instant until which
    they are recorded, and for each call one of three outcomes. *)

From S2P Require Import Prelude GoTime.

Definition ErrUnavailable : error := ErrNew "store.ErrUnavailable" "store unavailable".

(** ** The interface *)

Class Store (S : Type) := {
  IsDuplicate : context -> string -> Z -> S -> clock -> (bool * option error) * S * clock;
  Ping : context -> S -> clock -> option error * S * clock;
  Close : S -> clock -> option error * S * clock;
}.

(** ** The contract *)

Section Spec.
Local Open Scope Z_scope.

(** Between two calls keys may only leave, and only once they are due. *)
Definition evolves (now : Z) (m m' : gmap string Z) : Prop :=
  forall k, m' !! k = m !! k \/ (m' !! k = None /\ exists d, m !! k = Some d /\ d <= now).

#[global] Instance evolves_refl now : Reflexive (evolves now).
Proof. intros m k. by left. Qed.

Lemma evolves_trans n1 n2 m1 m2 m3 :
  n1 <= n2 -> evolves n1 m1 m2 -> evolves n2 m2 m3 -> evolves n2 m1 m3.
Proof.
  intros Hn H1 H2 k. destruct (H1 k) as [E|[E (d & Hd & ?)]], (H2 k) as [E'|[E' (d' & Hd' & ?)]].
  - left. congruence.
  - right. split; [done|]. exists d'. split; [congruence|done].
  - right. split; [congruence|]. exists d. split; [done|lia].
  - congruence.
Qed.

(** The key is free at [now]: never recorded, or its record is due. *)
Definition free (now : Z) (m : gmap string Z) (key : string) : Prop :=
  forall d, m !! key = Some d -> d <= now.

(** The map after recording [key] at [now] for [ttl], where the store keeps
    instants to a resolution of [slack]. *)
Definition recorded (slack now ttl : Z) (key : string) (m m' : gmap string Z) : Prop :=
  exists d m1, evolves now m m1 /\ now + ttl - slack <= d <= now + ttl + slack /\ m' = <[key := d]> m1.

(** The outcomes of [IsDuplicate key ttl] taking effect at [now]. On an error
    the caller cannot know whether the record was made. *)
Inductive outcome (slack now ttl : Z) (key : string) (m : gmap string Z) :
    bool * option error -> gmap string Z -> Prop :=
  | outcome_duplicate d m' :
      m !! key = Some d -> now <= d -> m' !! key = Some d -> evolves now m m' ->
      outcome slack now ttl key m (true, None) m'
  | outcome_new m' :
      free now m key -> recorded slack now ttl key m m' ->
      outcome slack now ttl key m (false, None) m'
  | outcome_error e m' :
      evolves now m m' ->
      outcome slack now ttl key m (false, Some e) m'
  | outcome_error_recorded e m' :
      free now m key -> recorded slack now ttl key m m' ->
      outcome slack now ttl key m (false, Some e) m'.

(** What a caller may rely on even when the store refuses more than it must:
    a call that does not admit leaves the records alone (or, on an error, may
    have made one), and a call that admits found the key free and recorded it. *)
Inductive admission (slack now ttl : Z) (key : string) (m : gmap string Z) :
    bool * option error -> gmap string Z -> Prop :=
  | admission_refused r m' :
      r <> (false, None) -> evolves now m m' -> admission slack now ttl key m r m'
  | admission_new m' :
      free now m key -> recorded slack now ttl key m m' ->
      admission slack now ttl key m (false, None) m'
  | admission_unknown e m' :
      free now m key -> recorded slack now ttl key m m' ->
      admission slack now ttl key m (false, Some e) m'.

Lemma outcome_admission slack now ttl key m r m' :
  outcome slack now ttl key m r m' -> admission slack now ttl key m r m'.
Proof. intros []; [by apply admission_refused|by constructor|by apply admission_refused|by constructor]. Qed.

(** A finer resolution is a coarser one's special case. *)
Lemma recorded_weaken s1 s2 now ttl key m m' :
  s1 <= s2 -> recorded s1 now ttl key m m' -> recorded s2 now ttl key m m'.
Proof. intros Hs (d & m1 & He & Hd & ->). exists d, m1. split; [done|]. split; [lia|done]. Qed.

Lemma outcome_weaken s1 s2 now ttl key m r m' :
  s1 <= s2 -> outcome s1 now ttl key m r m' -> outcome s2 now ttl key m r m'.
Proof.
  intros Hs [d m1 ????|m1 ??|e m1 ?|e m1 ??];
    [by eapply outcome_duplicate|apply outcome_new|by apply outcome_error|apply outcome_error_recorded];
    eauto using recorded_weaken.
Qed.

(** Every call is one outcome, at an instant between its begin and its end. *)
Class StoreLaws (S : Type) `{!Store S} (deadlines : S -> gmap string Z) (slack : Z) : Prop := {
  law_IsDuplicate ctx key ttl s clk r s' clk' :
    0 < ttl -> monotone clk ->
    IsDuplicate ctx key ttl s clk = (r, s', clk') ->
    later clk clk' /\
    exists now, now_of clk <= now <= now_of clk' /\
      outcome slack now ttl key (deadlines s) r (deadlines s');
  law_Ping ctx s clk r s' clk' :
    monotone clk -> Ping ctx s clk = (r, s', clk') ->
    later clk clk' /\ evolves (now_of clk') (deadlines s) (deadlines s');
}.

(** The weaker contract, which is the one a client needs. *)
Class AdmissionLaws (S : Type) `{!Store S} (deadlines : S -> gmap string Z) (slack : Z) : Prop :=
  law_admission ctx key ttl s clk r s' clk' :
    0 < ttl -> monotone clk ->
    IsDuplicate ctx key ttl s clk = (r, s', clk') ->
    later clk clk' /\
    exists now, now_of clk <= now <= now_of clk' /\
      admission slack now ttl key (deadlines s) r (deadlines s').

#[global] Instance store_admission_laws (S : Type) `{L : StoreLaws S deadlines slack} :
  AdmissionLaws S deadlines slack.
Proof.
  intros ctx key ttl s clk r s' clk' Ht Hm E.
  destruct (law_IsDuplicate _ _ _ _ _ _ _ _ Ht Hm E) as (? & now & ? & ?).
  split; [done|]. exists now. auto using outcome_admission.
Qed.
End Spec.

(** ** MemoryStore *)

Record entry := Entry { expiresAt : Z }.

Record MemoryStore := mkMemoryStore {
  m_data : gmap string entry;
  m_Err : option error;          (** if set, all operations return it *)
}.

Definition NewMemory : MemoryStore := mkMemoryStore ∅ None.

(** [time.Time.After] and [time.Time.Add]; an instant has 64 bits of seconds
    besides the nanoseconds, so adding a duration does not wrap. *)
Definition time_After (t u : Z) : bool := (u <? t)%Z.
Definition time_Add (t d : Z) : Z := (t + d)%Z.

Definition memory_IsDuplicate (_ : context) (key : string) (ttl : Z) (m : MemoryStore) (clk : clock)
  : (bool * option error) * MemoryStore * clock :=
  match m_Err m with
  | Some err => ((false, Some err), m, clk)
  | None =>
      let '(now, clk) := time_Now clk in
      let record (data : gmap string entry) :=
        mkMemoryStore (<[key := Entry (time_Add now ttl)]> data) (m_Err m) in
      match m_data m !! key with
      | Some e =>
          if time_After now (expiresAt e)
          then ((false, None), record (delete key (m_data m)), clk)
          else ((true, None), m, clk)
      | None => ((false, None), record (m_data m), clk)
      end
  end.

Definition memory_Ping (_ : context) (m : MemoryStore) (clk : clock)
  : option error * MemoryStore * clock := (m_Err m, m, clk).

Definition memory_Close (m : MemoryStore) (clk : clock) : option error * MemoryStore * clock :=
  (None, m, clk).

#[global] Instance memory_store : Store MemoryStore := {|
  IsDuplicate := memory_IsDuplicate; Ping := memory_Ping; Close := memory_Close |}.

(** The abstract state of a MemoryStore. *)
Definition memory_deadlines (m : MemoryStore) : gmap string Z := expiresAt <$> m_data m.

Lemma memory_IsDuplicate_later ctx key ttl m clk r m' clk' :
  memory_IsDuplicate ctx key ttl m clk = (r, m', clk') -> later clk clk'.
Proof.
  unfold memory_IsDuplicate, time_Now. intros H.
  repeat case_in H; injection H as _ _ <-; first [reflexivity|apply later_now].
Qed.

Lemma recorded_insert now ttl key m :
  recorded 0 now ttl key m (<[key := (now + ttl)%Z]> m).
Proof. exists (now + ttl)%Z, m. split; [reflexivity|]. split; [lia|done]. Qed.

Lemma memory_deadlines_insert key d data err :
  memory_deadlines (mkMemoryStore (<[key := Entry d]> data) err)
  = <[key := d]> (memory_deadlines (mkMemoryStore data err)).
Proof. apply fmap_insert. Qed.

#[global] Instance memory_store_laws : StoreLaws MemoryStore memory_deadlines 0.
Proof.
  split.
  - intros ctx key ttl m clk r m' clk' _ Hm H. split; [eapply memory_IsDuplicate_later, H|].
    assert (Hn : (now_of clk <= now_of clk <= now_of clk')%Z).
    { split; [lia|]. eauto using memory_IsDuplicate_later with gotime. }
    exists (now_of clk). split; [done|]. revert H.
    unfold IsDuplicate, memory_store, memory_IsDuplicate, time_Now, time_After, time_Add.
    destruct m as [data [err|]]; simpl.
    { intros [= <- <- <-]. by apply outcome_error. }
    destruct (data !! key) as [e|] eqn:E.
    + assert (Hd : memory_deadlines (mkMemoryStore data None) !! key = Some (expiresAt e))
        by (unfold memory_deadlines; simpl; by rewrite lookup_fmap, E).
      destruct (Z.ltb_spec (expiresAt e) (ticks clk (pos clk))); intros [= <- <- <-].
      * rewrite insert_delete_eq, memory_deadlines_insert.
        apply outcome_new; [|apply recorded_insert].
        intros d. unfold now_of. rewrite Hd. intros [= <-]. lia.
      * by eapply outcome_duplicate.
    + intros [= <- <- <-]. rewrite memory_deadlines_insert.
      apply outcome_new; [|apply recorded_insert].
      intros d. unfold memory_deadlines. simpl. by rewrite lookup_fmap, E.
  - intros ctx m clk r m' clk' Hm [= <- <- <-]. split; reflexivity.
Qed.

(** ** Sequences of calls on one store *)

Section Runs.
Context {S : Type} `{!Store S}.

(** One caller after another, all with the same window. The log keeps the
    key, the clock at the begin and at the end, and the verdict. *)
Record call := Call { c_key : string; c_begin : Z; c_end : Z; c_verdict : bool * option error }.

Fixpoint run (ctx : context) (ttl : Z) (keys : list string) (s : S) (clk : clock)
  : list call * S * clock :=
  match keys with
  | [] => ([], s, clk)
  | k :: keys =>
      let '(v, s1, clk1) := IsDuplicate ctx k ttl s clk in
      let '(log, s2, clk2) := run ctx ttl keys s1 clk1 in
      (Call k (now_of clk) (now_of clk1) v :: log, s2, clk2)
  end.

(** The call let its request through as the first of its window. *)
Definition admits (k : string) (c : call) : Prop := c_key c = k /\ c_verdict c = (false, None).
End Runs.

Section Window.
Local Open Scope Z_scope.
Context {S : Type} `{!Store S} {deadlines : S -> gmap string Z} {slack : Z}
        `{L : !AdmissionLaws S deadlines slack}.

(** [key] is held until at least [t]: it is recorded up to [t] or [t] has passed. *)
Definition held (key : string) (t now : Z) (m : gmap string Z) : Prop :=
  t <= now \/ exists d, m !! key = Some d /\ t <= d.

Lemma held_evolves key t n n' m m' :
  n <= n' -> evolves n' m m' -> held key t n m -> held key t n' m'.
Proof.
  intros Hn He [H|(d & Hd & H)]; [left; lia|].
  destruct (He key) as [E|[E (d' & Hd' & ?)]].
  - right. exists d. split; [congruence|done].
  - left. assert (d' = d) by congruence. lia.
Qed.

Lemma held_recorded key k t n now ttl m m' :
  n <= now -> 0 <= ttl - slack -> free now m k -> recorded slack now ttl k m m' ->
  held key t n m -> held key t now m'.
Proof.
  intros Hn Hs Hf (d & m1 & He & Hd & ->) Hh.
  destruct (decide (key = k)) as [->|Hne].
  - left. destruct Hh as [?|(d0 & Hd0 & ?)]; [lia|]. specialize (Hf _ Hd0). lia.
  - destruct (held_evolves _ _ _ _ _ _ Hn He Hh) as [?|(d0 & Hd0 & ?)]; [by left|].
    right. exists d0. by rewrite lookup_insert_ne.
Qed.

Lemma held_admission key k t n now ttl m r m' :
  n <= now -> 0 <= ttl - slack -> admission slack now ttl k m r m' ->
  held key t n m -> held key t now m'.
Proof.
  intros Hn Hs Ho Hh. destruct Ho; eauto using held_evolves, held_recorded.
Qed.

Lemma held_later key t n n' m : n <= n' -> held key t n m -> held key t n' m.
Proof. intros ? [?|?]; [left; lia|by right]. Qed.

(** A record that is held is not free before its time. *)
Lemma held_not_new key t n now ttl m m' :
  n <= now -> held key t n m -> admission slack now ttl key m (false, None) m' -> t <= now.
Proof.
  intros Hn [?|(d & Hd & ?)] Ho; [lia|]. inversion Ho as [|? Hf|]; subst; [done|].
  specialize (Hf _ Hd). lia.
Qed.

Lemma run_held key t ctx ttl keys s clk log s' clk' :
  0 < ttl -> monotone clk -> 0 <= ttl - slack ->
  run ctx ttl keys s clk = (log, s', clk') ->
  held key t (now_of clk) (deadlines s) ->
  forall c, c ∈ log -> admits key c -> t <= c_end c.
Proof.
  revert s clk log. induction keys as [|k keys IH]; intros s clk log Ht Hm Hs Hr Hh c Hc Ha; simpl in Hr.
  { injection Hr as <- _ _. by apply not_elem_of_nil in Hc. }
  destruct (IsDuplicate ctx k ttl s clk) as [[v s1] clk1] eqn:E1.
  destruct (run ctx ttl keys s1 clk1) as [[log1 s2] clk2] eqn:E2.
  injection Hr as <- -> ->.
  destruct (law_admission _ _ _ _ _ _ _ _ Ht Hm E1) as (Hl & now & [Hn1 Hn2] & Ho).
  apply elem_of_cons in Hc as [->|Hc].
  - destruct Ha as [Hk Hv]; simpl in *; subst.
    pose proof (held_not_new _ _ _ _ _ _ _ Hn1 Hh Ho). lia.
  - apply (IH s1 clk1 log1); eauto with gotime.
    eapply held_later; [exact Hn2|]. eapply held_admission; eauto.
Qed.

(** From any state, two admissions of one key are a window apart. *)
Lemma run_admissions_apart key ctx ttl keys s clk log s' clk' pre c1 mid c2 post :
  0 < ttl -> monotone clk -> 0 <= ttl - slack ->
  run ctx ttl keys s clk = (log, s', clk') ->
  log = pre ++ c1 :: mid ++ c2 :: post ->
  admits key c1 -> admits key c2 ->
  c_begin c1 + ttl - slack <= c_end c2.
Proof.
  revert s clk log pre. induction keys as [|k keys IH]; intros s clk log pre Ht Hm Hs Hr Hlog H1 H2; simpl in Hr.
  { injection Hr as <- _ _. by destruct pre. }
  destruct (IsDuplicate ctx k ttl s clk) as [[v s1] clk1] eqn:E1.
  destruct (run ctx ttl keys s1 clk1) as [[log1 s2] clk2] eqn:E2.
  injection Hr as <- -> ->.
  destruct (law_admission _ _ _ _ _ _ _ _ Ht Hm E1) as (Hl & now & [Hn1 Hn2] & Ho).
  destruct pre as [|c0 pre]; simplify_list_eq; [|by eapply (IH s1 clk1); eauto with gotime].
  destruct H1 as [Hk Hv]; simpl in *; subst.
  inversion Ho as [|? Hf (d & m1 & He & Hd & Hdl)|]; subst; [done|].
  assert (now + ttl - slack <= c_end c2); [|lia].
  eapply (run_held key _ ctx ttl keys s1 clk1); [..|exact H2]; eauto with gotime.
  - right. exists d. rewrite Hdl. split; [by rewrite lookup_insert_eq|lia].
  - apply elem_of_app. right. by left.
Qed.
End Window.

(** ** Properties of the MemoryStore *)

Section MemoryFacts.
Local Open Scope Z_scope.

(** The key is recorded and not past its expiry. *)
Definition memory_live (m : MemoryStore) (key : string) (now : Z) : bool :=
  match m_data m !! key with Some e => now <=? expiresAt e | None => false end.

Lemma memory_IsDuplicate_eq ctx key ttl m clk :
  m_Err m = None ->
  IsDuplicate ctx key ttl m clk =
    (if memory_live m key (now_of clk)
     then ((true, None), m, snd (time_Now clk))
     else ((false, None), mkMemoryStore (<[key := Entry (now_of clk + ttl)]> (m_data m)) None,
           snd (time_Now clk))).
Proof.
  intros He. unfold IsDuplicate, memory_store, memory_IsDuplicate, memory_live, now_of, time_Now, time_After, time_Add.
  rewrite He. simpl. destruct (m_data m !! key) as [e|]; [|done].
  destruct (Z.ltb_spec (expiresAt e) (ticks clk (pos clk))), (Z.leb_spec (ticks clk (pos clk)) (expiresAt e));
    try lia; [|done]. by rewrite insert_delete_eq.
Qed.

Lemma memory_run_live ctx ttl key n m clk :
  m_Err m = None ->
  (forall i, memory_live m key (ticks clk (pos clk + i)%nat) = true) ->
  fst (fst (run ctx ttl (replicate n key) m clk)) =
    map (fun i => Call key (ticks clk (pos clk + i)%nat) (ticks clk (pos clk + S i)%nat) (true, None)) (seq 0 n).
Proof.
  intros He. revert clk. induction n as [|n IH]; intros clk Hl; [done|].
  simpl replicate. cbn [run].
  rewrite memory_IsDuplicate_eq by done.
  pose proof (Hl 0%nat) as H0. rewrite Nat.add_0_r in H0. unfold now_of at 1. rewrite H0.
  specialize (IH (snd (time_Now clk))). simpl snd in IH.
  destruct (run ctx ttl (replicate n key) m _) as [[log m'] clk'] eqn:E. simpl in IH |- *.
  unfold now_of. simpl. rewrite IH.
  - f_equal; [f_equal; f_equal; lia|]. rewrite <-seq_shift, map_map. apply map_ext.
    intros i. f_equal; f_equal; lia.
  - intros i. specialize (Hl (Datatypes.S i)). by rewrite <-Nat.add_succ_comm in Hl.
Qed.

(** C13: the MemoryStore on every branch.  With [Err] set the call returns it
    and changes nothing; otherwise a key whose expiry is not past is a
    duplicate and the store is unchanged, and any other key is new and is
    recorded until [ttl] after the reading of the clock, every other key
    untouched; later calls then answer by that expiry alone. *)
Theorem memory_IsDuplicate_cases ctx key ttl m clk :
  (forall e, m_Err m = Some e -> IsDuplicate ctx key ttl m clk = ((false, Some e), m, clk)) /\
  (m_Err m = None -> memory_live m key (now_of clk) = true ->
     fst (IsDuplicate ctx key ttl m clk) = ((true, None), m)) /\
  (m_Err m = None -> memory_live m key (now_of clk) = false ->
     exists m', fst (IsDuplicate ctx key ttl m clk) = ((false, None), m') /\
       (forall t, memory_live m' key t = (t <=? now_of clk + ttl)) /\
       (forall k t, k <> key -> memory_live m' k t = memory_live m k t)).
Proof.
  split_and!.
  - intros e He. unfold IsDuplicate, memory_store, memory_IsDuplicate. by rewrite He.
  - intros He Hl. by rewrite memory_IsDuplicate_eq, Hl.
  - intros He Hl. rewrite memory_IsDuplicate_eq, Hl by done.
    eexists. split; [done|]. unfold memory_live. split.
    + intros t. simpl. by rewrite lookup_insert_eq.
    + intros k t Hk. simpl. by rewrite lookup_insert_ne.
Qed.

(** Exactly one of any number of racing callers is let through.  The mutex
    makes the calls one sequence; when all its clock readings fall into one
    window, the first call admits and every other call is a duplicate. *)
Theorem memory_exactly_one ctx ttl key n clk :
  (forall i, now_of clk <= ticks clk (pos clk + i)%nat <= now_of clk + ttl) ->
  map c_verdict (fst (fst (run ctx ttl (replicate (S n) key) NewMemory clk)))
    = (false, None) :: replicate n (true, None).
Proof.
  intros Hw. simpl replicate. cbn [run].
  rewrite memory_IsDuplicate_eq by done.
  replace (memory_live NewMemory key (now_of clk)) with false by done.
  pose proof (memory_run_live ctx ttl key n
    (mkMemoryStore (<[key := Entry (now_of clk + ttl)]> (m_data NewMemory)) None)
    (snd (time_Now clk)) eq_refl) as Hrun.
  destruct (run ctx ttl (replicate n key) _ _) as [[log m'] clk']. simpl in Hrun |- *.
  f_equal. rewrite Hrun.
  - rewrite map_map. simpl. rewrite <-(length_seq n 0) at 2. generalize (seq 0 n) as l.
    induction l as [|i l IH]; [done|]. simpl. by rewrite IH.
  - intros i. unfold memory_live. simpl. rewrite lookup_insert_eq. simpl.
    specialize (Hw (Datatypes.S i)). rewrite Nat.add_succ_r in Hw. apply Z.leb_le, Hw.
Qed.
End MemoryFacts.

(** Whatever store honours the (weaker) contract, from whatever state and for
    whatever sequence of calls, two admissions of the same key lie a whole
    window apart, up to the resolution of the store. *)
Theorem store_admissions_apart {T : Type} `{ST : !Store T} {deadlines : T -> gmap string Z} {slack : Z}
    `{L : !AdmissionLaws T deadlines slack} key ctx ttl keys s clk log s' clk'
    pre c1 mid c2 post :
  (0 < ttl)%Z -> monotone clk -> (0 <= ttl - slack)%Z ->
  run ctx ttl keys s clk = (log, s', clk') ->
  log = pre ++ c1 :: mid ++ c2 :: post ->
  admits key c1 -> admits key c2 ->
  (c_begin c1 + ttl - slack <= c_end c2)%Z.
Proof. apply run_admissions_apart. Qed.

(** ** Witnesses *)

Lemma memory_IsDuplicate_cases_witness :
  let m := mkMemoryStore {["key:abc" := Entry 50]} None in
  fst (IsDuplicate context_Background "key:abc" 10 m (clock_of [50%Z])) = ((true, None), m) /\
  fst (fst (IsDuplicate context_Background "key:abc" 10 m (clock_of [51%Z]))) = (false, None).
Proof.
  cbv zeta. split.
  - by apply (memory_IsDuplicate_cases context_Background "key:abc" 10
      (mkMemoryStore {["key:abc" := Entry 50]} None) (clock_of [50]%Z)).
  - destruct (proj2 (proj2 (memory_IsDuplicate_cases context_Background "key:abc" 10
      (mkMemoryStore {["key:abc" := Entry 50]} None) (clock_of [51]%Z))))
      as (m' & E & _ & _); [reflexivity|reflexivity|]. by rewrite E.
Defined.

Lemma memory_exactly_one_witness :
  map c_verdict (fst (fst (run context_Background (5 * Second) (replicate 50 "shared-key")
    NewMemory (step_clock 10 1000 2000))))
    = (false, None) :: replicate 49 (true, None).
Proof.
  apply (memory_exactly_one context_Background (5 * Second) "shared-key" 49 (step_clock 10 1000 2000)).
  intros i. unfold now_of. simpl. unfold Second, Millisecond, Microsecond, Nanosecond.
  destruct (i <? 10); lia.
Defined.

Lemma store_admissions_apart_witness :
  exists c1 c2, fst (fst (run context_Background 30 ["k"; "k"] NewMemory (step_clock 1 0 60))) = [c1; c2]
    /\ admits "k" c1 /\ admits "k" c2 /\ (c_begin c1 + 30 - 0 <= c_end c2)%Z.
Proof.
  eexists _, _. split; [vm_compute; reflexivity|]. split; [done|]. split; [done|].
  refine (store_admissions_apart (T:=MemoryStore) "k" context_Background 30 ["k"; "k"] NewMemory
    (step_clock 1 0 60) _ _ _ [] _ [] _ [] _ _ _ _ eq_refl _ _);
    [lia|apply step_clock_monotone; lia|lia|vm_compute; reflexivity|done|done].
Defined.
