(* ===== verification/LocalCache.v ===== *)
(** * LocalCache: internal/store/localcache.go

    The sharded in-process cache: 256 maps from keys to expiry instants
    ([UnixNano], an [int64]), the FNV-1a choice of the shard, lazy eviction on
    read and the periodic sweep.  Each critical section of a shard's lock is a
    definition of its own, so that the interleavings of [Interleaving] can use
    them as atomic steps.  The sharding is proved invisible: every operation is
    the corresponding operation on one flat map. *)

From S2P Require Import Prelude GoTime Store.

Local Open Scope Z_scope.

Definition numShards : nat := 256.

(** [cacheShard.data]: key → expiry *)
Abbreviation cacheShard := (gmap string Z).

Record LocalCache := mkLocalCache { shards : list cacheShard }.

Definition NewLocalCache : LocalCache := mkLocalCache (replicate numShards ∅).

(** [time.Time.UnixNano]: nanoseconds since 1970 as an [int64] *)
Definition UnixNano (t : Z) : Z := i64 t.

(** One round of FNV-1a: xor the byte, multiply by the prime, in 64 bits. *)
Definition fnv_step (h : Z) (b : Byte.byte) : Z := u64 (Z.lxor h (byte_Z b) * 1099511628211).

Definition shardIndex (key : string) : Z :=
  u8 (Z.land (foldl fnv_step 14695981039346656037 (bytes_of key)) 255).

Definition shard_of (key : string) : nat := Z.to_nat (shardIndex key).

(** The read section: [expiry, ok := shard.data[key]]. *)
Definition lc_read (c : LocalCache) (key : string) : option Z :=
  shards c !! shard_of key ≫= (fun m => m !! key).

Definition lc_update (f : cacheShard -> cacheShard) (key : string) (c : LocalCache) : LocalCache :=
  mkLocalCache (alter f (shard_of key) (shards c)).

(** The eviction section: look the key up again and delete it if it is expired
    by a new reading of the clock. *)
Definition lc_evict (key : string) (c : LocalCache) (clk : clock) : LocalCache * clock :=
  match lc_read c key with
  | None => (c, clk)
  | Some exp =>
      let '(now, clk) := time_Now clk in
      if exp <=? UnixNano now then (lc_update (delete key) key c, clk) else (c, clk)
  end.

Definition Contains (c : LocalCache) (key : string) (clk : clock) : bool * LocalCache * clock :=
  let '(now, clk) := time_Now clk in
  match lc_read c key with
  | None => (false, c, clk)
  | Some expiry =>
      if expiry <=? UnixNano now
      then let '(c, clk) := lc_evict key c clk in (false, c, clk)
      else (true, c, clk)
  end.

(** The write section of [Set]: [shard.data[key] = expiry]. *)
Definition lc_put (key : string) (expiry : Z) (c : LocalCache) : LocalCache :=
  lc_update (insert key expiry) key c.

Definition lc_Set (c : LocalCache) (key : string) (ttl : Z) (clk : clock) : LocalCache * clock :=
  let '(now, clk) := time_Now clk in
  let expiry := UnixNano (time_Add now ttl) in
  (lc_put key expiry c, clk).

(** [Len]: the sum over the shards *)
Definition Len (c : LocalCache) : Z := foldl (fun n m => n + Z.of_nat (size m)) 0 (shards c).

(** [for k, exp := range shard.data { if now >= exp { delete(shard.data, k) } }]
    for the order in which the runtime happens to visit the entries. *)
Definition sweep_entries (now : Z) (order : list (string * Z)) (data : cacheShard) : cacheShard :=
  foldl (fun data '(k, exp) => if exp <=? now then delete k data else data) data order.

(** The section of [sweep] that holds one shard's lock. *)
Definition sweep_shard (now : Z) (data : cacheShard) : cacheShard :=
  sweep_entries now (map_to_list data) data.

(** [sweep] reads the clock once and goes over all the shards. *)
Definition sweep (c : LocalCache) (clk : clock) : LocalCache * clock :=
  let '(now, clk) := time_Now clk in
  (mkLocalCache (map (sweep_shard (UnixNano now)) (shards c)), clk).

(** [SweepLoop]: the cases the [select] takes, in order, until it takes
    [ctx.Done()]. The last component says whether the loop has returned. *)
Inductive select_case := CtxDone | TickerC.
Fixpoint SweepLoop (cases : list select_case) (c : LocalCache) (clk : clock) : LocalCache * clock * bool :=
  match cases with
  | [] => (c, clk, false)
  | CtxDone :: _ => (c, clk, true)
  | TickerC :: cases => let '(c, clk) := sweep c clk in SweepLoop cases c clk
  end.

(** ** The flat view *)

(** Every shard holds only keys that hash to it. *)
Definition well_sharded (c : LocalCache) : Prop :=
  length (shards c) = numShards /\
  forall i (m : cacheShard) k, shards c !! i = Some m -> is_Some (m !! k) -> shard_of k = i.

(** The cache as one map. *)
Definition flat (c : LocalCache) : gmap string Z := foldr union ∅ (shards c).

Lemma shardIndex_range key : 0 <= shardIndex key < Z.of_nat numShards.
Proof. apply (u8_range (Z.land _ 255)). Qed.

Lemma shard_of_lt key : (shard_of key < numShards)%nat.
Proof. unfold shard_of. pose proof (shardIndex_range key). unfold numShards in *. lia. Qed.

Lemma shard_lookup c key : well_sharded c -> is_Some (shards c !! shard_of key).
Proof. intros [Hl _]. apply lookup_lt_is_Some. rewrite Hl. apply shard_of_lt. Qed.

(** A union of maps none of which holds [k] except perhaps one. *)
Lemma lookup_union_list (l : list cacheShard) i (m : cacheShard) k :
  l !! i = Some m ->
  (forall j m', l !! j = Some m' -> is_Some (m' !! k) -> j = i) ->
  foldr union ∅ l !! k = m !! k.
Proof.
  revert i. induction l as [|m0 l IH]; intros [|i] Hi Hk; [done|done| |]; simpl in *.
  - simplify_eq. destruct (m !! k) as [v|] eqn:E.
    + by apply lookup_union_Some_l.
    + rewrite lookup_union_r by done.
      assert (Hn : forall j m', l !! j = Some m' -> m' !! k = None).
      { intros j m' Hj. apply eq_None_not_Some. intros Hs. by specialize (Hk (S j) m' Hj Hs). }
      clear -Hn. induction l as [|m1 l IH]; simpl; [done|].
      rewrite lookup_union_r by (by apply (Hn 0%nat)). apply IH. intros j. apply (Hn (S j)).
  - rewrite lookup_union_r.
    + apply IH with i; [done|]. intros j m' Hj Hs. specialize (Hk (S j) m' Hj Hs). lia.
    + apply eq_None_not_Some. intros Hs. by specialize (Hk 0%nat m0 eq_refl Hs).
Qed.

Lemma lookup_flat c key : well_sharded c -> flat c !! key = lc_read c key.
Proof.
  intros Hw. destruct (shard_lookup c key Hw) as [m Hm].
  unfold lc_read. rewrite Hm. simpl. unfold flat.
  apply lookup_union_list with (shard_of key); [done|].
  intros j m' Hj Hs. symmetry. by eapply (proj2 Hw).
Qed.

(** Two well-sharded caches with the same reads have the same flat view. *)
Lemma flat_ext c (m : gmap string Z) :
  well_sharded c -> (forall k, lc_read c k = m !! k) -> flat c = m.
Proof. intros Hw Hr. apply map_eq. intros k. by rewrite lookup_flat. Qed.

Lemma lc_read_update f key c k : well_sharded c ->
  (forall m k', k' <> key -> f m !! k' = m !! k') ->
  lc_read (lc_update f key c) k =
  if decide (k = key) then shards c !! shard_of key ≫= (fun m => f m !! key) else lc_read c k.
Proof.
  intros Hw Hf. unfold lc_read, lc_update. simpl.
  case_decide as E; [subst|].
  - rewrite list_lookup_alter_eq. by destruct (shards c !! shard_of key).
  - destruct (decide (shard_of key = shard_of k)) as [Es|Es].
    + rewrite Es, list_lookup_alter_eq. destruct (shards c !! shard_of k); [|done].
      simpl. by apply Hf.
    + by rewrite list_lookup_alter_ne.
Qed.

Lemma well_sharded_update f key c :
  (forall m k', k' <> key -> f m !! k' = m !! k') ->
  well_sharded c -> well_sharded (lc_update f key c).
Proof.
  intros Hf [Hl Hw]. split; [by unfold lc_update; simpl; rewrite length_alter|].
  intros i m k Hi Hs. unfold lc_update in Hi. simpl in Hi.
  destruct (decide (shard_of key = i)) as [E|E].
  - rewrite E, list_lookup_alter_eq in Hi. destruct (shards c !! i) as [m0|] eqn:E0; [|done].
    simpl in Hi. simplify_eq. destruct (decide (k = key)) as [->|Hk]; [done|].
    rewrite Hf in Hs by done. by eapply Hw.
  - rewrite list_lookup_alter_ne in Hi by done. by eapply Hw.
Qed.

Lemma well_sharded_New : well_sharded NewLocalCache.
Proof.
  split; [done|]. intros i m k [-> _]%lookup_replicate [v Hv]. by rewrite lookup_empty in Hv.
Qed.

Lemma flat_New : flat NewLocalCache = ∅.
Proof. by apply map_eq. Qed.

Lemma delete_other (key : string) (m : cacheShard) k' : k' <> key -> delete key m !! k' = m !! k'.
Proof. intros. by apply lookup_delete_ne. Qed.
Lemma insert_other (key : string) (v : Z) (m : cacheShard) k' : k' <> key -> <[key := v]> m !! k' = m !! k'.
Proof. intros. by apply lookup_insert_ne. Qed.

Create HintDb localcache.
#[export] Hint Resolve well_sharded_update well_sharded_New delete_other insert_other : localcache.

Lemma well_sharded_put key e c : well_sharded c -> well_sharded (lc_put key e c).
Proof. unfold lc_put. eauto with localcache. Qed.

Lemma flat_put key e c : well_sharded c -> flat (lc_put key e c) = <[key := e]> (flat c).
Proof.
  intros Hw. apply flat_ext; [by apply well_sharded_put|]. intros k.
  unfold lc_put. rewrite lc_read_update by eauto with localcache.
  rewrite lookup_insert, (decide_ext (k = key) (key = k)) by done.
  case_decide as E; [|by rewrite lookup_flat].
  destruct (shard_lookup c key Hw) as [m ->]. simpl. apply lookup_insert_eq.
Qed.

Lemma flat_delete key c : well_sharded c -> flat (lc_update (delete key) key c) = delete key (flat c).
Proof.
  intros Hw. apply flat_ext; [eauto with localcache|]. intros k.
  rewrite lc_read_update by eauto with localcache.
  rewrite lookup_delete, (decide_ext (k = key) (key = k)) by done.
  case_decide as E; [|by rewrite lookup_flat].
  destruct (shard_lookup c key Hw) as [m ->]. simpl. apply lookup_delete_eq.
Qed.

(** ** Sweeping, in whatever order the map is visited *)

(** What is left of a map when the entries due at [now] go. *)
Definition unexpired (now : Z) (m : gmap string Z) : gmap string Z :=
  filter (fun kv => now < kv.2) m.

Lemma lookup_unexpired now m k v :
  unexpired now m !! k = Some v <-> m !! k = Some v /\ now < v.
Proof. apply map_lookup_filter_Some. Qed.

Lemma sweep_entries_Some now order data k v :
  sweep_entries now order data !! k = Some v <->
  data !! k = Some v /\ forall e, (k, e) ∈ order -> now < e.
Proof.
  revert data. induction order as [|[k' e'] order IH]; intros data; simpl.
  { split; [|by intros []]. intros H. split; [done|]. by intros e He%elem_of_nil. }
  rewrite IH. destruct (Z.leb_spec e' now) as [Hle|Hgt].
  - destruct (decide (k' = k)) as [->|Hne].
    + rewrite lookup_delete_eq. split; [by intros []|]. intros [_ H].
      specialize (H e' ltac:(left)). lia.
    + rewrite lookup_delete_ne by done. split; intros [? H]; (split; [done|]); intros e He.
      * apply elem_of_cons in He as [[= -> ->]|He]; [done|]. by apply H.
      * apply H. by right.
  - split; intros [? H]; (split; [done|]); intros e He.
    + apply elem_of_cons in He as [[= -> ->]|He]; [done|]. by apply H.
    + apply H. by right.
Qed.

Lemma sweep_entries_unexpired now order data :
  order ≡ₚ map_to_list data -> sweep_entries now order data = unexpired now data.
Proof.
  intros Ho. apply map_eq. intros k. apply option_eq. intros v.
  rewrite sweep_entries_Some, lookup_unexpired. split; intros [Hk H]; (split; [done|]).
  - apply H. rewrite Ho. by apply elem_of_map_to_list.
  - intros e. rewrite Ho, elem_of_map_to_list. intros He. by simplify_eq.
Qed.

Lemma lc_read_sweep c clk k :
  lc_read (fst (sweep c clk)) k =
  match lc_read c k with
  | Some e => if e <=? UnixNano (now_of clk) then None else Some e
  | None => None
  end.
Proof.
  unfold sweep, time_Now, lc_read. simpl. rewrite list_lookup_fmap.
  destruct (shards c !! shard_of k) as [m|]; simpl; [|done].
  unfold sweep_shard. rewrite sweep_entries_unexpired by done.
  change (ticks clk (pos clk)) with (now_of clk).
  apply option_eq. intros v. rewrite lookup_unexpired.
  destruct (m !! k) as [e|]; [|naive_solver].
  destruct (Z.leb_spec e (UnixNano (now_of clk))); naive_solver lia.
Qed.

Lemma well_sharded_sweep c clk : well_sharded c -> well_sharded (fst (sweep c clk)).
Proof.
  intros [Hl Hw]. unfold sweep, time_Now. simpl. split; simpl; [by rewrite List.length_map|].
  intros i m k. rewrite list_lookup_fmap.
  destruct (shards c !! i) as [m0|] eqn:E; [|done]. intros [= <-] [v Hv].
  unfold sweep_shard in Hv. apply sweep_entries_Some in Hv as [Hv _]. eauto.
Qed.

Lemma flat_sweep c clk : well_sharded c ->
  flat (fst (sweep c clk)) = unexpired (UnixNano (now_of clk)) (flat c).
Proof.
  intros Hw. apply flat_ext; [by apply well_sharded_sweep|]. intros k.
  rewrite lc_read_sweep. apply option_eq. intros v.
  rewrite lookup_unexpired, lookup_flat by done.
  destruct (lc_read c k) as [e|]; [|naive_solver].
  destruct (Z.leb_spec e (UnixNano (now_of clk))); naive_solver lia.
Qed.

(** ** [Len] counts the flat map *)

Lemma foldl_size (l : list cacheShard) n :
  foldl (fun n m => n + Z.of_nat (size m)) n l = n + foldl (fun n m => n + Z.of_nat (size m)) 0 l.
Proof.
  revert n. induction l as [|m l IH]; intros n; cbn [foldl]; [lia|].
  rewrite (IH (n + _)), (IH (0 + _)). lia.
Qed.

Lemma size_union_list (l : list cacheShard) :
  (forall i j (m m' : cacheShard) k, l !! i = Some m -> l !! j = Some m' ->
     is_Some (m !! k) -> is_Some (m' !! k) -> i = j) ->
  foldl (fun n m => n + Z.of_nat (size m)) 0 l = Z.of_nat (size (foldr union ∅ l)).
Proof.
  induction l as [|m l IH]; intros Hd; cbn [foldl foldr]; [done|].
  rewrite foldl_size, IH.
  - rewrite map_size_disj_union; [lia|]. apply map_disjoint_spec. intros k v w Hm Hu.
    assert (exists j m', l !! j = Some m' /\ is_Some (m' !! k)) as (j & m' & Hj & Hs).
    { clear -Hu. induction l as [|m1 l IH]; simpl in Hu; [by rewrite lookup_empty in Hu|].
      apply lookup_union_Some_raw in Hu as [Hu|[_ Hu]].
      - exists 0%nat, m1. eauto.
      - destruct (IH Hu) as (j & m' & ? & ?). by exists (S j), m'. }
    by specialize (Hd 0%nat (S j) m m' k eq_refl Hj ltac:(eauto) Hs).
  - intros i j m1 m2 k Hi Hj H1 H2. by specialize (Hd (S i) (S j) m1 m2 k Hi Hj H1 H2) as [= ->].
Qed.

Lemma Len_flat c : well_sharded c -> Len c = Z.of_nat (size (flat c)).
Proof.
  intros [_ Hw]. apply size_union_list. intros i j m m' k Hi Hj H1 H2.
  by rewrite <-(Hw i m k Hi H1), <-(Hw j m' k Hj H2).
Qed.

(** ** Liveness of a key: what a lookup at [t] would answer *)

Definition lc_live (c : LocalCache) (key : string) (t : Z) : bool :=
  match lc_read c key with Some e => UnixNano t <? e | None => false end.

Lemma Contains_verdict c key clk : fst (fst (Contains c key clk)) = lc_live c key (now_of clk).
Proof.
  unfold Contains, lc_live, now_of, time_Now. destruct (lc_read c key) as [e|]; [|done].
  destruct (Z.leb_spec e (UnixNano (ticks clk (pos clk)))) as [H|H].
  - destruct (lc_evict _ _ _). simpl. by destruct (Z.ltb_spec (UnixNano (ticks clk (pos clk))) e); [lia|].
  - simpl. by destruct (Z.ltb_spec (UnixNano (ticks clk (pos clk))) e); [|lia].
Qed.

(** [lc_evict] leaves the cache alone or deletes an entry that is due. *)
Lemma lc_evict_cases key c clk :
  lc_evict key c clk = (c, clk) \/
  (exists e, lc_read c key = Some e /\
     ((e <= UnixNano (now_of clk) /\ lc_evict key c clk = (lc_update (delete key) key c, snd (time_Now clk)))
      \/ lc_evict key c clk = (c, snd (time_Now clk)))).
Proof.
  unfold lc_evict, time_Now, now_of. destruct (lc_read c key) as [e|]; [|by left].
  right. exists e. split; [done|].
  destruct (Z.leb_spec e (UnixNano (ticks clk (pos clk)))); [by left|by right].
Qed.

Lemma well_sharded_evict key c clk : well_sharded c -> well_sharded (fst (lc_evict key c clk)).
Proof.
  intros Hw. destruct (lc_evict_cases key c clk) as [->|(e & _ & [[_ ->]| ->])]; simpl; [done| |done].
  eauto with localcache.
Qed.

Lemma evict_live key c clk k t : well_sharded c ->
  UnixNano (now_of clk) <= UnixNano t ->
  lc_live (fst (lc_evict key c clk)) k t = lc_live c k t.
Proof.
  intros Hw Ht. destruct (lc_evict_cases key c clk) as [->|(e & He & [[Hd ->]| ->])]; simpl; [done| |done].
  unfold lc_live. rewrite lc_read_update by eauto with localcache.
  case_decide as E; [subst|done]. rewrite He.
  destruct (shard_lookup c key Hw) as [m ->]. simpl. rewrite lookup_delete_eq.
  by destruct (Z.ltb_spec (UnixNano t) e); [lia|].
Qed.

Lemma sweep_live c clk k t : UnixNano (now_of clk) <= UnixNano t ->
  lc_live (fst (sweep c clk)) k t = lc_live c k t.
Proof.
  intros Ht. unfold lc_live. rewrite lc_read_sweep.
  destruct (lc_read c k) as [e|]; [|done].
  destruct (Z.leb_spec e (UnixNano (now_of clk))); [|done].
  by destruct (Z.ltb_spec (UnixNano t) e); [lia|].
Qed.

Lemma put_live key e c k t : well_sharded c ->
  lc_live (lc_put key e c) k t = if decide (k = key) then UnixNano t <? e else lc_live c k t.
Proof.
  intros Hw. unfold lc_live. rewrite <-!lookup_flat by (done || by apply well_sharded_put).
  rewrite flat_put by done. rewrite lookup_insert, (decide_ext (k = key) (key = k)) by done.
  by case_decide.
Qed.

#[export] Hint Resolve well_sharded_put well_sharded_sweep well_sharded_evict : localcache.

(** ** Properties *)

(** What [Contains] does to the flat map: it deletes the key when both of its
    readings of the clock find the entry due. *)
Definition contains_flat (key : string) (clk : clock) (m : gmap string Z) : gmap string Z :=
  match m !! key with
  | Some e =>
      if (e <=? UnixNano (now_of clk)) && (e <=? UnixNano (now_of (snd (time_Now clk))))
      then delete key m else m
  | None => m
  end.

Lemma Contains_flat c key clk : well_sharded c ->
  well_sharded (snd (fst (Contains c key clk))) /\
  flat (snd (fst (Contains c key clk))) = contains_flat key clk (flat c).
Proof.
  intros Hw. unfold Contains, contains_flat, lc_evict, now_of, time_Now.
  rewrite lookup_flat by done. destruct (lc_read c key) as [e|]; simpl; [|done].
  destruct (e <=? UnixNano (ticks clk (pos clk))); simpl; [|done].
  destruct (e <=? UnixNano (ticks clk (S (pos clk)))); simpl; [|done].
  split; [eauto with localcache|by apply flat_delete].
Qed.

(** C17: the sharded cache is one map from keys to expiry instants: a new cache
    is the empty map; [Contains] answers whether the key is recorded with an
    expiry after the reading of the clock, and removes at most that key, and only
    when it is due; [Set] inserts the key; [sweep] keeps exactly the entries that
    are not due; [Len] is the size of the map.  Every operation keeps each key in
    the shard its hash names. *)
Theorem localcache_refines_map c key ttl clk :
  (well_sharded NewLocalCache /\ flat NewLocalCache = ∅) /\
  (well_sharded c ->
    (fst (fst (Contains c key clk)) = true <->
       exists e, flat c !! key = Some e /\ UnixNano (now_of clk) < e) /\
    (well_sharded (snd (fst (Contains c key clk))) /\
     flat (snd (fst (Contains c key clk))) = contains_flat key clk (flat c)) /\
    (well_sharded (fst (lc_Set c key ttl clk)) /\
     flat (fst (lc_Set c key ttl clk)) = <[key := UnixNano (now_of clk + ttl)]> (flat c)) /\
    (well_sharded (fst (sweep c clk)) /\
     flat (fst (sweep c clk)) = unexpired (UnixNano (now_of clk)) (flat c)) /\
    Len c = Z.of_nat (size (flat c))).
Proof.
  split; [split; [apply well_sharded_New|apply flat_New]|]. intros Hw. split_and!.
  - rewrite Contains_verdict. unfold lc_live. rewrite lookup_flat by done.
    destruct (lc_read c key) as [e|]; [|by split; [|intros (e & [=] & _)]].
    rewrite Z.ltb_lt. split; [by exists e|]. by intros (e' & [= ->] & ?).
  - by apply Contains_flat.
  - by apply Contains_flat.
  - by apply well_sharded_put.
  - by apply flat_put.
  - by apply well_sharded_sweep.
  - by apply flat_sweep.
  - by apply Len_flat.
Qed.

(** A key that is [Set] is contained exactly until [ttl] after the reading of
    the clock (an expiry instant that fits an [int64]), and other keys keep their
    answers. *)
Theorem set_then_contains c key ttl clk k clk' :
  well_sharded c -> in_i64 (now_of clk + ttl) -> in_i64 (now_of clk') ->
  fst (fst (Contains (fst (lc_Set c key ttl clk)) k clk')) =
    if decide (k = key) then now_of clk' <? now_of clk + ttl
    else fst (fst (Contains c k clk')).
Proof.
  intros Hw Hr Hr'. rewrite !Contains_verdict. unfold lc_Set, time_Now. simpl.
  rewrite put_live by done. case_decide; [|done].
  unfold UnixNano, time_Add, now_of in *. by rewrite !i64_id.
Qed.

(** C39: when the expiry does not fit an [int64] it wraps to an instant before
    1970, so the entry is dead from the start: the cache then answers "unknown"
    and can never report a duplicate that is not one. *)
Theorem set_overflow_is_miss c key ttl clk clk' :
  well_sharded c ->
  0 <= now_of clk < 2 ^ 63 -> 0 <= ttl < 2 ^ 63 -> 2 ^ 63 <= now_of clk + ttl ->
  0 <= now_of clk' < 2 ^ 63 ->
  fst (fst (Contains (fst (lc_Set c key ttl clk)) key clk')) = false.
Proof.
  intros Hw Hn Ht Ho Hn'. rewrite Contains_verdict. unfold lc_Set, time_Now. simpl.
  rewrite put_live, decide_True by done.
  unfold UnixNano, time_Add, now_of in *. rewrite (i64_overflow (_ + _)) by lia.
  rewrite i64_id by (unfold in_i64; lia). apply Z.ltb_ge. lia.
Qed.

(** The order in which the runtime visits a map while it is swept does not
    matter: every order leaves exactly the entries that are not due. *)
Theorem sweep_order_irrelevant now data order :
  order ≡ₚ map_to_list data -> sweep_entries now order data = sweep_shard now data.
Proof.
  intros Ho. unfold sweep_shard. by rewrite !sweep_entries_unexpired.
Qed.

(** Evicting and sweeping are invisible: no lookup at the time of the
    operation or later, of any key, gets another answer than it would have got
    without it. *)
Theorem eviction_invisible c key clk k t :
  well_sharded c -> UnixNano (now_of clk) <= UnixNano t ->
  UnixNano (now_of (snd (time_Now clk))) <= UnixNano t ->
  lc_live (snd (fst (Contains c key clk))) k t = lc_live c k t /\
  lc_live (fst (sweep c clk)) k t = lc_live c k t.
Proof.
  intros Hw H1 H2. split; [|by apply sweep_live].
  unfold Contains, time_Now in *. simpl in *.
  destruct (lc_read c key) as [e|]; [|done].
  destruct (e <=? UnixNano (ticks clk (pos clk))); [|done].
  destruct (lc_evict key c _) as [c' clk'] eqn:E. simpl.
  rewrite <-(evict_live key c (snd (time_Now clk)) k t Hw H2).
  unfold time_Now. simpl. by rewrite E.
Qed.

Lemma SweepLoop_ticks n cases c clk : well_sharded c ->
  exists c', SweepLoop (replicate n TickerC ++ cases) c clk
             = SweepLoop cases c' (Clock (ticks clk) (pos clk + n)) /\ well_sharded c' /\
    forall k v, flat c' !! k = Some v <->
      flat c !! k = Some v /\ forall i, (i < n)%nat -> UnixNano (ticks clk (pos clk + i)) < v.
Proof.
  revert c clk. induction n as [|n IH]; intros c clk Hw; cbn [replicate app SweepLoop].
  { exists c. rewrite Nat.add_0_r. destruct clk. split_and!; [done..|]. intros k v.
    split; [|by intros []]. intros H. split; [done|]. lia. }
  destruct (sweep c clk) as [c1 clk1] eqn:E.
  pose proof (well_sharded_sweep c clk Hw) as Hw1. pose proof (flat_sweep c clk Hw) as Hf.
  rewrite E in Hw1, Hf. simpl in Hw1, Hf.
  assert (clk1 = Clock (ticks clk) (S (pos clk))) as -> by (unfold sweep, time_Now in E; congruence).
  destruct (IH c1 (Clock (ticks clk) (S (pos clk))) Hw1) as (c' & -> & Hw' & Hc').
  exists c'. simpl. rewrite <-Nat.add_succ_comm. split_and!; [done..|]. intros k v.
  rewrite Hc', Hf, lookup_unexpired. unfold now_of. simpl. split.
  - intros [[Hk H0] Hi]. split; [done|]. intros [|i] Hlt; [by rewrite Nat.add_0_r|].
    rewrite <-Nat.add_succ_comm. apply (Hi i). lia.
  - intros [Hk Hi]. split; [split; [done|]|].
    + specialize (Hi 0%nat). rewrite Nat.add_0_r in Hi. apply Hi. lia.
    + intros i Hlt. rewrite <-Nat.add_succ_r. apply Hi. lia.
Qed.

(** The sweep loop: it returns when, and only when, its [select] takes the
    cancelled context, whatever is still pending then is not run, and until then
    every tick removed exactly the entries due at its reading of the clock. *)
Theorem sweep_loop_stops n rest c clk :
  well_sharded c ->
  snd (SweepLoop (replicate n TickerC) c clk) = false /\
  exists c' clk', SweepLoop (replicate n TickerC ++ CtxDone :: rest) c clk = (c', clk', true) /\
    forall k v, flat c' !! k = Some v <->
      flat c !! k = Some v /\ forall i, (i < n)%nat -> UnixNano (ticks clk (pos clk + i)) < v.
Proof.
  intros Hw. split.
  - destruct (SweepLoop_ticks n [] c clk Hw) as (c' & E & _).
    rewrite app_nil_r in E. by rewrite E.
  - destruct (SweepLoop_ticks n (CtxDone :: rest) c clk Hw) as (c' & -> & _ & Hc').
    by eexists _, _.
Qed.

(** ** What the cache holds in the long run *)

(** Lookups, writes and sweeps one after another, all writes with one time to
    live; the keys written, with the reading of the clock, newest first. *)
Inductive cache_op := OpContains (key : string) | OpSet (key : string) | OpSweep.

Definition cache_op_step (ttl : Z) (op : cache_op) (st : list (string * Z) * LocalCache * clock)
  : list (string * Z) * LocalCache * clock :=
  let '(sets, c, clk) := st in
  match op with
  | OpContains key => let '(_, c, clk) := Contains c key clk in (sets, c, clk)
  | OpSet key => let '(c, clk') := lc_Set c key ttl clk in ((key, now_of clk) :: sets, c, clk')
  | OpSweep => let '(c, clk) := sweep c clk in (sets, c, clk)
  end.
Definition cache_run (ttl : Z) (ops : list cache_op) (clk : clock) : list (string * Z) * LocalCache * clock :=
  foldl (fun st op => cache_op_step ttl op st) ([], NewLocalCache, clk) ops.

Section LongRun.
Context (ttl : Z) (tk : nat -> Z).
Context (Hmono : forall i j, (i <= j)%nat -> tk i <= tk j).
Context (Hrange : forall i, 0 <= tk i /\ tk i + ttl < 2 ^ 63) (Httl : 0 <= ttl).

(** The cache and the writes that made it, at some reading of the clock. *)
Record run_inv (st : list (string * Z) * LocalCache * clock) : Prop := {
  ri_clock : ticks (snd st) = tk;
  ri_sharded : well_sharded (snd (fst st));
  ri_entry : forall k e, flat (snd (fst st)) !! k = Some e -> exists t, (k, t) ∈ fst (fst st) /\ e = t + ttl;
  ri_written : forall k t, (k, t) ∈ fst (fst st) -> t <= now_of (snd st) /\
                 (t + ttl <= now_of (snd st) \/ exists e, flat (snd (fst st)) !! k = Some e /\ t + ttl <= e);
}.

Lemma UnixNano_tick i : UnixNano (tk i) = tk i.
Proof. apply i64_id. unfold in_i64. pose proof (Hrange i). lia. Qed.

(** A step that only removes entries that are due by the reading it ends with. *)
Lemma run_inv_remove sets c clk c' clk' :
  run_inv (sets, c, clk) -> ticks clk' = tk -> (pos clk <= pos clk')%nat -> well_sharded c' ->
  (forall k e, flat c' !! k = Some e -> flat c !! k = Some e) ->
  (forall k e, flat c !! k = Some e -> flat c' !! k = Some e \/ e <= now_of clk') ->
  run_inv (sets, c', clk').
Proof.
  intros [Hc Hw He Hs] Ht Hp Hw' Hsub Hdue. simpl in *.
  assert (Hle : now_of clk <= now_of clk') by (unfold now_of; rewrite Hc, Ht; by apply Hmono).
  split; simpl; [done|done|by eauto|]. intros k t Hin. destruct (Hs k t Hin) as [Hn Hor]. split; [lia|].
  destruct Hor as [?|(e & Hk & ?)]; [left; lia|].
  destruct (Hdue k e Hk) as [?|?]; [right; by exists e|left; lia].
Qed.

Lemma run_inv_step op st : run_inv st -> run_inv (cache_op_step ttl op st).
Proof.
  destruct st as [[sets c] clk]. intros HI. pose proof (ri_clock _ HI) as Hc. pose proof (ri_sharded _ HI) as Hw.
  simpl in Hc, Hw. destruct op as [key|key|]; simpl.
  - destruct (Contains_flat c key clk Hw) as [Hw' Hf].
    assert (Hclk : ticks (snd (Contains c key clk)) = tk /\ (pos clk < pos (snd (Contains c key clk)))%nat /\
      (forall e, flat c !! key = Some e -> e <= UnixNano (now_of (snd (time_Now clk))) ->
         e <= UnixNano (now_of clk) -> e <= now_of (snd (Contains c key clk)))).
    { unfold Contains, lc_evict, time_Now, now_of. rewrite lookup_flat, <-Hc by done. simpl.
      destruct (lc_read c key) as [e|]; simpl; [|split_and!; [done|lia|done]].
      destruct (Z.leb_spec e (UnixNano (ticks clk (pos clk)))); simpl; [|split_and!; [done|lia|intros e' [= ->]; lia]].
      destruct (Z.leb_spec e (UnixNano (ticks clk (S (pos clk))))); simpl; split_and!; try done; try lia;
        intros e' [= ->]; rewrite Hc, !UnixNano_tick; intros; try (pose proof (Hmono (S (pos clk)) (S (S (pos clk))) ltac:(lia))); lia. }
    destruct (Contains c key clk) as [[hit c'] clk']. simpl in *. destruct Hclk as (Ht & Hp & Hd).
    eapply run_inv_remove; [exact HI|exact Ht|lia|exact Hw'|..]; intros k e; rewrite Hf; unfold contains_flat;
      destruct (flat c !! key) as [e0|] eqn:E0; try done; try (by left);
      destruct (_ && _) eqn:Eb; try done; try (by left).
    + intros [_ ?]%lookup_delete_Some. done.
    + intros Hk. apply andb_true_iff in Eb as [E1%Z.leb_le E2%Z.leb_le].
      destruct (decide (k = key)) as [->|Hne]; [|left; by rewrite lookup_delete_ne].
      right. assert (e = e0) as -> by congruence. apply (Hd e0 eq_refl); [exact E2|exact E1].
  - destruct HI as [_ _ He Hs]. simpl in *. unfold UnixNano, time_Add, now_of.
    assert (Hn : i64 (ticks clk (pos clk) + ttl) = tk (pos clk) + ttl).
    { rewrite Hc. apply i64_id. unfold in_i64. pose proof (Hrange (pos clk)). lia. }
    rewrite Hn. assert (Hle : tk (pos clk) <= tk (S (pos clk))) by (apply Hmono; lia).
    split; simpl; [done|by apply well_sharded_put|..].
    + intros k e. rewrite flat_put by done. rewrite Hc.
      intros [[<- <-]|[Hne Hk]]%lookup_insert_Some; [exists (tk (pos clk)); split; [left|done]|].
      destruct (He k e Hk) as (t & Hin & ->). exists t. split; [by right|done].
    + intros k t Hin. rewrite flat_put by done. unfold now_of in *. simpl. rewrite Hc in *.
      apply elem_of_cons in Hin as [[= -> ->]|Hin].
      * split; [done|]. right. exists (tk (pos clk) + ttl). by rewrite lookup_insert_eq.
      * destruct (Hs k t Hin) as [Ht Hor]. split; [lia|].
        destruct (decide (k = key)) as [->|Hne].
        -- right. exists (tk (pos clk) + ttl). rewrite lookup_insert_eq. split; [done|lia].
        -- rewrite lookup_insert_ne by done. destruct Hor as [?|?]; [left; lia|by right].
  - pose proof (flat_sweep c clk Hw) as Hf. pose proof (well_sharded_sweep c clk Hw) as Hw'.
    unfold sweep, time_Now in *. simpl in *.
    assert (Hle : tk (pos clk) <= tk (S (pos clk))) by (apply Hmono; lia).
    eapply run_inv_remove; [exact HI|exact Hc|simpl; lia|exact Hw'|..]; intros k e; rewrite Hf.
    + rewrite lookup_unexpired. tauto.
    + intros Hk. rewrite lookup_unexpired. unfold now_of. simpl. rewrite Hc, UnixNano_tick.
      destruct (decide (tk (pos clk) < e)); [by left|right; lia].
Qed.

Lemma run_inv_run ops clk : ticks clk = tk -> run_inv (cache_run ttl ops clk).
Proof.
  intros Hc. unfold cache_run.
  assert (H0 : run_inv ([], NewLocalCache, clk)).
  { split; simpl; [done|apply well_sharded_New|..].
    - intros k e. rewrite flat_New. by rewrite lookup_empty.
    - intros k t Hin. by apply not_elem_of_nil in Hin. }
  revert H0. generalize (@nil (string * Z), NewLocalCache, clk) as st. clear Hc clk.
  induction ops as [|op ops IH]; intros st Hst; [done|]. cbn [foldl]. apply IH. by apply run_inv_step.
Qed.
End LongRun.

(** The writes whose time to live is not over. *)
Definition recent (ttl now : Z) (sets : list (string * Z)) : list (string * Z) :=
  filter (fun kt => now < snd kt + ttl) sets.

Lemma size_le_keys (m : gmap string Z) (l : list string) :
  (forall k, is_Some (m !! k) -> k ∈ l) -> (size m <= length l)%nat.
Proof.
  intros Hk. rewrite <-length_map_to_list, <-(length_fmap fst).
  apply submseteq_length, NoDup_submseteq; [apply NoDup_fst_map_to_list|].
  intros k ([k' e] & -> & Hin%elem_of_map_to_list)%list_elem_of_fmap. apply Hk. by exists e.
Qed.

(** C18: the memory of the cache is bounded by the traffic of one window.  After any
    sequence of lookups, writes and sweeps under a clock that does not go back, a
    sweep leaves exactly the keys written within the last [ttl], so the cache is
    never larger than the number of writes in that time. *)
Theorem sweep_bounds_cache ttl ops clk :
  monotone clk -> (forall i, 0 <= ticks clk i /\ ticks clk i + ttl < 2 ^ 63) -> 0 <= ttl ->
  let '(sets, c, clk1) := cache_run ttl ops clk in
  let swept := fst (sweep c clk1) in
  (forall k, is_Some (lc_read swept k) <-> exists t, (k, t) ∈ recent ttl (now_of clk1) sets) /\
  Len swept <= Z.of_nat (length (recent ttl (now_of clk1) sets)).
Proof.
  intros Hm Hr Ht. pose proof (run_inv_run ttl (ticks clk) Hm Hr Ht ops clk eq_refl) as HI.
  destruct (cache_run ttl ops clk) as [[sets c] clk1]. destruct HI as [Hc Hw He Hs]. cbn [fst snd] in *. cbv zeta.
  pose proof (well_sharded_sweep c clk1 Hw) as Hw'. pose proof (flat_sweep c clk1 Hw) as Hf.
  assert (Hu : UnixNano (now_of clk1) = now_of clk1).
  { unfold now_of. rewrite Hc. by apply (UnixNano_tick ttl). }
  rewrite Hu in Hf.
  assert (Hkeys : forall k, is_Some (lc_read (fst (sweep c clk1)) k) <->
    exists t, (k, t) ∈ recent ttl (now_of clk1) sets).
  { intros k. rewrite <-lookup_flat, Hf by done. unfold recent. split.
    - intros [e [Hk Hlt]%lookup_unexpired]. destruct (He k e Hk) as (t & Hin & ->). exists t.
      by apply list_elem_of_filter.
    - intros (t & [Hlt Hin]%list_elem_of_filter). simpl in Hlt.
      destruct (Hs k t Hin) as [_ [?|(e & Hk & ?)]]; [lia|].
      exists e. apply lookup_unexpired. split; [done|lia]. }
  split; [exact Hkeys|]. rewrite Len_flat by done. rewrite <-(length_fmap fst). apply Nat2Z.inj_le, size_le_keys.
  intros k. rewrite lookup_flat, Hkeys by done. intros [t Hin]. by apply (list_elem_of_fmap_2 fst _ (k, t)).
Qed.

(** ** Witnesses *)

Lemma localcache_refines_map_witness :
  well_sharded NewLocalCache /\
  flat (fst (lc_Set NewLocalCache "key1" (30 * Millisecond) (clock_of [0]))) = {["key1" := 30000000]} /\
  Len NewLocalCache = 0.
Proof.
  destruct (localcache_refines_map NewLocalCache "key1" (30 * Millisecond) (clock_of [0]))
    as [[Hw He] H]. destruct (H Hw) as (_ & _ & [_ Hf] & _ & Hl).
  split; [exact Hw|split].
  - by rewrite Hf, He.
  - by rewrite Hl, He.
Defined.

Lemma set_then_contains_witness :
  fst (fst (Contains (fst (lc_Set NewLocalCache "key1" (5 * Second) (clock_of [0])))
              "key1" (clock_of [4999999999]))) = true.
Proof.
  refine (set_then_contains NewLocalCache "key1" (5 * Second) (clock_of [0]) "key1"
    (clock_of [4999999999]) well_sharded_New _ _); by vm_compute.
Defined.

Lemma set_overflow_is_miss_witness :
  (** 2026-01-01, and the longest duration a window can be configured to *)
  fst (fst (Contains (fst (lc_Set NewLocalCache "key1" (2 ^ 63 - 1) (clock_of [1767225600000000000])))
              "key1" (clock_of [1767225600000000001]))) = false.
Proof.
  apply (set_overflow_is_miss NewLocalCache "key1" (2 ^ 63 - 1) (clock_of [1767225600000000000])
    (clock_of [1767225600000000001]) well_sharded_New); unfold now_of; simpl; lia.
Defined.

Lemma sweep_order_irrelevant_witness :
  sweep_entries 5 [("b", 9); ("a", 3)] {["a" := 3; "b" := 9]} = sweep_shard 5 {["a" := 3; "b" := 9]}.
Proof.
  apply (sweep_order_irrelevant 5 {["a" := 3; "b" := 9]} [("b", 9); ("a", 3)]).
  vm_compute. apply Permutation_swap || reflexivity.
Defined.

Lemma eviction_invisible_witness :
  let c := fst (lc_Set NewLocalCache "key1" 30 (clock_of [0])) in
  lc_live (fst (sweep c (clock_of [10]))) "key1" 29 = lc_live c "key1" 29.
Proof.
  cbv zeta.
  refine (proj2 (eviction_invisible (fst (lc_Set NewLocalCache "key1" 30 (clock_of [0]))) "other"
    (clock_of [10]) "key1" 29 (well_sharded_put _ _ _ well_sharded_New) _ _)); by vm_compute.
Defined.

Lemma sweep_loop_stops_witness :
  snd (SweepLoop (replicate 3 TickerC) NewLocalCache (clock_of [1; 2; 3])) = false.
Proof. apply (sweep_loop_stops 3 [] NewLocalCache (clock_of [1; 2; 3]) well_sharded_New). Defined.

(** Two keys are written at 0 and 40 with a time to live of 30, and swept at 40. *)
Lemma sweep_bounds_cache_witness :
  let '(_, c, clk) := cache_run 30 [OpSet "a"; OpContains "a"; OpSet "b"] (step_clock 2 0 40) in
  Len (fst (sweep c clk)) <= 1.
Proof.
  assert (Hr : forall i, 0 <= ticks (step_clock 2 0 40) i /\ ticks (step_clock 2 0 40) i + 30 < 2 ^ 63).
  { intros i. simpl. destruct (i <? 2)%nat; lia. }
  pose proof (sweep_bounds_cache 30 [OpSet "a"; OpContains "a"; OpSet "b"] (step_clock 2 0 40)
    (step_clock_monotone 2 0 40 ltac:(lia)) Hr ltac:(lia)) as H.
  assert (E : (fst (fst (cache_run 30 [OpSet "a"; OpContains "a"; OpSet "b"] (step_clock 2 0 40))),
    now_of (snd (cache_run 30 [OpSet "a"; OpContains "a"; OpSet "b"] (step_clock 2 0 40)))) = ([("b", 40); ("a", 0)], 40))
    by (vm_compute; reflexivity).
  revert H E. destruct (cache_run 30 _ _) as [[sets c] clk]. cbn [fst snd].
  intros [_ Hl] [= -> Hn]. rewrite Hn in Hl. exact Hl.
Defined.
