(* ===== verification/Metrics.v ===== *)
(** * Metrics: internal/metrics/metrics.go

    The Prometheus collectors the service registers, as data, and the calls the
    service makes on them, as events of a trace. *)

From S2P Require Import Prelude.

(** [prometheus.CounterOpts] / [HistogramOpts] and the label names. Bucket
    bounds are in units of 50 microseconds, which represents each of them. *)
Inductive collector_kind := CounterVec | HistogramVec (buckets : list Z) | Counter.

Record collector := Collector {
  Namespace : string;
  Name : string;
  kind : collector_kind;
  labels : list string;
}.

(** [.0001, .00025, .0005, .001, .0025, .005, .01, .025, .05, .1, .25] seconds *)
Definition hftBuckets : list Z := [2; 5; 10; 20; 50; 100; 200; 500; 1000; 2000; 5000]%Z.

Definition RequestsTotal := Collector "dedup" "http_requests_total" CounterVec ["method"; "path"; "status"].
Definition RequestDuration :=
  Collector "dedup" "http_request_duration_seconds" (HistogramVec hftBuckets) ["method"; "path"].
Definition DedupChecksTotal := Collector "dedup" "checks_total" CounterVec ["outcome"].
Definition StoreLatency :=
  Collector "dedup" "store_latency_seconds" (HistogramVec hftBuckets) ["operation"].
Definition CacheHitsTotal := Collector "dedup" "cache_hits_total" Counter [].
Definition CacheMissesTotal := Collector "dedup" "cache_misses_total" Counter [].

(** the package's collectors, in the order [promauto] registers them *)
Definition collectors : list collector :=
  [RequestsTotal; RequestDuration; DedupChecksTotal; StoreLatency; CacheHitsTotal; CacheMissesTotal].

(** A call on a collector: [Inc] with label values, or [Observe] of a duration
    in nanoseconds. *)
Inductive metric_event :=
  | Inc (c : collector) (values : list string)
  | Observe (c : collector) (values : list string) (d : Z).

Definition event_collector (e : metric_event) : collector :=
  match e with Inc c _ | Observe c _ _ => c end.
Definition event_values (e : metric_event) : list string :=
  match e with Inc _ vs | Observe _ vs _ => vs end.

#[global] Instance collector_kind_eq_dec : EqDecision collector_kind.
Proof. solve_decision. Defined.
#[global] Instance collector_eq_dec : EqDecision collector.
Proof. solve_decision. Defined.

#[global] Instance metric_event_eq_dec : EqDecision metric_event.
Proof. solve_decision. Defined.

(** [WithLabelValues] panics unless it gets one value per label, and a vector
    needs [WithLabelValues] while [Observe] needs a histogram. *)
Definition is_histogram (c : collector) : bool :=
  match kind c with HistogramVec _ => true | _ => false end.
Definition event_ok (e : metric_event) : Prop :=
  event_collector e ∈ collectors /\
  length (event_values e) = length (labels (event_collector e)) /\
  match e with Inc c _ => is_histogram c = false | Observe c _ _ => is_histogram c = true end.

(** How often a counter with these label values was incremented. *)
Definition inc_count (c : collector) (values : list string) (tr : list metric_event) : nat :=
  length (filter (fun e => e = Inc c values) tr).

(** ** Registration *)

(** The name a collector is registered under. *)
Definition fq_name (c : collector) : string := Namespace c +:+ "_" +:+ Name c.

Fixpoint increasing (l : list Z) : bool :=
  match l with
  | x :: ((y :: _) as l') => (x <? y)%Z && increasing l'
  | _ => true
  end.

Definition legal_name_char (b : Byte.byte) : bool :=
  let c := byte_Z b in
  ((97 <=? c) && (c <=? 122) || (65 <=? c) && (c <=? 90) || (c =? 95) || (c =? 58))%Z.

(** Registering the collectors cannot panic: their full names are pairwise
    distinct and legal, their labels are distinct and not empty, and the buckets
    of every histogram increase strictly. *)
Theorem collectors_register :
  NoDup (map fq_name collectors) /\
  Forall (fun c => forallb legal_name_char (bytes_of (fq_name c)) = true
                   /\ NoDup (labels c) /\ (EmptyString ∉ labels c) /\
                   match kind c with HistogramVec b => increasing b = true | _ => True end) collectors.
Proof.
  split.
  - apply (bool_decide_unpack _). vm_compute. exact I.
  - repeat (constructor; [split_and!; [vm_compute; reflexivity
      |apply (bool_decide_unpack _); vm_compute; exact I
      |apply (bool_decide_unpack _); vm_compute; exact I
      |try exact I; vm_compute; reflexivity]|]). constructor.
Qed.
