(* ===== verification/CachedStore.v ===== *)
(** * CachedStore: internal/store/cached_store.go

    A backend store behind the in-process cache. The backend is any [Store];
    the client-side contract [AdmissionLaws] is inherited from it. *)

From S2P Require Import Prelude GoTime Store LocalCache Metrics.

Section CachedStore.
Context {B : Type} `{!Store B}.

(** [sweeping]: the background goroutine has not been cancelled. The calls on
    the package's two counters are kept in order. *)
Record CachedStore := mkCachedStore {
  backend : B;
  cache : LocalCache;
  sweeping : bool;
  cs_metrics : list metric_event;
}.

Definition sweepInterval : Z := 10 * Second.

Definition NewCached (b : B) : CachedStore := mkCachedStore b NewLocalCache true [].

Definition cs_count (e : metric_event) (s : CachedStore) : CachedStore :=
  mkCachedStore (backend s) (cache s) (sweeping s) (cs_metrics s ++ [e]).
Definition cs_with_cache (c : LocalCache) (s : CachedStore) : CachedStore :=
  mkCachedStore (backend s) c (sweeping s) (cs_metrics s).
Definition cs_with_backend (b : B) (s : CachedStore) : CachedStore :=
  mkCachedStore b (cache s) (sweeping s) (cs_metrics s).

Definition cached_IsDuplicate (ctx : context) (key : string) (ttl : Z) (s : CachedStore) (clk : clock)
  : (bool * option error) * CachedStore * clock :=
  (* L1 hit: known duplicate, the backend is skipped *)
  let '(hit, c, clk) := Contains (cache s) key clk in
  let s := cs_with_cache c s in
  if hit then ((true, None), cs_count (Inc CacheHitsTotal []) s, clk)
  else
    let s := cs_count (Inc CacheMissesTotal []) s in
    (* L2 *)
    let '((isDup, err), b, clk) := IsDuplicate ctx key ttl (backend s) clk in
    let s := cs_with_backend b s in
    match err with
    | Some err => ((isDup, Some err), s, clk)
    | None =>
        (* populate L1, whatever the verdict *)
        let '(c, clk) := lc_Set (cache s) key ttl clk in
        ((isDup, None), cs_with_cache c s, clk)
    end.

Definition cached_Ping (ctx : context) (s : CachedStore) (clk : clock)
  : option error * CachedStore * clock :=
  let '(err, b, clk) := Ping ctx (backend s) clk in (err, cs_with_backend b s, clk).

Definition cached_Close (s : CachedStore) (clk : clock) : option error * CachedStore * clock :=
  let s := mkCachedStore (backend s) (cache s) false (cs_metrics s) in
  let '(err, b, clk) := Close (backend s) clk in (err, cs_with_backend b s, clk).

Definition CacheLen (s : CachedStore) : Z := Len (cache s).

(** One firing of the ticker of the background goroutine. *)
Definition background_tick (s : CachedStore) (clk : clock) : CachedStore * clock :=
  if sweeping s
  then let '(c, clk) := sweep (cache s) clk in (cs_with_cache c s, clk)
  else (s, clk).

#[global] Instance cached_store : Store CachedStore := {|
  IsDuplicate := cached_IsDuplicate; Ping := cached_Ping; Close := cached_Close |}.
End CachedStore.
Arguments CachedStore B : clear implicits.

(** ** The clock only moves forward in the cache's operations *)

Lemma Contains_later c key clk : later clk (snd (Contains c key clk)).
Proof.
  unfold Contains, lc_evict, time_Now. destruct (lc_read c key) as [e|]; [|split; simpl; [done|lia]].
  simpl. destruct (Z.leb _ _); simpl; [|split; simpl; [done|lia]].
  destruct (Z.leb _ _); split; simpl; lia || done.
Qed.

Lemma lc_Set_later c key ttl clk : later clk (snd (lc_Set c key ttl clk)).
Proof. apply later_now. Qed.
#[export] Hint Resolve Contains_later lc_Set_later : gotime.

(** ** How a call on a CachedStore decomposes *)

Section Facts.
Context {B : Type} `{!Store B}.

(** A key live in the cache is refused at once, the backend left alone. *)
Lemma cached_hit ctx key ttl (s : CachedStore B) clk :
  lc_live (cache s) key (now_of clk) = true ->
  IsDuplicate ctx key ttl s clk =
    let '(_, c, clk1) := Contains (cache s) key clk in
    ((true, None), cs_count (Inc CacheHitsTotal []) (cs_with_cache c s), clk1).
Proof.
  rewrite <-Contains_verdict. simpl. unfold cached_IsDuplicate.
  destruct (Contains (cache s) key clk) as [[hit c] clk1]. simpl. by intros ->.
Qed.

(** Any other key is one call of the backend. *)
Lemma cached_miss ctx key ttl (s : CachedStore B) clk :
  lc_live (cache s) key (now_of clk) = false ->
  IsDuplicate ctx key ttl s clk =
    let '(_, c, clk1) := Contains (cache s) key clk in
    let '((isDup, err), b, clk2) := IsDuplicate ctx key ttl (backend s) clk1 in
    ((isDup, err),
     mkCachedStore b (if err is None then fst (lc_Set c key ttl clk2) else c) (sweeping s)
       (cs_metrics s ++ [Inc CacheMissesTotal []]),
     if err is None then snd (time_Now clk2) else clk2).
Proof.
  rewrite <-Contains_verdict. simpl. unfold cached_IsDuplicate.
  destruct (Contains (cache s) key clk) as [[hit c] clk1]. simpl. intros ->.
  by destruct (IsDuplicate ctx key ttl (backend s) clk1) as [[[isDup [err|]] b] clk2].
Qed.
End Facts.

(** The CachedStore keeps the client-side contract of its backend: it admits
    exactly what the backend admits. *)
#[global] Instance cached_admission_laws {B} `{!Store B} {deadlines : B -> gmap string Z} {slack}
    `{L : !AdmissionLaws B deadlines slack} :
  AdmissionLaws (CachedStore B) (fun s => deadlines (backend s)) slack.
Proof.
  intros ctx key ttl s clk r s' clk' Ht Hm E.
  pose proof (Contains_later (cache s) key clk) as Hl1.
  destruct (lc_live (cache s) key (now_of clk)) eqn:Hlive.
  - rewrite cached_hit in E by done.
    destruct (Contains (cache s) key clk) as [[hit c] clk1]. simpl in *. simplify_eq.
    split; [done|]. exists (now_of clk).
    split; [split; [lia|eauto with gotime]|]. by apply admission_refused.
  - rewrite cached_miss in E by done.
    destruct (Contains (cache s) key clk) as [[hit c] clk1]. simpl in Hl1.
    destruct (IsDuplicate ctx key ttl (backend s) clk1) as [[[isDup err] b] clk2] eqn:Eb.
    assert (Hl3 : later clk2 (if err is None then snd (time_Now clk2) else clk2))
      by (destruct err; [done|apply later_now]).
    revert E Hl3. generalize (if err is None then snd (time_Now clk2) else clk2) as clk3.
    intros clk3 E Hl3. injection E as <- <- <-.
    assert (Hm1 : monotone clk1) by eauto with gotime.
    destruct (law_admission _ _ _ _ _ _ _ _ Ht Hm1 Eb) as (Hl2 & now & [Hn1 Hn2] & Ho).
    split; [by do 2 (etrans; [done|])|]. exists now. split; [|done].
    assert (now_of clk <= now_of clk1)%Z by eauto with gotime.
    assert (now_of clk2 <= now_of clk3)%Z by eauto with gotime.
    lia.
Qed.

(** ** Properties *)

Section Properties.
Context {B : Type} `{!Store B}.
Local Open Scope Z_scope.

(** C16: a CachedStore on every branch.  A key that is live in the cache is a
    duplicate and the backend is not called; any other key gets exactly the
    backend's answer, on an error the cache is left as the lookup left it, and
    on success, duplicate or not, the key is cached for [ttl] from the clock
    reading that follows the backend's answer.  Each call counts one hit or one
    miss, and the sweeping goroutine is not affected. *)
Theorem cached_IsDuplicate_branches ctx key ttl (s : CachedStore B) clk :
  let res := IsDuplicate ctx key ttl s clk in
  let r := fst (fst res) in
  let s' := snd (fst res) in
  let c := snd (fst (Contains (cache s) key clk)) in
  let resb := IsDuplicate ctx key ttl (backend s) (snd (Contains (cache s) key clk)) in
  sweeping s' = sweeping s /\
  (lc_live (cache s) key (now_of clk) = true ->
     r = (true, None) /\ backend s' = backend s /\ cache s' = c /\
     cs_metrics s' = cs_metrics s ++ [Inc CacheHitsTotal []]) /\
  (lc_live (cache s) key (now_of clk) = false ->
     r = fst (fst resb) /\ backend s' = snd (fst resb) /\
     cs_metrics s' = cs_metrics s ++ [Inc CacheMissesTotal []] /\
     (snd r = None -> cache s' = lc_put key (UnixNano (now_of (snd resb) + ttl)) c) /\
     (forall e, snd r = Some e -> cache s' = c)).
Proof.
  destruct (IsDuplicate ctx key ttl s clk) as [[r s'] clk'] eqn:E. cbv zeta.
  destruct (lc_live (cache s) key (now_of clk)) eqn:Hlive;
    [rewrite cached_hit in E by done|rewrite cached_miss in E by done];
    destruct (Contains (cache s) key clk) as [[hit c] clk1]; simpl;
    destruct (IsDuplicate ctx key ttl (backend s) clk1) as [[[isDup err] b] clk2];
    injection E as <- <- <-; simpl.
  - by split_and!.
  - destruct err as [e|]; split_and!; try done; intros _; split_and!; try done; naive_solver.
Qed.

(** After a call that got an answer from the backend, the same key is
    answered from the cache until [ttl] after the last clock reading of that
    call, whatever becomes of the backend in the meantime, and the backend is
    not touched. *)
Theorem cached_hit_skips_backend ctx key ttl (s : CachedStore B) clk isDup s' clk' b' clk'' :
  well_sharded (cache s) ->
  lc_live (cache s) key (now_of clk) = false ->
  IsDuplicate ctx key ttl s clk = ((isDup, None), s', clk') ->
  UnixNano (now_of clk'') < UnixNano (ticks clk' (pos clk' - 1)%nat + ttl) ->
  fst (fst (IsDuplicate ctx key ttl (cs_with_backend b' s') clk'')) = (true, None) /\
  backend (snd (fst (IsDuplicate ctx key ttl (cs_with_backend b' s') clk''))) = b'.
Proof.
  intros Hw Hmiss E Ht.
  pose proof (proj1 (Contains_flat (cache s) key clk Hw)) as Hw1.
  rewrite cached_miss in E by done.
  destruct (Contains (cache s) key clk) as [[hit c] clk1]. simpl in Hw1.
  destruct (IsDuplicate ctx key ttl (backend s) clk1) as [[[isDup0 err] b] clk2].
  injection E as -> -> <- <-. simpl in Ht. rewrite Nat.sub_0_r in Ht.
  rewrite cached_hit.
  - by destruct (Contains _ key clk'') as [[hit' c'] clk3].
  - simpl. rewrite put_live, decide_True by done. by apply Z.ltb_lt.
Qed.

(** No request is let through twice in a window, however the cache and its
    sweeps interfere: over any backend that honours the contract, from any
    state, two admissions of a key lie a whole window apart. *)
Theorem cached_admissions_apart {deadlines : B -> gmap string Z} {slack : Z}
    `{L : !AdmissionLaws B deadlines slack} key ctx ttl keys (s : CachedStore B) clk log s' clk'
    pre c1 mid c2 post :
  0 < ttl -> monotone clk -> 0 <= ttl - slack ->
  run ctx ttl keys s clk = (log, s', clk') ->
  log = pre ++ c1 :: mid ++ c2 :: post ->
  admits key c1 -> admits key c2 ->
  c_begin c1 + ttl - slack <= c_end c2.
Proof. apply run_admissions_apart. Qed.
End Properties.

(** C33: the refusals of a CachedStore outlast the window.  When the backend first
    answers "duplicate" at [b], late in the window that ends at [d], the cache
    keeps refusing the key until [b + ttl], although from [d] on the backend alone
    would let the request through: the window is stretched, up to twice its
    length. *)
Theorem cached_window_stretches ctx key ttl d b t m :
  m_Err m = None -> m_data m !! key = Some (Entry d) ->
  (0 <= b <= d)%Z -> (d < t < b + ttl)%Z -> (b + ttl < 2 ^ 63)%Z ->
  let s1 := snd (fst (IsDuplicate ctx key ttl (NewCached m) (clock_of [b]))) in
  fst (fst (IsDuplicate ctx key ttl (NewCached m) (clock_of [b]))) = (true, None) /\
  fst (fst (IsDuplicate ctx key ttl s1 (clock_of [t]))) = (true, None) /\
  fst (fst (IsDuplicate ctx key ttl (backend s1) (clock_of [t]))) = (false, None).
Proof.
  intros He Hm Hb Ht Hr. cbv zeta.
  set (k1 := snd (time_Now (snd (time_Now (clock_of [b]))))).
  assert (E1 : IsDuplicate ctx key ttl (NewCached m) (clock_of [b]) =
    ((true, None), mkCachedStore m (fst (lc_Set NewLocalCache key ttl k1)) true [Inc CacheMissesTotal []],
     snd (time_Now k1))).
  { rewrite cached_miss by (simpl; unfold lc_live; by rewrite <-lookup_flat by apply well_sharded_New).
    replace (Contains _ key (clock_of [b])) with (false, NewLocalCache, snd (time_Now (clock_of [b])))
      by (unfold Contains; simpl; by rewrite <-lookup_flat by apply well_sharded_New).
    rewrite memory_IsDuplicate_eq by done. unfold memory_live. simpl backend. rewrite Hm.
    change (now_of (snd (time_Now (clock_of [b])))) with b.
    by rewrite (proj2 (Z.leb_le b (expiresAt (Entry d)))) by (simpl; lia). }
  rewrite E1. cbn [fst snd backend]. split; [done|]. split.
  - rewrite cached_hit; [by destruct (Contains _ key _) as [[hit c] clk]|].
    cbn [cache]. unfold lc_Set, time_Now. cbn [fst].
    rewrite put_live, decide_True by (done || apply well_sharded_New).
    unfold UnixNano, time_Add, now_of. simpl.
    rewrite !i64_id by (unfold in_i64; lia). apply Z.ltb_lt. lia.
  - rewrite memory_IsDuplicate_eq by done.
    unfold memory_live. rewrite Hm. unfold now_of. simpl.
    by rewrite (proj2 (Z.leb_gt t d)) by lia.
Qed.

(** ** Witnesses *)

(** A first call through a fresh cache, the store an instant later, and a
    backend that has become unreachable. *)
Definition w_first : (bool * option error) * CachedStore MemoryStore * clock :=
  IsDuplicate context_Background "key:1" (5 * Second)%Z (NewCached NewMemory) (clock_of [100%Z]).
Definition w_store : CachedStore MemoryStore := snd (fst w_first).
Definition w_broken : MemoryStore := mkMemoryStore ∅ (Some ErrUnavailable).

Lemma cached_IsDuplicate_branches_witness :
  lc_live (cache w_store) "key:1" 200 = true /\
  fst (fst (IsDuplicate context_Background "key:1" (5 * Second)%Z
              (cs_with_backend w_broken w_store) (clock_of [200%Z]))) = (true, None) /\
  lc_live (cache w_store) "key:2" 200 = false /\
  fst (fst (IsDuplicate context_Background "key:2" (5 * Second)%Z
              (cs_with_backend w_broken w_store) (clock_of [200%Z]))) = (false, Some ErrUnavailable).
Proof.
  assert (H1 : lc_live (cache w_store) "key:1" 200 = true) by (vm_compute; reflexivity).
  assert (H2 : lc_live (cache w_store) "key:2" 200 = false) by (vm_compute; reflexivity).
  split; [exact H1|split; [|split; [exact H2|]]].
  - exact (proj1 (proj1 (proj2 (cached_IsDuplicate_branches context_Background "key:1" (5 * Second)%Z
      (cs_with_backend w_broken w_store) (clock_of [200%Z]))) H1)).
  - exact (proj1 (proj2 (proj2 (cached_IsDuplicate_branches context_Background "key:2" (5 * Second)%Z
      (cs_with_backend w_broken w_store) (clock_of [200%Z]))) H2)).
Defined.

Lemma cached_hit_skips_backend_witness :
  fst (fst (IsDuplicate context_Background "key:1" (5 * Second)%Z
              (cs_with_backend w_broken w_store) (clock_of [4000000000%Z]))) = (true, None).
Proof.
  refine (proj1 (cached_hit_skips_backend context_Background "key:1" (5 * Second)%Z
    (NewCached NewMemory) (clock_of [100%Z]) false w_store (snd w_first) w_broken
    (clock_of [4000000000%Z]) well_sharded_New _ _ _)); vm_compute; reflexivity.
Defined.

Lemma cached_admissions_apart_witness :
  exists c1 c2 c3,
    fst (fst (run context_Background 30%Z ["k"; "k"; "k"] (NewCached NewMemory) (step_clock 4 0%Z 60%Z)))
      = [c1; c2; c3]
    /\ admits "k" c1 /\ c_verdict c2 = (true, None) /\ admits "k" c3
    /\ (c_begin c1 + 30 - 0 <= c_end c3)%Z.
Proof.
  eexists _, _, _. split; [vm_compute; reflexivity|]. split; [done|]. split; [done|]. split; [done|].
  refine (cached_admissions_apart (B:=MemoryStore) (deadlines:=memory_deadlines) (slack:=0%Z) "k"
    context_Background 30%Z ["k"; "k"; "k"] (NewCached NewMemory)
    (step_clock 4 0%Z 60%Z) _ _ _ [] _ [_] _ [] _ _ _ _ eq_refl _ _);
    [lia|apply step_clock_monotone; lia|lia|vm_compute; reflexivity|done|done].
Defined.

Lemma cached_window_stretches_witness :
  let m := mkMemoryStore {["key:1" := Entry 10]} None in
  let s1 := snd (fst (IsDuplicate context_Background "key:1" 10%Z (NewCached m) (clock_of [9%Z]))) in
  fst (fst (IsDuplicate context_Background "key:1" 10%Z s1 (clock_of [15%Z]))) = (true, None) /\
  fst (fst (IsDuplicate context_Background "key:1" 10%Z (backend s1) (clock_of [15%Z]))) = (false, None).
Proof.
  exact (proj2 (cached_window_stretches context_Background "key:1" 10 10 9 15
    (mkMemoryStore {["key:1" := Entry 10]} None) eq_refl eq_refl
    ltac:(lia) ltac:(lia) ltac:(lia))).
Defined.
