(* ===== verification/Interleaving.v ===== *)
(** * Interleaving: concurrent calls on cached stores that share one backend

    Any number of service instances, each with its own [LocalCache] and its
    sweeping goroutine, share one backend.  Goroutines run
    [CachedStore.IsDuplicate] concurrently; a step of the system is one critical
    section of a shard's lock, one call of the backend, or one reading of the
    clock outside one, so that a reading may be old by the time it is used.  That
    the sections may be taken as single steps is proved in [Locking], where the
    mutexes are spelled out.  The backend is its contract: the records it holds and
    the relation [outcome]. *)

From S2P Require Import Prelude GoTime Store LocalCache Metrics CachedStore.

Local Open Scope Z_scope.

Section System.
(** the window every caller passes, and the resolution of the backend *)
Context (window slack : Z).

(** Where a goroutine is inside [IsDuplicate]; [t] is the instant its verdict
    was reached. *)
Inductive pc :=
  | PStart                                   (** [cache.Contains] is about to read the clock *)
  | PLookup (t : Z)                          (** [Contains] is about to read its shard *)
  | PEvict                                   (** [Contains] found an expired entry *)
  | PBackend                                 (** before [backend.IsDuplicate] *)
  | PClock (dup : bool) (t : Z)              (** [cache.Set] is about to read the clock *)
  | PPut (dup : bool) (t : Z) (expiry : Z)   (** [Set] is about to lock its shard *)
  | PDone (verdict : bool * option error) (t : Z).    (** returned *)

Record thread := Thread { t_inst : nat; t_key : string; t_pc : pc }.

(** What happened, oldest first: the backend admitted [k] at [a]; it failed at
    [a], after which the record may have been made; or a call that the backend
    had answered at [b] read the clock at [s] for the entry it is to [Set]. *)
Inductive event :=
  | EAdmit (k : string) (a : Z)
  | EUnknown (k : string) (a : Z)
  | EFill (k : string) (b s : Z).

Record system := System {
  s_now : Z;
  s_caches : list LocalCache;
  s_records : gmap string Z;
  s_threads : list thread;
  s_hist : list event;
}.

Definition initial (n : nat) (t0 : Z) : system := System t0 (replicate n NewLocalCache) ∅ [] [].

Definition with_pc (i : nat) (th : thread) (p : pc) (l : list thread) : list thread :=
  <[i := Thread (t_inst th) (t_key th) p]> l.

(** the branch [Contains] takes on what it read, by its earlier reading of the clock *)
Definition after_lookup (now : Z) (o : option Z) : pc :=
  match o with
  | None => PBackend
  | Some e => if e <=? UnixNano now then PEvict else PDone (true, None) now
  end.

Definition after_backend (now : Z) (r : bool * option error) : pc :=
  match snd r with Some _ => PDone r now | None => PClock (fst r) now end.

Definition events_of (k : string) (now : Z) (r : bool * option error) : list event :=
  match r with
  | (false, None) => [EAdmit k now]
  | (_, Some _) => [EUnknown k now]
  | (true, None) => []
  end.

(** The sweep of one shard, by a reading of the clock that may be old. *)
Definition sweep_one (t : Z) (j : nat) (c : LocalCache) : LocalCache :=
  mkLocalCache (alter (sweep_shard (UnixNano t)) j (shards c)).

(** One step of goroutine [i]. *)
Inductive thread_step (i : nat) : system -> system -> Prop :=
  | step_contains now cs m ths h th :
      ths !! i = Some th -> t_pc th = PStart ->
      thread_step i (System now cs m ths h) (System now cs m (with_pc i th (PLookup now) ths) h)
  | step_lookup now cs m ths h th t c :
      ths !! i = Some th -> t_pc th = PLookup t -> cs !! t_inst th = Some c ->
      thread_step i (System now cs m ths h)
        (System now cs m (with_pc i th (after_lookup t (lc_read c (t_key th))) ths) h)
  | step_evict now cs m ths h th c t :   (* the section reads the clock itself, at [t] *)
      ths !! i = Some th -> t_pc th = PEvict -> cs !! t_inst th = Some c -> t <= now ->
      thread_step i (System now cs m ths h)
        (System now (<[t_inst th := fst (lc_evict (t_key th) c (clock_of [t]))]> cs) m
           (with_pc i th PBackend ths) h)
  | step_backend now cs m m' ths h th r :
      ths !! i = Some th -> t_pc th = PBackend ->
      outcome slack now window (t_key th) m r m' ->
      thread_step i (System now cs m ths h)
        (System now cs m' (with_pc i th (after_backend now r) ths) (h ++ events_of (t_key th) now r))
  | step_read_clock now cs m ths h th dup t :
      ths !! i = Some th -> t_pc th = PClock dup t ->
      thread_step i (System now cs m ths h)
        (System now cs m (with_pc i th (PPut dup t (UnixNano (time_Add now window))) ths)
           (h ++ [EFill (t_key th) t now]))
  | step_put now cs m ths h th dup t e c :
      ths !! i = Some th -> t_pc th = PPut dup t e -> cs !! t_inst th = Some c ->
      thread_step i (System now cs m ths h)
        (System now (<[t_inst th := lc_put (t_key th) e c]> cs) m
           (with_pc i th (PDone (dup, None) t) ths) h).

(** A step of the system. *)
Inductive step : system -> system -> Prop :=
  | step_thread i s s' : thread_step i s s' -> step s s'
  | step_tick now now' cs m ths h : now <= now' ->
      step (System now cs m ths h) (System now' cs m ths h)
  | step_spawn now cs m ths h inst k : (inst < length cs)%nat ->
      step (System now cs m ths h) (System now cs m (ths ++ [Thread inst k PStart]) h)
  | step_expire now cs m m' ths h : evolves now m m' ->
      step (System now cs m ths h) (System now cs m' ths h)
  | step_sweep now cs m ths h inst c t j : t <= now -> cs !! inst = Some c ->
      step (System now cs m ths h) (System now (<[inst := sweep_one t j c]> cs) m ths h).

Definition reachable (n : nat) (t0 : Z) (s : system) : Prop := rtc step (initial n t0) s.

(** The goroutine holds, or has returned, the verdict "not a duplicate". *)
Definition admitted (k : string) (th : thread) : Prop :=
  t_key th = k /\
  match t_pc th with PClock false _ | PPut false _ _ | PDone (false, None) _ => True | _ => False end.
#[global] Instance admitted_dec k th : Decision (admitted k th).
Proof. unfold admitted. destruct (t_pc th) as [|?| | |[] ?|[] ? ?|[[] []] ?]; apply _. Defined.

Definition is_admission (k : string) (e : event) : Prop := exists a, e = EAdmit k a.
#[global] Instance is_admission_dec k e : Decision (is_admission k e).
Proof.
  destruct e as [k' a|k' a|k' b s].
  - destruct (decide (k = k')) as [->|Hne]; [left; by exists a|right; intros [a' [=]]; congruence].
  - right. by intros [a' [=]].
  - right. by intros [a' [=]].
Defined.

Definition count_admitted (k : string) (ths : list thread) : nat := length (filter (admitted k) ths).
Definition count_admissions (k : string) (h : list event) : nat := length (filter (is_admission k) h).

(** The backend made, or may have made, a record of [k] at [a]. *)
Definition record_event (h : list event) (k : string) (a : Z) : Prop :=
  EAdmit k a ∈ h \/ EUnknown k a ∈ h.
(** The backend could vouch for [k] at [b]. *)
Definition backed (h : list event) (k : string) (b : Z) : Prop :=
  exists a, record_event h k a /\ a <= b <= a + window + slack.
(** A call on [k] that the backend answered at [b] was caching the key at [s]. *)
Definition filled (h : list event) (k : string) (now b s : Z) : Prop :=
  EFill k b s ∈ h /\ backed h k b /\ b <= s <= now.
(** An expiry instant the cache may hold for [k]. *)
Definition cached_until (h : list event) (k : string) (now e : Z) : Prop :=
  exists b s, filled h k now b s /\ e = UnixNano (s + window).

(** Why a call may answer "duplicate" for the instant [t] it has read: the backend
    vouched for the key at [t] itself, or at some [b], upon which the key was
    cached at [s] and the cache's window was not over at [t]. *)
Definition evidence (h : list event) (k : string) (now t : Z) : Prop :=
  backed h k t \/
  exists b s, filled h k now b s /\ UnixNano t < UnixNano (s + window).

(** ** The invariant *)

Definition pc_ok (h : list event) (now : Z) (k : string) (p : pc) : Prop :=
  match p with
  | PLookup t => t <= now
  | PClock _ t => t <= now /\ backed h k t
  | PPut _ t e => t <= now /\ backed h k t /\ cached_until h k now e
  | PDone (true, None) t => t <= now /\ evidence h k now t
  | _ => True
  end.

Definition cache_ok (h : list event) (now : Z) (c : LocalCache) : Prop :=
  well_sharded c /\ forall k e, lc_read c k = Some e -> cached_until h k now e.

Record Inv (n : nat) (s : system) : Prop := {
  inv_caches_n : length (s_caches s) = n;
  inv_insts : Forall (fun th => (t_inst th < n)%nat) (s_threads s);
  (** the history is in the past, and what was admitted stays recorded *)
  inv_past : forall k a, record_event (s_hist s) k a -> a <= s_now s;
  inv_held : forall k a, EAdmit k a ∈ s_hist s ->
               held k (a + window - slack) (s_now s) (s_records s);
  inv_spaced : forall h1 h2 h3 k a1 a2, s_hist s = h1 ++ EAdmit k a1 :: h2 ++ EAdmit k a2 :: h3 ->
                 a1 + window - slack <= a2;
  (** each admitting goroutine has its own admission in the history *)
  inv_counted : forall k, count_admitted k (s_threads s) = count_admissions k (s_hist s);
  (** nothing but the backend's answers enters records, caches and verdicts *)
  inv_records : forall k d, s_records s !! k = Some d ->
                  exists a, record_event (s_hist s) k a /\ d <= a + window + slack;
  inv_caches : Forall (cache_ok (s_hist s) (s_now s)) (s_caches s);
  inv_threads : Forall (fun th => pc_ok (s_hist s) (s_now s) (t_key th) (t_pc th)) (s_threads s);
}.

(** *** Monotonicity in history and time *)

Definition extends (h h' : list event) : Prop := exists h2, h' = h ++ h2.

Lemma record_event_extends h h' k a : extends h h' -> record_event h k a -> record_event h' k a.
Proof. intros [h2 ->] [H|H]; [left|right]; apply elem_of_app; by left. Qed.

Lemma backed_extends h h' k b : extends h h' -> backed h k b -> backed h' k b.
Proof. intros He (a & Ha & ?). exists a. eauto using record_event_extends. Qed.

Lemma filled_extends h h' k now now' b s :
  extends h h' -> now <= now' -> filled h k now b s -> filled h' k now' b s.
Proof.
  intros He Hn (Hf & Hb & ?). split_and!; [|by eapply backed_extends|lia..].
  destruct He as [h2 ->]. apply elem_of_app. by left.
Qed.

Lemma cached_until_extends h h' k now now' e :
  extends h h' -> now <= now' -> cached_until h k now e -> cached_until h' k now' e.
Proof. intros He Hn (b & s & Hb & ->). exists b, s. split; [by eapply filled_extends|done]. Qed.

Lemma evidence_extends h h' k now now' t :
  extends h h' -> now <= now' -> evidence h k now t -> evidence h' k now' t.
Proof.
  intros He Hn [H|(b & s & H & ?)]; [left; by eapply backed_extends|right].
  exists b, s. split; [by eapply filled_extends|done].
Qed.

Lemma pc_ok_extends h h' now now' k p :
  extends h h' -> now <= now' -> pc_ok h now k p -> pc_ok h' now' k p.
Proof.
  intros He Hn. destruct p as [|t| | |dup t|dup t e|[[] [err|]] t]; simpl; try done.
  - lia.
  - intros [? ?]. split; [lia|by eapply backed_extends].
  - intros (? & ? & ?). split_and!; [lia|by eapply backed_extends|by eapply cached_until_extends].
  - intros [? ?]. split; [lia|by eapply evidence_extends].
Qed.

Lemma cache_ok_extends h h' now now' c :
  extends h h' -> now <= now' -> cache_ok h now c -> cache_ok h' now' c.
Proof. intros He Hn [Hw Hc]. split; [done|]. eauto using cached_until_extends. Qed.

Lemma extends_refl h : extends h h.
Proof. exists []. by rewrite app_nil_r. Qed.

(** *** Counting *)

Lemma count_admitted_insert k i th th' ths :
  ths !! i = Some th ->
  (count_admitted k (<[i := th']> ths) + (if decide (admitted k th) then 1 else 0) =
   count_admitted k ths + (if decide (admitted k th') then 1 else 0))%nat.
Proof.
  unfold count_admitted. revert i. induction ths as [|x ths IH]; intros [|i] Hi; [done|done| |]; simpl in *.
  - simplify_eq. rewrite !filter_cons. repeat case_decide; simpl; lia.
  - specialize (IH i Hi). rewrite !filter_cons. repeat case_decide; simpl; lia.
Qed.

Lemma count_admissions_app k h h' :
  count_admissions k (h ++ h') = (count_admissions k h + count_admissions k h')%nat.
Proof. unfold count_admissions. by rewrite filter_app, length_app. Qed.

(** *** Effects of the sections on a cache *)

Lemma cache_ok_sub h now c c' :
  well_sharded c' -> (forall k e, lc_read c' k = Some e -> lc_read c k = Some e) ->
  cache_ok h now c -> cache_ok h now c'.
Proof. intros Hw Hs [_ Hc]. split; [done|]. eauto. Qed.

Lemma cache_ok_evict h now k c clk : cache_ok h now c -> cache_ok h now (fst (lc_evict k c clk)).
Proof.
  intros Hc. pose proof (proj1 Hc) as Hw.
  eapply cache_ok_sub; [by apply well_sharded_evict| |exact Hc]. intros k' e'.
  destruct (lc_evict_cases k c clk) as [->|(e & _ & [[_ ->]| ->])]; simpl; [done| |done].
  rewrite <-!lookup_flat by eauto with localcache.
  rewrite flat_delete by done. intros [_ ?]%lookup_delete_Some. done.
Qed.

Lemma lc_read_sweep_one t j c k e : lc_read (sweep_one t j c) k = Some e -> lc_read c k = Some e.
Proof.
  unfold lc_read, sweep_one. simpl. destruct (decide (j = shard_of k)) as [->|Hne].
  - rewrite list_lookup_alter_eq. destruct (shards c !! shard_of k) as [m|]; [|done].
    simpl. by intros [? _]%sweep_entries_Some.
  - by rewrite list_lookup_alter_ne.
Qed.

Lemma well_sharded_sweep_one t j c : well_sharded c -> well_sharded (sweep_one t j c).
Proof.
  intros [Hl Hw]. split; [by unfold sweep_one; simpl; rewrite length_alter|].
  intros i m k Hi [v Hv]. unfold sweep_one in Hi. simpl in Hi.
  destruct (decide (j = i)) as [->|Hne].
  - rewrite list_lookup_alter_eq in Hi. destruct (shards c !! i) as [m0|] eqn:E; [|done].
    simpl in Hi. simplify_eq. apply sweep_entries_Some in Hv as [Hv _]. eauto.
  - rewrite list_lookup_alter_ne in Hi by done. eauto.
Qed.

Lemma cache_ok_put h now k e c :
  cached_until h k now e -> cache_ok h now c -> cache_ok h now (lc_put k e c).
Proof.
  intros He [Hw Hc]. split; [by apply well_sharded_put|]. intros k' e'.
  rewrite <-lookup_flat by (by apply well_sharded_put).
  rewrite flat_put by done. intros [[<- <-]|[_ Hr]]%lookup_insert_Some; [done|].
  rewrite lookup_flat in Hr by done. eauto.
Qed.
(** *** Preservation *)

Context (Hslack : 0 <= slack) (Hwindow : 0 <= window - slack).

Lemma Inv_initial n t0 : Inv n (initial n t0).
Proof.
  unfold initial. constructor; simpl; try done.
  - apply length_replicate.
  - intros k a [H|H]; by apply not_elem_of_nil in H.
  - intros k a H. by apply not_elem_of_nil in H.
  - intros h1 h2 h3 k a1 a2 H. by destruct h1.
  - apply Forall_replicate. split; [apply well_sharded_New|]. intros k e.
    rewrite <-lookup_flat by apply well_sharded_New. by rewrite flat_New.
Qed.

(** Replacing one cache by a cache that is in order. *)
Lemma Inv_put_cache n now cs m ths h inst c' :
  cache_ok h now c' -> Inv n (System now cs m ths h) -> Inv n (System now (<[inst := c']> cs) m ths h).
Proof.
  intros Hc []. constructor; simpl in *; try done.
  - by rewrite length_insert.
  - by apply Forall_insert.
Qed.

(** Moving one goroutine on, without an event and without a new admission. *)
Lemma Inv_move n now cs m ths h i th p :
  ths !! i = Some th -> pc_ok h now (t_key th) p ->
  (forall k, admitted k (Thread (t_inst th) (t_key th) p) <-> admitted k th) ->
  Inv n (System now cs m ths h) -> Inv n (System now cs m (with_pc i th p ths) h).
Proof.
  intros Hi Hp Hadm []. unfold with_pc. constructor; simpl in *; try done.
  - apply Forall_insert; [done|]. exact (Forall_lookup_1 _ ths i th inv_insts0 Hi).
  - intros k. rewrite <-inv_counted0.
    pose proof (count_admitted_insert k i th (Thread (t_inst th) (t_key th) p) ths Hi) as Hc.
    rewrite (decide_ext _ _ 1%nat 0%nat (Hadm k)) in Hc. lia.
  - by apply Forall_insert.
Qed.

(** Time passing. *)
Lemma Inv_tick n now now' cs m ths h :
  now <= now' -> Inv n (System now cs m ths h) -> Inv n (System now' cs m ths h).
Proof.
  intros Hn []. constructor; simpl in *; try done.
  - intros k a H. specialize (inv_past0 k a H). lia.
  - intros k a H. eapply held_later; [exact Hn|]. auto.
  - eapply Forall_impl; [exact inv_caches0|]. intros c.
    by apply cache_ok_extends; [apply extends_refl|].
  - eapply Forall_impl; [exact inv_threads0|]. intros th.
    by apply pc_ok_extends; [apply extends_refl|].
Qed.

Lemma evolves_lookup now m m' k d : evolves now m m' -> m' !! k = Some d -> m !! k = Some d.
Proof. intros He Hd. destruct (He k) as [E|[E _]]; congruence. Qed.

Lemma Inv_evolves n now cs m m' ths h :
  evolves now m m' -> Inv n (System now cs m ths h) -> Inv n (System now cs m' ths h).
Proof.
  intros He []. constructor; simpl in *; try done.
  - intros k a H. eapply held_evolves; [|exact He|]; [reflexivity|auto].
  - intros k d Hd. eauto using evolves_lookup.
Qed.

(** Two events of a history to which one more is added. *)
Lemma snoc_two_events (h h1 h2 h3 : list event) e x y :
  h ++ [e] = h1 ++ x :: h2 ++ y :: h3 ->
  e = y /\ h = h1 ++ x :: h2 \/ exists h3', h3 = h3' ++ [e] /\ h = h1 ++ x :: h2 ++ y :: h3'.
Proof.
  destruct h3 as [|z h3 _] using rev_ind.
  - rewrite (app_comm_cons h2), app_assoc. intros [-> ->]%app_inj_tail. by left.
  - replace (h1 ++ x :: h2 ++ y :: h3 ++ [z]) with ((h1 ++ x :: h2 ++ y :: h3) ++ [z])
      by (rewrite <-!app_assoc; simpl; by rewrite <-!app_assoc).
    intros [-> ->]%app_inj_tail. right. by exists h3.
Qed.

(** A fill noted in the history. *)
Lemma record_event_fill h k b s k' a : record_event (h ++ [EFill k b s]) k' a <-> record_event h k' a.
Proof. unfold record_event. rewrite !elem_of_app, !list_elem_of_singleton. naive_solver. Qed.

Lemma Inv_fill n now cs m ths h k b s :
  Inv n (System now cs m ths h) -> Inv n (System now cs m ths (h ++ [EFill k b s])).
Proof.
  intros []. assert (He : extends h (h ++ [EFill k b s])) by (by eexists).
  constructor; simpl in *; try done.
  - intros k' a. rewrite record_event_fill. apply inv_past0.
  - intros k' a [H|[=]%list_elem_of_singleton]%elem_of_app. by apply inv_held0.
  - intros h1 h2 h3 k' a1 a2 [([=] & _)|(h3' & _ & ->)]%snoc_two_events. by eapply inv_spaced0.
  - intros k'. rewrite count_admissions_app, inv_counted0. unfold count_admissions.
    rewrite filter_cons_False by (by intros [? [=]]). simpl. lia.
  - intros k' d Hd. destruct (inv_records0 k' d Hd) as (a & ? & ?). exists a. by rewrite record_event_fill.
  - eapply Forall_impl; [exact inv_caches0|]. intros c. by apply cache_ok_extends.
  - eapply Forall_impl; [exact inv_threads0|]. intros th. by apply pc_ok_extends.
Qed.

(** *** The call of the backend *)

Lemma record_event_of k now r :
  r <> (true, None) -> record_event (events_of k now r) k now.
Proof. destruct r as [[] [e|]]; intros Hr; try done; [right|right|left]; by left. Qed.

Lemma record_event_of_inv k now r k' a : record_event (events_of k now r) k' a -> a = now /\ k' = k.
Proof.
  destruct r as [[] [e|]]; intros [H|H]; simpl in H;
    try (by apply not_elem_of_nil in H); apply list_elem_of_singleton in H; by simplify_eq.
Qed.

Lemma record_event_app h h' k a :
  record_event (h ++ h') k a <-> record_event h k a \/ record_event h' k a.
Proof. unfold record_event. rewrite !elem_of_app. tauto. Qed.

(** The records after a call: old ones, or the call's own. *)
Lemma outcome_records k now m r m' k' d :
  outcome slack now window k m r m' -> m' !! k' = Some d ->
  m !! k' = Some d \/ (k' = k /\ r <> (true, None) /\ d <= now + window + slack).
Proof.
  assert (Hrec : recorded slack now window k m m' -> m' !! k' = Some d ->
            m !! k' = Some d \/ (k' = k /\ d <= now + window + slack)).
  { intros (d0 & m1 & He & Hd0 & ->) [[<- <-]|[_ H]]%lookup_insert_Some.
    - right. split; [done|lia].
    - left. by eapply evolves_lookup. }
  intros Ho Hd. inversion Ho; subst; try (left; by eapply evolves_lookup);
    (destruct Hrec as [?|[-> ?]]; [done|done|by left|right; by split_and!]).
Qed.

(** A call that admits makes a record for its window. *)
Lemma outcome_admits_held k now m m' :
  outcome slack now window k m (false, None) m' -> held k (now + window - slack) now m'.
Proof.
  intros Ho. inversion Ho as [|? _ (d & m1 & _ & Hd & ->)| |]; subst.
  right. exists d. split; [apply lookup_insert_eq|lia].
Qed.

(** A call that does not fail leaves the backend vouching for the key. *)
Lemma outcome_backed h k now m r m' :
  (forall k d, m !! k = Some d -> exists a, record_event h k a /\ a <= now /\ d <= a + window + slack) ->
  outcome slack now window k m r m' -> snd r = None ->
  backed (h ++ events_of k now r) k now.
Proof.
  intros Hrec Ho Hr. inversion Ho as [d ? Hd Hle| | |]; subst; try done.
  - destruct (Hrec _ _ Hd) as (a & Ha & ? & ?). exists a.
    rewrite record_event_app. split; [by left|lia].
  - exists now. rewrite record_event_app. split; [right; by apply record_event_of|lia].
Qed.

Lemma inv_spaced_snoc h ev now m k0 m' r :
  (forall h1 h2 h3 k a1 a2, h = h1 ++ EAdmit k a1 :: h2 ++ EAdmit k a2 :: h3 -> a1 + window - slack <= a2) ->
  (forall k a, EAdmit k a ∈ h -> held k (a + window - slack) now m) ->
  outcome slack now window k0 m r m' -> ev = events_of k0 now r ->
  forall h1 h2 h3 k a1 a2, h ++ ev = h1 ++ EAdmit k a1 :: h2 ++ EAdmit k a2 :: h3 ->
    a1 + window - slack <= a2.
Proof.
  intros Hsp Hh Ho -> h1 h2 h3 k a1 a2. destruct (events_of k0 now r) as [|ev [|]] eqn:Eev.
  - rewrite app_nil_r. by apply Hsp.
  - intros [(-> & ->)|(h3' & _ & ->)]%snoc_two_events; [|by eapply Hsp].
    destruct r as [[] [err|]]; simpl in Eev; simplify_eq.
    eapply held_not_new; [reflexivity| |by eapply outcome_admission].
    apply Hh. apply elem_of_app. right. by left.
  - by destruct r as [[] [err|]].
Qed.

Lemma count_admissions_events k k0 now r :
  count_admissions k (events_of k0 now r) =
  if decide (k = k0 /\ r = (false, None)) then 1%nat else 0%nat.
Proof.
  destruct r as [[] [err|]]; unfold count_admissions; simpl; rewrite ?filter_cons, ?filter_nil;
    repeat case_decide; simpl; try done.
  all: unfold is_admission in *; naive_solver.
Qed.

Lemma admitted_after_backend k th now r :
  admitted k (Thread (t_inst th) (t_key th) (after_backend now r)) <->
  k = t_key th /\ r = (false, None).
Proof. destruct r as [[] [err|]]; unfold admitted; simpl; naive_solver. Qed.

Lemma Inv_backend n now cs m m' ths h i th r :
  ths !! i = Some th -> t_pc th = PBackend ->
  outcome slack now window (t_key th) m r m' ->
  Inv n (System now cs m ths h) ->
  Inv n (System now cs m' (with_pc i th (after_backend now r) ths) (h ++ events_of (t_key th) now r)).
Proof.
  intros Hi Hpc Ho []. simpl in *. unfold with_pc.
  assert (He : extends h (h ++ events_of (t_key th) now r)) by (by eexists).
  constructor; simpl; try done.
  - apply Forall_insert; [done|]. exact (Forall_lookup_1 _ ths i th inv_insts0 Hi).
  - intros k a [H|H%record_event_of_inv]%record_event_app; [by apply (inv_past0 k)|lia].
  - intros k a [H|H]%elem_of_app.
    + eapply held_admission; [reflexivity|done|by eapply outcome_admission|auto].
    + assert (a = now /\ k = t_key th) as [-> ->]
        by (apply (record_event_of_inv _ _ r); by left).
      destruct r as [[] [err|]]; simpl in H;
        try (apply list_elem_of_singleton in H; discriminate H); [by apply not_elem_of_nil in H|].
      by eapply outcome_admits_held.
  - intros h1 h2 h3 k a1 a2. by eapply inv_spaced_snoc.
  - intros k. rewrite count_admissions_app, count_admissions_events.
    pose proof (count_admitted_insert k i th
      (Thread (t_inst th) (t_key th) (after_backend now r)) ths Hi) as Hc.
    rewrite (decide_ext _ _ 1%nat 0%nat (admitted_after_backend k th now r)) in Hc.
    rewrite (decide_False (P := admitted k th)) in Hc by (unfold admitted; rewrite Hpc; tauto).
    rewrite inv_counted0 in Hc. lia.
  - intros k d Hd. destruct (outcome_records _ _ _ _ _ _ _ Ho Hd) as [Hd0|(-> & Hr & Hle)].
    + destruct (inv_records0 k d Hd0) as (a & ? & ?). exists a. rewrite record_event_app. auto.
    + exists now. rewrite record_event_app. split; [right; by apply record_event_of|done].
  - eapply Forall_impl; [exact inv_caches0|]. intros c. by apply cache_ok_extends.
  - apply Forall_insert.
    + eapply Forall_impl; [exact inv_threads0|]. intros th'. by apply pc_ok_extends.
    + cbn [t_key t_pc]. unfold after_backend. destruct (snd r) eqn:Er.
      { destruct r as [[] [err|]]; simplify_eq/=; done. }
      split; [done|]. eapply (outcome_backed h _ _ m _ m'); [|done..].
      intros k d Hd. destruct (inv_records0 k d Hd) as (a & ? & ?). eauto.
Qed.

Lemma Inv_thread n s th i : Inv n s -> s_threads s !! i = Some th ->
  pc_ok (s_hist s) (s_now s) (t_key th) (t_pc th).
Proof. intros [] Hi. exact (Forall_lookup_1 _ _ i th inv_threads0 Hi). Qed.

Lemma Inv_cache n s c i : Inv n s -> s_caches s !! i = Some c -> cache_ok (s_hist s) (s_now s) c.
Proof. intros [] Hi. exact (Forall_lookup_1 _ _ i c inv_caches0 Hi). Qed.

Ltac same_admissions Hpc :=
  let k := fresh "k" in intros k; unfold admitted; rewrite Hpc; simpl;
  repeat (case_match; try tauto); try tauto.

Lemma Inv_thread_step n i s s' : thread_step i s s' -> Inv n s -> Inv n s'.
Proof.
  intros Hst HI. pose proof (Inv_thread n s) as Hth. pose proof (Inv_cache n s) as Hca.
  destruct Hst as [now cs m ths h th Hi Hpc|now cs m ths h th r c Hi Hpc Hc|now cs m ths h th c r Hi Hpc Hc Hr
    |now cs m m' ths h th r Hi Hpc Ho|now cs m ths h th dup t Hi Hpc|now cs m ths h th dup t e c Hi Hpc Hc];
    specialize (Hth th i HI Hi); simpl in Hth; rewrite Hpc in Hth; simpl in Hth.
  - apply Inv_move; [done|simpl; lia| |done]. same_admissions Hpc.
  - specialize (Hca c _ HI Hc) as [Hw Hca]. apply Inv_move; [done| | |done].
    + unfold after_lookup. destruct (lc_read c (t_key th)) as [e|] eqn:E; [|done].
      destruct (Z.leb_spec e (UnixNano r)); [done|]. simpl. split; [lia|right].
      destruct (Hca _ _ E) as (b & s & Hb & ->). by exists b, s.
    + intros k. unfold after_lookup, admitted. rewrite Hpc.
      destruct (lc_read c (t_key th)) as [e|]; [destruct (e <=? UnixNano r)|]; simpl; tauto.
  - apply Inv_put_cache; [apply cache_ok_evict, (Hca c _ HI Hc)|].
    apply Inv_move; [done..| |done]. same_admissions Hpc.
  - by eapply Inv_backend.
  - destruct Hth as [Hle Hb].
    assert (He : extends h (h ++ [EFill (t_key th) t now])) by (by eexists).
    pose proof (backed_extends _ _ _ _ He Hb) as Hb'.
    apply Inv_move; [done| | |by apply Inv_fill].
    + simpl. split_and!; [done..|]. exists t, now. split; [|done]. split_and!; [|done|lia|lia].
      apply elem_of_app. right. left.
    + same_admissions Hpc.
  - destruct Hth as (Hle & Hb & He).
    apply Inv_put_cache; [apply cache_ok_put; [done|exact (Hca c _ HI Hc)]|].
    apply Inv_move; [done| | |done].
    + destruct dup; simpl; [|done]. split; [done|by left].
    + same_admissions Hpc.
Qed.

Lemma Inv_step n s s' : step s s' -> Inv n s -> Inv n s'.
Proof.
  intros Hst HI. destruct Hst as [i s s' Hst|now now' cs m ths h Hn|now cs m ths h inst k Hinst
    |now cs m m' ths h He|now cs m ths h inst c t j Ht Hc].
  - by eapply Inv_thread_step.
  - by eapply Inv_tick.
  - destruct HI. constructor; simpl in *; try done.
    + apply Forall_app. split; [done|]. repeat constructor. simpl. lia.
    + intros k'. unfold count_admitted. rewrite filter_app, length_app. simpl.
      rewrite filter_cons, decide_False by (unfold admitted; simpl; tauto).
      rewrite filter_nil. simpl. rewrite Nat.add_0_r. apply inv_counted0.
    + apply Forall_app. split; [done|]. by repeat constructor.
  - by eapply Inv_evolves.
  - pose proof (Inv_cache n _ c inst HI Hc) as Hok. apply Inv_put_cache; [|done].
    eapply cache_ok_sub; [apply well_sharded_sweep_one, Hok| |exact Hok].
    apply lc_read_sweep_one.
Qed.

Lemma Inv_reachable n t0 s : reachable n t0 s -> Inv n s.
Proof.
  intros H. pose proof (Inv_initial n t0) as HI. unfold reachable in H.
  induction H as [|s1 s2 s3 Hst _ IH]; [done|]. eauto using Inv_step.
Qed.
End System.

Lemma filter_one_event h k e l :
  filter (is_admission k) h = e :: l ->
  exists h1 a h2, e = EAdmit k a /\ h = h1 ++ EAdmit k a :: h2 /\ filter (is_admission k) h2 = l.
Proof.
  induction h as [|x h IH]; [done|]. rewrite filter_cons. case_decide as Hx.
  - intros [= -> <-]. destruct Hx as [a ->]. by exists [], a, h.
  - intros H. destruct (IH H) as (h1 & a & h2 & ? & -> & ?). by exists (x :: h1), a, h2.
Qed.

Lemma filter_two_events h k e1 e2 l :
  filter (is_admission k) h = e1 :: e2 :: l ->
  exists h1 a1 h2 a2 h3, h = h1 ++ EAdmit k a1 :: h2 ++ EAdmit k a2 :: h3.
Proof.
  intros (h1 & a1 & r & _ & -> & H)%filter_one_event.
  apply filter_one_event in H as (h2 & a2 & h3 & _ & -> & _). by exists h1, a1, h2, a2, h3.
Qed.

(** ** Properties *)

Section Properties.
Context (window slack : Z) (Hslack : 0 <= slack) (Hwindow : 0 <= window - slack).

(** Nothing happens before the start. *)
Lemma reachable_times n t0 s : reachable window slack n t0 s ->
  t0 <= s_now s /\ forall k a, record_event (s_hist s) k a -> t0 <= a.
Proof.
  intros H. unfold reachable in H.
  assert (H0 : t0 <= s_now (initial n t0) /\
               forall k a, record_event (s_hist (initial n t0)) k a -> t0 <= a).
  { split; [simpl; lia|]. intros k a [Ha|Ha]; by apply not_elem_of_nil in Ha. }
  induction H as [|s1 s2 s3 Hst _ IH]; [done|]. apply IH. destruct H0 as [Hn Hr].
  destruct Hst as [i s s' Hst| | | |]; [|simpl in *; split; [lia|done]..].
  destruct Hst; try done; simpl in *; (split; [done|]).
  - intros k a [?|?%record_event_of_inv]%record_event_app; [by eapply Hr|lia].
  - intros k a. rewrite record_event_fill. by apply Hr.
Qed.

(** C3: no two requests with the same fingerprint are let through within a
    window, whatever the interleaving of goroutines, instances, sweeps, evictions
    and expiries: in every reachable state two admissions of a key in the history
    of the backend lie a window apart (up to its resolution), every goroutine
    that holds or has returned the verdict "not a duplicate" has an admission of
    its own there, and so at most one such goroutine exists for a key as long as
    one window has not passed. *)
Theorem no_double_admission n t0 s :
  reachable window slack n t0 s ->
  (forall h1 h2 h3 k a1 a2, s_hist s = h1 ++ EAdmit k a1 :: h2 ++ EAdmit k a2 :: h3 ->
     a1 + window - slack <= a2) /\
  (forall k, count_admitted k (s_threads s) = count_admissions k (s_hist s)) /\
  (forall k, s_now s < t0 + window - slack -> (count_admitted k (s_threads s) <= 1)%nat).
Proof.
  intros Hr. pose proof (Inv_reachable window slack Hslack Hwindow n t0 s Hr) as [].
  destruct (reachable_times n t0 s Hr) as [Hn Ht0]. split_and!; [done..|]. intros k Hlt.
  rewrite inv_counted0. unfold count_admissions.
  destruct (filter (is_admission k) (s_hist s)) as [|e1 [|e2 l]] eqn:E; simpl; [lia..|exfalso].
  destruct (filter_two_events (s_hist s) k e1 e2 l E) as (h1 & a1 & h2 & a2 & h3 & Hh).
  specialize (inv_spaced0 h1 h2 h3 k a1 a2 Hh).
  assert (record_event (s_hist s) k a1) as H1
    by (left; rewrite Hh; apply elem_of_app; right; by left).
  assert (record_event (s_hist s) k a2) as H2
    by (left; rewrite Hh; apply elem_of_app; right; right; apply elem_of_app; right; by left).
  specialize (Ht0 k a1 H1). specialize (inv_past0 k a2 H2). lia.
Qed.

(** Admissions that lie a window apart are few: there is at most one more of
    them than there are whole windows in the time they took. *)
Lemma spaced_count k now h : forall t,
  t <= now + (window - slack) ->
  (forall a, EAdmit k a ∈ h -> t <= a <= now) ->
  (forall h1 h2 h3 a1 a2, h = h1 ++ EAdmit k a1 :: h2 ++ EAdmit k a2 :: h3 -> a1 + window - slack <= a2) ->
  (Z.of_nat (count_admissions k h) - 1) * (window - slack) <= now - t.
Proof.
  unfold count_admissions. induction h as [|e h IH]; intros t Ht Hin Hsp; [simpl; lia|].
  rewrite filter_cons. case_decide as He.
  - destruct He as [a ->]. cbn [length].
    assert (Ha : t <= a <= now) by (apply Hin; left).
    assert (H' : (Z.of_nat (length (filter (is_admission k) h)) - 1) * (window - slack)
                 <= now - (a + (window - slack))); [|lia].
    apply IH; [lia| |].
    + intros a' Ha'. split; [|apply Hin; by right].
      apply list_elem_of_split in Ha' as (h2 & h3 & ->). specialize (Hsp [] h2 h3 a a' eq_refl). lia.
    + intros h1 h2 h3 a1 a2 ->. by apply (Hsp (EAdmit k a :: h1) h2 h3).
  - apply IH; [done| |].
    + intros a Ha. apply Hin. by right.
    + intros h1 h2 h3 a1 a2 ->. by apply (Hsp (e :: h1) h2 h3).
Qed.

(** So are the goroutines that were told "not a duplicate". *)
Lemma admitted_rate n t0 s k :
  reachable window slack n t0 s ->
  (Z.of_nat (count_admitted k (s_threads s)) - 1) * (window - slack) <= s_now s - t0.
Proof.
  intros Hr. pose proof (Inv_reachable window slack Hslack Hwindow n t0 s Hr) as [].
  destruct (reachable_times n t0 s Hr) as [Hn Ht0]. rewrite inv_counted0.
  apply spaced_count; [lia| |].
  - intros a Ha. split; [apply (Ht0 k); by left|apply (inv_past0 k); by left].
  - intros h1 h2 h3 a1 a2. apply inv_spaced0.
Qed.

(** An expiry instant never lies after the sum it was computed from. *)
Lemma UnixNano_le x : 0 <= x < 2 ^ 64 -> UnixNano x <= x.
Proof.
  intros Hx. unfold UnixNano. destruct (decide (x < 2 ^ 63)).
  - rewrite i64_id by (unfold in_i64; lia). lia.
  - rewrite i64_overflow by lia. lia.
Qed.

(** Every instant a goroutine keeps was read after the start. *)
Definition pc_since (t0 : Z) (p : pc) : Prop :=
  match p with PLookup t | PClock _ t | PPut _ t _ | PDone _ t => t0 <= t | PStart | PEvict | PBackend => True end.

Lemma pc_since_insert t0 i inst k p ths :
  Forall (fun th => pc_since t0 (t_pc th)) ths -> pc_since t0 p ->
  Forall (fun th => pc_since t0 (t_pc th)) (<[i := Thread inst k p]> ths).
Proof. intros. by apply Forall_insert. Qed.

Lemma reachable_since n t0 s : reachable window slack n t0 s ->
  Forall (fun th => pc_since t0 (t_pc th)) (s_threads s).
Proof.
  intros H. unfold reachable in H.
  assert (H0 : t0 <= s_now (initial n t0) /\ Forall (fun th => pc_since t0 (t_pc th)) (s_threads (initial n t0)))
    by (split; [simpl; lia|constructor]).
  induction H as [|s1 s2 s3 Hst _ IH]; [apply H0|]. apply IH. clear IH. destruct H0 as [Hn HF].
  destruct Hst as [i s s' Hst|now now' cs m ths h Hle|now cs m ths h inst k Hi|now cs m m' ths h He
    |now cs m ths h inst c t j Ht Hc]; simpl in *; try (split; [lia|done]).
  - destruct Hst as [now cs m ths h th Hi Hpc|now cs m ths h th r c Hi Hpc Hc|now cs m ths h th c r Hi Hpc Hc Hr
      |now cs m m' ths h th r Hi Hpc Ho|now cs m ths h th dup t Hi Hpc|now cs m ths h th dup t e c Hi Hpc Hc];
      simpl in *; (split; [done|]); (apply pc_since_insert; [done|]);
      pose proof (Forall_lookup_1 _ _ _ _ HF Hi) as Hth; simpl in Hth; rewrite Hpc in Hth; simpl in *; try done.
    + unfold after_lookup. destruct (lc_read c (t_key th)) as [e|]; [destruct (e <=? UnixNano r)|]; simpl; done.
    + unfold after_backend. destruct (snd r); simpl; done.
  - split; [done|]. apply Forall_app. split; [done|]. by repeat constructor.
Qed.

(** C8: every answer "duplicate" goes back to a record the backend made (or,
    failing, may have made), and not further than two windows: whenever a goroutine
    has returned "duplicate" for a key for the instant [t] it read, there is such a
    record of the key at some [a], and either the backend vouched for it at [t]
    itself, within the window of the record; or a call that the backend had
    answered at some [b] within that window cached the key at [s'], and the
    cache's own window from [s'] was not over at [t]. If no call took longer than
    [δ] from the backend's answer to caching the key, [t] is at most two windows
    (the backend's resolution and [δ]) after the record. *)
Theorem duplicate_verdict_evidence n t0 s i th t :
  0 <= t0 -> window < 2 ^ 63 -> s_now s < 2 ^ 63 ->
  reachable window slack n t0 s ->
  s_threads s !! i = Some th -> t_pc th = PDone (true, None) t ->
  exists a, record_event (s_hist s) (t_key th) a /\ t0 <= a <= s_now s /\
    (a <= t <= a + window + slack \/
     exists b s', EFill (t_key th) b s' ∈ s_hist s /\ a <= b <= a + window + slack /\
       b <= s' <= s_now s /\ t < s' + window) /\
    (forall δ, 0 <= δ -> (forall b s', EFill (t_key th) b s' ∈ s_hist s -> s' <= b + δ) ->
       t <= a + 2 * window + slack + δ).
Proof.
  intros Ht0 Hw Hn Hr Hi Hpc.
  pose proof (Inv_reachable window slack Hslack Hwindow n t0 s Hr) as HI.
  pose proof (Inv_thread window slack n s th i HI Hi) as Hok. rewrite Hpc in Hok.
  destruct (reachable_times n t0 s Hr) as [_ Hra].
  pose proof (inv_past _ _ _ _ HI (t_key th)) as Hpast.
  destruct Hok as [Hle [(a & Ha & Hab)|(b & s' & (Hf & (a & Ha & Hab) & Hbs) & Hlt)]];
    exists a; specialize (Hra _ _ Ha); specialize (Hpast _ Ha).
  - split_and!; [done|lia|lia|left; lia|]. intros δ Hδ _. lia.
  - assert (Hts : t < s' + window).
    { pose proof (Forall_lookup_1 _ _ _ _ (reachable_since n t0 s Hr) Hi) as Hsince.
      simpl in Hsince. rewrite Hpc in Hsince. simpl in Hsince.
      pose proof (UnixNano_le (s' + window) ltac:(lia)) as Hu.
      unfold UnixNano at 1 in Hlt. rewrite i64_id in Hlt by (unfold in_i64; lia). lia. }
    split_and!; [done|lia|lia|right; exists b, s'; split_and!; (done || lia)|].
    intros δ Hδ Hall. specialize (Hall b s' Hf). lia.
Qed.
End Properties.

(** ** The sequential definition is one of the interleavings *)

Section Sequential.
Context {B : Type} `{!Store B} {deadlines : B -> gmap string Z} {slack : Z} `{L : !StoreLaws B deadlines slack}.
Context (window : Z).

Lemma lc_evict_reading k c clk : fst (lc_evict k c clk) = fst (lc_evict k c (clock_of [now_of clk])).
Proof.
  unfold lc_evict, now_of, time_Now. destruct (lc_read c k); [|done].
  simpl. by destruct (Z.leb _ _).
Qed.

Lemma tick now now' cs m ths h : now <= now' ->
  rtc (step window slack) (System now cs m ths h) (System now' cs m ths h).
Proof. intros. by apply rtc_once, step_tick. Qed.

(** The part of a call up to the decision of the lookup. *)
Lemma contains_run now cs m ths h i inst k c hit c' clk clk1 :
  monotone clk -> now <= now_of clk ->
  ths !! i = Some (Thread inst k PStart) -> cs !! inst = Some c ->
  Contains c k clk = (hit, c', clk1) ->
  exists now', now_of clk <= now' <= now_of clk1 /\
    rtc (step window slack) (System now cs m ths h)
      (System now' (<[inst := c']> cs) m
         (<[i := Thread inst k (if hit then PDone (true, None) now' else PBackend)]> ths) h).
Proof.
  intros Hm Hn Hi Hc E.
  pose proof (Contains_later c k clk) as Hl. rewrite E in Hl. simpl in Hl.
  pose proof (later_le _ _ Hl Hm) as Hle.
  assert (Hlook : rtc (step window slack) (System now cs m ths h)
    (System (now_of clk) cs m (with_pc i (Thread inst k PStart) (after_lookup (now_of clk) (lc_read c k)) ths) h)).
  { etrans; [by apply tick|].
    eapply rtc_l; [apply (step_thread _ _ i); by eapply step_contains|].
    replace (with_pc i (Thread inst k PStart) (after_lookup (now_of clk) (lc_read c k)) ths)
      with (with_pc i (Thread inst k (PLookup (now_of clk))) (after_lookup (now_of clk) (lc_read c k))
              (with_pc i (Thread inst k PStart) (PLookup (now_of clk)) ths))
      by (unfold with_pc; simpl; by rewrite list_insert_insert_eq).
    apply rtc_once, (step_thread _ _ i).
    apply (step_lookup _ _ i _ _ _ _ _ (Thread inst k (PLookup (now_of clk))) (now_of clk) c); [|done|done].
    unfold with_pc. simpl. apply list_lookup_insert_eq. by eapply lookup_lt_Some. }
  revert E. unfold Contains, time_Now. change (ticks clk (pos clk)) with (now_of clk).
  unfold after_lookup in Hlook.
  destruct (lc_read c k) as [e|] eqn:Er; [destruct (e <=? UnixNano (now_of clk)) eqn:Ee|].
  - intros E. set (clk0 := Clock (ticks clk) (S (pos clk))) in E.
    assert (Hl0 : later clk clk0) by apply later_now.
    pose proof (later_le _ _ Hl0 Hm) as Hle0.
    assert (Hev : fst (lc_evict k c clk0) = c' /\ hit = false /\ later clk0 clk1).
    { destruct (lc_evict k c clk0) as [c0 clk2] eqn:Eev. injection E as <- <- <-. split_and!; [done..|].
      destruct (lc_evict_cases k c clk0) as [H|(? & _ & [[_ H]|H])]; rewrite H in Eev;
        injection Eev as _ <-; [reflexivity|apply later_now|apply later_now]. }
    destruct Hev as (Hc' & -> & Hl1).
    pose proof (later_le _ _ Hl1 (later_monotone _ _ Hl0 Hm)) as Hle1.
    exists (now_of clk0). split; [lia|]. etrans; [exact Hlook|].
    etrans; [by apply tick|]. apply rtc_once, (step_thread _ _ i).
    rewrite <-Hc', lc_evict_reading.
    replace (<[i := Thread inst k PBackend]> ths)
      with (with_pc i (Thread inst k PEvict) PBackend (with_pc i (Thread inst k PStart) PEvict ths))
      by (unfold with_pc; simpl; by rewrite list_insert_insert_eq).
    apply (step_evict _ _ i _ _ _ _ _ (Thread inst k PEvict)); [|done|done|done].
    unfold with_pc. simpl. apply list_lookup_insert_eq. by eapply lookup_lt_Some.
  - intros [= <- <- <-]. exists (now_of clk). split; [lia|]. by rewrite (list_insert_id cs) .
  - intros [= <- <- <-]. exists (now_of clk). split; [lia|]. by rewrite (list_insert_id cs).
Qed.

(** The rest of a call once the backend has been asked. *)
Lemma answer_run now cs m m' ths h i inst k c dup clk :
  now <= now_of clk ->
  ths !! i = Some (Thread inst k PBackend) -> cs !! inst = Some c ->
  outcome slack now window k m (dup, None) m' ->
  exists h', rtc (step window slack) (System now cs m ths h)
    (System (now_of clk) (<[inst := fst (lc_Set c k window clk)]> cs) m'
       (<[i := Thread inst k (PDone (dup, None) now)]> ths) h').
Proof.
  intros Hn Hi Hc Ho. eexists.
  assert (Hlt : (i < length ths)%nat) by (by eapply lookup_lt_Some).
  etrans; [apply rtc_once, (step_thread _ _ i); by eapply step_backend|]. simpl.
  etrans; [by apply tick|].
  etrans; [apply rtc_once, (step_thread _ _ i);
    apply (step_read_clock _ _ i _ _ _ _ _ (Thread inst k (PClock dup now)) dup now);
    [unfold with_pc; simpl; by rewrite list_lookup_insert_eq|done]|].
  etrans; [apply rtc_once, (step_thread _ _ i);
    apply (step_put _ _ i _ _ _ _ _
      (Thread inst k (PPut dup now (UnixNano (time_Add (now_of clk) window))))
      dup now (UnixNano (time_Add (now_of clk) window)) c);
    [unfold with_pc; simpl; by rewrite list_insert_insert_eq, list_lookup_insert_eq|done|done]|].
  unfold with_pc. simpl. by rewrite !list_insert_insert_eq.
Qed.

(** C19: the sequential definition of [CachedStore.IsDuplicate] over a backend that
    honours its contract is one of the schedules of the system: run alone from any
    state, goroutine [i] takes the system through the same change of cache and
    records, within the same interval of time, to the same verdict. *)
Theorem sequential_call_is_a_schedule ctx key (cst cst' : CachedStore B) clk clk' r s i inst :
  0 < window -> monotone clk -> IsDuplicate ctx key window cst clk = (r, cst', clk') ->
  s_caches s !! inst = Some (cache cst) -> s_records s = deadlines (backend cst) ->
  s_threads s !! i = Some (Thread inst key PStart) -> s_now s <= now_of clk ->
  exists s' t, rtc (step window slack) s s' /\
    s_caches s' = <[inst := cache cst']> (s_caches s) /\
    s_records s' = deadlines (backend cst') /\
    s_threads s' = <[i := Thread inst key (PDone r t)]> (s_threads s) /\
    now_of clk <= s_now s' <= now_of clk'.
Proof.
  intros Hw Hm E Hc Hrec Hi Hn. destruct s as [now cs m ths h]. simpl in *. subst m.
  change (cached_IsDuplicate ctx key window cst clk = (r, cst', clk')) in E.
  unfold cached_IsDuplicate in E.
  destruct (Contains (cache cst) key clk) as [[hit c] clk1] eqn:Econ.
  destruct (contains_run now cs (deadlines (backend cst)) ths h i inst key _ hit c clk clk1 Hm Hn Hi Hc Econ)
    as (now' & Hn' & Hrun).
  pose proof (Contains_later (cache cst) key clk) as Hl1. rewrite Econ in Hl1. simpl in Hl1.
  destruct hit; [injection E as <- <- <-; eexists _, now'; split; [exact Hrun|simpl; split_and!; try done; lia]|].
  destruct (IsDuplicate ctx key window (backend cst) clk1) as [[[dup err] b] clk2] eqn:Eb.
  assert (Hm1 : monotone clk1) by eauto with gotime.
  assert (Eb' : IsDuplicate ctx key window (backend (cs_count (Inc CacheMissesTotal []) (cs_with_cache c cst))) clk1
                = ((dup, err), b, clk2)) by done.
  rewrite Eb' in E.
  destruct (law_IsDuplicate _ _ _ _ _ _ _ _ Hw Hm1 Eb) as (Hl2 & tb & Htb & Ho).
  pose proof (later_le _ _ Hl1 Hm) as Hle1.
  assert (Hi' : <[i := Thread inst key PBackend]> ths !! i = Some (Thread inst key PBackend))
    by (apply list_lookup_insert_eq; by eapply lookup_lt_Some).
  assert (Hc' : <[inst := c]> cs !! inst = Some c)
    by (apply list_lookup_insert_eq; by eapply lookup_lt_Some).
  pose proof (tick now' tb (<[inst := c]> cs) (deadlines (backend cst))
    (<[i := Thread inst key PBackend]> ths) h ltac:(lia)) as Ht.
  destruct err as [e|].
  - injection E as <- <- <-. eexists _, tb. split.
    + etrans; [exact Hrun|]. etrans; [exact Ht|]. apply rtc_once, (step_thread _ _ i).
      by eapply step_backend.
    + unfold with_pc. simpl. rewrite list_insert_insert_eq. split_and!; try done; lia.
  - assert (Hl3 : later clk2 (snd (time_Now clk2))) by apply later_now.
    pose proof (later_le _ _ Hl3 (later_monotone _ _ Hl2 Hm1)) as Hle3.
    destruct (answer_run tb _ _ _ _ h i inst key c dup clk2 ltac:(lia) Hi' Hc' Ho) as (h' & Hrun').
    injection E as <- <- <-. eexists _, tb. split.
    + etrans; [exact Hrun|]. etrans; [exact Ht|]. exact Hrun'.
    + simpl. rewrite !list_insert_insert_eq. split_and!; try done; simpl in *; lia.
Qed.
End Sequential.

(** ** Witnesses *)

(** Two instances, a window of ten: goroutine 0 is let through at time 0, and
    goroutine 1 on the other instance is refused by the backend at time 5. *)
Lemma sample_schedule :
  exists s, reachable 10 0 2 0 s /\ s_now s = 5 /\ length (s_threads s) = 2%nat /\
    (exists th, s_threads s !! 0%nat = Some th /\ t_pc th = PClock false 0 /\ t_key th = "k") /\
    (exists th, s_threads s !! 1%nat = Some th /\ t_pc th = PDone (true, None) 5 /\ t_key th = "k") /\
    (exists c, s_caches s !! 1%nat = Some c /\ lc_read c "k" = Some 15).
Proof.
  assert (Hr : lc_read NewLocalCache "k" = None) by (vm_compute; reflexivity).
  eexists. split.
  - unfold reachable, initial. simpl replicate.
    eapply rtc_l; [apply (step_spawn _ _ _ _ _ _ _ 0%nat "k"); simpl; lia|].
    eapply rtc_l; [apply (step_spawn _ _ _ _ _ _ _ 1%nat "k"); simpl; lia|].
    eapply rtc_l; [apply (step_thread _ _ 0); by apply step_contains|]. unfold with_pc. simpl.
    eapply rtc_l; [apply (step_thread _ _ 1); by apply step_contains|]. unfold with_pc. simpl.
    eapply rtc_l; [apply (step_thread _ _ 0), step_lookup with (t := 0) (c := NewLocalCache); reflexivity|].
    eapply rtc_l; [apply (step_thread _ _ 1), step_lookup with (t := 0) (c := NewLocalCache); reflexivity|].
    simpl t_key. rewrite Hr. simpl after_lookup. unfold with_pc. simpl.
    eapply rtc_l; [apply (step_thread _ _ 0), step_backend with (r := (false, None)) (m' := {["k" := 10]});
      [reflexivity|reflexivity|]|].
    { apply outcome_new; [intros d; by rewrite lookup_empty|]. exists 10, ∅. split; [reflexivity|]. split; [lia|done]. }
    eapply rtc_l; [apply (step_tick _ _ _ 5); lia|]. unfold with_pc. simpl.
    eapply rtc_l; [apply (step_thread _ _ 1), step_backend with (r := (true, None)) (m' := {["k" := 10]});
      [reflexivity|reflexivity|]|].
    { apply outcome_duplicate with 10; [by apply lookup_singleton_eq|simpl; lia|by apply lookup_singleton_eq|reflexivity]. }
    unfold with_pc. simpl.
    eapply rtc_l; [apply (step_thread _ _ 1), step_read_clock with (dup := true) (t := 5); reflexivity|].
    unfold with_pc. simpl.
    eapply rtc_l; [apply (step_thread _ _ 1), step_put with (c := NewLocalCache) (dup := true) (t := 5); reflexivity|].
    apply rtc_refl.
  - unfold with_pc. simpl. split_and!; [done|done|by eexists..|]. eexists. split; [done|]. vm_compute. reflexivity.
Qed.

(** At time 12 a third goroutine is refused by the cache of that instance. *)
Lemma sample_cached_schedule :
  exists s, reachable 10 0 2 0 s /\ s_now s = 12 /\
    exists th, s_threads s !! 2%nat = Some th /\ t_pc th = PDone (true, None) 12 /\ t_key th = "k".
Proof.
  destruct sample_schedule as (s & Hr & Hn & Hl & _ & _ & c & Hc & Hread).
  destruct s as [now cs m ths h]. simpl in *. subst now.
  assert (Hi : (ths ++ [Thread 1 "k" PStart]) !! 2%nat = Some (Thread 1 "k" PStart))
    by (rewrite <-Hl; by apply list_lookup_middle).
  assert (Hlt : (2 < length (ths ++ [Thread 1 "k" PStart]))%nat) by (rewrite length_app, Hl; simpl; lia).
  eexists. split.
  - unfold reachable in *. etrans; [exact Hr|].
    eapply rtc_l; [apply (step_tick _ _ _ 12); lia|].
    eapply rtc_l; [apply (step_spawn _ _ _ _ _ _ _ 1%nat "k"); by eapply lookup_lt_Some|].
    eapply rtc_l; [apply (step_thread _ _ 2); by apply step_contains with (th := Thread 1 "k" PStart)|].
    unfold with_pc. simpl t_inst. simpl t_key.
    eapply rtc_l; [apply (step_thread _ _ 2), step_lookup with (th := Thread 1 "k" (PLookup 12)) (t := 12) (c := c);
      [by apply list_lookup_insert_eq|done|done]|].
    apply rtc_refl.
  - unfold with_pc. split; [done|]. simpl t_key. rewrite Hread. eexists.
    split; [apply list_lookup_insert_eq; by rewrite length_insert|]. split; [vm_compute; reflexivity|done].
Qed.

Lemma no_double_admission_witness :
  exists s, reachable 10 0 2 0 s /\ (count_admitted "k" (s_threads s) <= 1)%nat.
Proof.
  destruct sample_schedule as (s & Hr & Hn & _). exists s. split; [exact Hr|].
  apply (no_double_admission 10 0 ltac:(lia) ltac:(lia) 2 0 s Hr). rewrite Hn. lia.
Defined.

(** A verdict from the cache, later than one window after the only record. *)
Lemma duplicate_verdict_evidence_witness :
  exists s a, reachable 10 0 2 0 s /\ record_event (s_hist s) "k" a /\
    (a <= 12 <= a + 10 + 0 \/ exists b s', EFill "k" b s' ∈ s_hist s /\ a <= b <= a + 10 + 0 /\
       b <= s' <= 12 /\ 12 < s' + 10).
Proof.
  destruct sample_cached_schedule as (s & Hr & Hn & th & Hi & Hpc & Hk). exists s.
  destruct (duplicate_verdict_evidence 10 0 ltac:(lia) ltac:(lia) 2 0 s 2 th 12
    ltac:(lia) ltac:(lia) ltac:(rewrite Hn; lia) Hr Hi Hpc) as (a & Ha & _ & Hev & _).
  rewrite Hn in Hev. rewrite Hk in Ha, Hev. exists a. split; [exact Hr|]. split; [exact Ha|exact Hev].
Defined.

Lemma sequential_call_is_a_schedule_witness :
  exists s' t, rtc (step 10 0) (System 0 [NewLocalCache] ∅ [Thread 0 "k" PStart] []) s' /\
    s_threads s' = [Thread 0 "k" (PDone (false, None) t)].
Proof.
  destruct (IsDuplicate context_Background "k" 10 (NewCached NewMemory) (step_clock 1 0 1))
    as [[r cst'] clk'] eqn:E.
  assert (r = (false, None)) as -> by (apply (f_equal (fun x => fst (fst x))) in E; by vm_compute in E).
  destruct (sequential_call_is_a_schedule (deadlines:=memory_deadlines) 10 context_Background "k"
    (NewCached NewMemory) cst' (step_clock 1 0 1) clk' (false, None)
    (System 0 [NewLocalCache] ∅ [Thread 0 "k" PStart] []) 0 0
    ltac:(lia) (step_clock_monotone 1 0 1 ltac:(lia)) E eq_refl eq_refl eq_refl ltac:(vm_compute; discriminate))
    as (s' & t & Hrun & _ & _ & Hth & _).
  exists s', t. split; [exact Hrun|exact Hth].
Defined.
