(* ===== verification/Locking.v ===== *)
(** * Locking: the mutexes of internal/store/localcache.go

    [Interleaving] takes the sections of the cache that hold a shard's lock as
    single steps.  Here they are not: the bodies of [Contains], [Set], [Len],
    [sweep] and [CachedStore.IsDuplicate] are programs of one operation at a time
    (a reading of the clock, a lock or unlock, an access to a shard's map, the call
    of the backend), run by any number of goroutines over the [sync.RWMutex] of
    each shard.  The goroutines are shown free of data races and of deadlock, and
    every run of theirs is a run of [Interleaving]. *)

From S2P Require Import Prelude GoTime Store LocalCache Metrics CachedStore Interleaving.

Local Open Scope Z_scope.

(** ** Programs *)

(** What a goroutine returns: the verdict of [IsDuplicate], the number of [Len],
    or the end of a sweep. *)
Inductive result := RVerdict (v : bool * option error) | RLen (n : Z) | RSwept.

(** The operations of a goroutine on the cache of its instance; [j] is a shard.
    [LockWait] is the second half of [Lock]: the writer has announced itself and
    waits for the readers to leave. *)
Inductive code :=
  | Ret (r : result)
  | Now (k : Z -> code)                                  (** [time.Now()] *)
  | RLock (j : nat) (k : code)
  | RUnlock (j : nat) (k : code)
  | Lock (j : nat) (k : code)
  | LockWait (j : nat) (k : code)
  | Unlock (j : nat) (k : code)
  | Load (j : nat) (key : string) (k : option Z -> code)      (** [shard.data[key]] *)
  | Size (j : nat) (k : nat -> code)                          (** [len(shard.data)] *)
  | Update (j : nat) (f : cacheShard -> cacheShard) (k : code)   (** a write of [shard.data] *)
  | Backend (key : string) (k : bool * option error -> code).

(** [Contains]; [k] is what the caller does with the answer. *)
Definition Contains_code (key : string) (k : bool -> code) : code :=
  let j := shard_of key in
  Now (fun now =>
  RLock j (
  Load j key (fun r =>
  RUnlock j (
  match r with
  | None => k false
  | Some expiry =>
      if expiry <=? UnixNano now then
        (* lazy eviction of an expired entry *)
        Lock j (
        Load j key (fun r =>
        match r with
        | Some exp =>
            Now (fun now =>
            if exp <=? UnixNano now
            then Update j (delete key) (Unlock j (k false))
            else Unlock j (k false))
        | None => Unlock j (k false)
        end))
      else k true
  end)))).

Definition Set_code (key : string) (ttl : Z) (k : code) : code :=
  let j := shard_of key in
  Now (fun now =>
  let expiry := UnixNano (time_Add now ttl) in
  Lock j (
  Update j (insert key expiry) (
  Unlock j k))).

(** [for i := range c.shards] of [Len], from the shards that are left. *)
Fixpoint Len_loop (js : list nat) (n : Z) : code :=
  match js with
  | [] => Ret (RLen n)
  | j :: js => RLock j (Size j (fun m => RUnlock j (Len_loop js (n + Z.of_nat m))))
  end.
Definition Len_code : code := Len_loop (seq 0 numShards) 0.

(** The loop of [sweep]. *)
Fixpoint sweep_loop (now : Z) (js : list nat) : code :=
  match js with
  | [] => Ret RSwept
  | j :: js => Lock j (Update j (sweep_shard (UnixNano now)) (Unlock j (sweep_loop now js)))
  end.
Definition sweep_code : code := Now (fun now => sweep_loop now (seq 0 numShards)).

(** [CachedStore.IsDuplicate]. *)
Definition IsDuplicate_code (key : string) (ttl : Z) : code :=
  Contains_code key (fun hit =>
  if hit then Ret (RVerdict (true, None))
  else
    Backend key (fun '(isDup, err) =>
    match err with
    | Some err => Ret (RVerdict (isDup, Some err))
    | None => Set_code key ttl (Ret (RVerdict (isDup, None)))
    end)).

(** ** sync.RWMutex *)

(** A writer first keeps new readers and writers out, then waits until the
    readers inside are gone. *)
Inductive writer := NoWriter | Waiting (i : nat) | Writing (i : nat).
Record RWMutex := mkRWMutex { readers : nat; writing : writer }.

Definition unlocked : RWMutex := mkRWMutex 0 NoWriter.

(** An instance: its cache and the mutexes of the shards, unlocked at first. *)
Record instance := Instance { i_cache : LocalCache; i_locks : gmap nat RWMutex }.
Definition lock_of (m : instance) (j : nat) : RWMutex := default unlocked (i_locks m !! j).
Definition set_lock (m : instance) (j : nat) (l : RWMutex) : instance :=
  Instance (i_cache m) (<[j := l]> (i_locks m)).

Definition shard_data (m : instance) (j : nat) : cacheShard := default ∅ (shards (i_cache m) !! j).
Definition update_shard (m : instance) (j : nat) (f : cacheShard -> cacheShard) : instance :=
  Instance (mkLocalCache (alter f j (shards (i_cache m)))) (i_locks m).

(** One operation of goroutine [i] at the time [now]. [None]: it cannot go on by
    itself, since it has returned, waits for the backend or for a mutex, or has
    released a mutex that it does not hold, which Go punishes with a fatal error. *)
Definition exec (i : nat) (now : Z) (m : instance) (p : code) : option (instance * code) :=
  match p with
  | Ret _ | Backend _ _ => None
  | Now k => Some (m, k now)
  | RLock j k =>
      match lock_of m j with
      | mkRWMutex n NoWriter => Some (set_lock m j (mkRWMutex (S n) NoWriter), k)
      | _ => None
      end
  | RUnlock j k =>
      match lock_of m j with
      | mkRWMutex (S n) w => Some (set_lock m j (mkRWMutex n w), k)
      | _ => None
      end
  | Lock j k =>
      match lock_of m j with
      | mkRWMutex n NoWriter => Some (set_lock m j (mkRWMutex n (Waiting i)), LockWait j k)
      | _ => None
      end
  | LockWait j k =>
      match lock_of m j with
      | mkRWMutex 0 (Waiting i') =>
          if decide (i = i') then Some (set_lock m j (mkRWMutex 0 (Writing i)), k) else None
      | _ => None
      end
  | Unlock j k =>
      match lock_of m j with
      | mkRWMutex n (Writing i') =>
          if decide (i = i') then Some (set_lock m j (mkRWMutex n NoWriter), k) else None
      | _ => None
      end
  | Load j key k => Some (m, k (shard_data m j !! key))
  | Size j k => Some (m, k (size (shard_data m j)))
  | Update j f k => Some (update_shard m j f, k)
  end.

(** ** The system *)

Inductive job := JCall (key : string) | JLen | JSweep.
Record goroutine := Goroutine { g_inst : nat; g_job : job; g_code : code }.

Record lsystem := LSystem {
  l_now : Z;
  l_insts : list instance;
  l_records : gmap string Z;
  l_gs : list goroutine;
}.

Section System.
Context (window slack : Z).

Definition job_code (b : job) : code :=
  match b with JCall key => IsDuplicate_code key window | JLen => Len_code | JSweep => sweep_code end.

Definition go_on (i : nat) (g : goroutine) (p : code) (gs : list goroutine) : list goroutine :=
  <[i := Goroutine (g_inst g) (g_job g) p]> gs.

(** Goroutine [i] takes a step of its own. *)
Inductive local_step (i : nat) : lsystem -> lsystem -> Prop :=
  | local_exec now ms r gs g m m' p :
      gs !! i = Some g -> ms !! g_inst g = Some m -> exec i now m (g_code g) = Some (m', p) ->
      local_step i (LSystem now ms r gs) (LSystem now (<[g_inst g := m']> ms) r (go_on i g p gs)).

(** It takes a step, or the backend answers it. *)
Inductive go_step (i : nat) : lsystem -> lsystem -> Prop :=
  | go_local s s' : local_step i s s' -> go_step i s s'
  | go_backend now ms r r' gs g key k v :
      gs !! i = Some g -> g_code g = Backend key k -> outcome slack now window key r v r' ->
      go_step i (LSystem now ms r gs) (LSystem now ms r' (go_on i g (k v) gs)).

Inductive lstep : lsystem -> lsystem -> Prop :=
  | lstep_go i s s' : go_step i s s' -> lstep s s'
  | lstep_tick now now' ms r gs : now <= now' -> lstep (LSystem now ms r gs) (LSystem now' ms r gs)
  | lstep_spawn now ms r gs inst b : (inst < length ms)%nat ->
      lstep (LSystem now ms r gs) (LSystem now ms r (gs ++ [Goroutine inst b (job_code b)]))
  | lstep_expire now ms r r' gs : evolves now r r' -> lstep (LSystem now ms r gs) (LSystem now ms r' gs).

Definition linitial (n : nat) (t0 : Z) : lsystem :=
  LSystem t0 (replicate n (Instance NewLocalCache ∅)) ∅ [].
Definition lreachable (n : nat) (t0 : Z) (s : lsystem) : Prop := rtc lstep (linitial n t0) s.
End System.

(** ** The discipline the programs keep *)

(** What a goroutine is to a mutex. *)
Inductive mode := Reader | Waiter | Writer.
#[global] Instance mode_eq_dec : EqDecision mode.
Proof. solve_decision. Defined.

(** The mutex, if any, that it has to do with. *)
Abbreviation hold := (option (nat * mode)).
Definition hold_of (j : nat) (md : option mode) : hold := (fun md => (j, md)) <$> md.

(** From here [p] takes at most [n] steps; it touches a shard's map only inside
    that shard's mutex and writes it only as the writer, it never asks for a mutex
    while it has to do with another, and it calls the backend and returns with
    none. *)
Fixpoint safe (h : hold) (n : nat) (p : code) {struct p} : Prop :=
  match p with
  | Ret _ => h = None
  | Now k => match n with S n => forall t, safe h n (k t) | O => False end
  | RLock j k => match n with S n => h = None /\ safe (Some (j, Reader)) n k | O => False end
  | RUnlock j k => match n with S n => h = Some (j, Reader) /\ safe None n k | O => False end
  | Lock j k => match n with S (S n) => h = None /\ safe (Some (j, Writer)) n k | _ => False end
  | LockWait j k => match n with S n => h = Some (j, Waiter) /\ safe (Some (j, Writer)) n k | O => False end
  | Unlock j k => match n with S n => h = Some (j, Writer) /\ safe None n k | O => False end
  | Load j _ k =>
      match n with
      | S n => (h = Some (j, Reader) \/ h = Some (j, Writer)) /\ forall r, safe h n (k r)
      | O => False
      end
  | Size j k =>
      match n with
      | S n => (h = Some (j, Reader) \/ h = Some (j, Writer)) /\ forall m, safe h n (k m)
      | O => False
      end
  | Update j _ k => match n with S n => h = Some (j, Writer) /\ safe h n k | O => False end
  | Backend _ k => match n with S n => h = None /\ forall v, safe None n (k v) | O => False end
  end.

Lemma safe_le p h n n' : (n <= n')%nat -> safe h n p -> safe h n' p.
Proof.
  revert h n n'.
  induction p as [r|k IH|j k IH|j k IH|j k IH|j k IH|j k IH|j key k IH|j k IH|j f k IH|key k IH];
    intros h [|n] [|n'] Hn; simpl; try done; try lia.
  1: intros Hs t; eapply IH; [|apply Hs]; lia.
  3: destruct n as [|n], n' as [|n']; try done; try lia.
  all: intros [? Hs]; (split; [done|]); intros; (eapply IH; [|apply Hs]; lia).
Qed.

Lemma safe_Contains key k n :
  (forall hit, safe None n (k hit)) -> safe None (10 + n) (Contains_code key k).
Proof.
  intros Hk. assert (Hk' : forall n' hit, (n <= n')%nat -> safe None n' (k hit)) by eauto using safe_le.
  simpl. intros t. split; [done|]. split; [by left|]. intros [e|]; (split; [done|]); [|apply Hk'; lia].
  destruct (e <=? UnixNano t); [|apply Hk'; lia]. simpl. split; [done|]. split; [by right|].
  intros [e'|]; [|split; [done|apply Hk'; lia]].
  intros t'. destruct (e' <=? UnixNano t'); (split; [done|]); [split; [done|]|]; apply Hk'; lia.
Qed.

Lemma safe_Set key ttl k n : safe None n k -> safe None (5 + n) (Set_code key ttl k).
Proof. by simpl. Qed.

Lemma safe_IsDuplicate key ttl : safe None 16 (IsDuplicate_code key ttl).
Proof.
  apply (safe_Contains key _ 6). intros []; [done|]. split; [done|].
  intros [dup [e|]]; [done|]. by apply (safe_Set key ttl _ 0).
Qed.

Lemma safe_Len_loop js n : safe None (3 * length js) (Len_loop js n).
Proof.
  revert n. induction js as [|j js IH]; intros n; [done|].
  replace (3 * length (j :: js))%nat with (3 + 3 * length js)%nat by (simpl; lia).
  split; [done|]. split; [by left|]. intros m. by split.
Qed.

Lemma safe_sweep_loop t js : safe None (4 * length js) (sweep_loop t js).
Proof.
  induction js as [|j js IH]; [done|].
  replace (4 * length (j :: js))%nat with (4 + 4 * length js)%nat by (simpl; lia).
  split; [done|]. split; [done|]. by split.
Qed.

(** The most steps any goroutine takes: those of a sweep. *)
Definition max_steps : nat := 1 + 4 * numShards.

Lemma safe_job window b : safe None max_steps (job_code window b).
Proof.
  destruct b as [key| |]; simpl job_code.
  - eapply safe_le; [|apply safe_IsDuplicate]. unfold max_steps, numShards. lia.
  - eapply safe_le; [|apply safe_Len_loop]. rewrite length_seq. unfold max_steps, numShards. lia.
  - intros t. eapply safe_le; [|apply safe_sweep_loop]. by rewrite length_seq.
Qed.

(** ** A mutex and the goroutines that have to do with it *)

Definition count_readers (ms : list (option mode)) : nat := length (filter (fun md => md = Some Reader) ms).

(** The state of the mutex is what the goroutines are to it. *)
Record lock_ok (l : RWMutex) (ms : list (option mode)) : Prop := {
  ok_readers : readers l = count_readers ms;
  ok_waiting i : writing l = Waiting i <-> ms !! i = Some (Some Waiter);
  ok_writing i : writing l = Writing i <-> ms !! i = Some (Some Writer);
  ok_exclusive i : writing l = Writing i -> readers l = 0%nat;
}.

(** The five operations on a mutex. *)
Inductive lock_move (i : nat) : RWMutex -> option mode -> RWMutex -> option mode -> Prop :=
  | move_rlock n : lock_move i (mkRWMutex n NoWriter) None (mkRWMutex (S n) NoWriter) (Some Reader)
  | move_runlock n w : lock_move i (mkRWMutex (S n) w) (Some Reader) (mkRWMutex n w) None
  | move_lock n : lock_move i (mkRWMutex n NoWriter) None (mkRWMutex n (Waiting i)) (Some Waiter)
  | move_enter : lock_move i (mkRWMutex 0 (Waiting i)) (Some Waiter) (mkRWMutex 0 (Writing i)) (Some Writer)
  | move_unlock n : lock_move i (mkRWMutex n (Writing i)) (Some Writer) (mkRWMutex n NoWriter) None.

Lemma count_readers_insert i md md' ms :
  ms !! i = Some md ->
  (count_readers (<[i := md']> ms) + (if decide (md = Some Reader) then 1 else 0) =
   count_readers ms + (if decide (md' = Some Reader) then 1 else 0))%nat.
Proof.
  unfold count_readers. revert i. induction ms as [|x ms IH]; intros [|i] Hi; [done|done| |]; simpl in *.
  - simplify_eq. rewrite !filter_cons. repeat case_decide; simpl; lia.
  - specialize (IH i Hi). rewrite !filter_cons. repeat case_decide; simpl; lia.
Qed.

Lemma count_readers_pos i ms : ms !! i = Some (Some Reader) -> (0 < count_readers ms)%nat.
Proof. intros Hi. pose proof (count_readers_insert i _ None ms Hi) as H. simpl in H. lia. Qed.

Lemma lock_ok_move i l md l' md' ms :
  lock_move i l md l' md' -> lock_ok l ms -> ms !! i = Some md -> lock_ok l' (<[i := md']> ms).
Proof.
  intros Hm [Hr Hwt Hwr Hex] Hi. pose proof (count_readers_insert i md md' ms Hi) as Hc.
  assert (Hlt : (i < length ms)%nat) by (by eapply lookup_lt_Some).
  split.
  - destruct Hm; simpl in *; lia.
  - intros i'. destruct (decide (i = i')) as [<-|Hne]; [rewrite list_lookup_insert_eq by done|
      rewrite list_lookup_insert_ne, <-Hwt by done]; destruct Hm; simpl in *; naive_solver.
  - intros i'. destruct (decide (i = i')) as [<-|Hne]; [rewrite list_lookup_insert_eq by done|
      rewrite list_lookup_insert_ne, <-Hwr by done]; destruct Hm; simpl in *; naive_solver.
  - intros i'. destruct Hm; simpl in *; try done. intros H. specialize (Hex i' H). lia.
Qed.

Lemma lock_ok_spawn l ms : lock_ok l ms -> lock_ok l (ms ++ [None]).
Proof.
  assert (Ha : forall i x, (ms ++ [None]) !! i = Some (Some x) <-> ms !! i = Some (Some x)).
  { intros i x. rewrite lookup_snoc_Some. split; [by intros [[_ ?]|[_ [=]]]|]. intros H.
    left. split; [by eapply lookup_lt_Some|done]. }
  intros [Hr Hwt Hwr Hex]. split; [|intros i; by rewrite Ha..|done].
  unfold count_readers. rewrite filter_app, length_app. simpl. by rewrite Nat.add_0_r.
Qed.

Lemma lock_ok_fresh : lock_ok unlocked [].
Proof. split; simpl; done. Qed.

(** With nobody inside or about to be, it is unlocked. *)
Lemma lock_ok_unlocked l ms : lock_ok l ms -> (forall i md, ms !! i = Some md -> md = None) -> l = unlocked.
Proof.
  intros [Hr Hwt Hwr Hex] Hn. destruct l as [n w]. simpl in *.
  assert (n = 0%nat) as ->.
  { rewrite Hr. clear -Hn. unfold count_readers. induction ms as [|x ms IH]; [done|].
    rewrite filter_cons_False; [|by rewrite (Hn 0%nat x eq_refl)]. apply IH. intros i. apply (Hn (S i)). }
  destruct w as [|i|i]; [done| |]; exfalso.
  - specialize (Hn i _ (proj1 (Hwt i) eq_refl)). done.
  - specialize (Hn i _ (proj1 (Hwr i) eq_refl)). done.
Qed.

(** ** One operation of a disciplined program *)

Lemma lock_of_set m j l j' : lock_of (set_lock m j l) j' = if decide (j = j') then l else lock_of m j'.
Proof.
  unfold lock_of, set_lock. simpl. case_decide as E; [subst; by rewrite lookup_insert_eq|].
  by rewrite lookup_insert_ne.
Qed.

(** It uses up fuel, stays disciplined, and changes no mutex or the one it has to
    do with, as one of the five operations. *)
Lemma exec_safe i now m p m' p' h n :
  safe h n p -> exec i now m p = Some (m', p') ->
  exists h' n', (n' < n)%nat /\ safe h' n' p' /\
    (h' = h /\ i_locks m' = i_locks m \/
     exists j l md md', h = hold_of j md /\ h' = hold_of j md' /\ m' = set_lock m j l /\
       lock_move i (lock_of m j) md l md').
Proof.
  intros Hs He. destruct p; simpl in *; try done; destruct n as [|n]; try done.
  - injection He as <- <-. exists h, n. split_and!; [lia|done|by left].
  - destruct (lock_of m j) as [r [| |]] eqn:El; try done. injection He as <- <-. destruct Hs as [-> Hs].
    exists (Some (j, Reader)), n. split_and!; [lia|done|]. right. exists j, (mkRWMutex (S r) NoWriter), None, (Some Reader).
    split_and!; [done..|]. rewrite El. constructor.
  - destruct (lock_of m j) as [[|r] w] eqn:El; try done. injection He as <- <-. destruct Hs as [-> Hs].
    exists None, n. split_and!; [lia|done|]. right. exists j, (mkRWMutex r w), (Some Reader), None.
    split_and!; [done..|]. rewrite El. constructor.
  - destruct n as [|n]; try done.
    destruct (lock_of m j) as [r [| |]] eqn:El; try done. injection He as <- <-. destruct Hs as [-> Hs].
    exists (Some (j, Waiter)), (S n). split_and!; [lia|done|]. right.
    exists j, (mkRWMutex r (Waiting i)), None, (Some Waiter). split_and!; [done..|]. rewrite El. constructor.
  - destruct (lock_of m j) as [[|r] [|i'|]] eqn:El; try done. case_decide as Ei; [subst i'|done].
    injection He as <- <-. destruct Hs as [-> Hs].
    exists (Some (j, Writer)), n. split_and!; [lia|done|]. right.
    exists j, (mkRWMutex 0 (Writing i)), (Some Waiter), (Some Writer). split_and!; [done..|]. rewrite El. constructor.
  - destruct (lock_of m j) as [r [| |i']] eqn:El; try done. case_decide as Ei; [subst i'|done].
    injection He as <- <-. destruct Hs as [-> Hs].
    exists None, n. split_and!; [lia|done|]. right.
    exists j, (mkRWMutex r NoWriter), (Some Writer), None. split_and!; [done..|]. rewrite El. constructor.
  - injection He as <- <-. destruct Hs as [_ Hs]. exists h, n. split_and!; [lia|done|by left].
  - injection He as <- <-. destruct Hs as [_ Hs]. exists h, n. split_and!; [lia|done|by left].
  - injection He as <- <-. destruct Hs as [_ Hs]. exists h, n. split_and!; [lia|done|by left].
Qed.

(** ** The invariant *)

(** What is known of a goroutine: its instance, the mutex it has to do with, and
    a bound on the steps it still takes. *)
Record ghost := Ghost { gh_inst : nat; gh_hold : hold; gh_fuel : nat }.

(** What it is to the mutex of one shard. *)
Definition on (inst j : nat) (gh : ghost) : option mode :=
  match gh_hold gh with
  | Some (j', md) => if decide (gh_inst gh = inst /\ j' = j) then Some md else None
  | None => None
  end.

Lemma on_hold_of inst j inst' j' md n :
  on inst j (Ghost inst' (hold_of j' md) n) = if decide (inst' = inst /\ j' = j) then md else None.
Proof. unfold on. destruct md; simpl; [done|]. by case_decide. Qed.

Lemma on_other inst j inst' h n : inst' <> inst -> on inst j (Ghost inst' h n) = None.
Proof. intros Hne. unfold on. simpl. destruct h as [[j' md]|]; [|done]. rewrite decide_False by tauto. done. Qed.

Record LInv (ghs : list ghost) (s : lsystem) : Prop := {
  linv_safe : Forall2 (fun gh g => gh_inst gh = g_inst g /\ safe (gh_hold gh) (gh_fuel gh) (g_code g))
                ghs (l_gs s);
  linv_insts : Forall (fun gh => (gh_inst gh < length (l_insts s))%nat) ghs;
  linv_fuel : Forall (fun gh => (gh_fuel gh <= max_steps)%nat) ghs;
  linv_locks inst m j : l_insts s !! inst = Some m -> lock_ok (lock_of m j) (on inst j <$> ghs);
}.

Lemma LInv_goroutine ghs s i g : LInv ghs s -> l_gs s !! i = Some g ->
  exists h n, ghs !! i = Some (Ghost (g_inst g) h n) /\ safe h n (g_code g).
Proof.
  intros [] Hi. destruct (Forall2_lookup_r _ _ _ _ _ linv_safe0 Hi) as ([inst h n] & Hg & E & Hs).
  simpl in *. subst. by exists h, n.
Qed.

(** Progress of one goroutine, as what is known of it changes. *)
Definition advances (i : nat) (ghs ghs' : list ghost) : Prop :=
  exists inst h n h' n', ghs !! i = Some (Ghost inst h n) /\ (n' < n)%nat /\
    ghs' = <[i := Ghost inst h' n']> ghs.

Lemma LInv_local i s s' ghs :
  local_step i s s' -> LInv ghs s -> exists ghs', advances i ghs ghs' /\ LInv ghs' s'.
Proof.
  intros [now ms r gs g m m' p Hi Hm He] HI.
  destruct (LInv_goroutine _ _ _ _ HI Hi) as (h & n & Hgh & Hs). destruct HI. simpl in *.
  destruct (exec_safe _ _ _ _ _ _ _ _ Hs He) as (h' & n' & Hn & Hs' & Hl).
  assert (Hin : (g_inst g < length ms)%nat) by (by eapply lookup_lt_Some).
  assert (Hf : (n <= max_steps)%nat) by (exact (Forall_lookup_1 _ _ _ _ linv_fuel0 Hgh)).
  exists (<[i := Ghost (g_inst g) h' n']> ghs). split; [by exists (g_inst g), h, n, h', n'|].
  split; simpl; rewrite ?length_insert.
  - by apply Forall2_insert.
  - by apply Forall_insert.
  - apply Forall_insert; [done|]. simpl. lia.
  - intros inst m0 j0. rewrite list_fmap_insert.
    assert (Hon : (on inst j0 <$> ghs) !! i = Some (on inst j0 (Ghost (g_inst g) h n)))
      by (by rewrite list_lookup_fmap, Hgh).
    destruct (decide (g_inst g = inst)) as [<-|Hne].
    + rewrite list_lookup_insert_eq by done. intros [= <-]. specialize (linv_locks0 _ _ j0 Hm).
      destruct Hl as [[-> El]|(j & l & md & md' & -> & -> & -> & Hmv)].
      * rewrite list_insert_id by exact Hon. unfold lock_of. by rewrite El.
      * rewrite on_hold_of in *. rewrite lock_of_set. destruct (decide (j = j0)) as [->|Hj].
        -- rewrite decide_True in * by done. by eapply lock_ok_move.
        -- rewrite decide_False in * by tauto. by rewrite list_insert_id.
    + rewrite list_lookup_insert_ne by done. intros Hm0. rewrite on_other in * by done.
      rewrite list_insert_id by done. by apply linv_locks0.
Qed.

Section Invariant.
Context (window slack : Z).

Lemma LInv_go i s s' ghs :
  go_step window slack i s s' -> LInv ghs s -> exists ghs', advances i ghs ghs' /\ LInv ghs' s'.
Proof.
  intros [s0 s0' Hl|now ms r r' gs g key k v Hi Hc Ho] HI; [by eapply LInv_local|].
  destruct (LInv_goroutine _ _ _ _ HI Hi) as (h & n & Hgh & Hs). destruct HI. simpl in *.
  rewrite Hc in Hs. destruct n as [|n]; [done|]. destruct Hs as [-> Hs].
  assert (Hf : (S n <= max_steps)%nat) by (exact (Forall_lookup_1 _ _ _ _ linv_fuel0 Hgh)).
  exists (<[i := Ghost (g_inst g) None n]> ghs). split; [exists (g_inst g), None, (S n), None, n; split_and!; [done|lia|done]|].
  split; simpl.
  - apply Forall2_insert; [done|]. split; [done|]. apply Hs.
  - apply Forall_insert; [done|]. exact (Forall_lookup_1 _ _ _ _ linv_insts0 Hgh).
  - apply Forall_insert; [done|]. simpl. lia.
  - intros inst m j Hm. rewrite list_fmap_insert, list_insert_id by (by rewrite list_lookup_fmap, Hgh).
    by apply linv_locks0.
Qed.

Lemma LInv_step s s' ghs : lstep window slack s s' -> LInv ghs s -> exists ghs', LInv ghs' s'.
Proof.
  intros Hst HI. destruct Hst as [i s s' Hst|now now' ms r gs Hn|now ms r gs inst b Hinst|now ms r r' gs He].
  - destruct (LInv_go _ _ _ _ Hst HI) as (ghs' & _ & ?). by exists ghs'.
  - exists ghs. by destruct HI.
  - exists (ghs ++ [Ghost inst None max_steps]). destruct HI. split; simpl in *.
    + apply Forall2_app; [done|]. constructor; [|done]. split; [done|]. apply safe_job.
    + apply Forall_app. by split; [|constructor].
    + apply Forall_app. by split; [|constructor].
    + intros inst' m j Hm. rewrite fmap_app. by apply lock_ok_spawn, linv_locks0.
  - exists ghs. by destruct HI.
Qed.

Lemma LInv_reachable n t0 s : lreachable window slack n t0 s -> exists ghs, LInv ghs s.
Proof.
  intros H. assert (HI : exists ghs, LInv ghs (linitial n t0)).
  { exists []. split; simpl; [constructor..|]. intros inst m j [-> _]%lookup_replicate. apply lock_ok_fresh. }
  unfold lreachable in H. induction H as [|s1 s2 s3 Hst _ IH]; [done|].
  destruct HI as [ghs HI]. apply IH. by eapply LInv_step.
Qed.
End Invariant.

(** *** Reading the state of a mutex off the goroutines, and back *)

Lemma on_Some inst j gh md : on inst j gh = Some md -> exists n, gh = Ghost inst (Some (j, md)) n.
Proof.
  unfold on. destruct gh as [inst' [[j' md']|] n]; simpl; [|done].
  case_decide as E; [|done]. destruct E as [-> ->]. intros [= ->]. by exists n.
Qed.

Lemma lookup_on (ghs : list ghost) (i inst j : nat) md :
  (on inst j <$> ghs) !! i = Some (Some md) <-> exists n, ghs !! i = Some (Ghost inst (Some (j, md)) n).
Proof.
  rewrite list_lookup_fmap_Some. split.
  - intros (gh & E & Hg). symmetry in E. apply on_Some in E as [n ->]. by exists n.
  - intros [n Hg]. eexists. split; [|exact Hg]. unfold on. simpl. by rewrite decide_True.
Qed.

Lemma count_readers_inv ms : (0 < count_readers ms)%nat -> exists i, ms !! i = Some (Some Reader).
Proof.
  unfold count_readers. induction ms as [|x ms IH]; simpl; [lia|]. rewrite filter_cons.
  case_decide as E; [intros _; exists 0%nat; by subst|]. intros [i Hi]%IH. by exists (S i).
Qed.

(** ** Progress *)

(** The goroutine has returned or waits for the backend. *)
Definition parked (p : code) : bool := match p with Ret _ | Backend _ _ => true | _ => false end.

Definition can_step (s : lsystem) (i : nat) : Prop := exists s', local_step i s s'.

Lemma exec_can_step s i g m :
  l_gs s !! i = Some g -> l_insts s !! g_inst g = Some m ->
  is_Some (exec i (l_now s) m (g_code g)) -> can_step s i.
Proof. intros Hi Hm [[m' p] He]. destruct s. eexists. by eapply local_exec. Qed.

Section Progress.
Context (ghs : list ghost) (s : lsystem) (HI : LInv ghs s).

Lemma ghost_goroutine i inst h n : ghs !! i = Some (Ghost inst h n) ->
  exists g m, l_gs s !! i = Some g /\ g_inst g = inst /\ l_insts s !! inst = Some m /\ safe h n (g_code g).
Proof.
  intros Hg. destruct (Forall2_lookup_l _ _ _ _ _ (linv_safe _ _ HI) Hg) as (g & Hi & E & Hs). simpl in *.
  pose proof (Forall_lookup_1 _ _ _ _ (linv_insts _ _ HI) Hg) as Hlt. simpl in Hlt.
  apply lookup_lt_is_Some in Hlt as [m Hm]. by exists g, m.
Qed.

(** Whoever is inside a mutex can go on. *)
Lemma inside_can_step i inst j md n :
  ghs !! i = Some (Ghost inst (Some (j, md)) n) -> md <> Waiter -> can_step s i.
Proof.
  intros Hg Hmd. destruct (ghost_goroutine _ _ _ _ Hg) as (g & m & Hi & <- & Hm & Hs).
  destruct (linv_locks _ _ HI _ _ j Hm) as [Hr _ Hw _].
  eapply exec_can_step; [exact Hi|exact Hm|].
  destruct (g_code g); simpl in *; try done; destruct n as [|n]; try done; try (by eexists);
    try (destruct Hs; congruence).
  - destruct Hs as [[= <- ->] _].
    pose proof (count_readers_pos i _ (proj2 (lookup_on _ _ _ _ _) (ex_intro _ _ Hg))) as Hpos.
    destruct (lock_of m j) as [[|r] w]; simpl in *; [lia|by eexists].
  - destruct n; [done|]. by destruct Hs.
  - destruct Hs as [[= <- ->] _].
    pose proof (proj2 (Hw i) (proj2 (lookup_on _ _ _ _ _) (ex_intro _ _ Hg))) as E.
    destruct (lock_of m j) as [r w]. simpl in *. subst w. rewrite decide_True by done. by eexists.
Qed.

(** A writer that waits can go on, or a reader it waits for can. *)
Lemma waiter_progress i inst j n :
  ghs !! i = Some (Ghost inst (Some (j, Waiter)) n) -> exists i', can_step s i'.
Proof.
  intros Hg. destruct (ghost_goroutine _ _ _ _ Hg) as (g & m & Hi & <- & Hm & Hs).
  destruct (linv_locks _ _ HI _ _ j Hm) as [Hr Hwt _ _].
  pose proof (proj2 (Hwt i) (proj2 (lookup_on _ _ _ _ _) (ex_intro _ _ Hg))) as E.
  destruct (readers (lock_of m j)) as [|r] eqn:Er.
  - exists i. eapply exec_can_step; [exact Hi|exact Hm|].
    destruct (g_code g); simpl in *; try done; destruct n as [|n]; try done; try (by eexists);
      try (destruct Hs as [Hs _]; naive_solver).
    + destruct n; [done|]. by destruct Hs.
    + destruct Hs as [[= <-] _]. destruct (lock_of m j) as [r w]. simpl in *. subst.
      rewrite decide_True by done. by eexists.
  - destruct (count_readers_inv (on (g_inst g) j <$> ghs)) as [i' Hi']; [lia|].
    apply lookup_on in Hi' as [n' Hg']. exists i'. by eapply inside_can_step.
Qed.

(** A mutex that is taken or asked for lets somebody go on. *)
Lemma busy_progress inst m j :
  l_insts s !! inst = Some m -> writing (lock_of m j) <> NoWriter -> exists i, can_step s i.
Proof.
  intros Hm Hne. destruct (linv_locks _ _ HI _ _ j Hm) as [_ Hwt Hwr _].
  destruct (writing (lock_of m j)) as [|i|i] eqn:E; [done| |].
  - destruct (proj1 (lookup_on _ _ _ _ _) (proj1 (Hwt i) eq_refl)) as [n Hg]. by eapply waiter_progress.
  - destruct (proj1 (lookup_on _ _ _ _ _) (proj1 (Hwr i) eq_refl)) as [n Hg].
    exists i. by eapply inside_can_step.
Qed.

Lemma local_progress i g : l_gs s !! i = Some g -> parked (g_code g) = false -> exists i', can_step s i'.
Proof.
  intros Hi Hp. destruct (LInv_goroutine _ _ _ _ HI Hi) as (h & n & Hg & Hs).
  destruct (ghost_goroutine _ _ _ _ Hg) as (g' & m & Hi' & _ & Hm & _).
  assert (g' = g) as -> by congruence. clear Hi'.
  destruct h as [[j [| |]]|]; [exists i; by eapply inside_can_step|by eapply waiter_progress|
    exists i; by eapply inside_can_step|].
  assert (Hfree : forall j, (writing (lock_of m j) = NoWriter -> is_Some (exec i (l_now s) m (g_code g))) ->
    exists i', can_step s i').
  { intros j Hj. destruct (writing (lock_of m j)) eqn:E; [|eapply (busy_progress _ _ j Hm); congruence..].
    exists i. eapply exec_can_step; [done..|]. by apply Hj. }
  destruct (g_code g); simpl in *; try done; destruct n as [|n]; try done; try (destruct Hs as [Hs _]; naive_solver).
  - apply (Hfree 0%nat). intros _. by eexists.
  - apply (Hfree j). destruct (lock_of m j) as [r w]. simpl. intros ->. by eexists.
  - apply (Hfree j). destruct (lock_of m j) as [r w]. simpl. intros ->. by eexists.
Qed.

(** When all are parked, no mutex is held. *)
Lemma parked_unlocked inst m j :
  Forall (fun g => parked (g_code g) = true) (l_gs s) -> l_insts s !! inst = Some m -> lock_of m j = unlocked.
Proof.
  intros Hp Hm. eapply lock_ok_unlocked; [by eapply linv_locks|]. intros i [md|]; [|done].
  intros [n Hg]%lookup_on. destruct (ghost_goroutine _ _ _ _ Hg) as (g & m' & Hi & _ & _ & Hs).
  pose proof (Forall_lookup_1 _ _ _ _ Hp Hi) as Hpk. simpl in Hpk. destruct (g_code g); try done.
  simpl in Hs. destruct n; [done|]. by destruct Hs.
Qed.
End Progress.

(** The steps that are left to all goroutines together. *)
Definition fuel_left (ghs : list ghost) : nat := sum_list_with gh_fuel ghs.

Lemma advances_fuel i ghs ghs' : advances i ghs ghs' -> (fuel_left ghs' < fuel_left ghs)%nat.
Proof.
  intros (inst & h & n & h' & n' & Hi & Hn & ->). unfold fuel_left. revert i Hi.
  induction ghs as [|x ghs IH]; intros [|i] Hi; [done|done| |]; simpl in *; [simplify_eq; simpl; lia|].
  specialize (IH i Hi). lia.
Qed.

Lemma fuel_left_bound ghs s : LInv ghs s -> (fuel_left ghs <= max_steps * length (l_gs s))%nat.
Proof.
  intros [Hs _ Hf _]. rewrite <-(Forall2_length _ _ _ Hs). clear Hs. unfold fuel_left.
  induction Hf as [|gh ghs Hn _ IH]; cbn [sum_list_with length]; [lia|]. lia.
Qed.

Lemma go_steps_bound window slack m s s' ghs :
  LInv ghs s -> nsteps (fun s s' => exists i, go_step window slack i s s') m s s' -> (m <= fuel_left ghs)%nat.
Proof.
  intros HI Hn. revert ghs HI. induction Hn as [s|m s1 s2 s3 [i Hst] _ IH]; intros ghs HI; [lia|].
  destruct (LInv_go _ _ _ _ _ _ Hst HI) as (ghs' & Ha & HI'). specialize (IH _ HI').
  pose proof (advances_fuel _ _ _ Ha). lia.
Qed.

(** ** Properties of the locking *)

(** The shard whose map the goroutine accesses next, and whether it writes it. *)
Definition accesses (p : code) : option (nat * bool) :=
  match p with Load j _ _ | Size j _ => Some (j, false) | Update j _ _ => Some (j, true) | _ => None end.

Lemma safe_accesses h n p j w : safe h n p -> accesses p = Some (j, w) ->
  exists md, h = Some (j, md) /\ md <> Waiter /\ (w = true -> md = Writer).
Proof.
  intros Hs Ha. destruct p; simpl in *; try done; destruct n as [|n]; try done; injection Ha as -> <-;
    destruct Hs as [Hh _]; naive_solver.
Qed.

Section Properties.
Context (window slack : Z).

(** C20: the cache is free of data races: in every reachable state, two
    goroutines that are both about to access the map of the same shard of the same
    instance are both about to read it, whether they are inside [Contains],
    [Set], [Len] or [sweep]. So a step that writes a shard's map never coincides
    with another access to it, and may be taken as one. *)
Theorem no_data_race n t0 s i i' g g' j w w' :
  lreachable window slack n t0 s ->
  l_gs s !! i = Some g -> l_gs s !! i' = Some g' -> i <> i' -> g_inst g = g_inst g' ->
  accesses (g_code g) = Some (j, w) -> accesses (g_code g') = Some (j, w') ->
  w = false /\ w' = false.
Proof.
  intros [ghs HI]%LInv_reachable Hi Hi' Hne Einst Ha Ha'.
  destruct (LInv_goroutine _ _ _ _ HI Hi) as (h & f & Hg & Hs).
  destruct (LInv_goroutine _ _ _ _ HI Hi') as (h' & f' & Hg' & Hs').
  destruct (safe_accesses _ _ _ _ _ Hs Ha) as (md & -> & Hmd & Hw).
  destruct (safe_accesses _ _ _ _ _ Hs' Ha') as (md' & -> & Hmd' & Hw').
  destruct (ghost_goroutine _ _ HI _ _ _ _ Hg) as (_ & m & _ & _ & Hm & _). rewrite <-Einst in Hg'.
  destruct (linv_locks _ _ HI _ _ j Hm) as [Hr _ Hwr Hex].
  pose proof (proj2 (lookup_on _ _ _ _ _) (ex_intro _ _ Hg)) as Ho.
  pose proof (proj2 (lookup_on _ _ _ _ _) (ex_intro _ _ Hg')) as Ho'.
  assert (Hexcl : forall i i' md', i <> i' -> md' <> Waiter ->
    (on (g_inst g) j <$> ghs) !! i = Some (Some Writer) -> (on (g_inst g) j <$> ghs) !! i' <> Some (Some md')).
  { clear -Hr Hwr Hex. intros i i' md' Hne Hmd' Hi%Hwr Hi'. destruct md'; [|done|].
    - pose proof (count_readers_pos _ _ Hi'). specialize (Hex i Hi). lia.
    - apply Hwr in Hi'. congruence. }
  split; [destruct w; [|done]|destruct w'; [|done]]; exfalso.
  - rewrite (Hw eq_refl) in Ho. by eapply (Hexcl i i').
  - rewrite (Hw' eq_refl) in Ho'. by apply (Hexcl i' i md (not_eq_sym Hne) Hmd Ho').
Qed.

(** C21: no deadlock, no lost [Unlock], and no livelock: in every reachable state,
    as long as some goroutine has neither returned nor is waiting for the
    backend, one of them can take a step, even if the backend never answers
    anybody; if none can, all have returned or wait for the backend, and every
    mutex of every instance is free; and however the goroutines are scheduled, no
    more than 1025 steps for each of them can follow one another. *)
Theorem no_deadlock n t0 s :
  lreachable window slack n t0 s ->
  ((exists i g, l_gs s !! i = Some g /\ parked (g_code g) = false) -> exists i s', local_step i s s') /\
  ((forall i s', ~ local_step i s s') ->
     Forall (fun g => parked (g_code g) = true) (l_gs s) /\
     forall inst m j, l_insts s !! inst = Some m -> lock_of m j = unlocked) /\
  (forall m s', nsteps (fun s s' => exists i, go_step window slack i s s') m s s' ->
     (m <= 1025 * length (l_gs s))%nat).
Proof.
  intros [ghs HI]%LInv_reachable.
  assert (Hprog : forall i g, l_gs s !! i = Some g -> parked (g_code g) = false -> exists i s', local_step i s s')
    by (intros i g Hi Hp; by apply (local_progress ghs s HI i g)).
  split_and!; [intros (i & g & Hi & Hp); by eapply Hprog| |].
  - intros Hstuck. assert (Hall : Forall (fun g => parked (g_code g) = true) (l_gs s)).
    { apply Forall_lookup_2. intros i g Hi. destruct (parked (g_code g)) eqn:E; [done|].
      destruct (Hprog i g Hi E) as (i' & s' & Hst). by destruct (Hstuck i' s'). }
    split; [done|]. intros inst m j. by apply (parked_unlocked ghs s HI).
  - intros m s' Hn. pose proof (go_steps_bound _ _ _ _ _ _ HI Hn). pose proof (fuel_left_bound _ _ HI) as Hb.
    unfold max_steps, numShards in Hb. simpl Nat.add in Hb. lia.
Qed.
End Properties.

(** ** Every run is a run of [Interleaving] *)

(** What a step can do to a cache: write one shard, as its writer. *)
Lemma exec_cache i now m p m' p' h n :
  safe h n p -> exec i now m p = Some (m', p') ->
  i_cache m' = i_cache m \/
  exists j f, h = Some (j, Writer) /\ i_cache m' = mkLocalCache (alter f j (shards (i_cache m))).
Proof.
  intros Hs He. destruct p; simpl in He; try done; repeat case_match; simplify_eq; try (by left).
  destruct n as [|n]; [done|]. destruct Hs as [-> _]. right. by eexists _, _.
Qed.

Lemma lc_read_other c f j key :
  shard_of key <> j -> lc_read (mkLocalCache (alter f j (shards c))) key = lc_read c key.
Proof. intros Hne. unfold lc_read. simpl. by rewrite list_lookup_alter_ne. Qed.

Lemma shard_data_lookup m key : shard_data m (shard_of key) !! key = lc_read (i_cache m) key.
Proof. unfold shard_data, lc_read. by destruct (shards (i_cache m) !! shard_of key). Qed.

Lemma one_writer ghs s inst j i i' n n' : LInv ghs s ->
  ghs !! i = Some (Ghost inst (Some (j, Writer)) n) -> ghs !! i' = Some (Ghost inst (Some (j, Writer)) n') ->
  i = i'.
Proof.
  intros HI Hg Hg'. destruct (ghost_goroutine _ _ HI _ _ _ _ Hg) as (_ & m & _ & _ & Hm & _).
  destruct (linv_locks _ _ HI _ _ j Hm) as [_ _ Hwr _].
  pose proof (proj2 (Hwr i) (proj2 (lookup_on _ _ _ _ _) (ex_intro _ _ Hg))).
  pose proof (proj2 (Hwr i') (proj2 (lookup_on _ _ _ _ _) (ex_intro _ _ Hg'))). congruence.
Qed.

Section Refinement.
Context (window slack : Z).

(** *** Where a goroutine is in [Interleaving] *)

(** The rest of a call, from the backend on. *)
Definition answer_code (key : string) (v : bool * option error) : code :=
  match snd v with
  | Some err => Ret (RVerdict (fst v, Some err))
  | None => Set_code key window (Ret (RVerdict (fst v, None)))
  end.
Definition backend_code (key : string) : code :=
  Backend key (fun '(isDup, err) =>
    match err with
    | Some err => Ret (RVerdict (isDup, Some err))
    | None => Set_code key window (Ret (RVerdict (isDup, None)))
    end).
(** The eviction, inside the mutex. *)
Definition recheck_code (key : string) (exp : Z) : code :=
  Now (fun now =>
    if exp <=? UnixNano now
    then Update (shard_of key) (delete key) (Unlock (shard_of key) (backend_code key))
    else Unlock (shard_of key) (backend_code key)).
Definition evict_code (key : string) : code :=
  Load (shard_of key) key (fun r =>
    match r with Some exp => recheck_code key exp | None => Unlock (shard_of key) (backend_code key) end).
(** The branch [Contains] takes. *)
Definition branch_code (key : string) (t : Z) (r : option Z) : code :=
  match r with
  | None => backend_code key
  | Some expiry =>
      if expiry <=? UnixNano t then Lock (shard_of key) (evict_code key) else Ret (RVerdict (true, None))
  end.
Definition put_code (key : string) (dup : bool) (e : Z) : code :=
  Update (shard_of key) (insert key e) (Unlock (shard_of key) (Ret (RVerdict (dup, None)))).

(** A call on [key] with the program [p] still to run is at [q]. Taking, awaiting
    and releasing a mutex is no step of [Interleaving]; [Load], [Update] and the
    decision not to delete are where its steps happen. *)
Inductive at_pc (now : Z) (c : LocalCache) (key : string) : code -> pc -> Prop :=
  | at_start : at_pc now c key (IsDuplicate_code key window) PStart
  | at_rlock t : t <= now ->
      at_pc now c key (RLock (shard_of key) (Load (shard_of key) key (fun r => RUnlock (shard_of key) (branch_code key t r))))
        (PLookup t)
  | at_lookup t : t <= now ->
      at_pc now c key (Load (shard_of key) key (fun r => RUnlock (shard_of key) (branch_code key t r))) (PLookup t)
  | at_runlock p q : at_pc now c key p q -> at_pc now c key (RUnlock (shard_of key) p) q
  | at_unlock p q : at_pc now c key p q -> at_pc now c key (Unlock (shard_of key) p) q
  | at_evict_lock : at_pc now c key (Lock (shard_of key) (evict_code key)) PEvict
  | at_evict_wait : at_pc now c key (LockWait (shard_of key) (evict_code key)) PEvict
  | at_evict : at_pc now c key (evict_code key) PEvict
  | at_recheck exp : lc_read c key = Some exp -> at_pc now c key (recheck_code key exp) PEvict
  | at_delete exp t : lc_read c key = Some exp -> exp <= UnixNano t -> t <= now ->
      at_pc now c key (Update (shard_of key) (delete key) (Unlock (shard_of key) (backend_code key))) PEvict
  | at_backend : at_pc now c key (backend_code key) PBackend
  | at_set dup t : at_pc now c key (Set_code key window (Ret (RVerdict (dup, None)))) (PClock dup t)
  | at_put_lock dup t e : at_pc now c key (Lock (shard_of key) (put_code key dup e)) (PPut dup t e)
  | at_put_wait dup t e : at_pc now c key (LockWait (shard_of key) (put_code key dup e)) (PPut dup t e)
  | at_put dup t e : at_pc now c key (put_code key dup e) (PPut dup t e)
  | at_done v t : at_pc now c key (Ret (RVerdict v)) (PDone v t).

(** A sweep and a [Len] are no calls; a sweep's writes are by an earlier reading of the clock. *)
Inductive sweeping (now : Z) : code -> Prop :=
  | sweeping_start : sweeping now sweep_code
  | sweeping_lock t js : t <= now -> sweeping now (sweep_loop t js)
  | sweeping_wait t j js : t <= now ->
      sweeping now (LockWait j (Update j (sweep_shard (UnixNano t)) (Unlock j (sweep_loop t js))))
  | sweeping_update t j js : t <= now ->
      sweeping now (Update j (sweep_shard (UnixNano t)) (Unlock j (sweep_loop t js)))
  | sweeping_unlock t j js : t <= now -> sweeping now (Unlock j (sweep_loop t js)).

Inductive measuring : code -> Prop :=
  | measuring_lock js n : measuring (Len_loop js n)
  | measuring_size j js n : measuring (Size j (fun m => RUnlock j (Len_loop js (n + Z.of_nat m))))
  | measuring_unlock j js n : measuring (RUnlock j (Len_loop js n)).

(** A goroutine over the cache [c] of its instance, and the one of [Interleaving]
    it is: a call there; a sweep or a [Len] is one that never starts. *)
Definition related (now : Z) (c : LocalCache) (g : goroutine) (th : thread) : Prop :=
  t_inst th = g_inst g /\
  match g_job g with
  | JCall key => t_key th = key /\ at_pc now c key (g_code g) (t_pc th)
  | JSweep => sweeping now (g_code g) /\ t_pc th = PStart
  | JLen => measuring (g_code g) /\ t_pc th = PStart
  end.

(** *** What other goroutines do *)

Lemma safe_recheck h n key exp : safe h n (recheck_code key exp) -> h = Some (shard_of key, Writer).
Proof.
  destruct n as [|n]; [done|]. intros Hs. specialize (Hs 0). revert Hs. cbn beta.
  destruct (exp <=? UnixNano 0); (destruct n as [|n]; [done|]); by intros [? _].
Qed.

Lemma at_pc_stable now now' c c' key p q h n :
  now <= now' -> safe h n p -> (h = Some (shard_of key, Writer) -> lc_read c' key = lc_read c key) ->
  at_pc now c key p q -> at_pc now' c' key p q.
Proof.
  intros Hn Hs Hc Hat. revert h n Hs Hc.
  induction Hat as [|t|t|p q Hat IH|p q Hat IH| | | |exp Hr|exp t Hr| | | | | |]; intros h n Hs Hc;
    try (constructor; lia); try (by constructor).
  - destruct n; [done|]. destruct Hs as [_ Hs]. constructor. by eapply IH.
  - destruct n; [done|]. destruct Hs as [_ Hs]. constructor. by eapply IH.
  - constructor. rewrite Hc; [done|]. by eapply safe_recheck.
  - eapply at_delete; [|done|lia]. destruct n; [done|]. destruct Hs as [Hh _]. by rewrite Hc.
Qed.

Lemma sweeping_later now now' p : now <= now' -> sweeping now p -> sweeping now' p.
Proof. intros Hn []; constructor; lia. Qed.

Lemma related_stable now now' c c' g th h n :
  now <= now' -> safe h n (g_code g) ->
  (forall key, h = Some (shard_of key, Writer) -> lc_read c' key = lc_read c key) ->
  related now c g th -> related now' c' g th.
Proof.
  intros Hn Hs Hc [Hi Hr]. split; [done|]. revert Hr. destruct (g_job g) as [key| |]; [|done|].
  - intros [? Hr]. split; [done|]. eapply at_pc_stable; [exact Hn|exact Hs|apply Hc|done].
  - intros [Hr ?]. split; [by eapply sweeping_later|done].
Qed.
(** *** One operation, as a run of [Interleaving] *)

(** The eviction by a reading of the clock. *)
Lemma lc_evict_at key c t :
  fst (lc_evict key c (clock_of [t])) =
  match lc_read c key with
  | Some exp => if exp <=? UnixNano t then lc_update (delete key) key c else c
  | None => c
  end.
Proof.
  unfold lc_evict, time_Now. destruct (lc_read c key) as [exp|]; [|done]. simpl.
  by destruct (exp <=? UnixNano t).
Qed.

Section Simulate.
Context (now : Z) (m : instance) (key : string) (i inst : nat).
Context (cs : list LocalCache) (r : gmap string Z) (ths : list thread) (h : list event).
Context (Hc : cs !! inst = Some (i_cache m)).

(** The run that leads a goroutine to [q] and its cache to [c]. *)
Definition runs_to (c : LocalCache) (th : thread) : Prop :=
  exists h', rtc (step window slack) (System now cs r ths h) (System now (<[inst := c]> cs) r (<[i := th]> ths) h').

Lemma runs_nothing th : ths !! i = Some th -> runs_to (i_cache m) th.
Proof. intros Hi. exists h. by rewrite !list_insert_id. Qed.

Lemma runs_step c q q' h' :
  thread_step window slack i (System now cs r ths h)
    (System now c r (with_pc i (Thread inst key q) q' ths) h') ->
  forall c', c = <[inst := c']> cs -> runs_to c' (Thread inst key q').
Proof. intros Hst c' ->. exists h'. by apply rtc_once, (step_thread _ _ i). Qed.

Lemma call_exec p q m' p' :
  at_pc now (i_cache m) key p q -> exec i now m p = Some (m', p') -> ths !! i = Some (Thread inst key q) ->
  exists q', at_pc now (i_cache m') key p' q' /\ runs_to (i_cache m') (Thread inst key q').
Proof.
  intros Hat He Hi.
  assert (Hid : cs = <[inst := i_cache m]> cs) by (by rewrite list_insert_id).
  destruct Hat as [|t Ht|t Ht|p q Hat|p q Hat| | | |exp Hr|exp t Hr Hle Ht| |dup t|dup t e|dup t e|dup t e|v t];
    simpl in He; rewrite ?shard_data_lookup in He; try done; repeat case_match; try done; injection He as <- <-;
    try (exists q; split; [exact Hat|by apply runs_nothing]);
    try (eexists; split; [by constructor|by apply runs_nothing]).
  - exists (PLookup now). split; [by constructor|]. eapply runs_step; [by apply step_contains|exact Hid].
  - exists (after_lookup t (lc_read (i_cache m) key)). split.
    + constructor. unfold branch_code, after_lookup. destruct (lc_read (i_cache m) key) as [e|]; [|constructor].
      destruct (e <=? UnixNano t); constructor.
    + eapply runs_step; [by eapply step_lookup|exact Hid].
  - exists PBackend. split; [do 2 constructor|].
    eapply runs_step; [by eapply (step_evict _ _ i) with (t := now)|]. simpl. by rewrite lc_evict_at, H.
  - exists PEvict. split; [|by apply runs_nothing]. eapply at_delete; [done| |reflexivity]. by apply Z.leb_le.
  - exists PBackend. split; [do 2 constructor|].
    eapply runs_step; [by eapply (step_evict _ _ i) with (t := now)|]. simpl. rewrite lc_evict_at, Hr. by case_match.
  - exists PBackend. split; [do 2 constructor|].
    eapply runs_step; [by eapply (step_evict _ _ i) with (t := t)|]. simpl. rewrite lc_evict_at, Hr.
    by rewrite (proj2 (Z.leb_le _ _)).
  - eexists. split; [constructor|]. eapply runs_step; [by eapply step_read_clock|exact Hid].
  - eexists. split; [do 2 constructor|]. eapply runs_step; [by eapply step_put|done].
Qed.

Lemma sweep_exec p m' p' th :
  sweeping now p -> exec i now m p = Some (m', p') -> ths !! i = Some th ->
  sweeping now p' /\ runs_to (i_cache m') th.
Proof.
  intros Hs He Hi. destruct Hs as [|t [|j js] Ht|t j js Ht|t j js Ht|t j js Ht].
  1: unfold sweep_code in He; revert He; generalize (seq 0 numShards) as js; intros js He.
  2, 3: cbn [sweep_loop] in He.
  all: cbn [exec] in He; try done; repeat case_match; try done; injection He as <- <-.
  all: try (split; [constructor; lia|by apply runs_nothing]).
  split; [by constructor|]. exists h. rewrite (list_insert_id ths) by done. apply rtc_once.
  change (i_cache _) with (sweep_one t j (i_cache m)). by apply step_sweep.
Qed.

Lemma len_exec p m' p' th :
  measuring p -> exec i now m p = Some (m', p') -> ths !! i = Some th ->
  measuring p' /\ runs_to (i_cache m') th.
Proof.
  intros Hs He Hi. destruct Hs as [[|j js] n|j js n|j js n]; cbn [exec Len_loop] in He;
    try done; repeat case_match; try done; injection He as <- <-;
    (split; [constructor|by apply runs_nothing]).
Qed.

End Simulate.

Lemma related_exec now m i cs r ths h g th m' p' :
  related now (i_cache m) g th -> exec i now m (g_code g) = Some (m', p') -> ths !! i = Some th ->
  cs !! g_inst g = Some (i_cache m) ->
  exists th', related now (i_cache m') (Goroutine (g_inst g) (g_job g) p') th' /\
    runs_to now i (g_inst g) cs r ths h (i_cache m') th'.
Proof.
  intros [Ei Hr] He Hi Hc. unfold related. simpl. revert Hr. destruct (g_job g) as [key| |].
  - intros [Hk Hat]. destruct th as [inst key0 q]. simpl in *. subst inst key0.
    destruct (call_exec now m key i _ cs r ths h Hc _ _ _ _ Hat He Hi) as (q' & Hat' & Hrun).
    by exists (Thread (g_inst g) key q').
  - intros [Hs Hp]. destruct (len_exec now m i _ cs r ths h Hc _ _ _ _ Hs He Hi). by exists th.
  - intros [Hs Hp]. destruct (sweep_exec now m i _ cs r ths h Hc _ _ _ _ Hs He Hi). by exists th.
Qed.

(** The backend's answer. *)
Lemma related_backend now c g th key k v :
  related now c g th -> g_code g = Backend key k ->
  t_key th = key /\ t_pc th = PBackend /\
  related now c (Goroutine (g_inst g) (g_job g) (k v)) (Thread (t_inst th) key (after_backend now v)).
Proof.
  intros [Ei Hr] Hc. unfold related. simpl. revert Hr. destruct (g_job g) as [key'| |]; rewrite Hc.
  - intros [Hk Hat]. inversion Hat; subst. split_and!; [done..|].
    destruct v as [dup [e|]]; unfold after_backend; simpl; constructor.
  - intros [Hs _]. inversion Hs as [[|??] ?|?|?]; discriminate.
  - intros [Hs _]. inversion Hs as [|? [|??]|?|?|?]; discriminate.
Qed.

(** *** The simulation *)

Record sim (s : lsystem) (a : system) : Prop := {
  sim_now : s_now a = l_now s;
  sim_caches : s_caches a = i_cache <$> l_insts s;
  sim_records : s_records a = l_records s;
  sim_length : length (s_threads a) = length (l_gs s);
  sim_threads i g th m : l_gs s !! i = Some g -> s_threads a !! i = Some th ->
    l_insts s !! g_inst g = Some m -> related (l_now s) (i_cache m) g th;
}.

(** Goroutine [i] moves on with its instance; the others are where they were. *)
Lemma sim_move ghs i g h n now ms r gs m m' p' th th' now' cs r' ths h' :
  LInv ghs (LSystem now ms r gs) -> sim (LSystem now ms r gs) (System now' cs r' ths h') ->
  gs !! i = Some g -> ghs !! i = Some (Ghost (g_inst g) h n) -> ms !! g_inst g = Some m -> ths !! i = Some th ->
  i_cache m' = i_cache m \/
    (exists j f, h = Some (j, Writer) /\ i_cache m' = mkLocalCache (alter f j (shards (i_cache m)))) ->
  related now (i_cache m') (Goroutine (g_inst g) (g_job g) p') th' ->
  forall r2 h2, sim (LSystem now (<[g_inst g := m']> ms) r2 (go_on i g p' gs))
    (System now (<[g_inst g := i_cache m']> cs) r2 (<[i := th']> ths) h2).
Proof.
  intros HI [Hnow Hcs Hr Hlen Hths] Hi Hgh Hm Hth Heff Hrel r2 h2. simpl in *. unfold go_on.
  split; simpl; rewrite ?length_insert; try done.
  - by rewrite Hcs, list_fmap_insert.
  - intros i1 g1 th1 m1. destruct (decide (i = i1)) as [<-|Hne].
    + rewrite !list_lookup_insert_eq by (by eapply lookup_lt_Some). intros [= <-] [= <-]. simpl.
      rewrite list_lookup_insert_eq by (by eapply lookup_lt_Some). by intros [= <-].
    + rewrite !list_lookup_insert_ne by done. intros Hi1 Hth1 Hm1.
      destruct (decide (g_inst g = g_inst g1)) as [Einst|Hinst].
      * rewrite Einst, list_lookup_insert_eq in Hm1 by (rewrite <-Einst; by eapply lookup_lt_Some).
        injection Hm1 as <-. rewrite Einst in Hm.
        destruct (LInv_goroutine _ _ _ _ HI Hi1) as (h1 & n1 & Hgh1 & Hs1).
        eapply (related_stable now now (i_cache m)); [done|exact Hs1| |by eapply Hths].
        intros key ->. destruct Heff as [->|(j & f & -> & ->)]; [done|].
        apply lc_read_other. intros <-. apply Hne. rewrite Einst in Hgh. by eapply one_writer.
      * rewrite list_lookup_insert_ne in Hm1 by done. by eapply Hths.
Qed.
Lemma sim_local ghs i s s' a :
  LInv ghs s -> sim s a -> local_step i s s' -> exists a', rtc (step window slack) a a' /\ sim s' a'.
Proof.
  intros HI Hsim Hst. destruct Hst as [now ms r gs g m m' p Hi Hm He].
  destruct (LInv_goroutine _ _ _ _ HI Hi) as (h & n & Hgh & Hs). simpl in *.
  destruct a as [now' cs r' ths hist]. pose proof Hsim as [Hnow Hcs Hr Hlen Hths]. simpl in *. subst now' r'.
  destruct (lookup_lt_is_Some_2 ths i) as [th Hth]; [rewrite Hlen; by eapply lookup_lt_Some|].
  assert (Hc : cs !! g_inst g = Some (i_cache m)) by (by rewrite Hcs, list_lookup_fmap, Hm).
  destruct (related_exec now m i cs r ths hist g th m' p (Hths i g th m Hi Hth Hm) He Hth Hc)
    as (th' & Hrel & h' & Hrun).
  eexists. split; [exact Hrun|]. eapply sim_move; eauto using exec_cache.
Qed.

Lemma sim_step ghs s s' a :
  LInv ghs s -> sim s a -> lstep window slack s s' -> exists a', rtc (step window slack) a a' /\ sim s' a'.
Proof.
  intros HI Hsim Hst. destruct Hst as [i s s' [s0 s0' Hl|now ms r r' gs g key k v Hi Hk Ho]
    |now now' ms r gs Hn|now ms r gs inst b Hinst|now ms r r' gs He].
  - by eapply sim_local.
  - destruct (LInv_goroutine _ _ _ _ HI Hi) as (h & n & Hgh & Hs). simpl in *.
    destruct (ghost_goroutine _ _ HI _ _ _ _ Hgh) as (_ & m & _ & _ & Hm & _). simpl in Hm.
    destruct a as [now' cs r0 ths hist]. pose proof Hsim as [Hnow Hcs Hr Hlen Hths]. simpl in *. subst now' r0.
    destruct (lookup_lt_is_Some_2 ths i) as [th Hth]; [rewrite Hlen; by eapply lookup_lt_Some|].
    destruct (related_backend now (i_cache m) g th key k v (Hths i g th m Hi Hth Hm) Hk) as (Hkey & Hpc & Hrel).
    eexists. split; [apply rtc_once, (step_thread _ _ i); eapply step_backend; [exact Hth|exact Hpc|by rewrite Hkey]|].
    pose proof (sim_move ghs i g h n now ms r gs m m (k v) th (Thread (t_inst th) key (after_backend now v))
      now cs r ths hist HI Hsim Hi Hgh Hm Hth (or_introl eq_refl) Hrel r' (hist ++ events_of (t_key th) now v)) as Hmv.
    rewrite (list_insert_id ms) in Hmv by done.
    rewrite (list_insert_id cs) in Hmv by (by rewrite Hcs, list_lookup_fmap, Hm).
    unfold with_pc. by rewrite Hkey in *.
  - destruct a as [now0 cs r0 ths hist], Hsim as [Hnow Hcs Hr Hlen Hths]. simpl in *. subst now0 r0.
    exists (System now' cs r ths hist). split; [by apply rtc_once, step_tick|]. split; simpl; try done.
    intros i g th m Hi Hth Hm. destruct (LInv_goroutine _ _ _ _ HI Hi) as (h & n & _ & Hs).
    eapply related_stable; [exact Hn|exact Hs|done|by eapply Hths].
  - destruct a as [now0 cs r0 ths hist], Hsim as [Hnow Hcs Hr Hlen Hths]. simpl in *. subst now0 r0.
    set (key := match b with JCall key => key | _ => EmptyString end).
    exists (System now cs r (ths ++ [Thread inst key PStart]) hist).
    split; [apply rtc_once, step_spawn; by rewrite Hcs, length_fmap|]. split; simpl; try done.
    { rewrite !length_app. simpl. lia. }
    intros i g th m Hi Hth Hm. apply lookup_snoc_Some in Hi as [[Hlt Hi]|[-> <-]].
    + rewrite lookup_app_l in Hth by lia. by eapply Hths.
    + rewrite <-Hlen, list_lookup_middle in Hth by done. injection Hth as <-. split; [done|]. simpl.
      destruct b; simpl; (split; [try done|try done; constructor]); constructor.
  - destruct a as [now0 cs r0 ths hist], Hsim as [Hnow Hcs Hr Hlen Hths]. simpl in *. subst now0 r0.
    exists (System now cs r' ths hist). split; [by apply rtc_once, step_expire|]. by split.
Qed.

Lemma sim_reachable n t0 s : lreachable window slack n t0 s ->
  exists a, reachable window slack n t0 a /\ sim s a.
Proof.
  intros Hr. unfold lreachable in Hr. apply rtc_ind_r with (P := fun s => (exists ghs, LInv ghs s) /\
    exists a, reachable window slack n t0 a /\ sim s a) in Hr; [by destruct Hr| |].
  - split; [apply (LInv_reachable window slack n t0), rtc_refl|]. exists (initial n t0). split; [apply rtc_refl|].
    split; simpl; [done|by rewrite fmap_replicate|done|done|done].
  - clear. intros s s' _ Hst [[ghs HI] (a & Ha & Hsim)]. split; [by eapply LInv_step|].
    destruct (sim_step _ _ _ _ HI Hsim Hst) as (a' & Hrun & Hsim'). exists a'. split; [|done].
    unfold reachable in *. by etrans.
Qed.

(** The goroutine has returned "not a duplicate" for [key]. *)
Definition let_through (key : string) (g : goroutine) : bool :=
  match g_job g, g_code g with
  | JCall key', Ret (RVerdict (false, None)) => bool_decide (key' = key)
  | _, _ => false
  end.
Definition count_let_through (key : string) (gs : list goroutine) : nat :=
  length (filter (fun g => let_through key g = true) gs).

Lemma related_let_through now c g th key :
  related now c g th -> let_through key g = true -> admitted key th.
Proof.
  intros [_ Hr]. unfold let_through, admitted. revert Hr. destruct (g_job g) as [key'| |]; [|done..].
  intros [Hk Hat]. destruct (g_code g) as [[v| |]| | | | | | | | | |]; try done. inversion Hat; subst.
  destruct v as [[] [|]]; try done. by intros ?%bool_decide_eq_true.
Qed.

Lemma count_let_through_le key gs ths :
  length gs = length ths ->
  (forall i g th, gs !! i = Some g -> ths !! i = Some th -> let_through key g = true -> admitted key th) ->
  (count_let_through key gs <= count_admitted key ths)%nat.
Proof.
  unfold count_let_through, count_admitted. revert ths.
  induction gs as [|g gs IH]; intros [|th ths] Hl Hall; try done.
  specialize (IH ths ltac:(simpl in Hl; lia) (fun i => Hall (S i))).
  specialize (Hall 0%nat g th eq_refl eq_refl). rewrite !filter_cons. repeat case_decide; simpl; try lia. tauto.
Qed.
End Refinement.

Section Transfer.
Context (window slack : Z) (Hslack : 0 <= slack) (Hwindow : 0 <= window - slack).

(** C22: taking the sections under a mutex as single steps loses nothing: for every
    state that goroutines running [IsDuplicate], [sweep] and [Len] operation by
    operation can reach, [Interleaving] reaches a state with the same time, caches
    and backend records, in which every call is at the corresponding point, with
    the same verdict if it has returned. So what is proved there holds of the
    mutexes: of the calls for one key at most one more than there are whole
    windows since the start has returned "not a duplicate". *)
Theorem locks_refine_atomic n t0 s :
  lreachable window slack n t0 s ->
  (exists a, reachable window slack n t0 a /\
     s_now a = l_now s /\ s_caches a = i_cache <$> l_insts s /\ s_records a = l_records s /\
     forall i g key, l_gs s !! i = Some g -> g_job g = JCall key ->
       exists th m, s_threads a !! i = Some th /\ l_insts s !! g_inst g = Some m /\
         t_inst th = g_inst g /\ t_key th = key /\
         at_pc window (l_now s) (i_cache m) key (g_code g) (t_pc th) /\
         forall v, g_code g = Ret (RVerdict v) -> exists t, t_pc th = PDone v t) /\
  (forall key, (Z.of_nat (count_let_through key (l_gs s)) - 1) * (window - slack) <= l_now s - t0).
Proof.
  intros Hr. destruct (sim_reachable window slack n t0 s Hr) as (a & Ha & [Hnow Hcs Hrec Hlen Hths]).
  destruct (LInv_reachable window slack n t0 s Hr) as [ghs HI].
  assert (Hat : forall i g th, l_gs s !! i = Some g -> s_threads a !! i = Some th ->
    exists m, l_insts s !! g_inst g = Some m /\ related window (l_now s) (i_cache m) g th).
  { intros i g th Hi Hth. destruct (LInv_goroutine _ _ _ _ HI Hi) as (h & f & Hgh & _).
    destruct (ghost_goroutine _ _ HI _ _ _ _ Hgh) as (_ & m & _ & _ & Hm & _). eauto. }
  split.
  - exists a. split_and!; [done..|]. intros i g key Hi Hjob.
    destruct (lookup_lt_is_Some_2 (s_threads a) i) as [th Hth]; [rewrite Hlen; by eapply lookup_lt_Some|].
    destruct (Hat i g th Hi Hth) as (m & Hm & Ei & Hrel). rewrite Hjob in Hrel. destruct Hrel as [Hk Hpc].
    exists th, m. split_and!; [done..|]. intros v Hv. rewrite Hv in Hpc. inversion Hpc. by eexists.
  - intros key. pose proof (admitted_rate window slack Hslack Hwindow n t0 a key Ha) as Hrate.
    assert (count_let_through key (l_gs s) <= count_admitted key (s_threads a))%nat as Hle.
    { apply count_let_through_le; [done|]. intros i g th Hi Hth.
      destruct (Hat i g th Hi Hth) as (m & _ & Hrel). by eapply related_let_through. }
    rewrite Hnow in Hrate. nia.
Qed.
End Transfer.

(** ** Witnesses *)

(** Two calls for one key on one instance, window ten. *)
Definition w_calls : lsystem :=
  LSystem 0 [Instance NewLocalCache ∅] ∅
    [Goroutine 0 (JCall "k") (IsDuplicate_code "k" 10); Goroutine 0 (JCall "k") (IsDuplicate_code "k" 10)].

Lemma w_calls_reachable : lreachable 10 0 1 0 w_calls.
Proof.
  unfold lreachable.
  eapply rtc_l; [apply (lstep_spawn _ _ _ _ _ _ 0 (JCall "k")); simpl; lia|].
  eapply rtc_l; [apply (lstep_spawn _ _ _ _ _ _ 0 (JCall "k")); simpl; lia|]. apply rtc_refl.
Qed.

(** The steps of goroutines in an order given. *)
Definition exec_step (i : nat) (s : lsystem) : option lsystem :=
  g ← l_gs s !! i;
  m ← l_insts s !! g_inst g;
  r ← exec i (l_now s) m (g_code g);
  Some (LSystem (l_now s) (<[g_inst g := fst r]> (l_insts s)) (l_records s) (go_on i g (snd r) (l_gs s))).
Fixpoint exec_steps (l : list nat) (s : lsystem) : option lsystem :=
  match l with [] => Some s | i :: l => exec_step i s ≫= exec_steps l end.

Lemma exec_step_local i s s' : exec_step i s = Some s' -> local_step i s s'.
Proof.
  unfold exec_step. intros (g & Hi & (m & Hm & ([m' p] & He & [= <-])%bind_Some)%bind_Some)%bind_Some.
  destruct s. by eapply local_exec.
Qed.

Lemma exec_steps_run window slack l s s' : exec_steps l s = Some s' -> rtc (lstep window slack) s s'.
Proof.
  revert s. induction l as [|i l IH]; intros s; cbn [exec_steps]; [intros [= ->]; apply rtc_refl|].
  intros (s1 & H1 & H2)%bind_Some. eapply rtc_l; [|by apply IH].
  apply (lstep_go _ _ i), go_local. by apply exec_step_local.
Qed.

(** The system after them, when each of them is possible. *)
Definition after_steps (l : list nat) (s : lsystem) : lsystem := default s (exec_steps l s).
Definition possible (l : list nat) (s : lsystem) : bool := if exec_steps l s is Some _ then true else false.

Lemma after_steps_run window slack l s :
  possible l s = true -> rtc (lstep window slack) s (after_steps l s).
Proof.
  unfold possible, after_steps. destruct (exec_steps l s) eqn:E; [|done]. intros _. by eapply exec_steps_run.
Qed.

(** The system after the backend has answered goroutine [i], leaving the records [r]. *)
Definition answered_with (i : nat) (v : bool * option error) (r : gmap string Z) (s : lsystem) : lsystem :=
  match l_gs s !! i with
  | Some g =>
      match g_code g with
      | Backend _ k => LSystem (l_now s) (l_insts s) r (go_on i g (k v) (l_gs s))
      | _ => s
      end
  | None => s
  end.
Definition asks (s : lsystem) (i : nat) : option string :=
  match l_gs s !! i with
  | Some g => match g_code g with Backend key _ => Some key | _ => None end
  | None => None
  end.

Lemma answered_run window slack i v r key s :
  asks s i = Some key -> outcome slack (l_now s) window key (l_records s) v r ->
  rtc (lstep window slack) s (answered_with i v r s).
Proof.
  unfold asks, answered_with. destruct (l_gs s !! i) as [g|] eqn:Hi; [|done].
  destruct (g_code g) eqn:Hc; try done. intros [= ->] Ho. destruct s. simpl in *.
  apply rtc_once, (lstep_go _ _ i). by eapply go_backend.
Qed.

Definition code_at (s : lsystem) (i : nat) : code := default (Ret RSwept) (g_code <$> l_gs s !! i).
Lemma code_at_goroutine s i : (i < length (l_gs s))%nat -> exists g, l_gs s !! i = Some g /\ g_code g = code_at s i.
Proof. unfold code_at. intros [g ->]%lookup_lt_is_Some. by exists g. Qed.

(** Both read their shard at once, as its mutex allows. *)
Definition w_readers : lsystem := after_steps [0; 1; 0; 1]%nat w_calls.
(** The first asks the backend, is let through, and caches the key. *)
Definition w_asking : lsystem := after_steps [0; 0; 0; 0]%nat w_calls.
Definition w_admitted : lsystem := answered_with 0 (false, None) {["k" := 10]} w_asking.
Definition w_returned : lsystem := after_steps [0; 0; 0; 0; 0]%nat w_admitted.

Lemma w_readers_reachable : lreachable 10 0 1 0 w_readers.
Proof.
  unfold lreachable. etrans; [apply w_calls_reachable|]. apply after_steps_run. vm_compute. reflexivity.
Qed.

Lemma w_returned_reachable : lreachable 10 0 1 0 w_returned.
Proof.
  unfold lreachable. etrans; [apply w_calls_reachable|].
  assert (Ha : possible [0; 0; 0; 0]%nat w_calls = true) by (vm_compute; reflexivity).
  assert (Hk : asks w_asking 0 = Some "k"%string) by (vm_compute; reflexivity).
  assert (Hn : l_now w_asking = 0) by (vm_compute; reflexivity).
  assert (Hr : l_records w_asking = ∅) by (vm_compute; reflexivity).
  assert (Hb : possible [0; 0; 0; 0; 0]%nat w_admitted = true) by (vm_compute; reflexivity).
  assert (Ho : outcome 0 (l_now w_asking) 10 "k" (l_records w_asking) (false, None) {["k" := 10]}).
  { rewrite Hn, Hr. apply outcome_new; [intros d; by rewrite lookup_empty|].
    exists 10, ∅. split; [reflexivity|]. split; [lia|done]. }
  etrans; [exact (after_steps_run 10 0 [0; 0; 0; 0]%nat w_calls Ha)|].
  etrans; [exact (answered_run 10 0 0 (false, None) {["k" := 10]} "k" w_asking Hk Ho)|].
  exact (after_steps_run 10 0 [0; 0; 0; 0; 0]%nat w_admitted Hb).
Qed.

Lemma no_data_race_witness :
  lreachable 10 0 1 0 w_readers /\
  exists j w w', accesses (code_at w_readers 0) = Some (j, w) /\ accesses (code_at w_readers 1) = Some (j, w') /\
    w = false /\ w' = false.
Proof.
  split; [exact w_readers_reachable|].
  assert (Hl : length (l_gs w_readers) = 2%nat) by (vm_compute; reflexivity).
  assert (Hi : (g_inst <$> l_gs w_readers !! 0%nat) = (g_inst <$> l_gs w_readers !! 1%nat)) by (vm_compute; reflexivity).
  destruct (accesses (code_at w_readers 0)) as [[j w]|] eqn:E0; [|exfalso; vm_compute in E0; discriminate E0].
  destruct (accesses (code_at w_readers 1)) as [[j' w']|] eqn:E1; [|exfalso; vm_compute in E1; discriminate E1].
  assert (j' = j) as ->.
  { assert (H : (fst <$> accesses (code_at w_readers 0)) = (fst <$> accesses (code_at w_readers 1)))
      by (vm_compute; reflexivity).
    rewrite E0, E1 in H. by injection H as ->. }
  destruct (code_at_goroutine w_readers 0) as (g & Hg & Hc); [lia|].
  destruct (code_at_goroutine w_readers 1) as (g' & Hg' & Hc'); [lia|].
  rewrite Hg, Hg' in Hi. injection Hi as Hi.
  exists j, w, w'. split; [done|]. split; [done|].
  apply (no_data_race 10 0 1 0 w_readers 0 1 g g' j w w'
    w_readers_reachable Hg Hg' ltac:(lia) Hi); congruence.
Defined.

Lemma no_deadlock_witness :
  (exists i s', local_step i w_readers s') /\
  (forall m s', nsteps (fun s s' => exists i, go_step 10 0 i s s') m w_readers s' -> (m <= 2050)%nat).
Proof.
  destruct (no_deadlock 10 0 1 0 w_readers w_readers_reachable) as (Hp & _ & Hb).
  assert (Hl : length (l_gs w_readers) = 2%nat) by (vm_compute; reflexivity).
  assert (Hk : parked (code_at w_readers 0) = false) by (vm_compute; reflexivity).
  split.
  - apply Hp. destruct (code_at_goroutine w_readers 0) as (g & Hg & Hc); [lia|]. exists 0%nat, g.
    split; [exact Hg|]. by rewrite Hc.
  - intros m s' Hn. specialize (Hb m s' Hn). rewrite Hl in Hb. exact Hb.
Defined.

Lemma locks_refine_atomic_witness :
  lreachable 10 0 1 0 w_returned /\ count_let_through "k" (l_gs w_returned) = 1%nat /\
  exists a th t, reachable 10 0 1 0 a /\ s_threads a !! 0%nat = Some th /\ t_pc th = PDone (false, None) t.
Proof.
  split; [exact w_returned_reachable|]. split; [vm_compute; reflexivity|].
  destruct (locks_refine_atomic 10 0 ltac:(lia) ltac:(lia) 1 0 w_returned w_returned_reachable)
    as [(a & Ha & _ & _ & _ & Hths) _].
  assert (Hl : length (l_gs w_returned) = 2%nat) by (vm_compute; reflexivity).
  assert (Hc : code_at w_returned 0 = Ret (RVerdict (false, None))) by (vm_compute; reflexivity).
  assert (Hj : (g_job <$> l_gs w_returned !! 0%nat) = Some (JCall "k")) by (vm_compute; reflexivity).
  destruct (code_at_goroutine w_returned 0) as (g & Hg & Hgc); [lia|].
  rewrite Hg in Hj. injection Hj as Hj.
  destruct (Hths 0%nat g "k"%string Hg Hj) as (th & m & Hth & _ & _ & _ & _ & Hv).
  destruct (Hv (false, None)) as [t Ht]; [by rewrite Hgc|]. exists a, th, t. split_and!; done.
Defined.
