(* ===== verification/GoDuration.v ===== *)
(** * GoDuration: [time.ParseDuration] and [Duration.String]

    The standard library's parser of duration strings, with its 64-bit overflow
    checks and its [float64] fractions ([SpecFloat], precision 53), and the
    formatter used in error messages. *)

From Stdlib Require Import SpecFloat.
From S2P Require Import Prelude GoTime GoStrings.

Local Open Scope Z_scope.

(** ** [float64] *)
Definition f64_of_Z (x : Z) : spec_float := binary_normalize 53 1024 x 0 false.
Definition f64_mul : spec_float -> spec_float -> spec_float := SFmul 53 1024.
Definition f64_div : spec_float -> spec_float -> spec_float := SFdiv 53 1024.
(** [uint64(f)] of a finite non-negative float: truncation *)
Definition f64_trunc (f : spec_float) : Z :=
  match f with
  | S754_finite false m e => if 0 <=? e then Z.shiftl (Zpos m) e else Z.shiftr (Zpos m) (- e)
  | _ => 0
  end.

(** ** Scanning *)
Definition is_digit (b : Byte.byte) : bool := in_range 48 57 (byte_Z b).
Definition dot : Byte.byte := x2e.

(** [leadingInt]: [None] when it overflows *)
Fixpoint leadingInt (x : Z) (s : bytes) : option (Z * bytes) :=
  match s with
  | c :: s' =>
      if is_digit c then
        if 2 ^ 63 / 10 <? x then None
        else let x := u64 (x * 10 + byte_Z c - 48) in
             if 2 ^ 63 <? x then None else leadingInt x s'
      else Some (x, s)
  | [] => Some (x, [])
  end.

(** [leadingFraction]: digits that no longer fit are dropped *)
Fixpoint leadingFraction (x : Z) (scale : spec_float) (overflow : bool) (s : bytes)
  : Z * spec_float * bytes :=
  match s with
  | c :: s' =>
      if is_digit c then
        if overflow then leadingFraction x scale true s'
        else if (2 ^ 63 - 1) / 10 <? x then leadingFraction x scale true s'
        else let y := u64 (x * 10 + byte_Z c - 48) in
             if 2 ^ 63 <? y then leadingFraction x scale true s'
             else leadingFraction y (f64_mul scale (f64_of_Z 10)) false s'
      else (x, scale, s)
  | [] => (x, scale, [])
  end.

(** the unit: up to the next digit or period *)
Fixpoint span_unit (s : bytes) : bytes * bytes :=
  match s with
  | c :: s' =>
      if bool_decide (c = dot) || is_digit c then ([], s)
      else let '(u, r) := span_unit s' in (c :: u, r)
  | [] => ([], [])
  end.

Definition unitMap : list (bytes * Z) := [
  (bytes_of "ns", Nanosecond); (bytes_of "us", Microsecond);
  ([xc2; xb5; x73], Microsecond);      (* U+00B5, micro sign *)
  ([xce; xbc; x73], Microsecond);      (* U+03BC, Greek letter mu *)
  (bytes_of "ms", Millisecond); (bytes_of "s", Second); (bytes_of "m", Minute); (bytes_of "h", Hour)].

Fixpoint lookup_unit (u : bytes) (l : list (bytes * Z)) : option Z :=
  match l with
  | [] => None
  | (k, v) :: l => if bool_decide (u = k) then Some v else lookup_unit u l
  end.

(** [quote]: control characters and bytes beyond ASCII are written in
    hexadecimal; quote and backslash are escaped. *)
Definition quote_byte (b : Byte.byte) : bytes :=
  if (RuneSelf <=? byte_Z b) || (byte_Z b <? 32) then [x5c; x78] ++ hex_pair b
  else if bool_decide (b = x22) || bool_decide (b = x5c) then [x5c; b] else [b].
Definition quote (s : bytes) : bytes := [x22] ++ (s ≫= quote_byte) ++ [x22].

Definition invalid_duration (orig : bytes) : error :=
  ErrNew "time" (string_of (bytes_of "time: invalid duration " ++ quote orig)).
Definition missing_unit (orig : bytes) : error :=
  ErrNew "time" (string_of (bytes_of "time: missing unit in duration " ++ quote orig)).
Definition unknown_unit (u orig : bytes) : error :=
  ErrNew "time" (string_of (bytes_of "time: unknown unit " ++ quote u ++ bytes_of " in duration " ++ quote orig)).

(** One round of the loop: a number and its unit; what it adds and the rest. *)
Definition parse_term (orig s : bytes) : res (Z * bytes) :=
  match s with
  | c :: _ =>
      if negb (bool_decide (c = dot) || is_digit c) then Err (invalid_duration orig)
      else
        match leadingInt 0 s with
        | None => Err (invalid_duration orig)
        | Some (v, s1) =>
            let pre := negb (length s =? length s1)%nat in
            let '(f, scale, s2, post) :=
              match s1 with
              | c1 :: s1' =>
                  if bool_decide (c1 = dot)
                  then let '(f, scale, s2) := leadingFraction 0 (f64_of_Z 1) false s1' in
                       (f, scale, s2, negb (length s1' =? length s2)%nat)
                  else (0, f64_of_Z 1, s1, false)
              | [] => (0, f64_of_Z 1, s1, false)
              end in
            if negb pre && negb post then Err (invalid_duration orig)
            else
              let '(u, s3) := span_unit s2 in
              match u with
              | [] => Err (missing_unit orig)
              | _ =>
                  match lookup_unit u unitMap with
                  | None => Err (unknown_unit u orig)
                  | Some unit =>
                      if 2 ^ 63 / unit <? v then Err (invalid_duration orig)
                      else
                        let v := u64 (v * unit) in
                        let v := if 0 <? f
                                 then u64 (v + f64_trunc (f64_mul (f64_of_Z f) (f64_div (f64_of_Z unit) scale)))
                                 else v in
                        if 2 ^ 63 <? v then Err (invalid_duration orig) else Ok (v, s3)
                  end
              end
        end
  | [] => Ok (0, [])
  end.

(** The loop [for s != ""]; [None] when the fuel runs out. *)
Fixpoint parse_terms (fuel : nat) (orig s : bytes) (d : Z) : option (res Z) :=
  match s with
  | [] => Some (Ok d)
  | _ =>
      match fuel with
      | O => None
      | S fuel =>
          match parse_term orig s with
          | Err e => Some (Err e)
          | Ok (v, s') =>
              let d := u64 (d + v) in
              if 2 ^ 63 <? d then Some (Err (invalid_duration orig)) else parse_terms fuel orig s' d
          end
      end
  end.

Definition ParseDuration_fuel (fuel : nat) (str : string) : option (res Z) :=
  let orig := bytes_of str in
  let '(neg, s) :=
    match orig with
    | c :: s => if bool_decide (c = x2d) then (true, s) else if bool_decide (c = x2b) then (false, s) else (false, orig)
    | [] => (false, [])
    end in
  if bool_decide (s = bytes_of "0") then Some (Ok 0)
  else match s with
  | [] => Some (Err (invalid_duration orig))
  | _ =>
      match parse_terms fuel orig s 0 with
      | None => None
      | Some (Err e) => Some (Err e)
      | Some (Ok d) =>
          if neg then Some (Ok (i64 (- i64 d)))
          else if 2 ^ 63 - 1 <? d then Some (Err (invalid_duration orig)) else Some (Ok (i64 d))
      end
  end.

(** Every round of the loop consumes at least one byte, so the length of the
    string is fuel enough ([ParseDuration_total]). *)
Definition ParseDuration (s : string) : res Z :=
  match ParseDuration_fuel (String.length s) s with
  | Some r => r
  | None => Err (invalid_duration (bytes_of s))
  end.

(** ** The fuel is enough *)

Lemma leadingInt_suffix x s y r : leadingInt x s = Some (y, r) -> (length r <= length s)%nat.
Proof.
  revert x. induction s as [|c s IH]; intros x; simpl; [by intros [= _ <-]|].
  destruct (is_digit c); [|by intros [= _ <-]].
  destruct (_ <? _); [done|]. destruct (_ <? _); [done|]. intros H%IH. lia.
Qed.

Lemma leadingFraction_suffix x sc o s y sc' r :
  leadingFraction x sc o s = (y, sc', r) -> (length r <= length s)%nat.
Proof.
  revert x sc o. induction s as [|c s IH]; intros x sc o; simpl; [by intros [= _ _ <-]|].
  destruct (is_digit c); [|by intros [= _ _ <-]].
  repeat (destruct o || destruct (_ <? _)); intros H%IH; lia.
Qed.

Lemma span_unit_suffix s u r : span_unit s = (u, r) -> length s = (length u + length r)%nat.
Proof.
  revert u. induction s as [|c s IH]; intros u; simpl; [by intros [= <- <-]|].
  destruct (_ || _); [by intros [= <- <-]|].
  destruct (span_unit s) as [u' r'] eqn:E. intros [= <- <-]. simpl. by rewrite (IH u').
Qed.

Lemma parse_term_consumes orig s v r : s <> [] -> parse_term orig s = Ok (v, r) -> (length r < length s)%nat.
Proof.
  intros Hne. unfold parse_term. destruct s as [|c s0] eqn:Es; [done|]. rewrite <-Es. clear Hne Es.
  destruct (negb _); [done|].
  destruct (leadingInt 0 s) as [[v1 s1]|] eqn:E1; [|done].
  apply leadingInt_suffix in E1.
  destruct (match s1 with [] => _ | _ => _ end) as [[[f scale] s2] post] eqn:E2.
  assert (H2 : (length s2 <= length s1)%nat).
  { destruct s1 as [|c1 s1']; [by simplify_eq|]. destruct (bool_decide _); [|by simplify_eq].
    destruct (leadingFraction _ _ _ s1') as [[f' sc'] r'] eqn:E3.
    apply leadingFraction_suffix in E3. simplify_eq/=. lia. }
  destruct (negb _ && negb _); [done|].
  destruct (span_unit s2) as [u s3] eqn:E3. apply span_unit_suffix in E3.
  destruct u as [|b u]; [done|]. destruct (lookup_unit _ _) as [unit|]; [|done].
  destruct (_ <? v1); [done|]. destruct (2 ^ 63 <? _); [done|]. intros [= _ <-]. simpl in *. lia.
Qed.

Lemma parse_terms_total fuel orig s d : (length s <= fuel)%nat -> is_Some (parse_terms fuel orig s d).
Proof.
  revert s d. induction fuel as [|fuel IH]; intros s d Hl; simpl.
  - destruct s; [by eexists|simpl in Hl; lia].
  - destruct s as [|c s]; [by eexists|].
    destruct (parse_term orig (c :: s)) as [[v s']|e] eqn:E; [|by eexists].
    apply parse_term_consumes in E; [|done].
    destruct (_ <? _); [by eexists|]. apply IH. simpl in *. lia.
Qed.

Lemma ParseDuration_total s : is_Some (ParseDuration_fuel (String.length s) s).
Proof.
  unfold ParseDuration_fuel. rewrite <-length_bytes_of.
  destruct (bytes_of s) as [|c l] eqn:E; [by eexists|].
  set (p := if bool_decide (c = x2d) then _ else _).
  assert (Hp : (length (snd p) <= length (c :: l))%nat)
    by (unfold p; repeat case_bool_decide; simpl; lia).
  destruct p as [neg s1]. cbn [snd] in Hp. case_bool_decide; [by eexists|].
  destruct s1 as [|c1 s1]; [by eexists|].
  destruct (parse_terms_total (length (c :: l)) (c :: l) (c1 :: s1) 0 Hp) as [r ->].
  destruct r; [|by eexists]. destruct neg; [by eexists|]. destruct (_ <? _); by eexists.
Qed.

(** A parsed duration is an [int64]. *)
Lemma ParseDuration_range s d : ParseDuration s = Ok d -> in_i64 d.
Proof.
  unfold ParseDuration. destruct (ParseDuration_total s) as [r Hr]. rewrite Hr. intros ->.
  revert Hr. unfold ParseDuration_fuel.
  destruct (match bytes_of s with [] => _ | _ => _ end) as [neg s1].
  case_bool_decide; [intros [= <-]; unfold in_i64; lia|].
  destruct s1 as [|c1 s1]; [done|].
  destruct (parse_terms _ _ _ _) as [[d0|e]|]; [|done|done].
  destruct neg; [intros [= <-]; apply i64_range|].
  destruct (_ <? _); [done|intros [= <-]; apply i64_range].
Qed.

(** ** [Duration.String] *)

(** [fmtFrac]: the digits of [v / 10^prec] behind the period, trailing zeros
    omitted, and the integer part *)
Fixpoint fmtFrac (prec : nat) (v : Z) (print : bool) (acc : bytes) : bytes * Z :=
  match prec with
  | O => ((if print then dot :: acc else acc), v)
  | S prec =>
      let digit := v mod 10 in
      let print := print || negb (digit =? 0) in
      fmtFrac prec (v / 10) print (if print then Z_byte (48 + digit) :: acc else acc)
  end.

Definition fmtInt (v : Z) : bytes := bytes_of (strconv_Itoa v).

(** what is written of the magnitude *)
Definition Duration_body (u : Z) : bytes :=
  if u <? Second then
    if u =? 0 then bytes_of "0s"
    else
      let '(prec, suffix) :=
        if u <? Microsecond then (0%nat, bytes_of "ns")
        else if u <? Millisecond then (3%nat, [xc2; xb5; x73])
        else (6%nat, bytes_of "ms") in
      let '(frac, v) := fmtFrac prec u false suffix in fmtInt v ++ frac
  else
    let '(frac, v) := fmtFrac 9 u false (bytes_of "s") in
    let secs := fmtInt (v mod 60) ++ frac in
    let v := v / 60 in
    if 0 <? v then
      let mins := fmtInt (v mod 60) ++ bytes_of "m" ++ secs in
      let v := v / 60 in
      if 0 <? v then fmtInt v ++ bytes_of "h" ++ mins else mins
    else secs.

Definition Duration_String (d : Z) : string :=
  let body := Duration_body (Z.abs d) in
  string_of (if d <? 0 then x2d :: body else body).
