(* ===== verification/DurationText.v ===== *)
(** * DurationText: [time.ParseDuration] reads back what [Duration.String] writes

    For every [int64] number of nanoseconds.  The fraction of a duration goes
    through [float64] arithmetic in the parser; the products it forms for a text
    of [Duration.String] stay below [2^53] and are exact. *)

From Stdlib Require Import SpecFloat.
From Stdlib Require DecimalString DecimalZ.
From S2P Require Import Prelude GoTime GoStrings GoDuration.

Local Open Scope Z_scope.

(** ** Exact [float64] arithmetic *)

Lemma digits2_bounds p : 2 ^ (Zpos (digits2_pos p) - 1) <= Zpos p < 2 ^ Zpos (digits2_pos p).
Proof.
  induction p as [p IH|p IH|]; cbn [digits2_pos]; rewrite ?Pos2Z.inj_succ; [| |done];
    unfold Z.succ; rewrite Z.add_simpl_r;
    replace (2 ^ Zpos (digits2_pos p)) with (2 * 2 ^ (Zpos (digits2_pos p) - 1)) in *
      by (rewrite <-Z.pow_succ_r by lia; f_equal; lia);
    replace (2 ^ (Zpos (digits2_pos p) + 1)) with (4 * 2 ^ (Zpos (digits2_pos p) - 1))
      by (change 4 with (2 ^ 2); rewrite <-Z.pow_add_r by lia; f_equal; lia); lia.
Qed.

Lemma digits2_unique p d : 0 < d -> 2 ^ (d - 1) <= Zpos p < 2 ^ d -> Zpos (digits2_pos p) = d.
Proof.
  intros Hd Hp. pose proof (digits2_bounds p) as Hb.
  destruct (Z.lt_trichotomy (Zpos (digits2_pos p)) d) as [H|[H|H]]; [|done|].
  - assert (2 ^ Zpos (digits2_pos p) <= 2 ^ (d - 1)) by (apply Z.pow_le_mono_r; lia). lia.
  - assert (2 ^ d <= 2 ^ (Zpos (digits2_pos p) - 1)) by (apply Z.pow_le_mono_r; lia). lia.
Qed.

Lemma Zdigits2_shift p n : 0 <= n -> Zdigits2 (Zpos p * 2 ^ n) = Zpos (digits2_pos p) + n.
Proof.
  intros Hn. pose proof (digits2_bounds p) as Hb.
  assert (0 < 2 ^ n) by (by apply Z.pow_pos_nonneg).
  destruct (Zpos p * 2 ^ n) as [|q|q] eqn:E; [lia| |lia]. cbn [Zdigits2].
  apply digits2_unique; [lia|]. rewrite <-E.
  replace (2 ^ (Zpos (digits2_pos p) + n - 1)) with (2 ^ (Zpos (digits2_pos p) - 1) * 2 ^ n)
    by (rewrite <-Z.pow_add_r by lia; f_equal; lia).
  rewrite Z.pow_add_r by lia. nia.
Qed.

Lemma iter_pos_iter {A} (f : A -> A) (p : positive) (x : A) : SpecFloat.iter_pos f p x = Nat.iter (Pos.to_nat p) f x.
Proof.
  assert (Hadd : forall n m y, Nat.iter n f (Nat.iter m f y) = Nat.iter (n + m) f y).
  { induction n as [|n IH]; intros m y; [done|]. simpl. by rewrite IH. }
  revert x. induction p as [p IH|p IH|]; intros x; cbn [SpecFloat.iter_pos]; [| |done].
  - rewrite !IH, Hadd. change (f x) with (Nat.iter 1 f x). rewrite Hadd. f_equal. lia.
  - rewrite !IH, Hadd. f_equal. lia.
Qed.

Lemma shr_exact n k : Nat.iter n shr_1 (Build_shr_record (Zpos k * 2 ^ Z.of_nat n) false false)
  = Build_shr_record (Zpos k) false false.
Proof.
  revert k. induction n as [|n IH]; intros k; [by rewrite Z.mul_1_r|].
  cbn [Nat.iter nat_rect]. change (nat_rect _ ?a (fun _ => ?f) n) with (Nat.iter n f a).
  replace (Zpos k * 2 ^ Z.of_nat (S n)) with (Zpos k~0 * 2 ^ Z.of_nat n)
    by (rewrite Nat2Z.inj_succ, Z.pow_succ_r by lia; lia).
  by rewrite IH.
Qed.

(** Rounding a number of 53 significant bits changes nothing. *)
Lemma round_exact k n e :
  Zpos (digits2_pos k) = 53 -> 0 <= n -> -1000 <= e + n <= 900 ->
  binary_round_aux 53 1024 false (Zpos k * 2 ^ n) e loc_Exact = S754_finite false k (e + n).
Proof.
  intros Hk Hn He. unfold binary_round_aux, shr_fexp at 1. rewrite Zdigits2_shift, Hk by done.
  assert (Hf : fexp 53 1024 (53 + n + e) - e = n) by (unfold fexp, emin; lia). rewrite Hf.
  assert (Hshr : shr (shr_record_of_loc (Zpos k * 2 ^ n) loc_Exact) e n
                 = (Build_shr_record (Zpos k) false false, e + n)).
  { unfold shr, shr_record_of_loc. destruct n as [|p|p]; [by rewrite Z.mul_1_r, Z.add_0_r| |lia].
    rewrite iter_pos_iter, <-(positive_nat_Z p), shr_exact. done. }
  rewrite Hshr. cbn [shr_m loc_of_shr_record round_nearest_even]. unfold shr_fexp. cbn [Zdigits2]. rewrite Hk.
  assert (Hf2 : fexp 53 1024 (53 + (e + n)) - (e + n) = 0) by (unfold fexp, emin; lia). rewrite Hf2.
  cbn [shr shr_record_of_loc shr_m]. by rewrite (proj2 (Z.leb_le _ _)) by lia.
Qed.

(** The normalised mantissa of a number below [2^53]. *)
Definition mantissa (p : positive) : positive := Z.to_pos (Zpos p * 2 ^ (53 - Zpos (digits2_pos p))).

Lemma digits_small p : Zpos p < 2 ^ 53 -> Zpos (digits2_pos p) <= 53.
Proof.
  intros Hp. destruct (Z.le_gt_cases (Zpos (digits2_pos p)) 53) as [|H]; [done|].
  pose proof (digits2_bounds p).
  assert (2 ^ 53 <= 2 ^ (Zpos (digits2_pos p) - 1)) by (apply Z.pow_le_mono_r; lia). lia.
Qed.

Lemma mantissa_value p : Zpos p < 2 ^ 53 -> Zpos (mantissa p) = Zpos p * 2 ^ (53 - Zpos (digits2_pos p)).
Proof.
  intros Hp%digits_small. unfold mantissa. apply Z2Pos.id.
  assert (0 < 2 ^ (53 - Zpos (digits2_pos p))) by (apply Z.pow_pos_nonneg; lia). lia.
Qed.

Lemma mantissa_digits p : Zpos p < 2 ^ 53 -> Zpos (digits2_pos (mantissa p)) = 53.
Proof.
  intros Hp. pose proof (digits_small p Hp).
  change (Zpos (digits2_pos (mantissa p))) with (Zdigits2 (Zpos (mantissa p))).
  rewrite mantissa_value, Zdigits2_shift by lia. lia.
Qed.

Lemma iter_xO p d : Zpos (Pos.iter xO p d) = Zpos p * 2 ^ Zpos d.
Proof.
  revert p. induction d as [|d IH] using Pos.peano_ind; intros p; [simpl; lia|].
  rewrite Pos.iter_succ, Pos2Z.inj_succ, Z.pow_succ_r by lia. specialize (IH p). lia.
Qed.

Lemma f64_of_Z_eq p : Zpos p < 2 ^ 53 ->
  f64_of_Z (Zpos p) = S754_finite false (mantissa p) (Zpos (digits2_pos p) - 53).
Proof.
  intros Hp. pose proof (digits_small p Hp) as Hd. unfold f64_of_Z, binary_normalize, binary_round.
  assert (Hf : fexp 53 1024 (Zpos (digits2_pos p) + 0) = Zpos (digits2_pos p) - 53) by (unfold fexp, emin; lia).
  rewrite Hf.
  assert (Ha : shl_align p 0 (Zpos (digits2_pos p) - 53) = (mantissa p, Zpos (digits2_pos p) - 53)).
  { unfold shl_align. rewrite Z.sub_0_r. destruct (Zpos (digits2_pos p) - 53) as [|q|q] eqn:E; [|lia|].
    - f_equal. apply Pos2Z.inj. rewrite mantissa_value by done.
      replace (53 - Zpos (digits2_pos p)) with 0 by lia. lia.
    - f_equal. apply Pos2Z.inj. rewrite mantissa_value, iter_xO by done. f_equal. f_equal. lia. }
  rewrite Ha. replace (Zpos (mantissa p)) with (Zpos (mantissa p) * 2 ^ 0) by (by rewrite Z.mul_1_r).
  rewrite round_exact; [by rewrite Z.add_0_r|by apply mantissa_digits|lia|lia].
Qed.

Lemma f64_mul_exact p q : Zpos p * Zpos q < 2 ^ 53 ->
  f64_mul (f64_of_Z (Zpos p)) (f64_of_Z (Zpos q)) = f64_of_Z (Zpos p * Zpos q).
Proof.
  intros Hpq. assert (Hp : Zpos p < 2 ^ 53) by nia. assert (Hq : Zpos q < 2 ^ 53) by nia.
  pose proof (digits_small p Hp). pose proof (digits_small q Hq). pose proof (digits_small (p * q) Hpq).
  rewrite (f64_of_Z_eq p), (f64_of_Z_eq q) by done.
  change (Zpos p * Zpos q) with (Zpos (p * q)). rewrite (f64_of_Z_eq (p * q)) by done.
  unfold f64_mul, SFmul. cbn [xorb].
  pose proof (digits2_bounds p). pose proof (digits2_bounds q). pose proof (digits2_bounds (p * q)) as Hb.
  set (dp := Zpos (digits2_pos p)) in *. set (dq := Zpos (digits2_pos q)) in *.
  set (d := Zpos (digits2_pos (p * q))) in *.
  assert (Hd : dp + dq - 1 <= d).
  { destruct (Z.le_gt_cases (dp + dq - 1) d) as [|Hlt]; [done|]. exfalso.
    assert (2 ^ d <= 2 ^ (dp - 1) * 2 ^ (dq - 1)).
    { rewrite <-Z.pow_add_r by (subst dp dq; lia). apply Z.pow_le_mono_r; lia. }
    rewrite Pos2Z.inj_mul in Hb. nia. }
  replace (Zpos (mantissa p * mantissa q)) with (Zpos (mantissa (p * q)) * 2 ^ (53 - dp - dq + d)).
  - rewrite round_exact; [f_equal; lia|by apply mantissa_digits|lia|subst dp dq; lia].
  - rewrite Pos2Z.inj_mul, !mantissa_value by done. rewrite Pos2Z.inj_mul. fold dp dq d.
    replace (2 ^ (53 - dp - dq + d)) with (2 ^ (53 - dp - dq + d)) by done.
    assert (E : 2 ^ (53 - d) * 2 ^ (53 - dp - dq + d) = 2 ^ (53 - dp) * 2 ^ (53 - dq)).
    { rewrite <-!Z.pow_add_r by lia. f_equal. lia. }
    nia.
Qed.

Lemma f64_trunc_exact p : Zpos p < 2 ^ 53 -> f64_trunc (f64_of_Z (Zpos p)) = Zpos p.
Proof.
  intros Hp. pose proof (digits_small p Hp). rewrite f64_of_Z_eq by done. unfold f64_trunc.
  destruct (Z.leb_spec 0 (Zpos (digits2_pos p) - 53)) as [Hle|Hlt].
  - assert (E : Zpos (digits2_pos p) - 53 = 0) by lia. rewrite E, Z.shiftl_0_r, mantissa_value by done.
    replace (53 - Zpos (digits2_pos p)) with 0 by lia. lia.
  - rewrite mantissa_value, Z.shiftr_div_pow2 by (done || lia).
    replace (- (Zpos (digits2_pos p) - 53)) with (53 - Zpos (digits2_pos p)) by lia.
    apply Z.div_mul. assert (0 < 2 ^ (53 - Zpos (digits2_pos p))) by (apply Z.pow_pos_nonneg; lia). lia.
Qed.

(** ** Numbers and fractions *)

Abbreviation digits := (Forall (fun b => is_digit b = true)).

(** The value of a run of digits after [x]. *)
Definition dec (x : Z) (ds : bytes) : Z := fold_left (fun x c => x * 10 + (byte_Z c - 48)) ds x.

Lemma digit_range b : is_digit b = true -> 0 <= byte_Z b - 48 <= 9.
Proof. unfold is_digit, in_range. intros H. bool_props. lia. Qed.

Lemma dec_app x l k : dec x (l ++ k) = dec (dec x l) k.
Proof. apply fold_left_app. Qed.

Lemma dec_lower x ds : digits ds -> 0 <= x -> x <= dec x ds.
Proof.
  intros Hd. revert x. induction Hd as [|c ds Hc%digit_range _ IH]; intros x Hx; [done|].
  cbn [dec fold_left]. specialize (IH (x * 10 + (byte_Z c - 48))). unfold dec in IH. lia.
Qed.

Lemma dec_upper x ds k : digits ds -> 0 <= x < 10 ^ Z.of_nat k -> dec x ds < 10 ^ Z.of_nat (k + length ds).
Proof.
  intros Hd. revert x k. induction Hd as [|c ds Hc%digit_range _ IH]; intros x k Hx.
  - cbn [dec fold_left length]. rewrite Nat.add_0_r. lia.
  - cbn [dec fold_left length]. rewrite <-Nat.add_succ_comm. apply IH.
    rewrite Nat2Z.inj_succ, Z.pow_succ_r by lia. lia.
Qed.

(** What may follow a term: nothing, or the digit of the next number. *)
Definition next_term (R : bytes) : Prop := forall b t, R = b :: t -> is_digit b = true.
(** What may follow a number. *)
Definition no_digit (R : bytes) : Prop := forall b t, R = b :: t -> is_digit b = false.

Lemma leadingInt_digits x ds R :
  digits ds -> no_digit R -> 0 <= x -> dec x ds <= 2 ^ 63 ->
  leadingInt x (ds ++ R) = Some (dec x ds, R).
Proof.
  intros Hd HR. revert x. induction Hd as [|c ds Hc Hd IH]; intros x Hx Hm.
  - destruct R as [|b t]; [done|]. simpl. by rewrite (HR b t).
  - pose proof (digit_range c Hc). pose proof (dec_lower (x * 10 + (byte_Z c - 48)) ds Hd ltac:(lia)) as Hl.
    change (dec x (c :: ds)) with (dec (x * 10 + (byte_Z c - 48)) ds) in *.
    cbn [leadingInt app]. rewrite Hc, u64_id by (unfold in_u64; lia).
    rewrite (proj2 (Z.ltb_ge _ x)) by lia. rewrite (proj2 (Z.ltb_ge _ (x * 10 + byte_Z c - 48))) by lia.
    rewrite <-Z.add_sub_assoc. apply IH; lia.
Qed.

Lemma leadingFraction_digits x ds R k :
  digits ds -> no_digit R -> (k + length ds <= 9)%nat -> 0 <= x < 10 ^ Z.of_nat k ->
  leadingFraction x (f64_of_Z (10 ^ Z.of_nat k)) false (ds ++ R)
  = (dec x ds, f64_of_Z (10 ^ Z.of_nat (k + length ds)), R).
Proof.
  intros Hd HR. revert x k. induction Hd as [|c ds Hc Hd IH]; intros x k Hk Hx.
  - rewrite Nat.add_0_r. destruct R as [|b t]; [done|]. simpl. by rewrite (HR b t).
  - cbn [length] in Hk. pose proof (digit_range c Hc).
    assert (10 ^ Z.of_nat k <= 10 ^ 8) by (apply Z.pow_le_mono_r; lia).
    change (dec x (c :: ds)) with (dec (x * 10 + (byte_Z c - 48)) ds).
    cbn [leadingFraction app length]. rewrite Hc, u64_id by (unfold in_u64; lia).
    rewrite (proj2 (Z.ltb_ge _ x)) by lia. rewrite (proj2 (Z.ltb_ge _ (x * 10 + byte_Z c - 48))) by lia.
    assert (Hs : f64_mul (f64_of_Z (10 ^ Z.of_nat k)) (f64_of_Z 10) = f64_of_Z (10 ^ Z.of_nat (S k))).
    { assert (Hp : 10 ^ Z.of_nat (S k) = 10 ^ Z.of_nat k * 10) by (rewrite Nat2Z.inj_succ, Z.pow_succ_r; lia).
      rewrite Hp. destruct (10 ^ Z.of_nat k) as [|p|p] eqn:E; [lia| |lia].
      apply f64_mul_exact. lia. }
    rewrite Hs, <-Z.add_sub_assoc, <-Nat.add_succ_comm. apply IH; [lia|].
    rewrite Nat2Z.inj_succ, Z.pow_succ_r; lia.
Qed.

(** [strconv.Itoa] of a natural number: digits with that value. *)
Lemma dec_uint_pos u p : dec (Zpos p) (bytes_of (DecimalString.NilEmpty.string_of_uint u)) = Zpos (Pos.of_uint_acc u p).
Proof.
  unfold bytes_of, String.list_byte_of_string. revert p.
  induction u; intros p; [done|..];
    cbn [Pos.of_uint_acc]; rewrite <-IHu; cbn [DecimalString.NilEmpty.string_of_uint String.list_ascii_of_string map dec fold_left];
    unfold dec; f_equal;
    match goal with |- context [byte_Z ?b] => let v := eval vm_compute in (byte_Z b) in change (byte_Z b) with v end; lia.
Qed.

Lemma dec_uint u : dec 0 (bytes_of (DecimalString.NilEmpty.string_of_uint u)) = Z.of_N (Pos.of_uint u).
Proof.
  induction u; [done|exact IHu|..]; cbn [Pos.of_uint Z.of_N]; rewrite <-dec_uint_pos; reflexivity.
Qed.

Lemma digits_uint u : digits (bytes_of (DecimalString.NilEmpty.string_of_uint u)).
Proof. unfold bytes_of, String.list_byte_of_string. induction u; simpl; by constructor. Qed.

Lemma fmtInt_spec n : 0 <= n -> digits (fmtInt n) /\ dec 0 (fmtInt n) = n /\ fmtInt n <> [].
Proof.
  intros Hn. unfold fmtInt, strconv_Itoa. destruct n as [|p|p]; [by repeat constructor| |lia].
  cbn [Z.to_int DecimalString.NilZero.string_of_int].
  assert (Hnn := DecimalPos.Unsigned.to_uint_nonnil p). pose proof (DecimalPos.Unsigned.of_to p) as Hof.
  assert (E : DecimalString.NilZero.string_of_uint (Pos.to_uint p) = DecimalString.NilEmpty.string_of_uint (Pos.to_uint p))
    by (destruct (Pos.to_uint p); done).
  rewrite E, dec_uint, Hof. split; [apply digits_uint|]. split; [done|].
  destruct (Pos.to_uint p); done.
Qed.

(** ** The terms of a duration *)

(** The text of a fraction of [unit] nanoseconds and what it is worth. *)
Inductive fraction (unit : Z) : bytes -> Z -> Prop :=
  | fraction_none : fraction unit [] 0
  | fraction_some ds :
      digits ds -> (0 < length ds <= 9)%nat -> 0 < dec 0 ds ->
      10 ^ Z.of_nat (length ds) * (unit / 10 ^ Z.of_nat (length ds)) = unit ->
      f64_div (f64_of_Z unit) (f64_of_Z (10 ^ Z.of_nat (length ds))) = f64_of_Z (unit / 10 ^ Z.of_nat (length ds)) ->
      0 < unit <= Second ->
      fraction unit (dot :: ds) (dec 0 ds * (unit / 10 ^ Z.of_nat (length ds))).

(** The units [Duration.String] writes. *)
Definition written_units : list (bytes * Z) := [
  (bytes_of "ns", Nanosecond); ([xc2; xb5; x73], Microsecond); (bytes_of "ms", Millisecond);
  (bytes_of "s", Second); (bytes_of "m", Minute); (bytes_of "h", Hour)].

Lemma written_units_spec U unit :
  (U, unit) ∈ written_units ->
  U <> [] /\ 0 < unit <= Hour /\ lookup_unit U unitMap = Some unit /\
  forallb (fun c => negb (bool_decide (c = dot) || is_digit c)) U = true.
Proof.
  intros H. repeat (apply elem_of_cons in H as [[= -> ->]|H]; [vm_compute; repeat split; congruence|]).
  by apply elem_of_nil in H.
Qed.

Lemma span_unit_app U R :
  forallb (fun c => negb (bool_decide (c = dot) || is_digit c)) U = true -> next_term R ->
  span_unit (U ++ R) = (U, R).
Proof.
  intros HU HR. induction U as [|c U IH].
  - destruct R as [|b t]; [done|]. cbn [span_unit app]. by rewrite (HR b t), orb_true_r.
  - cbn [forallb] in HU. apply andb_true_iff in HU as [Hc%negb_true_iff HU].
    cbn [span_unit app]. by rewrite Hc, IH.
Qed.

Lemma length_app_ne (l k : bytes) : l <> [] -> negb (length (l ++ k) =? length k)%nat = true.
Proof. intros Hl. rewrite length_app. destruct l; [done|]. apply negb_true_iff, Nat.eqb_neq. simpl. lia. Qed.

Lemma unit_no_digit U R :
  forallb (fun c => negb (bool_decide (c = dot) || is_digit c)) U = true -> U <> [] -> no_digit (U ++ R).
Proof.
  intros HU Hne b t. destruct U as [|c U]; [done|]. intros [= -> _]. cbn [forallb] in HU.
  apply andb_true_iff in HU as [[_ H]%negb_true_iff%orb_false_iff _]. done.
Qed.

(** The fraction as the parser reads it: its digits, its scale, the rest. *)
Lemma fraction_worth unit ds :
  digits ds -> (0 < length ds <= 9)%nat -> 0 < dec 0 ds ->
  10 ^ Z.of_nat (length ds) * (unit / 10 ^ Z.of_nat (length ds)) = unit ->
  f64_div (f64_of_Z unit) (f64_of_Z (10 ^ Z.of_nat (length ds))) = f64_of_Z (unit / 10 ^ Z.of_nat (length ds)) ->
  0 < unit <= Second ->
  f64_trunc (f64_mul (f64_of_Z (dec 0 ds)) (f64_div (f64_of_Z unit) (f64_of_Z (10 ^ Z.of_nat (length ds)))))
  = dec 0 ds * (unit / 10 ^ Z.of_nat (length ds)).
Proof.
  intros Hd Hl Hp Hm Hdiv Hu. rewrite Hdiv. pose proof (dec_upper 0 ds 0 Hd ltac:(lia)) as Hup. simpl Nat.add in Hup.
  set (q := unit / _) in *. set (t := 10 ^ _) in *.
  assert (0 < q) by nia. assert (Hlt : dec 0 ds * q < unit) by nia.
  assert (HS : Second < 2 ^ 53) by (vm_compute; reflexivity).
  destruct (dec 0 ds) as [|a|a]; [lia| |lia]. destruct q as [|c|c]; [lia| |lia].
  rewrite f64_mul_exact by lia. change (Zpos a * Zpos c) with (Zpos (a * c)) in *. apply f64_trunc_exact. lia.
Qed.

(** A number, a fraction and a unit are one round of the parser's loop. *)
Lemma parse_term_text orig n F fr U unit R :
  0 <= n -> fraction unit F fr -> (U, unit) ∈ written_units -> next_term R -> n * unit + fr <= 2 ^ 63 ->
  parse_term orig (fmtInt n ++ F ++ U ++ R) = Ok (n * unit + fr, R).
Proof.
  intros Hn HF HU HR Hm. destruct (fmtInt_spec n Hn) as (Hd & Hdec & Hne).
  destruct (written_units_spec U unit HU) as (HUne & Hunit & Hlk & Hsp).
  assert (Hnd : no_digit (U ++ R)) by by apply unit_no_digit.
  unfold parse_term. destruct (fmtInt n ++ F ++ U ++ R) as [|c l] eqn:E;
    [by apply app_eq_nil in E as [??]|]. rewrite <-E.
  assert (Hc : is_digit c = true).
  { destruct (fmtInt n) as [|c' l']; [done|]. simplify_eq/=. by inversion Hd. }
  rewrite Hc, orb_true_r. cbn [negb]. clear c l E Hc.
  assert (Hfr : 0 <= fr) by (destruct HF; [done|]; apply Z.mul_nonneg_nonneg; [lia|]; apply Z.div_pos; lia).
  rewrite leadingInt_digits; [|done| |done|rewrite Hdec; nia].
  2:{ destruct HF; [done|]. intros b t [= <- _]. done. }
  rewrite Hdec, length_app_ne by done. cbn [negb andb].
  assert (Hq : (2 ^ 63 / unit <? n) = false) by (apply Z.ltb_ge, Z.div_le_lower_bound; nia).
  assert (Hu : forall x, 0 <= x <= 2 ^ 63 -> u64 x = x) by (intros x Hx; apply u64_id; unfold in_u64; lia).
  destruct HF as [|ds Hds Hl Hp Hmul Hdiv Hsec].
  - cbn [app]. destruct (U ++ R) as [|c s] eqn:E; [by apply app_eq_nil in E as [??]|].
    assert (Hc : bool_decide (c = dot) = false).
    { destruct U as [|c' U']; [done|]. simplify_eq/=. by apply andb_true_iff in Hsp as [[H _]%negb_true_iff%orb_false_iff _]. }
    rewrite Hc, <-E, span_unit_app, Hlk, Hq by done.
    destruct U as [|b U]; [done|]. change (0 <? 0) with false. cbv iota.
    rewrite Z.add_0_r in *. rewrite Hu by nia. by rewrite (proj2 (Z.ltb_ge (2 ^ 63) _) Hm).
  - cbn [app]. change (bool_decide (dot = dot)) with true. cbv iota.
    change (f64_of_Z 1) with (f64_of_Z (10 ^ Z.of_nat 0)).
    rewrite leadingFraction_digits by (done || lia). cbn [Nat.add].
    rewrite span_unit_app, Hlk, Hq by done. destruct U as [|b U]; [done|].
    rewrite (proj2 (Z.ltb_lt 0 (dec 0 ds)) Hp).
    rewrite (fraction_worth unit ds Hds Hl Hp Hmul Hdiv Hsec).
    rewrite (Hu (n * unit)), Hu by nia. by rewrite (proj2 (Z.ltb_ge (2 ^ 63) _) Hm).
Qed.

(** ** What [Duration.String] writes *)

Lemma dec_snoc x ds c : dec x (ds ++ [c]) = dec x ds * 10 + (byte_Z c - 48).
Proof. by rewrite dec_app. Qed.

Lemma digit_byte k : 0 <= k <= 9 -> is_digit (Z_byte (48 + k)) = true /\ byte_Z (Z_byte (48 + k)) - 48 = k.
Proof.
  intros Hk. unfold is_digit. rewrite byte_Z_byte. unfold u8. rewrite Z.mod_small by lia.
  split; [|lia]. unfold in_range. apply andb_true_iff. split; apply Z.leb_le; lia.
Qed.

Lemma pow10_S n : 10 ^ Z.of_nat (S n) = 10 * 10 ^ Z.of_nat n.
Proof. rewrite Nat2Z.inj_succ, Z.pow_succ_r by lia. done. Qed.

Lemma mod_pow10_S v n : v mod 10 ^ Z.of_nat (S n) = (v / 10) mod 10 ^ Z.of_nat n * 10 + v mod 10.
Proof. rewrite pow10_S, Z.rem_mul_r by lia. lia. Qed.

Lemma div_pow10_S v n : v / 10 / 10 ^ Z.of_nat n = v / 10 ^ Z.of_nat (S n).
Proof. rewrite pow10_S, Z.div_div by lia. done. Qed.

Lemma fmtFrac_print prec v acc :
  exists ds, fmtFrac prec v true acc = (dot :: ds ++ acc, v / 10 ^ Z.of_nat prec) /\
    digits ds /\ length ds = prec /\ dec 0 ds = v mod 10 ^ Z.of_nat prec.
Proof.
  revert v acc. induction prec as [|prec IH]; intros v acc.
  - exists []. by rewrite Z.div_1_r, Z.mod_1_r.
  - cbn [fmtFrac orb]. pose proof (Z.mod_pos_bound v 10 ltac:(lia)) as Hb.
    destruct (digit_byte (v mod 10) ltac:(lia)) as [Hc Hv].
    destruct (IH (v / 10) (Z_byte (48 + v mod 10) :: acc)) as (ds & -> & Hd & Hl & Hdec).
    exists (ds ++ [Z_byte (48 + v mod 10)]). rewrite <-app_assoc, div_pow10_S, dec_snoc, length_app, Hdec, Hv, mod_pow10_S.
    repeat split; [by apply Forall_app_2; [|constructor]|simpl; lia].
Qed.

Lemma fmtFrac_spec prec v acc :
  v mod 10 ^ Z.of_nat prec = 0 /\ fmtFrac prec v false acc = (acc, v / 10 ^ Z.of_nat prec) \/
  exists ds, fmtFrac prec v false acc = (dot :: ds ++ acc, v / 10 ^ Z.of_nat prec) /\
    digits ds /\ (0 < length ds <= prec)%nat /\ 0 < dec 0 ds /\
    dec 0 ds * 10 ^ Z.of_nat (prec - length ds) = v mod 10 ^ Z.of_nat prec.
Proof.
  revert v. induction prec as [|prec IH]; intros v.
  - left. by rewrite Z.div_1_r, Z.mod_1_r.
  - cbn [fmtFrac orb]. pose proof (Z.mod_pos_bound v 10 ltac:(lia)) as Hb.
    destruct (Z.eqb_spec (v mod 10) 0) as [H0|H0]; cbn [negb].
    + destruct (IH (v / 10)) as [[Hm ->]|(ds & -> & Hd & Hl & Hp & Hv)].
      * left. by rewrite mod_pow10_S, Hm, H0, div_pow10_S.
      * right. exists ds. rewrite mod_pow10_S, <-Hv, H0, div_pow10_S.
        repeat split; [done|lia|lia|done|]. rewrite Nat.sub_succ_l, pow10_S by lia. lia.
    + right. destruct (digit_byte (v mod 10) ltac:(lia)) as [Hc Hv].
      destruct (fmtFrac_print prec (v / 10) (Z_byte (48 + v mod 10) :: acc)) as (ds & -> & Hd & Hl & Hdec).
      exists (ds ++ [Z_byte (48 + v mod 10)]). rewrite <-app_assoc, div_pow10_S, dec_snoc, length_app, Hdec, Hv, mod_pow10_S, Hl.
      pose proof (Z.mod_pos_bound (v / 10) (10 ^ Z.of_nat prec) ltac:(apply Z.pow_pos_nonneg; lia)).
      repeat split; [by apply Forall_app_2; [|constructor]|simpl; lia|simpl; lia|lia|].
      replace (S prec - (prec + length [Z_byte (48 + v mod 10%Z)]))%nat with 0%nat by (simpl; lia). lia.
Qed.

(** The three scales of the formatter are exact in [float64]. *)
Lemma scale_exact prec j :
  prec ∈ [3; 6; 9]%nat -> (0 < j <= prec)%nat ->
  f64_div (f64_of_Z (10 ^ Z.of_nat prec)) (f64_of_Z (10 ^ Z.of_nat j)) = f64_of_Z (10 ^ Z.of_nat (prec - j)).
Proof.
  intros Hp Hj. rewrite !elem_of_cons in Hp. destruct Hp as [->|[->|[->|Hp%elem_of_nil]]];
    do 10 (destruct j as [|j]; [first [lia|vm_compute; reflexivity]|]); lia.
Qed.

Lemma fmtFrac_fraction prec v acc :
  prec ∈ [3; 6; 9]%nat ->
  exists F, fmtFrac prec v false acc = (F ++ acc, v / 10 ^ Z.of_nat prec) /\
    fraction (10 ^ Z.of_nat prec) F (v mod 10 ^ Z.of_nat prec).
Proof.
  intros Hp. assert (Hle : (prec <= 9)%nat) by (rewrite !elem_of_cons in Hp; destruct Hp as [->|[->|[->|Hp%elem_of_nil]]]; lia).
  destruct (fmtFrac_spec prec v acc) as [[-> ->]|(ds & -> & Hd & Hl & Hpos & Hv)].
  - exists []. split; [done|constructor].
  - exists (dot :: ds). split; [done|]. rewrite <-Hv.
    assert (E : 10 ^ Z.of_nat prec = 10 ^ Z.of_nat (prec - length ds) * 10 ^ Z.of_nat (length ds))
      by (rewrite <-Z.pow_add_r by lia; f_equal; lia).
    assert (0 < 10 ^ Z.of_nat (length ds)) by (apply Z.pow_pos_nonneg; lia).
    assert (Hq : 10 ^ Z.of_nat prec / 10 ^ Z.of_nat (length ds) = 10 ^ Z.of_nat (prec - length ds))
      by (rewrite E; apply Z.div_mul; lia).
    rewrite <-Hq. constructor; rewrite ?Hq; [done|lia|done|lia|by apply scale_exact|].
    split; [by apply Z.pow_pos_nonneg; lia|]. change Second with (10 ^ 9). apply Z.pow_le_mono_r; lia.
Qed.

(** ** Reading a text term by term *)

(** The parser's loop, given fuel for its length, adds [v] for the text [s]. *)
Definition reads (s : bytes) (v : Z) : Prop :=
  forall orig d fuel, (length s <= fuel)%nat -> 0 <= d -> d + v <= 2 ^ 63 ->
    parse_terms fuel orig s d = Some (Ok (d + v)).

Lemma reads_nil : reads [] 0.
Proof. intros orig d fuel _ _ _. rewrite Z.add_0_r. by destruct fuel. Qed.

Lemma fraction_nonneg unit F fr : fraction unit F fr -> 0 <= fr.
Proof. intros []; [done|]. apply Z.mul_nonneg_nonneg; [lia|apply Z.div_pos; lia]. Qed.

Lemma reads_term n F fr U unit R v t :
  0 <= n -> fraction unit F fr -> (U, unit) ∈ written_units -> next_term R -> 0 <= v -> reads R v ->
  t = n * unit + fr + v -> reads (fmtInt n ++ F ++ U ++ R) t.
Proof.
  intros Hn HF HU HR Hv Hreads -> orig d fuel Hf Hd Hm.
  pose proof (fraction_nonneg _ _ _ HF). destruct (written_units_spec _ _ HU) as (_ & Hu & _).
  assert (0 <= n * unit) by (apply Z.mul_nonneg_nonneg; lia).
  assert (HT : forall o, parse_term o (fmtInt n ++ F ++ U ++ R) = Ok (n * unit + fr, R))
    by (intros o; apply parse_term_text; done || lia).
  assert (Hne : fmtInt n ++ F ++ U ++ R <> []) by (destruct (fmtInt_spec n Hn) as (_ & _ & Hnn); by intros [? _]%app_eq_nil).
  pose proof (parse_term_consumes orig _ _ _ Hne (HT orig)) as Hlen.
  destruct fuel as [|fuel]; [simpl in Hf; lia|].
  destruct (fmtInt n ++ F ++ U ++ R) as [|c s] eqn:E; [done|]. cbn [parse_terms].
  rewrite HT, u64_id by (unfold in_u64; lia). rewrite (proj2 (Z.ltb_ge (2 ^ 63) _)) by lia.
  rewrite Hreads by (simpl in *; lia). do 2 f_equal. lia.
Qed.

Lemma next_term_fmtInt n R : 0 <= n -> next_term (fmtInt n ++ R).
Proof.
  intros Hn b t. destruct (fmtInt_spec n Hn) as (Hd & _ & Hne). destruct (fmtInt n); [done|].
  intros [= -> _]. by inversion Hd.
Qed.

(** A text that begins with a number and goes on. *)
Definition begins_with_number (s : bytes) : Prop := exists n R, 0 <= n /\ R <> [] /\ s = fmtInt n ++ R.

Lemma begins_next s : begins_with_number s -> next_term s.
Proof. intros (n & R & Hn & _ & ->). by apply next_term_fmtInt. Qed.

Ltac written := unfold written_units; rewrite !elem_of_cons; tauto.

(** A last term written by [fmtFrac] behind its integer part. *)
Lemma reads_scaled prec n u U :
  prec ∈ [3; 6; 9]%nat -> (U, 10 ^ Z.of_nat prec) ∈ written_units -> 0 <= n ->
  reads (fmtInt n ++ fst (fmtFrac prec u false U)) (n * 10 ^ Z.of_nat prec + u mod 10 ^ Z.of_nat prec).
Proof.
  intros Hp HU Hn. destruct (fmtFrac_fraction prec u U Hp) as (F & -> & HF). cbn [fst].
  rewrite <-(app_nil_r U). eapply reads_term; [done|exact HF|exact HU|done|reflexivity|apply reads_nil|lia].
Qed.

Lemma fmtFrac_snd prec u U : prec ∈ [3; 6; 9]%nat -> snd (fmtFrac prec u false U) = u / 10 ^ Z.of_nat prec.
Proof. intros Hp. by destruct (fmtFrac_fraction prec u U Hp) as (F & -> & _). Qed.

Lemma fmtFrac_not_nil prec u U : prec ∈ [3; 6; 9]%nat -> U <> [] -> fst (fmtFrac prec u false U) <> [].
Proof. intros Hp HU. destruct (fmtFrac_fraction prec u U Hp) as (F & -> & _). cbn [fst]. by intros [_ ?]%app_eq_nil. Qed.

(** A term without a fraction in front of more terms. *)
Lemma reads_whole n U unit R v :
  0 <= n -> (U, unit) ∈ written_units -> begins_with_number R -> 0 <= v -> reads R v ->
  reads (fmtInt n ++ U ++ R) (n * unit + v).
Proof.
  intros Hn HU HR Hv Hreads.
  eapply (reads_term n [] 0 U unit R v); [done|constructor|done|by apply begins_next|done|done|lia].
Qed.

Lemma reads_eq s v w : reads s v -> v = w -> reads s w.
Proof. by intros H <-. Qed.

Lemma begins_app n R : 0 <= n -> R <> [] -> begins_with_number (fmtInt n ++ R).
Proof. intros. by exists n, R. Qed.

(** Below a second: one term. *)
Lemma Duration_body_scaled prec u U :
  prec ∈ [3; 6; 9]%nat -> 0 <= u -> (U, 10 ^ Z.of_nat prec) ∈ written_units ->
  let p := fmtFrac prec u false U in
  reads (fmtInt (snd p) ++ fst p) u /\ begins_with_number (fmtInt (snd p) ++ fst p).
Proof.
  intros Hp Hu HU p. subst p. rewrite fmtFrac_snd by done.
  assert (0 < 10 ^ Z.of_nat prec) by (apply Z.pow_pos_nonneg; lia).
  assert (0 <= u / 10 ^ Z.of_nat prec) by (by apply Z.div_pos). split.
  - eapply reads_eq; [by apply reads_scaled|]. pose proof (Z.div_mod u (10 ^ Z.of_nat prec)). lia.
  - apply begins_app; [done|]. apply fmtFrac_not_nil; [done|]. by destruct (written_units_spec U _ HU).
Qed.

Lemma Duration_body_short u :
  0 <= u < Second -> reads (Duration_body u) u /\ begins_with_number (Duration_body u).
Proof.
  intros Hu. unfold Duration_body. rewrite (proj2 (Z.ltb_lt _ _)) by lia.
  destruct (Z.eqb_spec u 0) as [->|H0]; [|destruct (Z.ltb_spec u Microsecond) as [Hus|Hus];
    [|destruct (Z.ltb_spec u Millisecond) as [Hms|Hms]]].
  - change (bytes_of "0s") with (fmtInt 0 ++ [] ++ bytes_of "s" ++ []). split.
    + eapply reads_term; [done|constructor|written|done|reflexivity|apply reads_nil|done].
    + by apply begins_app.
  - cbn [fmtFrac]. split; [|apply begins_app; [lia|done]]. rewrite <-(app_nil_r (bytes_of "ns")).
    apply (reads_term u [] 0 (bytes_of "ns") Nanosecond [] 0);
      [lia|constructor|written|done|reflexivity|apply reads_nil|unfold Nanosecond; lia].
  - pose proof (Duration_body_scaled 3 u [xc2; xb5; x73] ltac:(set_solver) ltac:(lia) ltac:(written)) as Hgo.
    by destruct (fmtFrac 3 u false [xc2; xb5; x73]).
  - pose proof (Duration_body_scaled 6 u (bytes_of "ms") ltac:(set_solver) ltac:(lia) ltac:(written)) as Hgo.
    by destruct (fmtFrac 6 u false (bytes_of "ms")).
Qed.

(** From a second on: seconds, and minutes and hours in front when there are any. *)
Lemma Duration_body_long u :
  Second <= u -> reads (Duration_body u) u /\ begins_with_number (Duration_body u).
Proof.
  intros Hu. assert (HS : 0 < Second) by done. unfold Duration_body. rewrite (proj2 (Z.ltb_ge _ _)) by lia.
  assert (Hp : (9 : nat) ∈ [3; 6; 9]%nat) by set_solver.
  pose proof (fmtFrac_snd 9 u (bytes_of "s") Hp) as Hv. pose proof (fmtFrac_not_nil 9 u (bytes_of "s") Hp ltac:(done)) as Hf.
  pose proof (fun n => reads_scaled 9 n u (bytes_of "s") Hp ltac:(written)) as Hsec.
  change (10 ^ Z.of_nat 9) with Second in *.
  destruct (fmtFrac 9 u false (bytes_of "s")) as [frac v]. cbn [fst snd] in Hv, Hf, Hsec. subst v.
  set (s := u / Second). pose proof (Z.div_mod u Second ltac:(lia)) as Hus. fold s in Hus.
  assert (Hs0 : 0 <= s) by (apply Z.div_pos; lia).
  pose proof (Z.mod_pos_bound u Second HS) as Hrem. set (r := u mod Second) in *. clearbody r s.
  assert (HH : Hour = 3600 * Second) by reflexivity. assert (HM : Minute = 60 * Second) by reflexivity.
  assert (Hsecs : forall x, 0 <= x mod 60 * Second)
    by (intros x; apply Z.mul_nonneg_nonneg; [apply Z.mod_pos_bound|]; lia).
  pose proof (Hsecs s). pose proof (Hsecs (s / 60)).
  pose proof (Z.mod_pos_bound s 60 ltac:(lia)) as Hs60. pose proof (Z.mod_pos_bound (s / 60) 60 ltac:(lia)) as Hm60.
  assert (Hsr := Hsec (s mod 60) ltac:(lia)).
  assert (Hsb : begins_with_number (fmtInt (s mod 60) ++ frac)) by (apply begins_app; [lia|done]).
  destruct (Z.ltb_spec 0 (s / 60)) as [Hm|Hm].
  2:{ split; [|done]. eapply reads_eq; [exact Hsr|]. assert (s < 60) by lia. rewrite Z.mod_small; lia. }
  assert (Hmr := reads_whole ((s / 60) mod 60) (bytes_of "m") Minute _ (s mod 60 * Second + r) ltac:(lia) ltac:(written) Hsb ltac:(lia) Hsr).
  assert (Hmb : begins_with_number (fmtInt ((s / 60) mod 60) ++ bytes_of "m" ++ fmtInt (s mod 60) ++ frac))
    by (apply begins_app; [lia|done]).
  destruct (Z.ltb_spec 0 (s / 60 / 60)) as [Hh|Hh].
  - split; [|apply begins_app; [lia|done]].
    eapply reads_eq; [eapply (reads_whole _ (bytes_of "h") Hour); [| |exact Hmb| |exact Hmr]; [lia|written|lia]|].
    rewrite HH, HM. lia.
  - split; [|done]. eapply reads_eq; [exact Hmr|]. rewrite HM. lia.
Qed.

(** Whatever [Duration.String] writes of an [int64], [time.ParseDuration] reads
    back: the fractions it writes are exact in the parser's [float64]. *)
Lemma ParseDuration_String d : in_i64 d -> ParseDuration (Duration_String d) = Ok d.
Proof.
  intros Hd. unfold in_i64 in Hd. unfold ParseDuration, ParseDuration_fuel, Duration_String.
  assert (Hbody : reads (Duration_body (Z.abs d)) (Z.abs d) /\ begins_with_number (Duration_body (Z.abs d)))
    by (destruct (Z.lt_ge_cases (Z.abs d) Second); [apply Duration_body_short|apply Duration_body_long]; lia).
  destruct Hbody as [Hr (n & R & Hn & HR & E)].
  rewrite <-length_bytes_of, bytes_of_string_of.
  destruct (fmtInt_spec n Hn) as (Hdg & _ & Hne).
  set (body := Duration_body (Z.abs d)) in *.
  assert (Hnot0 : bool_decide (body = bytes_of "0") = false).
  { apply bool_decide_eq_false. intros E0. rewrite E in E0. apply (f_equal length) in E0. rewrite length_app in E0.
    destruct (fmtInt n), R; try done. simpl in E0. lia. }
  assert (Hb : exists c t, body = c :: t /\ is_digit c = true).
  { rewrite E. destruct (fmtInt n) as [|c t]; [done|]. eexists _, _. split; [reflexivity|by inversion Hdg]. }
  destruct Hb as (c & t & Eb & Hc). clearbody body.
  assert (Habs : forall o fuel, (length body <= fuel)%nat -> parse_terms fuel o body 0 = Some (Ok (Z.abs d)))
    by (intros o fuel Hf; apply (Hr o 0 fuel Hf); lia).
  destruct (Z.ltb_spec d 0) as [Hneg|Hpos].
  - change (bool_decide (x2d = x2d)) with true. cbv iota beta. rewrite Hnot0.
    destruct body as [|c' t']; [done|]. rewrite Habs by (simpl; lia). cbv iota beta.
    unfold i64. do 2 f_equal. lia.
  - assert (Hsign : bool_decide (c = x2d) = false /\ bool_decide (c = x2b) = false).
    { split; apply bool_decide_eq_false; intros ->; vm_compute in Hc; discriminate Hc. }
    destruct Hsign as [H1 H2]. rewrite Eb. rewrite H1, H2. rewrite <-Eb, Hnot0. rewrite Eb, <-Eb.
    rewrite Habs by lia. cbv iota beta. rewrite (proj2 (Z.ltb_ge _ _)) by lia.
    rewrite i64_id by (unfold in_i64; lia). do 2 f_equal. lia.
Qed.
