(* ===== verification/Config.v ===== *)
(** * Config: internal/config/config.go

    Loading, defaults, validation and the method-exclusion set.  Viper and the
    file system are a parameter ([Viper]); what the code relies on of them is
    [ViperLaws]. *)

From S2P Require Import Prelude GoTime GoStrings GoDuration DurationText.

Local Open Scope Z_scope.

(** ** The configuration *)

Record Config := mkConfig {
  ListenAddr : string; ShutdownTimeout : Z; LogLevel : string;
  TLSEnabled : bool; TLSCertFile : string; TLSKeyFile : string; TLSMinVersion : string;
  LogFile : string; LogMaxSizeMB : Z; LogMaxBackups : Z; LogMaxAgeDays : Z; LogCompress : bool;
  RedisAddr : string; RedisPassword : string; RedisDB : Z;
  RedisDialTimeout : Z; RedisReadTimeout : Z; RedisWriteTimeout : Z;
  RedisPoolSize : Z; RedisMinIdle : Z;
  DedupWindow : Z; MaxBodyBytes : Z; FailOpen : bool; ExcludeMethods : list string;
  excludeSet : gset string;             (** a [nil] map and an empty one read alike *)
  XAccelRedirectPrefix : string;
  LocalCacheEnabled : bool; GOGC : Z; StoreTimeout : Z; DisableRequestLogging : bool;
}.

Definition with_excludeSet (s : gset string) (c : Config) : Config :=
  mkConfig (ListenAddr c) (ShutdownTimeout c) (LogLevel c)
    (TLSEnabled c) (TLSCertFile c) (TLSKeyFile c) (TLSMinVersion c)
    (LogFile c) (LogMaxSizeMB c) (LogMaxBackups c) (LogMaxAgeDays c) (LogCompress c)
    (RedisAddr c) (RedisPassword c) (RedisDB c)
    (RedisDialTimeout c) (RedisReadTimeout c) (RedisWriteTimeout c)
    (RedisPoolSize c) (RedisMinIdle c)
    (DedupWindow c) (MaxBodyBytes c) (FailOpen c) (ExcludeMethods c) s
    (XAccelRedirectPrefix c) (LocalCacheEnabled c) (GOGC c) (StoreTimeout c) (DisableRequestLogging c).

(** ** Viper *)

(** A configuration value as the defaults give it. *)
Inductive value := VString (s : string) | VBool (b : bool) | VInt (n : Z) | VStrings (l : list string).

Class Viper (V : Type) := {
  viper_New : V;
  SetDefault : string -> value -> V -> V;
  SetConfigFile : string -> V -> V;
  SetConfigName : string -> V -> V;
  SetConfigType : string -> V -> V;
  AddConfigPath : string -> V -> V;
  ReadInConfig : V -> V * option error;
  GetString : V -> string -> string;
  GetBool : V -> string -> bool;
  GetInt : V -> string -> Z;
  GetInt64 : V -> string -> Z;
  GetStringSlice : V -> string -> list string;
  (** [err.(viper.ConfigFileNotFoundError)] and [os.IsNotExist] on its errors *)
  is_ConfigFileNotFoundError : error -> bool;
  os_IsNotExist : error -> bool;
}.

(** What the code relies on: as long as no configuration file has been read, a
    key has its default, and reading a file that cannot be read changes nothing. *)
Class ViperLaws (V : Type) `{!Viper V} (default_of : V -> string -> option value) : Prop := {
  law_New k : default_of viper_New k = None;
  law_SetDefault k x k' v : default_of (SetDefault k x v) k' = if decide (k = k') then Some x else default_of v k';
  law_SetConfigFile p k v : default_of (SetConfigFile p v) k = default_of v k;
  law_SetConfigName p k v : default_of (SetConfigName p v) k = default_of v k;
  law_SetConfigType p k v : default_of (SetConfigType p v) k = default_of v k;
  law_AddConfigPath p k v : default_of (AddConfigPath p v) k = default_of v k;
  law_ReadInConfig v v' e k : ReadInConfig v = (v', Some e) -> default_of v' k = default_of v k;
  law_GetString v v' e k s :
    ReadInConfig v = (v', Some e) -> default_of v' k = Some (VString s) -> GetString v' k = s;
  law_GetBool v v' e k b :
    ReadInConfig v = (v', Some e) -> default_of v' k = Some (VBool b) -> GetBool v' k = b;
  law_GetInt v v' e k n :
    ReadInConfig v = (v', Some e) -> default_of v' k = Some (VInt n) -> GetInt v' k = n;
  law_GetInt64 v v' e k n :
    ReadInConfig v = (v', Some e) -> default_of v' k = Some (VInt n) -> GetInt64 v' k = n;
  law_GetStringSlice v v' e k l :
    ReadInConfig v = (v', Some e) -> default_of v' k = Some (VStrings l) -> GetStringSlice v' k = l;
}.

(** ** Validation *)

Definition config_error (msg : string) : error := ErrNew "config" msg.

Definition is_blank (s : string) : bool := bool_decide (strings_TrimSpace s = EmptyString).

Definition validate (c : Config) : option error :=
  if bool_decide (ListenAddr c = EmptyString) then
    Some (config_error "server.listen_addr must not be empty")
  else if TLSEnabled c && is_blank (TLSCertFile c) then
    Some (config_error "server.tls_cert_file must not be empty when server.tls_enabled=true")
  else if TLSEnabled c && is_blank (TLSKeyFile c) then
    Some (config_error "server.tls_key_file must not be empty when server.tls_enabled=true")
  else if is_blank (TLSMinVersion c) then
    Some (config_error "server.tls_min_version must not be empty")
  else if negb (bool_decide (TLSMinVersion c = "1.2")) && negb (bool_decide (TLSMinVersion c = "1.3")) then
    Some (config_error "server.tls_min_version must be one of: 1.2, 1.3")
  else if bool_decide (RedisAddr c = EmptyString) then
    Some (config_error "redis.addr must not be empty")
  else if DedupWindow c <=? 0 then
    Some (config_error ("dedup.window must be a positive duration, got " +:+ Duration_String (DedupWindow c)))
  else if MaxBodyBytes c <=? 0 then
    Some (config_error ("dedup.max_body_bytes must be positive, got " +:+ strconv_Itoa (MaxBodyBytes c)))
  else if ShutdownTimeout c <=? 0 then
    Some (config_error ("server.shutdown_timeout must be positive, got " +:+ Duration_String (ShutdownTimeout c)))
  else if RedisPoolSize c <=? 0 then
    Some (config_error ("redis.pool_size must be positive, got " +:+ strconv_Itoa (RedisPoolSize c)))
  else if StoreTimeout c <=? 0 then
    Some (config_error ("performance.store_timeout must be positive, got " +:+ Duration_String (StoreTimeout c)))
  else if is_blank (XAccelRedirectPrefix c) then
    Some (config_error "proxy.x_accel_redirect_prefix must not be empty")
  else None.

(** The defaults, in the order they are set. *)
Definition defaults : list (string * value) := [
  ("server.listen_addr", VString ":8081");
  ("server.log_level", VString "info");
  ("server.shutdown_timeout", VString "10s");
  ("server.tls_enabled", VBool false);
  ("server.tls_cert_file", VString EmptyString);
  ("server.tls_key_file", VString EmptyString);
  ("server.tls_min_version", VString "1.2");
  ("redis.addr", VString "localhost:6379");
  ("redis.password", VString EmptyString);
  ("redis.db", VInt 0);
  ("redis.dial_timeout", VString "2s");
  ("redis.read_timeout", VString "200ms");
  ("redis.write_timeout", VString "200ms");
  ("performance.local_cache", VBool true);
  ("performance.gogc", VInt 50);
  ("performance.store_timeout", VString "500ms");
  ("performance.disable_request_logging", VBool false);
  ("redis.pool_size", VInt 100);
  ("redis.min_idle", VInt 20);
  ("log.file", VString "log/app.log");
  ("log.max_size_mb", VInt 50);
  ("log.max_backups", VInt 5);
  ("log.max_age_days", VInt 30);
  ("log.compress", VBool true);
  ("dedup.window", VString "10s");
  ("dedup.max_body_bytes", VInt 65536);
  ("dedup.fail_open", VBool true);
  ("dedup.exclude_methods", VStrings ["GET"; "HEAD"; "OPTIONS"]);
  ("proxy.x_accel_redirect_prefix", VString "/internal/upstream")].

(** The default of a key: the last one set. *)
Definition default_value (k : string) : option value :=
  match list_find (fun r => fst r = k) (rev defaults) with Some (_, r) => Some (snd r) | None => None end.

Section Load.
Context {U : UnicodeTables}.

(** ** The exclusion set *)

Definition BuildExcludeSet (c : Config) : Config :=
  with_excludeSet (foldl (fun s m => {[strings_ToUpper m]} ∪ s) ∅ (ExcludeMethods c)) c.

Definition IsMethodExcluded (c : Config) (method : string) : bool :=
  bool_decide (strings_ToUpper method ∈ excludeSet c).

(** The loop that normalises [dedup.exclude_methods]. *)
Fixpoint normalise_methods (raw : list string) : list string :=
  match raw with
  | [] => []
  | m :: raw =>
      let t := strings_TrimSpace (strings_ToUpper m) in
      if bool_decide (t = EmptyString) then normalise_methods raw else t :: normalise_methods raw
  end.

(** ** Load *)

Context {V : Type} `{!Viper V}.

Definition set_defaults (v : V) : V :=
  foldl (fun v '(k, x) => SetDefault k x v) v defaults.

(** where the file is looked for: [configPath ...string] *)
Definition select_file (configPath : list string) (v : V) : V :=
  match configPath with
  | p :: _ =>
      if bool_decide (p = EmptyString)
      then AddConfigPath "." (SetConfigType "json" (SetConfigName "config" v))
      else SetConfigFile p v
  | [] => AddConfigPath "." (SetConfigType "json" (SetConfigName "config" v))
  end.

(** [time.ParseDuration(v.GetString(key))] with the error wrapped *)
Definition get_duration (v : V) (key : string) : res Z :=
  match ParseDuration (GetString v key) with
  | Ok d => Ok d
  | Err e => Err (ErrWrap ("invalid " +:+ key) e)
  end.

Local Open Scope go_scope.

(** from the values Viper resolved to a validated [Config] *)
Definition build_config (v : V) : res Config :=
  let? shutdownTimeout := get_duration v "server.shutdown_timeout" in
  let? dialTimeout := get_duration v "redis.dial_timeout" in
  let? readTimeout := get_duration v "redis.read_timeout" in
  let? writeTimeout := get_duration v "redis.write_timeout" in
  let? dedupWindow := get_duration v "dedup.window" in
  let? storeTimeout := get_duration v "performance.store_timeout" in
  let methods := normalise_methods (GetStringSlice v "dedup.exclude_methods") in
  let cfg := mkConfig
    (GetString v "server.listen_addr") shutdownTimeout (GetString v "server.log_level")
    (GetBool v "server.tls_enabled") (GetString v "server.tls_cert_file")
    (GetString v "server.tls_key_file") (GetString v "server.tls_min_version")
    (GetString v "log.file") (GetInt v "log.max_size_mb") (GetInt v "log.max_backups")
    (GetInt v "log.max_age_days") (GetBool v "log.compress")
    (GetString v "redis.addr") (GetString v "redis.password") (GetInt v "redis.db")
    dialTimeout readTimeout writeTimeout
    (GetInt v "redis.pool_size") (GetInt v "redis.min_idle")
    dedupWindow (GetInt64 v "dedup.max_body_bytes") (GetBool v "dedup.fail_open") methods ∅
    (GetString v "proxy.x_accel_redirect_prefix")
    (GetBool v "performance.local_cache") (GetInt v "performance.gogc") storeTimeout
    (GetBool v "performance.disable_request_logging") in
  let cfg := BuildExcludeSet cfg in
  match validate cfg with
  | Some err => Err (ErrWrap "invalid configuration" err)
  | None => Ok cfg
  end.

Definition Load (configPath : list string) : res Config :=
  let v := select_file configPath (set_defaults viper_New) in
  let '(v, err) := ReadInConfig v in
  match err with
  | Some err =>
      if negb (is_ConfigFileNotFoundError err) && negb (os_IsNotExist err)
      then Err (ErrWrap "reading config file" err)
      else build_config v
  | None => build_config v
  end.
End Load.

(** ** The rules of a valid configuration *)

(** What each setting must satisfy, in the order the settings are checked. *)
Definition rules : list (string * (Config -> Prop)) := [
  ("server.listen_addr", fun c => ListenAddr c <> EmptyString);
  ("server.tls_cert_file", fun c => TLSEnabled c = true -> strings_TrimSpace (TLSCertFile c) <> EmptyString);
  ("server.tls_key_file", fun c => TLSEnabled c = true -> strings_TrimSpace (TLSKeyFile c) <> EmptyString);
  ("server.tls_min_version", fun c => TLSMinVersion c ∈ ["1.2"; "1.3"]);
  ("redis.addr", fun c => RedisAddr c <> EmptyString);
  ("dedup.window", fun c => 0 < DedupWindow c);
  ("dedup.max_body_bytes", fun c => 0 < MaxBodyBytes c);
  ("server.shutdown_timeout", fun c => 0 < ShutdownTimeout c);
  ("redis.pool_size", fun c => 0 < RedisPoolSize c);
  ("performance.store_timeout", fun c => 0 < StoreTimeout c);
  ("proxy.x_accel_redirect_prefix", fun c => strings_TrimSpace (XAccelRedirectPrefix c) <> EmptyString)].

Definition valid (c : Config) : Prop := Forall (fun r => snd r c) rules.

(** [e] blames the first rule that [c] breaks. *)
Definition blames (c : Config) (e : error) : Prop :=
  exists pre k P post rest, rules = pre ++ (k, P) :: post /\
    Forall (fun r => snd r c) pre /\ ~ P c /\ error_text e = k +:+ rest.

Lemma blames_nth n c e k P rest :
  rules !! n = Some (k, P) -> Forall (fun r => snd r c) (take n rules) -> ~ P c ->
  error_text e = k +:+ rest -> blames c e.
Proof.
  intros Hn Hpre HP He. exists (take n rules), k, P, (drop (S n) rules), rest.
  split; [|done]. symmetry. by apply take_drop_middle.
Qed.

Lemma blank_spec s : is_blank s = true <-> strings_TrimSpace s = EmptyString.
Proof. apply bool_decide_eq_true. Qed.
Lemma not_blank_spec s : is_blank s = false <-> strings_TrimSpace s <> EmptyString.
Proof. apply bool_decide_eq_false. Qed.

Lemma and_not_blank b s : (b && is_blank s)%bool = false -> b = true -> strings_TrimSpace s <> EmptyString.
Proof. intros H ->. by apply not_blank_spec. Qed.

(** Turn the tests of [validate] into the rules they decide. *)
Ltac config_props :=
  repeat match goal with
  | H : (_ && is_blank _)%bool = true |- _ => apply andb_true_iff in H as [? H]; apply blank_spec in H
  | H : is_blank _ = true |- _ => apply blank_spec in H
  | H : is_blank _ = false |- _ => apply not_blank_spec in H
  | H : (_ && is_blank _)%bool = false |- _ => pose proof (and_not_blank _ _ H); clear H
  end; bool_props.

(** The rules one by one: [validate]'s chain of tests follows [rules]. *)
Lemma validate_step (b : bool) e k c :
  (b = true -> blames c e) -> (b = false -> match k with None => valid c | Some e => blames c e end) ->
  match (if b then Some e else k) with None => valid c | Some e => blames c e end.
Proof. destruct b; [intros H _; by apply H|intros _ H; by apply H]. Qed.

#[local] Opaque strings_TrimSpace.

Ltac broken n :=
  config_props; eapply (blames_nth n); cbn [take snd rules];
  [reflexivity|repeat (apply Forall_cons; split); try apply Forall_nil_2; cbn beta iota delta [snd];
     first [assumption|lia]|cbn beta iota; first [tauto|lia|rewrite !elem_of_cons, elem_of_nil; tauto]|reflexivity].

Lemma validate_cases c :
  match validate c with None => valid c | Some e => blames c e end.
Proof.
  unfold validate.
  apply validate_step; intros H1; [broken 0%nat|].
  apply validate_step; intros H2; [broken 1%nat|].
  apply validate_step; intros H3; [broken 2%nat|].
  apply validate_step; intros H4.
  { apply blank_spec in H4. assert (~ TLSMinVersion c ∈ ["1.2"; "1.3"]).
    { rewrite !elem_of_cons, elem_of_nil. intros [E|[E|[]]]; rewrite E in H4; vm_compute in H4; discriminate. }
    broken 3%nat. }
  apply validate_step; intros H5; [broken 3%nat|].
  config_props.
  assert (Hv : TLSMinVersion c ∈ ["1.2"; "1.3"]).
  { rewrite !elem_of_cons. apply andb_false_iff in H5 as [H5|H5]; config_props; auto. }
  clear H4 H5.
  apply validate_step; intros H6; [broken 4%nat|].
  apply validate_step; intros H7; [broken 5%nat|].
  apply validate_step; intros H8; [broken 6%nat|].
  apply validate_step; intros H9; [broken 7%nat|].
  apply validate_step; intros H10; [broken 8%nat|].
  apply validate_step; intros H11; [broken 9%nat|].
  apply validate_step; intros H12; [broken 10%nat|].
  config_props. unfold valid. repeat (apply Forall_cons; split); try apply Forall_nil_2; cbn beta iota delta [snd];
    first [assumption|lia].
Qed.

(** ** The exclusion set *)

(** Equality of ASCII strings up to letter case, by lower-casing. *)
Definition ascii_lower (c : Z) : Z := if in_range 65 90 c then c + 32 else c.
Definition ascii_fold_eq (s t : string) : Prop :=
  map (fun b => ascii_lower (byte_Z b)) (bytes_of s) = map (fun b => ascii_lower (byte_Z b)) (bytes_of t).

Lemma ascii_upper_lower a b :
  0 <= a < 256 -> 0 <= b < 256 -> (ascii_upper a = ascii_upper b <-> ascii_lower a = ascii_lower b).
Proof. unfold ascii_upper, ascii_lower, in_range. intros. repeat case_match; bool_props; lia. Qed.

Lemma ascii_upper_range a : 0 <= a < 256 -> 0 <= ascii_upper a < 256.
Proof. unfold ascii_upper, in_range. case_match; bool_props; lia. Qed.

Lemma map_ext_iff_Forall2 {A B} (f : A -> B) l k : map f l = map f k <-> Forall2 (fun x y => f x = f y) l k.
Proof.
  split.
  - revert k. induction l as [|x l IH]; intros [|y k]; simpl; intros [=]; constructor; auto.
  - induction 1; simpl; congruence.
Qed.

Section Exclusion.
Context {U : UnicodeTables}.

Lemma ToUpper_ascii s :
  is_ascii (bytes_of s) = true ->
  strings_ToUpper s = string_of (map (fun b => Z_byte (ascii_upper (byte_Z b))) (bytes_of s)).
Proof. unfold strings_ToUpper, upper_bytes. by intros ->. Qed.

(** On ASCII strings, upper-casing identifies what differs in case only. *)
Lemma ToUpper_fold s t :
  is_ascii (bytes_of s) = true -> is_ascii (bytes_of t) = true ->
  (strings_ToUpper s = strings_ToUpper t <-> ascii_fold_eq s t).
Proof.
  intros Hs Ht. rewrite !ToUpper_ascii by done. unfold ascii_fold_eq.
  rewrite (inj_iff string_of), !map_ext_iff_Forall2.
  assert (Hab : forall a b, Z_byte (ascii_upper (byte_Z a)) = Z_byte (ascii_upper (byte_Z b))
    <-> ascii_lower (byte_Z a) = ascii_lower (byte_Z b)).
  { intros a b. rewrite <-ascii_upper_lower by apply byte_Z_range.
    split; [intros E|by intros ->]. apply (f_equal byte_Z) in E. rewrite !byte_Z_byte in E.
    revert E. unfold u8. by rewrite !Z.mod_small by (apply ascii_upper_range, byte_Z_range). }
  split; intros HF; eapply Forall2_impl; try exact HF; apply Hab.
Qed.

Lemma elem_of_excludes l s m :
  m ∈ foldl (fun (s : gset string) m => {[strings_ToUpper m]} ∪ s) s l <->
  m ∈ s \/ exists x, x ∈ l /\ m = strings_ToUpper x.
Proof.
  revert s. induction l as [|x l IH]; intros s; simpl.
  - split; [by left|]. intros [?|(x & Hx & _)]; [done|]. by apply not_elem_of_nil in Hx.
  - rewrite IH. setoid_rewrite elem_of_cons. set_solver.
Qed.

Lemma IsMethodExcluded_spec c m :
  IsMethodExcluded (BuildExcludeSet c) m = true <->
  exists x, x ∈ ExcludeMethods c /\ strings_ToUpper m = strings_ToUpper x.
Proof.
  unfold IsMethodExcluded. rewrite bool_decide_eq_true. simpl. rewrite elem_of_excludes. set_solver.
Qed.

Lemma elem_of_normalised l t :
  t ∈ normalise_methods l <->
  t <> EmptyString /\ exists m, m ∈ l /\ t = strings_TrimSpace (strings_ToUpper m).
Proof.
  induction l as [|m l IH]; cbn [normalise_methods].
  - rewrite elem_of_nil. split; [done|]. intros (_ & m & Hm & _). by apply not_elem_of_nil in Hm.
  - setoid_rewrite elem_of_cons. case_bool_decide; rewrite ?elem_of_cons, IH; naive_solver.
Qed.
End Exclusion.

(** ** What [Load] makes of the resolved values *)

(** The settings parsed as durations, in the order they are parsed. *)
Definition duration_settings : list (string * (Config -> Z)) := [
  ("server.shutdown_timeout", ShutdownTimeout); ("redis.dial_timeout", RedisDialTimeout);
  ("redis.read_timeout", RedisReadTimeout); ("redis.write_timeout", RedisWriteTimeout);
  ("dedup.window", DedupWindow); ("performance.store_timeout", StoreTimeout)].

Section LoadFacts.
Context {U : UnicodeTables} {V : Type} `{!Viper V}.

Definition duration_ok (v : V) (k : string) : Prop := exists d, ParseDuration (GetString v k) = Ok d.

(** The other settings, by the type they are read at. *)
Definition string_settings : list (string * (Config -> string)) := [
  ("server.listen_addr", ListenAddr); ("server.log_level", LogLevel); ("server.tls_cert_file", TLSCertFile);
  ("server.tls_key_file", TLSKeyFile); ("server.tls_min_version", TLSMinVersion); ("log.file", LogFile);
  ("redis.addr", RedisAddr); ("redis.password", RedisPassword);
  ("proxy.x_accel_redirect_prefix", XAccelRedirectPrefix)].
Definition bool_settings : list (string * (Config -> bool)) := [
  ("server.tls_enabled", TLSEnabled); ("log.compress", LogCompress); ("dedup.fail_open", FailOpen);
  ("performance.local_cache", LocalCacheEnabled); ("performance.disable_request_logging", DisableRequestLogging)].
Definition int_settings : list (string * (Config -> Z)) := [
  ("log.max_size_mb", LogMaxSizeMB); ("log.max_backups", LogMaxBackups); ("log.max_age_days", LogMaxAgeDays);
  ("redis.db", RedisDB); ("redis.pool_size", RedisPoolSize); ("redis.min_idle", RedisMinIdle);
  ("performance.gogc", GOGC)].

(** [c] is the configuration that the resolved values describe: every field. *)
Record described (v : V) (c : Config) : Prop := {
  desc_strings : Forall (fun '(k, get) => GetString v k = get c) string_settings;
  desc_bools : Forall (fun '(k, get) => GetBool v k = get c) bool_settings;
  desc_ints : Forall (fun '(k, get) => GetInt v k = get c) int_settings;
  desc_limit : GetInt64 v "dedup.max_body_bytes" = MaxBodyBytes c;
  desc_durations : Forall (fun '(k, get) => ParseDuration (GetString v k) = Ok (get c)) duration_settings;
  desc_methods : normalise_methods (GetStringSlice v "dedup.exclude_methods") = ExcludeMethods c;
  desc_set : excludeSet (BuildExcludeSet c) = excludeSet c;
}.

(** The fields leave nothing open. *)
Lemma described_unique v c c' : described v c -> described v c' -> c = c'.
Proof.
  intros [S1 B1 I1 L1 D1 M1 X1] [S2 B2 I2 L2 D2 M2 X2].
  unfold string_settings, bool_settings, int_settings, duration_settings in *.
  assert (HX : excludeSet c = excludeSet c').
  { rewrite <-X1, <-X2. simpl. by rewrite <-M1, <-M2. }
  destruct c, c'. clear X1 X2.
  repeat match goal with H : Forall _ (_ :: _) |- _ => apply Forall_cons in H as [? H] end.
  simpl in *.
  repeat match goal with
  | H1 : ?x = ?a, H2 : ?x = ?b |- _ => rewrite H1 in H2; clear H1; try injection H2 as H2
  end.
  by subst.
Qed.

(** What every configuration that [Load] hands out satisfies. *)
Definition loaded (v : V) (c : Config) : Prop :=
  valid c /\
  Forall (fun '(k, get) => ParseDuration (GetString v k) = Ok (get c) /\ in_i64 (get c)) duration_settings /\
  ExcludeMethods c = normalise_methods (GetStringSlice v "dedup.exclude_methods") /\
  (forall m, IsMethodExcluded c m = true <->
     exists x, x ∈ ExcludeMethods c /\ strings_ToUpper m = strings_ToUpper x).

(** What every error says. *)
Definition rejected (v : V) (e : error) : Prop :=
  (exists pre k get post e', duration_settings = pre ++ (k, get) :: post /\
     Forall (fun r => duration_ok v (fst r)) pre /\
     ParseDuration (GetString v k) = Err e' /\ e = ErrWrap ("invalid " +:+ k) e') \/
  (exists c e', described v c /\ blames c e' /\ e = ErrWrap "invalid configuration" e').

Definition built (v : V) (r : res Config) : Prop :=
  match r with Ok c => loaded v c | Err e => rejected v e end.

(** One [time.ParseDuration] and its error return. *)
Lemma duration_step n v key get (k : Z -> res Config) :
  duration_settings !! n = Some (key, get) ->
  Forall (fun r => duration_ok v (fst r)) (take n duration_settings) ->
  (forall d, ParseDuration (GetString v key) = Ok d -> built v (k d)) ->
  built v (match get_duration v key with Ok d => k d | Err e => Err e end).
Proof.
  intros Hn Hpre Hk. unfold get_duration.
  destruct (ParseDuration (GetString v key)) as [d|e] eqn:E; [by apply Hk|].
  left. exists (take n duration_settings), key, get, (drop (S n) duration_settings), e.
  split; [symmetry; by apply take_drop_middle|done].
Qed.

Lemma parsed_ok v k d : ParseDuration (GetString v k) = Ok d -> duration_ok v k.
Proof. by exists d. Qed.

Ltac parsed :=
  repeat (apply Forall_cons; split); try apply Forall_nil_2; cbn beta iota delta [fst]; eauto using parsed_ok.

Lemma build_config_built v : built v (build_config v).
Proof.
  unfold build_config.
  eapply (duration_step 0); [reflexivity|by constructor|]. intros d0 E0.
  eapply (duration_step 1); [reflexivity|by parsed|]. intros d1 E1.
  eapply (duration_step 2); [reflexivity|by parsed|]. intros d2 E2.
  eapply (duration_step 3); [reflexivity|by parsed|]. intros d3 E3.
  eapply (duration_step 4); [reflexivity|by parsed|]. intros d4 E4.
  eapply (duration_step 5); [reflexivity|by parsed|]. intros d5 E5.
  set (cfg := mkConfig _ _ _ _ _ _ _ _ _ _ _ _ _ _ _ _ _ _ _ _ _ _ _ _ _ _ _ _ _ _).
  pose proof (validate_cases (BuildExcludeSet cfg)) as Hv.
  destruct (validate (BuildExcludeSet cfg)) as [e|].
  - right. exists (BuildExcludeSet cfg), e. split; [|done].
    by split; repeat (apply Forall_cons; split); try apply Forall_nil_2.
  - split; [done|]. split; [|split; [reflexivity|intros m; apply (IsMethodExcluded_spec cfg)]].
    repeat (apply Forall_cons; split); try apply Forall_nil_2; (split; [assumption|]); eapply ParseDuration_range; eassumption.
Qed.
End LoadFacts.

(** ** Properties *)

Section Properties.
Context {U : UnicodeTables} {V : Type} `{!Viper V}.

(** Viper after it has looked for the file, and the error it reports. *)
Definition resolved (configPath : list string) : V * option error :=
  ReadInConfig (select_file configPath (set_defaults viper_New)).

(** The read errors [Load] does not forgive. *)
Definition unreadable (e : error) : Prop :=
  is_ConfigFileNotFoundError e = false /\ os_IsNotExist e = false.

Lemma Load_cases p :
  match snd (resolved p) with
  | Some e => unreadable e /\ Load p = Err (ErrWrap "reading config file" e)
              \/ ~ unreadable e /\ Load p = build_config (fst (resolved p))
  | None => Load p = build_config (fst (resolved p))
  end.
Proof.
  unfold Load, resolved, unreadable. destruct (ReadInConfig _) as [v [e|]]; [|done]. simpl.
  destruct (is_ConfigFileNotFoundError e), (os_IsNotExist e); simpl; naive_solver.
Qed.

(** [validate] accepts exactly the configurations that satisfy every rule,
    and an error names the first setting, in the order of the rules, whose rule is
    broken. *)
Theorem validate_spec c :
  (validate c = None <-> valid c) /\ (forall e, validate c = Some e -> blames c e).
Proof.
  pose proof (validate_cases c) as H. destruct (validate c) as [e|].
  - split; [|by intros ? [= <-]]. split; [done|].
    intros Hv. destruct H as (pre & k & P & post & rest & Hr & _ & HP & _).
    unfold valid in Hv. rewrite Hr, Forall_app, Forall_cons in Hv. by destruct Hv as (_ & ? & _).
  - split; [done|discriminate].
Qed.

Lemma Load_built p c : Load p = Ok c -> build_config (fst (resolved p)) = Ok c /\ loaded (fst (resolved p)) c.
Proof.
  intros HL. assert (HB : build_config (fst (resolved p)) = Ok c).
  { pose proof (Load_cases p) as H. destruct (snd (resolved p)); [|congruence].
    destruct H as [[_ H]|[_ H]]; congruence. }
  split; [done|]. pose proof (build_config_built (fst (resolved p))) as H. by rewrite HB in H.
Qed.

(** C24: a configuration that [Load] returns is valid (no empty address, positive
    window, timeouts, pool and body limit, TLS files present when TLS is on and
    a known minimum version), its durations are the parsed settings and fit an
    [int64], its method list has no blank entry, and [IsMethodExcluded] answers
    exactly for the listed methods, whatever the case of an ASCII method. *)
Theorem load_valid p c :
  Load p = Ok c ->
  valid c /\
  Forall (fun '(k, get) => ParseDuration (GetString (fst (resolved p)) k) = Ok (get c) /\ in_i64 (get c))
    duration_settings /\
  (EmptyString ∉ ExcludeMethods c) /\
  (forall m, IsMethodExcluded c m = true <->
     exists x, x ∈ ExcludeMethods c /\ strings_ToUpper m = strings_ToUpper x) /\
  (forall m m', is_ascii (bytes_of m) = true -> is_ascii (bytes_of m') = true ->
     ascii_fold_eq m m' -> IsMethodExcluded c m = IsMethodExcluded c m').
Proof.
  intros (_ & Hv & Hd & Hm & He)%Load_built. do 2 (split; [done|]). split.
  { rewrite Hm, elem_of_normalised. naive_solver. }
  split; [done|]. intros m m' Ha Ha' Hf. apply ToUpper_fold in Hf; [|done..].
  apply eq_bool_prop_intro. rewrite !Is_true_true, !He. by rewrite Hf.
Qed.

(** C25: every way [Load] fails: a file that exists but cannot be read or parsed;
    else the first duration setting that does not parse, under its name; else,
    of the one configuration that the resolved values describe, the first
    validation rule that it breaks. So no configuration that keeps the rules is
    turned away, and a missing file is not an error. *)
Theorem load_errors p e :
  Load p = Err e ->
  (exists e', snd (resolved p) = Some e' /\ unreadable e' /\ e = ErrWrap "reading config file" e') \/
  rejected (fst (resolved p)) e.
Proof.
  intros HL. pose proof (Load_cases p) as H.
  pose proof (build_config_built (fst (resolved p))) as HB.
  destruct (snd (resolved p)) as [e'|].
  - destruct H as [[Hu H]|[_ H]].
    + left. exists e'. split; [done|]. split; [done|]. congruence.
    + right. rewrite <-H, HL in HB. exact HB.
  - right. rewrite <-H, HL in HB. exact HB.
Qed.
(** ** Writing a configuration down *)

(** A configuration as the settings of a file, durations in the notation of
    [Duration.String]: the one the messages and the log of the service use. *)
Definition settings (c : Config) : list (string * value) := [
  ("server.listen_addr", VString (ListenAddr c));
  ("server.log_level", VString (LogLevel c));
  ("server.shutdown_timeout", VString (Duration_String (ShutdownTimeout c)));
  ("server.tls_enabled", VBool (TLSEnabled c));
  ("server.tls_cert_file", VString (TLSCertFile c));
  ("server.tls_key_file", VString (TLSKeyFile c));
  ("server.tls_min_version", VString (TLSMinVersion c));
  ("redis.addr", VString (RedisAddr c));
  ("redis.password", VString (RedisPassword c));
  ("redis.db", VInt (RedisDB c));
  ("redis.dial_timeout", VString (Duration_String (RedisDialTimeout c)));
  ("redis.read_timeout", VString (Duration_String (RedisReadTimeout c)));
  ("redis.write_timeout", VString (Duration_String (RedisWriteTimeout c)));
  ("performance.local_cache", VBool (LocalCacheEnabled c));
  ("performance.gogc", VInt (GOGC c));
  ("performance.store_timeout", VString (Duration_String (StoreTimeout c)));
  ("performance.disable_request_logging", VBool (DisableRequestLogging c));
  ("redis.pool_size", VInt (RedisPoolSize c));
  ("redis.min_idle", VInt (RedisMinIdle c));
  ("log.file", VString (LogFile c));
  ("log.max_size_mb", VInt (LogMaxSizeMB c));
  ("log.max_backups", VInt (LogMaxBackups c));
  ("log.max_age_days", VInt (LogMaxAgeDays c));
  ("log.compress", VBool (LogCompress c));
  ("dedup.window", VString (Duration_String (DedupWindow c)));
  ("dedup.max_body_bytes", VInt (MaxBodyBytes c));
  ("dedup.fail_open", VBool (FailOpen c));
  ("dedup.exclude_methods", VStrings (ExcludeMethods c));
  ("proxy.x_accel_redirect_prefix", VString (XAccelRedirectPrefix c))].

(** Viper answers with [x] under [k]. *)
Definition answers (v : V) (r : string * value) : Prop :=
  match snd r with
  | VString s => GetString v (fst r) = s
  | VBool b => GetBool v (fst r) = b
  | VInt n => GetInt v (fst r) = n /\ GetInt64 v (fst r) = n
  | VStrings l => GetStringSlice v (fst r) = l
  end.

(** Normalising a list of ASCII methods leaves nothing to normalise. *)
Lemma normalise_methods_idemp l :
  Forall (fun m => is_ascii (bytes_of m) = true) l ->
  normalise_methods (normalise_methods l) = normalise_methods l.
Proof.
  induction 1 as [|m l Hm _ IH]; [done|]. cbn [normalise_methods].
  case_bool_decide as Ht; [done|]. cbn [normalise_methods].
  rewrite (trim_upper_idemp m Hm), bool_decide_false, IH by done. done.
Qed.

Lemma get_duration_String v k d :
  in_i64 d -> GetString v k = Duration_String d -> get_duration v k = Ok d.
Proof. intros Hd E. unfold get_duration. by rewrite E, ParseDuration_String. Qed.

Lemma build_config_settings c v :
  valid c -> Forall (fun r => in_i64 (snd r c)) duration_settings ->
  normalise_methods (ExcludeMethods c) = ExcludeMethods c ->
  c = BuildExcludeSet (with_excludeSet ∅ c) -> Forall (answers v) (settings c) ->
  build_config v = Ok c.
Proof.
  intros Hv Hd Hn He Ha.
  assert (Hval : validate c = None) by (by apply validate_spec).
  unfold duration_settings in Hd. unfold settings in Ha.
  repeat match goal with H : Forall _ (_ :: _) |- _ => apply Forall_cons in H as [? H] end.
  unfold answers in *. cbn [fst snd] in *.
  unfold build_config.
  repeat match goal with
  | H : GetString v ?k = Duration_String ?d |- context [get_duration v ?k] =>
      rewrite (get_duration_String v k d) by assumption
  | H : GetString v ?k = _ |- context [GetString v ?k] => rewrite H
  | H : GetBool v ?k = _ |- context [GetBool v ?k] => rewrite H
  | H : GetInt v ?k = _ /\ _ |- context [GetInt v ?k] => rewrite (proj1 H)
  | H : _ /\ GetInt64 v ?k = _ |- context [GetInt64 v ?k] => rewrite (proj2 H)
  | H : GetStringSlice v ?k = _ |- context [GetStringSlice v ?k] => rewrite H
  end.
  rewrite Hn. replace (BuildExcludeSet _) with c. by rewrite Hval.
Qed.

Lemma build_config_excludes v c : build_config v = Ok c -> c = BuildExcludeSet (with_excludeSet ∅ c).
Proof.
  unfold build_config.
  repeat (destruct (get_duration v _); [|done]).
  set (cfg := mkConfig _ _ _ _ _ _ _ _ _ _ _ _ _ _ _ _ _ _ _ _ _ _ _ _ _ _ _ _ _ _).
  destruct (validate (BuildExcludeSet cfg)); [done|]. by intros [= <-].
Qed.

End Properties.

Section Roundtrip.
(** two runs: each reads its own file *)
Context {U : UnicodeTables} {V V' : Type} `{!Viper V} `{!Viper V'}.

(** C26: a configuration survives being written down: if [Load] returned [c], and
    a later [Load] finds a file that says what [c] holds, its durations as
    [Duration.String] prints them and its methods as [Load] left them, it returns
    [c] again, to the nanosecond, with the same exclusion set. The methods of the
    first run may be in any case and carry any white space, as long as they are
    ASCII: normalising them a second time changes nothing. *)
Theorem load_roundtrip p p' (v : V') c :
  Load (V:=V) p = Ok c ->
  Forall (fun m => is_ascii (bytes_of m) = true)
    (GetStringSlice (fst (resolved (V:=V) p)) "dedup.exclude_methods") ->
  resolved (V:=V') p' = (v, None) -> Forall (answers v) (settings c) ->
  Load (V:=V') p' = Ok c.
Proof.
  intros (HB & Hv & Hd & Hm & _)%Load_built Ha HR Hans.
  pose proof (Load_cases (V:=V') p') as HL. rewrite HR in HL. cbn [fst snd] in HL. rewrite HL.
  apply build_config_settings; try done.
  - eapply Forall_impl; [exact Hd|]. by intros [k get] [_ H].
  - rewrite Hm. by apply normalise_methods_idemp.
  - by apply (build_config_excludes (fst (resolved (V:=V) p))).
Qed.
End Roundtrip.

(** ** Without a configuration file *)

(** Every setting at its default. *)
Definition default_config : Config :=
  mkConfig ":8081" (10 * Second) "info"
    false EmptyString EmptyString "1.2"
    "log/app.log" 50 5 30 true
    "localhost:6379" EmptyString 0
    (2 * Second) (200 * Millisecond) (200 * Millisecond)
    100 20
    (10 * Second) 65536 true ["GET"; "HEAD"; "OPTIONS"] {["GET"; "HEAD"; "OPTIONS"]}
    "/internal/upstream" true 50 (500 * Millisecond) false.

Section Defaults.
Context {U : UnicodeTables} {V : Type} `{!Viper V} {default_of : V -> string -> option value}
        `{!ViperLaws V default_of}.

Lemma default_of_set l v k :
  default_of (foldl (fun v '(k, x) => SetDefault k x v) v l) k =
  match list_find (fun r => fst r = k) (rev l) with
  | Some (_, r) => Some (snd r)
  | None => default_of v k
  end.
Proof.
  induction l as [|[k' x] l IH] using rev_ind; [done|].
  rewrite foldl_app, rev_app_distr. simpl. rewrite law_SetDefault.
  case_decide as E; [done|]. rewrite IH.
  destruct (list_find _ (rev l)) as [[i r]|]; done.
Qed.

Lemma default_of_select p v k : default_of (select_file p v) k = default_of v k.
Proof.
  unfold select_file. destruct p as [|s p]; [|case_bool_decide];
    by rewrite ?law_AddConfigPath, ?law_SetConfigType, ?law_SetConfigName, ?law_SetConfigFile.
Qed.

Definition unset (v : V) : Prop :=
  (forall k s, default_value k = Some (VString s) -> GetString v k = s) /\
  (forall k b, default_value k = Some (VBool b) -> GetBool v k = b) /\
  (forall k n, default_value k = Some (VInt n) -> GetInt v k = n /\ GetInt64 v k = n) /\
  (forall k l, default_value k = Some (VStrings l) -> GetStringSlice v k = l).

Lemma default_of_resolved p v e : resolved (V:=V) p = (v, Some e) -> unset v.
Proof.
  intros HR. unfold resolved in HR.
  assert (Hd : forall k x, default_value k = Some x -> default_of v k = Some x).
  { intros k x. rewrite (law_ReadInConfig (default_of:=default_of) _ _ _ _ HR), default_of_select.
    unfold set_defaults, default_value. rewrite default_of_set.
    by destruct (list_find _ (rev defaults)) as [[i r]|]. }
  split_and!; intros; [|  |split|];
    eauto using law_GetString, law_GetBool, law_GetInt, law_GetInt64, law_GetStringSlice.
Qed.

Lemma default_built :
  default_config = BuildExcludeSet (with_excludeSet ∅ default_config).
Proof. vm_compute. reflexivity. Qed.

Lemma build_config_defaults v : unset v -> build_config v = Ok default_config.
Proof.
  intros (Hs & Hb & Hi & Hl). unfold build_config, get_duration.
  repeat match goal with
  | |- context [GetString v ?k] => rewrite (Hs k _ eq_refl)
  | |- context [GetBool v ?k] => rewrite (Hb k _ eq_refl)
  | |- context [GetInt v ?k] => rewrite (proj1 (Hi k _ eq_refl))
  | |- context [GetInt64 v ?k] => rewrite (proj2 (Hi k _ eq_refl))
  | |- context [GetStringSlice v ?k] => rewrite (Hl k _ eq_refl)
  end.
  vm_compute. reflexivity.
Qed.

(** C27: the service starts with no configuration file: when Viper reports that
    there is none, by its own error or by the file system's, [Load] returns the
    default configuration, and exactly GET, HEAD and OPTIONS, in any letter case,
    are excluded. *)
Theorem load_defaults p v e :
  resolved (V:=V) p = (v, Some e) -> is_ConfigFileNotFoundError e = true \/ os_IsNotExist e = true ->
  Load (V:=V) p = Ok default_config /\
  forall m, is_ascii (bytes_of m) = true ->
    (IsMethodExcluded default_config m = true <->
     exists x, x ∈ ["GET"; "HEAD"; "OPTIONS"] /\ ascii_fold_eq m x).
Proof.
  intros HR He. split.
  - pose proof (Load_cases (V:=V) p) as HL. rewrite HR in HL. simpl in HL.
    destruct HL as [[[H1 H2] _]|[_ ->]]; [destruct He; congruence|].
    by apply build_config_defaults, (default_of_resolved p v e).
  - intros m Hm. rewrite default_built, IsMethodExcluded_spec. simpl ExcludeMethods.
    split; intros (x & Hx & E); exists x; (split; [done|]); revert E; apply ToUpper_fold; try done;
      rewrite !elem_of_cons, elem_of_nil in Hx; by destruct Hx as [->|[->|[->|[]]]].
Qed.
End Defaults.

(** ** Witnesses *)

(** A Viper whose file holds [file], or cannot be read for the reason [err]. *)
Section FileViper.
Context (file : gmap string value) (err : option error).

Definition viper_get (v : gmap string value) (k : string) : option value := v !! k.

#[local] Instance file_viper : Viper (gmap string value) := {|
  viper_New := ∅;
  SetDefault k x v := <[k := x]> v;
  SetConfigFile _ v := v; SetConfigName _ v := v; SetConfigType _ v := v; AddConfigPath _ v := v;
  ReadInConfig v := match err with Some e => (v, Some e) | None => (file ∪ v, None) end;
  GetString v k := match v !! k with Some (VString s) => s | _ => EmptyString end;
  GetBool v k := match v !! k with Some (VBool b) => b | _ => false end;
  GetInt v k := match v !! k with Some (VInt n) => n | _ => 0 end;
  GetInt64 v k := match v !! k with Some (VInt n) => n | _ => 0 end;
  GetStringSlice v k := match v !! k with Some (VStrings l) => l | _ => [] end;
  is_ConfigFileNotFoundError e := bool_decide (e = ErrNew "viper" "Config File Not Found");
  os_IsNotExist e := bool_decide (e = ErrNew "os" "file does not exist");
|}.

#[local] Instance file_viper_laws : ViperLaws (gmap string value) viper_get.
Proof.
  unfold viper_get. split; simpl; try done.
  - intros k x k' v. case_decide; [subst; apply lookup_insert_eq|by apply lookup_insert_ne].
  - intros v v' e k. by destruct err; intros [= <- _].
  - intros v v' e k s _ H. by rewrite H.
  - intros v v' e k s _ H. by rewrite H.
  - intros v v' e k s _ H. by rewrite H.
  - intros v v' e k s _ H. by rewrite H.
  - intros v v' e k s _ H. by rewrite H.
Qed.
End FileViper.

(** Upper-casing that leaves every rune beyond ASCII alone. *)
Definition ascii_tables : UnicodeTables := fun r => r.

Definition no_file : error := ErrNew "viper" "Config File Not Found".

Lemma validate_spec_witness :
  validate default_config = None /\ valid default_config /\
  exists e, blames (mkConfig ":8081" 0 "info" true "c.pem" "  " "1.1" "log" 1 1 1 true "r:1" EmptyString 0
                      1 1 1 1 1 1 1 true [] ∅ "/u" true 50 1 false) e.
Proof.
  assert (H : validate default_config = None) by (vm_compute; reflexivity).
  split; [exact H|]. split; [exact (proj1 (proj1 (validate_spec default_config)) H)|].
  eexists. apply (proj2 (validate_spec _)). vm_compute. reflexivity.
Defined.

(** A file that sets the window and the methods, and one with a bad window. *)
Definition w_viper : Viper (gmap string value) := file_viper
  {["dedup.window" := VString "1m30s"; "dedup.exclude_methods" := VStrings [" get "; "  "; "Patch"]]} None.
Definition w_config : Config :=
  match Load (U:=ascii_tables) (Viper0:=w_viper) [] with Ok c => c | Err _ => default_config end.

(** One with a bad window, and one that breaks two rules: no window, no pool. *)
Definition w_bad_viper : Viper (gmap string value) := file_viper {["dedup.window" := VString "soon"]} None.
Definition w_invalid_viper : Viper (gmap string value) :=
  file_viper {["dedup.window" := VString "0s"; "redis.pool_size" := VInt 0]} None.
Definition w_error {W : Viper (gmap string value)} : error :=
  match Load (U:=ascii_tables) (Viper0:=W) [] with Ok _ => no_file | Err e => e end.

Lemma load_valid_witness :
  Load (U:=ascii_tables) (Viper0:=w_viper) [] = Ok w_config /\ valid w_config /\
  DedupWindow w_config = 90000000000 /\ IsMethodExcluded (U:=ascii_tables) w_config "gEt" = true.
Proof.
  assert (E : Load (U:=ascii_tables) (Viper0:=w_viper) [] = Ok w_config) by (vm_compute; reflexivity).
  destruct (load_valid (U:=ascii_tables) (Viper0:=w_viper) [] w_config E) as (Hv & _ & _ & He & _).
  split; [exact E|]. split; [exact Hv|]. split; [vm_compute; reflexivity|].
  apply He. exists "GET"%string.
  split; [apply (bool_decide_unpack _); vm_compute; exact I|vm_compute; reflexivity].
Defined.

(** The file that writes [w_config] down, its window as [Duration.String] has it. *)
Definition w_written : Viper (gmap string value) := file_viper (list_to_map (settings w_config)) None.
Definition w_resolved : gmap string value := fst (resolved (Viper0:=w_written) []).

Lemma load_roundtrip_witness :
  Load (U:=ascii_tables) (Viper0:=w_written) [] = Ok w_config /\
  GetString (Viper:=w_written) w_resolved "dedup.window" = "1m30s".
Proof.
  split; [|vm_compute; reflexivity].
  apply (load_roundtrip (U:=ascii_tables) (Viper0:=w_viper) (Viper1:=w_written) [] [] w_resolved w_config).
  - vm_compute. reflexivity.
  - repeat (apply Forall_cons; split); try apply Forall_nil_2; vm_compute; reflexivity.
  - vm_compute. reflexivity.
  - unfold settings.
    repeat (apply Forall_cons; split); try apply Forall_nil_2; vm_compute; first [reflexivity|split; reflexivity].
Defined.

Lemma load_errors_witness :
  rejected (U:=ascii_tables) (Viper0:=w_bad_viper) (fst (resolved (Viper0:=w_bad_viper) []))
    (w_error (W:=w_bad_viper)) /\
  rejected (U:=ascii_tables) (Viper0:=w_invalid_viper) (fst (resolved (Viper0:=w_invalid_viper) []))
    (w_error (W:=w_invalid_viper)).
Proof.
  assert (E : Load (U:=ascii_tables) (Viper0:=w_bad_viper) [] = Err (w_error (W:=w_bad_viper)))
    by (vm_compute; reflexivity).
  assert (E' : Load (U:=ascii_tables) (Viper0:=w_invalid_viper) [] = Err (w_error (W:=w_invalid_viper)))
    by (vm_compute; reflexivity).
  split.
  - destruct (load_errors (U:=ascii_tables) (Viper0:=w_bad_viper) [] _ E) as [(e' & He & _)|Hr];
      [vm_compute in He; discriminate He|exact Hr].
  - destruct (load_errors (U:=ascii_tables) (Viper0:=w_invalid_viper) [] _ E') as [(e' & He & _)|Hr];
      [vm_compute in He; discriminate He|exact Hr].
Defined.

Lemma load_defaults_witness :
  Load (U:=ascii_tables) (Viper0:=file_viper ∅ (Some no_file)) ["absent.json"] = Ok default_config /\
  IsMethodExcluded (U:=ascii_tables) default_config "options" = true.
Proof.
  pose proof (load_defaults (U:=ascii_tables) (Viper0:=file_viper ∅ (Some no_file))
    (ViperLaws0:=file_viper_laws ∅ (Some no_file)) ["absent.json"] _ no_file eq_refl
    (or_introl (bool_decide_eq_true_2 _ eq_refl))) as [H1 H2].
  split; [exact H1|]. apply H2; [reflexivity|]. exists "OPTIONS"%string.
  split; [do 2 right; by left|vm_compute; reflexivity].
Defined.
