(* ===== verification/RedisStore.v ===== *)
(** * RedisStore: internal/store/store.go, the Redis implementation

    The client library is a parameter ([RedisClient]); what the code relies on
    of it is [RedisLaws], the documented meaning of [SET key value NX PX ttl].
    From it the RedisStore discharges the interface contract [StoreLaws]. *)

From S2P Require Import Prelude GoTime Store Config.

Local Open Scope Z_scope.

(** ** The client *)

(** The fields of [redis.Options] and [redis.SetArgs] the code sets. *)
Record Options := mkOptions {
  Addr : string; Password : string; DB : Z;
  DialTimeout : Z; ReadTimeout : Z; WriteTimeout : Z;
  PoolSize : Z; MinIdleConns : Z;
}.

Record SetArgs := mkSetArgs { Mode : string; TTL : Z }.

Class RedisClient (R : Type) := {
  redis_Nil : error;
  redis_NewClient : Options -> R;
  (** [client.SetArgs(ctx, key, value, args).Err()] *)
  redis_SetArgs : context -> string -> Z -> SetArgs -> R -> clock -> option error * R * clock;
  redis_Ping : context -> R -> clock -> option error * R * clock;
  redis_Close : R -> clock -> option error * R * clock;
}.

(** The replies to [SET key value NX] with a time to live, taking effect at
    [now] on the server's records. A call that fails may have taken effect. *)
Inductive set_nx_reply (nil : error) (slack now ttl : Z) (key : string) (m : gmap string Z) :
    option error -> gmap string Z -> Prop :=
  | reply_ok m' :
      free now m key -> recorded slack now ttl key m m' -> set_nx_reply nil slack now ttl key m None m'
  | reply_nil e d m' :
      errors_is e nil = true -> m !! key = Some d -> now <= d -> m' !! key = Some d -> evolves now m m' ->
      set_nx_reply nil slack now ttl key m (Some e) m'
  | reply_failed e m' :
      errors_is e nil = false -> evolves now m m' -> set_nx_reply nil slack now ttl key m (Some e) m'
  | reply_failed_recorded e m' :
      errors_is e nil = false -> free now m key -> recorded slack now ttl key m m' ->
      set_nx_reply nil slack now ttl key m (Some e) m'.

(** [slack] covers the millisecond resolution of [PX] and the difference between
    the clocks of server and service. *)
Class RedisLaws (R : Type) `{!RedisClient R} (keys : R -> gmap string Z) (slack : Z) : Prop := {
  law_SetArgs ctx key v ttl r clk reply r' clk' :
    0 < ttl -> monotone clk ->
    redis_SetArgs ctx key v (mkSetArgs "NX" ttl) r clk = (reply, r', clk') ->
    later clk clk' /\
    exists now, now_of clk <= now <= now_of clk' /\
      set_nx_reply redis_Nil slack now ttl key (keys r) reply (keys r');
  law_redis_Ping ctx r clk reply r' clk' :
    monotone clk -> redis_Ping ctx r clk = (reply, r', clk') ->
    later clk clk' /\ evolves (now_of clk') (keys r) (keys r');
}.

(** ** The store *)

Section RedisStore.
Context {R : Type} `{!RedisClient R}.

Record RedisStore := mkRedisStore { client : R }.

Definition redis_options (cfg : Config) : Options :=
  mkOptions (RedisAddr cfg) (RedisPassword cfg) (RedisDB cfg)
    (RedisDialTimeout cfg) (RedisReadTimeout cfg) (RedisWriteTimeout cfg)
    (RedisPoolSize cfg) (RedisMinIdle cfg).

(** The client's last state is returned beside the result: on a failed ping it
    is the one that was closed. *)
Definition NewRedis (cfg : Config) (clk : clock) : res RedisStore * R * clock :=
  let client := redis_NewClient (redis_options cfg) in
  let '(ctx, clk) := context_WithTimeout context_Background (RedisDialTimeout cfg) clk in
  let '(err, client, clk) := redis_Ping ctx client clk in
  match err with
  | Some err =>
      let '(_, client, clk) := redis_Close client clk in
      (Err (ErrWrap "redis ping" err), client, clk)
  | None => (Ok (mkRedisStore client), client, clk)
  end.

Definition redis_IsDuplicate (ctx : context) (key : string) (ttl : Z) (s : RedisStore) (clk : clock)
  : (bool * option error) * RedisStore * clock :=
  let '(err, c, clk) := redis_SetArgs ctx key 1 (mkSetArgs "NX" ttl) (client s) clk in
  let s := mkRedisStore c in
  match err with
  | Some err =>
      if errors_is err redis_Nil
      then ((true, None), s, clk)                           (* the key already existed *)
      else ((false, Some (ErrWrap2 ErrUnavailable err)), s, clk)
  | None => ((false, None), s, clk)                         (* "OK": the key was created *)
  end.

Definition redis_store_Ping (ctx : context) (s : RedisStore) (clk : clock)
  : option error * RedisStore * clock :=
  let '(err, c, clk) := redis_Ping ctx (client s) clk in
  (match err with Some err => Some (ErrWrap2 ErrUnavailable err) | None => None end,
   mkRedisStore c, clk).

Definition redis_store_Close (s : RedisStore) (clk : clock) : option error * RedisStore * clock :=
  let '(err, c, clk) := redis_Close (client s) clk in (err, mkRedisStore c, clk).

#[global] Instance redis_store : Store RedisStore := {|
  IsDuplicate := redis_IsDuplicate; Ping := redis_store_Ping; Close := redis_store_Close |}.
End RedisStore.
Arguments RedisStore R : clear implicits.

Section Facts.
Context {R : Type} `{!RedisClient R}.

(** The abstract state of a RedisStore is the server's. *)
Definition redis_deadlines (keys : R -> gmap string Z) (s : RedisStore R) : gmap string Z := keys (client s).

(** Every reply of the server is one outcome of the interface contract. *)
Lemma reply_outcome slack now ttl key m reply m' r :
  set_nx_reply redis_Nil slack now ttl key m reply m' ->
  r = match reply with
      | Some e => if errors_is e redis_Nil then (true, None) else (false, Some (ErrWrap2 ErrUnavailable e))
      | None => (false, None)
      end ->
  outcome slack now ttl key m r m'.
Proof.
  intros [m1 ?? | e d m1 Hn ??? | e m1 Hn ? | e m1 Hn ??] ->; rewrite ?Hn.
  - by apply outcome_new.
  - by eapply outcome_duplicate.
  - by apply outcome_error.
  - by apply outcome_error_recorded.
Qed.

#[global] Instance redis_store_laws (keys : R -> gmap string Z) slack `{L : !RedisLaws R keys slack} :
  StoreLaws (RedisStore R) (redis_deadlines keys) slack.
Proof.
  split.
  - intros ctx key ttl s clk r s' clk' Ht Hm E. simpl in E. unfold redis_IsDuplicate in E.
    destruct (redis_SetArgs ctx key 1 _ (client s) clk) as [[reply c] clk1] eqn:Es.
    destruct (law_SetArgs _ _ _ _ _ _ _ _ _ Ht Hm Es) as (Hl & now & Hn & Hr).
    assert (E' : (match reply with
      | Some e => if errors_is e redis_Nil then (true, None) else (false, Some (ErrWrap2 ErrUnavailable e))
      | None => (false, None) end, mkRedisStore c, clk1) = (r, s', clk')).
    { rewrite <-E. destruct reply as [e|]; [|done]. by destruct (errors_is e redis_Nil). }
    injection E' as Hres <- <-. split; [done|]. exists now. split; [done|].
    by eapply reply_outcome.
  - intros ctx s clk r s' clk' Hm E. simpl in E. unfold redis_store_Ping in E.
    destruct (redis_Ping ctx (client s) clk) as [[reply c] clk1] eqn:Es. injection E as _ <- <-.
    exact (law_redis_Ping _ _ _ _ _ _ Hm Es).
Qed.

(** C15: the RedisStore's translation of every reply, whatever the client library
    does: the command is [SET key 1 NX] with the window as time to live; success
    means new, the nil reply (also wrapped) means duplicate without an error, and
    any other error is reported as [ErrUnavailable] joined with the cause, which
    callers still find with [errors.Is]. *)
Theorem redis_IsDuplicate_replies ctx key ttl (s : RedisStore R) clk :
  let call := redis_SetArgs ctx key 1 (mkSetArgs "NX" ttl) (client s) clk in
  let res := IsDuplicate ctx key ttl s clk in
  client (snd (fst res)) = snd (fst call) /\ snd res = snd call /\
  (fst (fst call) = None -> fst (fst res) = (false, None)) /\
  (forall e, fst (fst call) = Some e ->
     (errors_is e redis_Nil = true -> fst (fst res) = (true, None)) /\
     (errors_is e redis_Nil = false ->
        exists err, fst (fst res) = (false, Some err) /\ errors_is err ErrUnavailable = true /\
          errors_is err e = true)).
Proof.
  cbv zeta. unfold IsDuplicate, redis_store, redis_IsDuplicate.
  destruct (redis_SetArgs ctx key 1 _ (client s) clk) as [[[e|] c] clk1]; simpl.
  - destruct (errors_is e redis_Nil) eqn:En; simpl; split_and!; try done; intros e' [= <-]; split; try congruence.
    intros _. eexists. split; [done|]. simpl. split; [reflexivity|].
    rewrite errors_is_refl, !orb_true_r. done.
  - split_and!; done.
Qed.

(** C14: over a client with the documented semantics of [SET NX], the RedisStore
    implements the interface contract: each call is one atomic outcome on the
    server's records at an instant of the call, and [Ping] disturbs nothing. *)
Theorem redis_store_refines (keys : R -> gmap string Z) slack :
  RedisLaws R keys slack -> StoreLaws (RedisStore R) (redis_deadlines keys) slack.
Proof. intros L. exact (redis_store_laws keys slack). Qed.

(** [NewRedis] configures the client from the configuration, pings it with
    the dial timeout as deadline, and either returns a store on that client or
    an error that wraps the cause, in which case the client has been closed. *)
Theorem NewRedis_cases cfg clk :
  let clk1 := snd (time_Now clk) in
  let ping := redis_Ping (Some (now_of clk + RedisDialTimeout cfg)) (redis_NewClient (redis_options cfg)) clk1 in
  match fst (fst ping) with
  | None => NewRedis cfg clk = (Ok (mkRedisStore (snd (fst ping))), snd (fst ping), snd ping)
  | Some e =>
      exists err, fst (fst (NewRedis cfg clk)) = Err err /\ errors_is err e = true /\
        snd (fst (NewRedis cfg clk)) = snd (fst (redis_Close (snd (fst ping)) (snd ping)))
  end.
Proof.
  cbv zeta. unfold NewRedis, context_WithTimeout, context_Background. simpl.
  fold (now_of clk).
  destruct (redis_Ping _ _ _) as [[[e|] c] clk1]; simpl; [|done].
  destruct (redis_Close c clk1) as [[err c'] clk2]. simpl.
  eexists. split; [done|]. split; [|done]. by apply errors_is_wrap, errors_is_refl.
Qed.
End Facts.

(** ** Witnesses: a server that is one map, reachable or not *)

Record fake_redis := FakeRedis { fr_keys : gmap string Z; fr_up : bool; fr_closed : bool }.

#[export] Instance fake_client : RedisClient fake_redis := {|
  redis_Nil := ErrNew "redis.Nil" "redis: nil";
  redis_NewClient o := FakeRedis ∅ (bool_decide (Addr o = "localhost:6379"%string)) false;
  redis_SetArgs _ key _ args r clk :=
    if fr_up r then
      let '(now, clk) := time_Now clk in
      match fr_keys r !! key with
      | Some d => if now <=? d then (Some (ErrNew "redis.Nil" "redis: nil"), r, clk)
                  else (None, FakeRedis (<[key := now + TTL args]> (fr_keys r)) true (fr_closed r), clk)
      | None => (None, FakeRedis (<[key := now + TTL args]> (fr_keys r)) true (fr_closed r), clk)
      end
    else (Some (ErrNew "net" "connection refused"), r, clk);
  redis_Ping _ r clk := (if fr_up r then None else Some (ErrNew "net" "connection refused"), r, clk);
  redis_Close r clk := (None, FakeRedis (fr_keys r) (fr_up r) true, clk);
|}.

#[export] Instance fake_laws : RedisLaws fake_redis fr_keys 0.
Proof.
  split.
  - intros ctx key v ttl [m up closed] clk reply r' clk' _ Hm. simpl. unfold time_Now.
    assert (Hl : later clk (snd (time_Now clk))) by apply later_now.
    assert (Hn : now_of clk <= now_of clk <= now_of (snd (time_Now clk))).
    { split; [lia|]. eauto with gotime. }
    destruct up; [|intros [= <- <- <-]; split; [reflexivity|]; exists (now_of clk); split; [lia|];
      by apply reply_failed].
    destruct (m !! key) as [d|] eqn:E; [destruct (Z.leb_spec (ticks clk (pos clk)) d)|];
      intros [= <- <- <-]; (split; [done|]); exists (now_of clk); (split; [done|]); simpl.
    + by eapply reply_nil.
    + apply reply_ok; [|apply recorded_insert]. intros d'. rewrite E. intros [= <-]. unfold now_of. lia.
    + apply reply_ok; [|apply recorded_insert]. intros d'. by rewrite E.
  - intros ctx r clk reply r' clk' Hm [= _ <- <-]. split; reflexivity.
Qed.

Definition w_keys : gmap string Z := {["k" := 50]}.

Lemma redis_IsDuplicate_replies_witness :
  let up := mkRedisStore (FakeRedis w_keys true false) in
  let down := mkRedisStore (FakeRedis w_keys false false) in
  fst (fst (IsDuplicate context_Background "k" 10 up (clock_of [50]))) = (true, None) /\
  fst (fst (IsDuplicate context_Background "j" 10 up (clock_of [50]))) = (false, None) /\
  exists err, fst (fst (IsDuplicate context_Background "k" 10 down (clock_of [50]))) = (false, Some err)
    /\ errors_is err ErrUnavailable = true.
Proof.
  cbv zeta. split_and!.
  - exact (proj1 (proj2 (proj2 (proj2 (redis_IsDuplicate_replies (R:=fake_redis) (RedisClient0:=fake_client) context_Background "k" 10
      (mkRedisStore (FakeRedis w_keys true false)) (clock_of [50])))) (ErrNew "redis.Nil" "redis: nil") ltac:(vm_compute; reflexivity)) ltac:(vm_compute; reflexivity)).
  - exact (proj1 (proj2 (proj2 (redis_IsDuplicate_replies (R:=fake_redis) (RedisClient0:=fake_client) context_Background "j" 10
      (mkRedisStore (FakeRedis w_keys true false)) (clock_of [50])))) eq_refl).
  - destruct (proj2 (proj2 (proj2 (proj2 (redis_IsDuplicate_replies (R:=fake_redis) (RedisClient0:=fake_client) context_Background "k" 10
      (mkRedisStore (FakeRedis w_keys false false)) (clock_of [50]))))
      (ErrNew "net" "connection refused") ltac:(vm_compute; reflexivity)) ltac:(vm_compute; reflexivity))
      as (err & E & Hu & _). by exists err.
Defined.

Lemma redis_store_refines_witness :
  StoreLaws (RedisStore fake_redis) (redis_deadlines fr_keys) 0 /\
  exists r s' clk', IsDuplicate context_Background "k" 10 (mkRedisStore (FakeRedis ∅ true false)) (clock_of [50])
    = (r, s', clk') /\ exists now, outcome 0 now 10 "k" ∅ r (redis_deadlines fr_keys s').
Proof.
  pose proof (redis_store_refines fr_keys 0 fake_laws) as L. split; [exact L|].
  destruct (IsDuplicate context_Background "k" 10 (mkRedisStore (FakeRedis ∅ true false)) (clock_of [50]))
    as [[r s'] clk'] eqn:E.
  exists r, s', clk'. split; [reflexivity|].
  destruct (@law_IsDuplicate _ _ _ _ L context_Background "k" 10 _ (clock_of [50]) _ _ _ ltac:(lia)
    ltac:(intros i j _; simpl; destruct i as [|[|]], j as [|[|]]; vm_compute; discriminate) E)
    as (_ & now & _ & Ho).
  exists now. exact Ho.
Defined.
