(* ===== verification/Gin.v ===== *)
(** * Gin: the interface to the HTTP framework

    What a handler reads of its request is a record, what it asks of the
    framework is a trace of calls, and what it reads back of its own calls (the
    status, a context key) is the parameter [Gin] with the laws [GinLaws].  A
    handler is a computation that threads the world of one request (trace,
    metrics, logs, store, hasher pool, clock, random source) and may panic. *)

From S2P Require Import Prelude GoJSON GoTime Fingerprint Metrics.

(** ** What a handler asks of the framework *)

Inductive gin_call :=
  | CHeader (key value : string)                         (** [c.Header] *)
  | CStatus (code : Z)                                   (** [c.Status] *)
  | CData (code : Z) (contentType : string) (data : bytes)
  | CJSON (code : Z) (obj : json)
  | CAbortWithStatusJSON (code : Z) (obj : json)
  | CSet (key value : string).                           (** [c.Set] *)

(** The status a call asks for, and whether it sends the response off. *)
Definition call_status (c : gin_call) : option Z :=
  match c with
  | CStatus code | CData code _ _ | CJSON code _ | CAbortWithStatusJSON code _ => Some code
  | CHeader _ _ | CSet _ _ => None
  end.
Definition sends (c : gin_call) : bool :=
  match c with CData _ _ _ | CJSON _ _ | CAbortWithStatusJSON _ _ => true | _ => false end.
Definition sent (tr : list gin_call) : bool := existsb sends tr.

(** [c.Writer.Status()] and [c.GetString(key)], given the status the framework
    started the request with and the calls made so far. *)
Class Gin := {
  Writer_Status : Z -> list gin_call -> Z;
  ctx_GetString : list gin_call -> string -> string;
}.

Class GinLaws `{!Gin} : Prop := {
  law_status_start init : Writer_Status init [] = init;
  law_status_keep init tr c :
    call_status c = None -> Writer_Status init (tr ++ [c]) = Writer_Status init tr;
  law_status_set init tr c code :
    call_status c = Some code -> (0 < code)%Z -> sent tr = false -> Writer_Status init (tr ++ [c]) = code;
  law_GetString_set tr k v : ctx_GetString (tr ++ [CSet k v]) k = v;
  law_GetString_keep tr c k :
    (forall v, c <> CSet k v) -> ctx_GetString (tr ++ [c]) k = ctx_GetString tr k;
}.

(** ** What a handler reads of its request *)

Record gin_request := GinRequest {
  q_http : http_request;             (** method, RequestURI, body *)
  q_Path : string;                   (** [c.Request.URL.Path] *)
  q_TLS : bool;                      (** [c.Request.TLS != nil] *)
  q_GetHeader : string -> string;    (** [c.GetHeader] *)
  q_FullPath : string;               (** [c.FullPath()]: the matched route, or empty *)
  q_ClientIP : string;
  q_UserAgent : string;
  q_Context : context;               (** [c.Request.Context()] *)
  q_status : Z;                      (** 404 when no route matched, else 200 *)
}.

(** ** Logs *)

Inductive level := DebugLevel | InfoLevel | WarnLevel | ErrorLevel.
Inductive log_value := LStr (s : string) | LInt (n : Z) | LBool (b : bool) | LStrs (l : list string) | LErr (e : error)
  | LAny (v : string).              (** a recovered panic value *)
Record log_event := LogEvent { l_level : level; l_fields : list (string * log_value); l_msg : string }.

#[global] Instance level_eq_dec : EqDecision level.
Proof. solve_decision. Defined.

(** ** The world of a request *)

Record world (S D : Type) := World {
  w_calls : list gin_call;
  w_metrics : list metric_event;
  w_logs : list log_event;
  w_store : S;
  w_pool : list D;
  w_clock : clock;
  w_rand : nat -> Byte.byte;         (** the bytes [crypto/rand] will give *)
  w_rand_pos : nat;
}.
Arguments World {S D}. Arguments w_calls {S D}. Arguments w_metrics {S D}. Arguments w_logs {S D}.
Arguments w_store {S D}. Arguments w_pool {S D}. Arguments w_clock {S D}. Arguments w_rand {S D}.
Arguments w_rand_pos {S D}.

Inductive outcome_of (A : Type) := Returned (a : A) | Panicked (v : string).
Arguments Returned {A} a. Arguments Panicked {A} v.

Definition prog (S D A : Type) : Type := world S D -> outcome_of A * world S D.

Section Prog.
Context {S D : Type}.
Abbreviation P := (prog S D).
Abbreviation W := (world S D).

Definition ret {A} (a : A) : P A := fun w => (Returned a, w).
(** a panic unwinds past everything that follows *)
Definition bind {A B} (m : P A) (k : A -> P B) : P B := fun w =>
  match m w with
  | (Returned a, w) => k a w
  | (Panicked v, w) => (Panicked v, w)
  end.
Definition panic {A} (v : string) : P A := fun w => (Panicked v, w).

Definition call (c : gin_call) : P () := fun w =>
  (Returned (), World (w_calls w ++ [c]) (w_metrics w) (w_logs w) (w_store w) (w_pool w) (w_clock w)
                  (w_rand w) (w_rand_pos w)).
Definition metric (e : metric_event) : P () := fun w =>
  (Returned (), World (w_calls w) (w_metrics w ++ [e]) (w_logs w) (w_store w) (w_pool w) (w_clock w)
                  (w_rand w) (w_rand_pos w)).
Definition log (l : level) (fields : list (string * log_value)) (msg : string) : P () := fun w =>
  (Returned (), World (w_calls w) (w_metrics w) (w_logs w ++ [LogEvent l fields msg]) (w_store w) (w_pool w)
                  (w_clock w) (w_rand w) (w_rand_pos w)).
(** a call that reads and advances the clock, or uses the store or the pool *)
Definition with_clock {A} (f : clock -> A * clock) : P A := fun w =>
  let '(a, clk) := f (w_clock w) in
  (Returned a, World (w_calls w) (w_metrics w) (w_logs w) (w_store w) (w_pool w) clk (w_rand w) (w_rand_pos w)).
Definition with_store {A} (f : S -> clock -> A * S * clock) : P A := fun w =>
  let '(a, s, clk) := f (w_store w) (w_clock w) in
  (Returned a, World (w_calls w) (w_metrics w) (w_logs w) s (w_pool w) clk (w_rand w) (w_rand_pos w)).
Definition with_pool {A} (f : list D -> A * list D) : P A := fun w =>
  let '(a, p) := f (w_pool w) in
  (Returned a, World (w_calls w) (w_metrics w) (w_logs w) (w_store w) p (w_clock w) (w_rand w) (w_rand_pos w)).
(** [rand.Read] into a buffer of [n] bytes *)
Definition rand_Read (n : nat) : P bytes := fun w =>
  (Returned (map (w_rand w) (seq (w_rand_pos w) n)),
   World (w_calls w) (w_metrics w) (w_logs w) (w_store w) (w_pool w) (w_clock w) (w_rand w) (w_rand_pos w + n)).
Definition asks {A} (f : W -> A) : P A := fun w => (Returned (f w), w).

(** [defer func() { if rec := recover(); rec != nil { handle rec } }()] around
    [body]: a panic of [body] ends there and [handle] runs in its place. *)
Definition recovering (body : P ()) (handle : string -> P ()) : P () := fun w =>
  match body w with
  | (Returned _, w) => (Returned (), w)
  | (Panicked v, w) => handle v w
  end.
End Prog.

Notation "'do' x '<-' e ';' k" := (bind e (fun x => k))
  (at level 100, x pattern, e at level 100, k at level 200, right associativity) : go_scope.
Notation "e ';;' k" := (bind e (fun _ => k)) (at level 100, right associativity) : go_scope.

(** ** Running a handler step by step *)

Section Runs.
Context {S D : Type}.

Definition runs {A} (m : prog S D A) (w : world S D) (a : A) (w' : world S D) : Prop := m w = (Returned a, w').

Lemma runs_bind {A B} (m : prog S D A) (k : A -> prog S D B) w a w1 b w2 :
  runs m w a w1 -> runs (k a) w1 b w2 -> runs (bind m k) w b w2.
Proof. unfold runs, bind. by intros ->. Qed.

Lemma runs_ret {A} (a : A) w : runs (ret a) w a w.
Proof. done. Qed.
Lemma runs_call c w :
  runs (call c) w () (World (w_calls w ++ [c]) (w_metrics w) (w_logs w) (w_store w) (w_pool w) (w_clock w)
                        (w_rand w) (w_rand_pos w)).
Proof. done. Qed.
Lemma runs_metric e w :
  runs (metric e) w () (World (w_calls w) (w_metrics w ++ [e]) (w_logs w) (w_store w) (w_pool w) (w_clock w)
                          (w_rand w) (w_rand_pos w)).
Proof. done. Qed.
Lemma runs_log l fs msg w :
  runs (log l fs msg) w () (World (w_calls w) (w_metrics w) (w_logs w ++ [LogEvent l fs msg]) (w_store w)
                              (w_pool w) (w_clock w) (w_rand w) (w_rand_pos w)).
Proof. done. Qed.
Lemma runs_with_clock {A} (f : clock -> A * clock) w :
  runs (with_clock f) w (fst (f (w_clock w)))
    (World (w_calls w) (w_metrics w) (w_logs w) (w_store w) (w_pool w) (snd (f (w_clock w)))
       (w_rand w) (w_rand_pos w)).
Proof. unfold runs, with_clock. by destruct (f (w_clock w)). Qed.
Lemma runs_with_store {A} (f : S -> clock -> A * S * clock) w :
  runs (with_store f) w (fst (fst (f (w_store w) (w_clock w))))
    (World (w_calls w) (w_metrics w) (w_logs w) (snd (fst (f (w_store w) (w_clock w)))) (w_pool w)
       (snd (f (w_store w) (w_clock w))) (w_rand w) (w_rand_pos w)).
Proof. unfold runs, with_store. by destruct (f (w_store w) (w_clock w)) as [[a s] clk]. Qed.
Lemma runs_with_pool {A} (f : list D -> A * list D) w :
  runs (with_pool f) w (fst (f (w_pool w)))
    (World (w_calls w) (w_metrics w) (w_logs w) (w_store w) (snd (f (w_pool w))) (w_clock w)
       (w_rand w) (w_rand_pos w)).
Proof. unfold runs, with_pool. by destruct (f (w_pool w)). Qed.
Lemma runs_rand_Read n w :
  runs (rand_Read n) w (map (w_rand w) (seq (w_rand_pos w) n))
    (World (w_calls w) (w_metrics w) (w_logs w) (w_store w) (w_pool w) (w_clock w) (w_rand w) (w_rand_pos w + n)).
Proof. done. Qed.
Lemma runs_asks {A} (f : world S D -> A) w : runs (asks f) w (f w) w.
Proof. done. Qed.
End Runs.

Create HintDb runs.
#[export] Hint Resolve runs_ret runs_call runs_metric runs_log runs_with_clock runs_with_store runs_with_pool
  runs_rand_Read runs_asks : runs.

(** One statement of a program, and all of a straight-line program. *)
Ltac run_step :=
  eapply runs_bind; [solve [eauto with runs]|];
  cbn beta iota; cbn [w_calls w_metrics w_logs w_store w_pool w_clock w_rand w_rand_pos].
Ltac run_all := repeat run_step; solve [eauto with runs].

(** ** Traces of calls *)

Section Traces.
Context {G : Gin} {L : GinLaws}.

(** Headers and context keys leave the status alone. *)
Lemma status_keeps init tr cs :
  Forall (fun c => call_status c = None) cs -> Writer_Status init (tr ++ cs) = Writer_Status init tr.
Proof.
  intros Hcs. revert tr. induction Hcs as [|c cs Hc _ IH]; intros tr; [by rewrite app_nil_r|].
  replace (tr ++ c :: cs) with ((tr ++ [c]) ++ cs) by (by rewrite <-app_assoc).
  rewrite IH. by apply law_status_keep.
Qed.

Lemma sent_app t1 t2 : sent (t1 ++ t2) = sent t1 || sent t2.
Proof. apply existsb_app. Qed.

(** A context key set once is what [GetString] gives until it is set again. *)
Lemma GetString_keeps tr cs k :
  Forall (fun c => forall v, c <> CSet k v) cs -> ctx_GetString (tr ++ cs) k = ctx_GetString tr k.
Proof.
  intros Hcs. revert tr. induction Hcs as [|c cs Hc _ IH]; intros tr; [by rewrite app_nil_r|].
  replace (tr ++ c :: cs) with ((tr ++ [c]) ++ cs) by (by rewrite <-app_assoc).
  rewrite IH. by apply law_GetString_keep.
Qed.
End Traces.

(** ** A framework for examples: the laws read off as a definition *)

Definition status_step (st : Z * bool) (c : gin_call) : Z * bool :=
  (match call_status c with Some code => if snd st then fst st else code | None => fst st end,
   (snd st || sends c)%bool).
Definition fold_status (init : Z) (tr : list gin_call) : Z := fst (foldl status_step (init, false) tr).

#[export] Instance fold_gin : Gin := {|
  Writer_Status := fold_status;
  ctx_GetString tr k :=
    foldl (fun v c => match c with CSet k' v' => if decide (k' = k) then v' else v | _ => v end) EmptyString tr;
|}.

Lemma fold_status_sent init tr :
  snd (foldl status_step (init, false) tr) = sent tr.
Proof.
  induction tr as [|c tr IH] using rev_ind; [done|].
  rewrite foldl_app, sent_app, <-IH. simpl. by rewrite orb_false_r.
Qed.

#[export] Instance fold_gin_laws : GinLaws.
Proof.
  split; simpl; unfold fold_status; intros.
  - done.
  - rewrite foldl_app. simpl. by rewrite H.
  - rewrite foldl_app. simpl. by rewrite H, fold_status_sent, H1.
  - rewrite foldl_app. simpl. by rewrite decide_True.
  - rewrite foldl_app. simpl. destruct c; try done. case_decide; [subst; by edestruct H|done].
Qed.
