(* ===== verification/Handler.v ===== *)
(** * Handler: internal/handler/xaccel.go and internal/handler/health.go

    The X-Accel-Redirect handler, which decides about every request that is not
    routed elsewhere, and the health check, as programs over the world of [Gin].
    The store behind them is any [Store]; the theorems use its contract. *)

From S2P Require Import Prelude Sha256 GoTime GoStrings GoJSON Fingerprint Store Metrics CachedStore Config Gin.

Local Open Scope go_scope.
Local Open Scope Z_scope.

(** ** Pre-serialised JSON *)

(** JSON text written with single quotes. *)
Definition json_text (s : string) : bytes :=
  map (fun b => if decide (b = x27) then x22 else b) (bytes_of s).

Definition jsonContentType : string := "application/json; charset=utf-8".
Definition duplicateJSON : bytes := json_text
  "{'error':'duplicate_request','details':'an identical request was received within the deduplication window'}".
Definition storeErrJSON : bytes := json_text
  "{'error':'store_unavailable','details':'deduplication store is unreachable; request rejected (fail-closed mode)'}".
Definition healthOKJSON : bytes := json_text "{'status':'ok'}".

(** The members [encoding/json] writes for an [errorBody] ([omitempty]). *)
Record errorBody := mkErrorBody { eb_Error : string; eb_Details : string }.
Definition errorBody_json (e : errorBody) : json :=
  JStruct (("error", JString (eb_Error e)) ::
    (if decide (eb_Details e = EmptyString) then [] else [("details", JString (eb_Details e))])).

(** The [gin.H] of the healthy answer, in the order of the literal. *)
Definition health_json (size : Z) : json := JMap [("status", JString "ok"); ("cache_size", JInt size)].

Definition StatusOK : Z := 200.
Definition StatusConflict : Z := 409.
Definition StatusInternalServerError : Z := 500.
Definition StatusServiceUnavailable : Z := 503.

(** ** The handlers *)

(** The type assertion [h.store.( *store.CachedStore)] and [CacheLen] on success. *)
Class DynamicStore (S : Type) := cached_len : S -> option Z.

#[export] Instance memory_dynamic : DynamicStore MemoryStore := fun _ => None.
#[export] Instance cached_dynamic {B} : DynamicStore (CachedStore B) := fun s => Some (CacheLen s).

Record XAccelDedupHandler := mkXAccelDedupHandler { h_cfg : Config; h_redirectPrefix : string }.

Definition NewXAccelDedup (cfg : Config) (redirectPrefix : string) : XAccelDedupHandler :=
  mkXAccelDedupHandler cfg redirectPrefix.

Section Handlers.
Context {U : UnicodeTables} {D : Type} `{!Hash D} {S : Type} `{!Store S}.

Definition allow (h : XAccelDedupHandler) (q : gin_request) : prog S D () :=
  call (CHeader "X-Accel-Redirect" (h_redirectPrefix h +:+ r_RequestURI (q_http q))) ;;
  call (CHeader "Content-Length" "0") ;;
  call (CStatus StatusOK).

Definition handleStoreErr (h : XAccelDedupHandler) (q : gin_request) : prog S D () :=
  if FailOpen (h_cfg h) then allow h q
  else call (CData StatusInternalServerError jsonContentType storeErrJSON).

(** [pick] is the hasher the pool hands out. *)
Definition Handle (h : XAccelDedupHandler) (pick : nat) (q : gin_request) : prog S D () :=
  let r := q_http q in
  if IsMethodExcluded (h_cfg h) (r_Method r) then
    metric (Inc DedupChecksTotal ["excluded"]) ;;
    allow h q
  else
    let body := match r_Body r with Some body => body | None => [] end in
    do (key, bodyLen, err) <- with_pool (StreamingRedisKey pick (r_Method r) (r_RequestURI r) body);
    match err with
    | Some err =>
        log ErrorLevel [("error", LErr err)] "failed to read or hash request body" ;;
        metric (Inc DedupChecksTotal ["error"]) ;;
        handleStoreErr h q
    | None =>
        log DebugLevel [("key", LStr key); ("method", LStr (r_Method r)); ("uri", LStr (r_RequestURI r));
                        ("body_bytes", LInt bodyLen)] "xaccel dedup check" ;;
        do storeCtx <-
          (if 0 <? StoreTimeout (h_cfg h)
           then with_clock (context_WithTimeout (q_Context q) (StoreTimeout (h_cfg h)))
           else ret (q_Context q));
        do t0 <- with_clock time_Now;
        do (isDuplicate, err) <- with_store (IsDuplicate storeCtx key (DedupWindow (h_cfg h)));
        do t1 <- with_clock time_Now;
        metric (Observe StoreLatency ["is_duplicate"] (t1 - t0)) ;;
        match err with
        | Some err =>
            (if errors_is err ErrUnavailable
             then log WarnLevel [("error", LErr err); ("fail_open", LBool (FailOpen (h_cfg h)))] "store unavailable"
             else log ErrorLevel [("error", LErr err)] "store error") ;;
            metric (Inc DedupChecksTotal ["error"]) ;;
            handleStoreErr h q
        | None =>
            if isDuplicate : bool then
              log DebugLevel [("key", LStr key); ("method", LStr (r_Method r)); ("uri", LStr (r_RequestURI r))]
                "duplicate request blocked" ;;
              metric (Inc DedupChecksTotal ["duplicate"]) ;;
              call (CData StatusConflict jsonContentType duplicateJSON)
            else
              log DebugLevel [("key", LStr key)] "request allowed — X-Accel-Redirect to upstream" ;;
              metric (Inc DedupChecksTotal ["allowed"]) ;;
              allow h q
        end
    end.

Context `{!DynamicStore S}.

(** [(h *HealthHandler) Handle] *)
Definition health_Handle (q : gin_request) : prog S D () :=
  do err <- with_store (Ping (q_Context q));
  match err with
  | Some err =>
      log WarnLevel [("error", LErr err)] "health check: store ping failed" ;;
      call (CJSON StatusServiceUnavailable
              (errorBody_json (mkErrorBody "store_unavailable" (error_text err))))
  | None =>
      do cs <- asks (fun w => cached_len (w_store w));
      match cs with
      | Some size => call (CJSON StatusOK (health_json size))
      | None => call (CData StatusOK jsonContentType healthOKJSON)
      end
  end.
End Handlers.

(** ** What a request is answered *)

(** The four decisions, the label each counts under and the calls that answer. *)
Inductive decision := Excluded | Allowed | Duplicate | Failed.

#[global] Instance decision_eq_dec : EqDecision decision.
Proof. solve_decision. Defined.

Definition decision_label (d : decision) : string :=
  match d with Excluded => "excluded" | Allowed => "allowed" | Duplicate => "duplicate" | Failed => "error" end.

Definition redirect (h : XAccelDedupHandler) (q : gin_request) : list gin_call :=
  [CHeader "X-Accel-Redirect" (h_redirectPrefix h +:+ r_RequestURI (q_http q));
   CHeader "Content-Length" "0"; CStatus 200].

Definition answer (h : XAccelDedupHandler) (q : gin_request) (d : decision) : list gin_call :=
  match d with
  | Excluded | Allowed => redirect h q
  | Duplicate => [CData 409 jsonContentType duplicateJSON]
  | Failed => if FailOpen (h_cfg h) then redirect h q else [CData 500 jsonContentType storeErrJSON]
  end.

(** What the store's answer means. *)
Definition verdict_decision (r : bool * option error) : decision :=
  match r with (_, Some _) => Failed | (true, None) => Duplicate | (false, None) => Allowed end.

Section HandleFacts.
Context {U : UnicodeTables} {D : Type} `{!Hash D} {H : bytes -> bytes} `{!HashLaws D H} {S : Type} `{!Store S}.

Definition excluded (h : XAccelDedupHandler) (q : gin_request) : bool :=
  IsMethodExcluded (h_cfg h) (r_Method (q_http q)).

(** The body as the reader delivers it, and the key of the whole request. *)
Definition body_of (q : gin_request) : bytes * option error := content (default [] (r_Body (q_http q))).
Definition key_of (q : gin_request) : string :=
  key_spec H (mkRequest (r_Method (q_http q)) (r_RequestURI (q_http q)) (fst (body_of q))).

(** The one call of the store, with its deadline. *)
Definition store_call (h : XAccelDedupHandler) (q : gin_request) (s : S) (clk : clock)
  : (bool * option error) * S * clock :=
  let '(ctx, clk) := if 0 <? StoreTimeout (h_cfg h)
                     then context_WithTimeout (q_Context q) (StoreTimeout (h_cfg h)) clk
                     else (q_Context q, clk) in
  IsDuplicate ctx (key_of q) (DedupWindow (h_cfg h)) s (snd (time_Now clk)).

(** The decision, from the request and the state the store is in. *)
Definition decide_request (h : XAccelDedupHandler) (q : gin_request) (s : S) (clk : clock) : decision :=
  if excluded h q then Excluded
  else match snd (body_of q) with
       | Some _ => Failed
       | None => verdict_decision (fst (fst (store_call h q s clk)))
       end.

Definition reaches_store (h : XAccelDedupHandler) (q : gin_request) : bool :=
  negb (excluded h q) && (if snd (body_of q) is None then true else false).

(** The instant before the call of the store, the clock after the handler, and
    the latency that is observed. *)
Definition check_start (h : XAccelDedupHandler) (clk : clock) : Z :=
  now_of (if 0 <? StoreTimeout (h_cfg h) then snd (time_Now clk) else clk).
Definition handler_clock (h : XAccelDedupHandler) (q : gin_request) (s : S) (clk : clock) : clock :=
  if reaches_store h q then snd (time_Now (snd (store_call h q s clk))) else clk.
Definition handler_latency (h : XAccelDedupHandler) (q : gin_request) (s : S) (clk : clock) : list metric_event :=
  if reaches_store h q
  then [Observe StoreLatency ["is_duplicate"] (now_of (snd (store_call h q s clk)) - check_start h clk)]
  else [].

(** The log lines of the handler. *)
Definition verdict_log (h : XAccelDedupHandler) (q : gin_request) (r : bool * option error) : log_event :=
  match r with
  | (_, Some e) =>
      if errors_is e ErrUnavailable
      then LogEvent WarnLevel [("error", LErr e); ("fail_open", LBool (FailOpen (h_cfg h)))] "store unavailable"
      else LogEvent ErrorLevel [("error", LErr e)] "store error"
  | (true, None) =>
      LogEvent DebugLevel [("key", LStr (key_of q)); ("method", LStr (r_Method (q_http q)));
                           ("uri", LStr (r_RequestURI (q_http q)))] "duplicate request blocked"
  | (false, None) =>
      LogEvent DebugLevel [("key", LStr (key_of q))] "request allowed — X-Accel-Redirect to upstream"
  end.
Definition handler_logs (h : XAccelDedupHandler) (q : gin_request) (s : S) (clk : clock) : list log_event :=
  if excluded h q then []
  else match snd (body_of q) with
       | Some e => [LogEvent ErrorLevel [("error", LErr e)] "failed to read or hash request body"]
       | None =>
           [LogEvent DebugLevel [("key", LStr (key_of q)); ("method", LStr (r_Method (q_http q)));
              ("uri", LStr (r_RequestURI (q_http q)));
              ("body_bytes", LInt (i64 (Z.of_nat (length (fst (body_of q))))))] "xaccel dedup check";
            verdict_log h q (fst (fst (store_call h q s clk)))]
       end.

(** [w'] is [w] after the handler has answered [d]. *)
Record answered (h : XAccelDedupHandler) (q : gin_request) (d : decision) (lat : list metric_event)
    (logs : list log_event) (w w' : world S D) : Prop := {
  a_calls : w_calls w' = w_calls w ++ answer h q d;
  a_metrics : w_metrics w' = w_metrics w ++ lat ++ [Inc DedupChecksTotal [decision_label d]];
  a_logs : w_logs w' = w_logs w ++ logs;
  a_rand : w_rand w' = w_rand w /\ w_rand_pos w' = w_rand_pos w;
}.

Lemma runs_allow h q (w : world S D) :
  runs (allow h q) w () (World (w_calls w ++ redirect h q) (w_metrics w) (w_logs w) (w_store w) (w_pool w)
                           (w_clock w) (w_rand w) (w_rand_pos w)).
Proof. unfold runs, allow, bind, call. simpl. by rewrite <-!app_assoc. Qed.
Hint Resolve runs_allow : runs.

Lemma runs_handleStoreErr h q (w : world S D) :
  runs (handleStoreErr h q) w () (World (w_calls w ++ answer h q Failed) (w_metrics w) (w_logs w) (w_store w)
                                    (w_pool w) (w_clock w) (w_rand w) (w_rand_pos w)).
Proof. unfold handleStoreErr, answer. destruct (FailOpen (h_cfg h)); auto with runs. Qed.
Hint Resolve runs_handleStoreErr : runs.

Ltac answered_done :=
  split; cbn [w_calls w_metrics w_logs w_store w_pool w_clock w_rand w_rand_pos decision_label app];
  rewrite <-?app_assoc; eauto.

Lemma Handle_excluded h pick q (w : world S D) :
  excluded h q = true ->
  exists w', Handle h pick q w = (Returned (), w') /\ answered h q Excluded [] [] w w' /\
    w_store w' = w_store w /\ w_pool w' = w_pool w /\ w_clock w' = w_clock w /\ w_logs w' = w_logs w.
Proof.
  unfold excluded. intros He. unfold Handle. rewrite He. eexists. split; [run_all|].
  split; [|done]. answered_done. by rewrite app_nil_r.
Qed.

(** The hashing step, as its effect on the world. *)
Lemma runs_key pick q (w : world S D) :
  exists w1, runs (with_pool (StreamingRedisKey pick (r_Method (q_http q)) (r_RequestURI (q_http q))
      (match r_Body (q_http q) with Some b => b | None => [] end))) w
    (match snd (body_of q) with
     | Some _ => redisKeyPrefix +:+ string_of (zero_buf sha256HexLen)
     | None => key_of q
     end, i64 (Z.of_nat (length (fst (body_of q)))), snd (body_of q)) w1 /\
    exists p, w1 = World (w_calls w) (w_metrics w) (w_logs w) (w_store w) p (w_clock w) (w_rand w) (w_rand_pos w).
Proof.
  replace (match r_Body (q_http q) with Some b => b | None => [] end)
    with (default [] (r_Body (q_http q))) by (by destruct (r_Body (q_http q))).
  eexists. split; [|by eexists]. unfold key_of, body_of.
  rewrite <-(fst_StreamingRedisKey (H:=H) pick (r_Method (q_http q)) (r_RequestURI (q_http q))
    (default [] (r_Body (q_http q))) (w_pool w)).
  apply runs_with_pool.
Qed.

(** A body that cannot be read is answered like a failure of the store, which
    is not asked. *)
Lemma Handle_unreadable h pick q (w : world S D) e :
  excluded h q = false -> snd (body_of q) = Some e ->
  exists w', Handle h pick q w = (Returned (), w') /\ answered h q Failed []
      [LogEvent ErrorLevel [("error", LErr e)] "failed to read or hash request body"] w w' /\
    w_store w' = w_store w /\ w_clock w' = w_clock w.
Proof.
  unfold excluded. intros He Hb. unfold Handle. rewrite He.
  destruct (runs_key pick q w) as (w1 & Hk & p & ->). rewrite Hb in Hk.
  eexists. split; [eapply runs_bind; [exact Hk|]; cbn beta iota; run_all|].
  split; [|done]. answered_done.
Qed.

(** Any other request is one call of the store. *)
Lemma Handle_checked h pick q (w : world S D) :
  excluded h q = false -> snd (body_of q) = None ->
  let r := store_call h q (w_store w) (w_clock w) in
  exists w', Handle h pick q w = (Returned (), w') /\
    answered h q (verdict_decision (fst (fst r)))
      [Observe StoreLatency ["is_duplicate"] (now_of (snd r) - check_start h (w_clock w))]
      (handler_logs h q (w_store w) (w_clock w)) w w' /\
    w_store w' = snd (fst (store_call h q (w_store w) (w_clock w))) /\
    w_clock w' = snd (time_Now (snd (store_call h q (w_store w) (w_clock w)))).
Proof.
  intros He Hb r. subst r. unfold handler_logs, check_start, store_call, Handle. rewrite He, Hb. cbv iota.
  unfold excluded in He. rewrite He.
  destruct (runs_key pick q w) as (w1 & Hk & p & ->). rewrite Hb in Hk.
  replace (now_of (if 0 <? StoreTimeout (h_cfg h) then snd (time_Now (w_clock w)) else w_clock w))
    with (now_of (snd (if 0 <? StoreTimeout (h_cfg h)
                       then context_WithTimeout (q_Context q) (StoreTimeout (h_cfg h)) (w_clock w)
                       else (q_Context q, w_clock w)))) by (by destruct (0 <? _)).
  set (ctx := if 0 <? StoreTimeout (h_cfg h) then _ else (q_Context q, w_clock w)).
  assert (Hctx : forall c m l s p r n, runs
    (if 0 <? StoreTimeout (h_cfg h) then with_clock (context_WithTimeout (q_Context q) (StoreTimeout (h_cfg h)))
     else ret (q_Context q)) (World c m l s p (w_clock w) r n) (fst ctx)
    (World (D:=D) (S:=S) c m l s p (snd ctx) r n)).
  { intros. subst ctx. destruct (0 <? StoreTimeout (h_cfg h)); [|apply runs_ret].
    exact (runs_with_clock _ (World c m l s p0 (w_clock w) r n)). }
  destruct ctx as [ctx clk]. cbn [fst snd] in Hctx.
  destruct (IsDuplicate ctx (key_of q) (DedupWindow (h_cfg h)) (w_store w) (snd (time_Now clk)))
    as [[[dup err] s'] clk'] eqn:E.
  cbn [fst snd].
  destruct err as [e|]; [destruct (errors_is e ErrUnavailable) eqn:Ee|destruct dup];
    (eexists; split;
     [ eapply runs_bind; [exact Hk|]; cbn beta iota; run_step;
       eapply runs_bind; [apply Hctx|]; run_step;
       eapply runs_bind; [apply runs_with_store|]; cbn [w_store w_clock]; rewrite E; cbn [fst snd];
       cbn beta iota; cbn [w_calls w_metrics w_logs w_store w_pool w_clock w_rand w_rand_pos];
       rewrite ?Ee; run_all
     | split; [cbn [verdict_decision verdict_log]; try destruct dup; rewrite ?Ee; answered_done|done] ]).
Qed.
(** All branches in one: the decision is answered, and counted. *)
Lemma Handle_exact h pick q (w : world S D) :
  let d := decide_request h q (w_store w) (w_clock w) in
  exists w', Handle h pick q w = (Returned (), w') /\
    answered h q d (handler_latency h q (w_store w) (w_clock w)) (handler_logs h q (w_store w) (w_clock w)) w w' /\
    w_clock w' = handler_clock h q (w_store w) (w_clock w) /\
    w_store w' = if reaches_store h q then snd (fst (store_call h q (w_store w) (w_clock w))) else w_store w.
Proof.
  unfold handler_latency, handler_clock, decide_request, reaches_store. cbv zeta.
  destruct (excluded h q) eqn:He; [|destruct (snd (body_of q)) as [e|] eqn:Hb]; cbn [andb negb].
  - destruct (Handle_excluded h pick q w He) as (w' & E & Ha & Hs & _ & Hc & _). exists w'.
    unfold handler_logs. by rewrite He.
  - destruct (Handle_unreadable h pick q w e He Hb) as (w' & E & Ha & Hs & Hc). exists w'.
    unfold handler_logs. by rewrite He, Hb.
  - destruct (Handle_checked h pick q w He Hb) as (w' & E & Ha & Hs & Hc). by exists w'.
Qed.

(** The same, by whether the store is reached. *)
Lemma Handle_total h pick q (w : world S D) :
  let d := decide_request h q (w_store w) (w_clock w) in
  exists w' lat, Handle h pick q w = (Returned (), w') /\
    answered h q d lat (handler_logs h q (w_store w) (w_clock w)) w w' /\
    if reaches_store h q
    then (exists t, lat = [Observe StoreLatency ["is_duplicate"] t]) /\
         w_store w' = snd (fst (store_call h q (w_store w) (w_clock w))) /\
         w_clock w' = snd (time_Now (snd (store_call h q (w_store w) (w_clock w))))
    else lat = [] /\ w_store w' = w_store w /\ w_clock w' = w_clock w.
Proof.
  cbv zeta. destruct (Handle_exact h pick q w) as (w' & E & Ha & Hc & Hs).
  eexists w', _. split; [exact E|]. split; [exact Ha|]. revert Hc Hs. unfold handler_latency, handler_clock.
  destruct (reaches_store h q); [|done]. intros. split; [by eexists|done].
Qed.

(** ** Requests one after another *)

(** A request handled: when it began and ended, and what it was answered. *)
Record served := Served { sv_req : gin_request; sv_begin : Z; sv_end : Z; sv_calls : list gin_call }.

(** Each request has a trace of its own; before it, [idle] readings pass. *)
Definition next_request (idle : nat) (w : world S D) : world S D :=
  World [] (w_metrics w) (w_logs w) (w_store w) (w_pool w)
    (Clock (ticks (w_clock w)) (pos (w_clock w) + idle)) (w_rand w) (w_rand_pos w).

Fixpoint serve (h : XAccelDedupHandler) (reqs : list (nat * nat * gin_request)) (w : world S D)
  : list served * world S D :=
  match reqs with
  | [] => ([], w)
  | (idle, pick, q) :: reqs =>
      let w0 := next_request idle w in
      let w1 := snd (Handle h pick q w0) in
      let '(log, w2) := serve h reqs w1 in
      (Served q (now_of (w_clock w0)) (now_of (w_clock w1)) (w_calls w1) :: log, w2)
  end.

Lemma next_request_later idle (w : world S D) : later (w_clock w) (w_clock (next_request idle w)).
Proof. split; simpl; [done|lia]. Qed.
(** The store is called at a later reading, with some deadline. *)
Lemma store_call_begin h q s clk :
  exists ctx clk0, later clk clk0 /\
    store_call h q s clk = IsDuplicate ctx (key_of q) (DedupWindow (h_cfg h)) s clk0.
Proof.
  unfold store_call. destruct (0 <? StoreTimeout (h_cfg h)); simpl; eexists _, _; (split; [|reflexivity]).
  - etrans; [apply later_now|]. apply (later_now (snd (time_Now clk))).
  - apply (later_now clk).
Qed.

Lemma decide_reaches h q s clk :
  reaches_store h q = true ->
  decide_request h q s clk = verdict_decision (fst (fst (store_call h q s clk))).
Proof.
  unfold reaches_store, decide_request. intros [He Hb]%andb_true_iff. apply negb_true_iff in He.
  rewrite He. by destruct (snd (body_of q)).
Qed.

Lemma verdict_Allowed r : verdict_decision r = Allowed -> r = (false, None).
Proof. by destruct r as [[] [e|]]. Qed.

(** *** The window, seen by the clients *)

Lemma store_call_outcome {deadlines : S -> gmap string Z} {slack : Z} `{L : !StoreLaws S deadlines slack} h q s clk :
  0 < DedupWindow (h_cfg h) -> monotone clk ->
  let res := store_call h q s clk in
  later clk (snd res) /\ exists now, now_of clk <= now <= now_of (snd res) /\
    outcome slack now (DedupWindow (h_cfg h)) (key_of q) (deadlines s) (fst (fst res)) (deadlines (snd (fst res))).
Proof.
  intros Hw Hm. cbv zeta. destruct (store_call_begin h q s clk) as (ctx & clk0 & Hl & ->).
  destruct (IsDuplicate _ _ _ _ _) as [[r s'] clk'] eqn:E. cbn [fst snd].
  destruct (law_IsDuplicate _ _ _ _ _ _ _ _ Hw (later_monotone _ _ Hl Hm) E) as (Hl' & now & Hn & Ha).
  split; [by etrans|]. exists now. split; [|done]. pose proof (later_le _ _ Hl Hm). lia.
Qed.

Context {deadlines : S -> gmap string Z} {slack : Z} `{L : !AdmissionLaws S deadlines slack}.

Lemma store_call_admission h q s clk :
  0 < DedupWindow (h_cfg h) -> monotone clk ->
  let res := store_call h q s clk in
  later clk (snd res) /\ exists now, now_of clk <= now <= now_of (snd res) /\
    admission slack now (DedupWindow (h_cfg h)) (key_of q) (deadlines s) (fst (fst res)) (deadlines (snd (fst res))).
Proof.
  intros Hw Hm. cbv zeta. destruct (store_call_begin h q s clk) as (ctx & clk0 & Hl & ->).
  destruct (IsDuplicate _ _ _ _ _) as [[r s'] clk'] eqn:E. cbn [fst snd].
  destruct (law_admission _ _ _ _ _ _ _ _ Hw (later_monotone _ _ Hl Hm) E) as (Hl' & now & Hn & Ha).
  split; [by etrans|]. exists now. split; [|done]. pose proof (later_le _ _ Hl Hm). lia.
Qed.

Lemma Handle_step h pick q (w : world S D) :
  0 < DedupWindow (h_cfg h) -> monotone (w_clock w) ->
  let w' := snd (Handle h pick q w) in
  later (w_clock w) (w_clock w') /\
  if reaches_store h q
  then exists now r, now_of (w_clock w) <= now <= now_of (w_clock w') /\
         admission slack now (DedupWindow (h_cfg h)) (key_of q) (deadlines (w_store w)) r (deadlines (w_store w')) /\
         w_calls w' = w_calls w ++ answer h q (verdict_decision r)
  else deadlines (w_store w') = deadlines (w_store w).
Proof.
  intros Hw Hm. cbv zeta.
  destruct (Handle_total h pick q w) as (w' & lat & E & Ha & Hr). rewrite E. cbn [snd].
  destruct (store_call_admission h q (w_store w) (w_clock w) Hw Hm) as (Hl & now & Hn & Had).
  unfold decide_request, reaches_store in *.
  destruct (excluded h q), (snd (body_of q)) as [e|]; cbn [andb negb] in *;
    try (destruct Hr as (_ & -> & ->); by split).
  destruct Hr as (_ & -> & ->).
  assert (Hl2 : later (w_clock w) (snd (time_Now (snd (store_call h q (w_store w) (w_clock w))))))
    by (etrans; [exact Hl|apply later_now]).
  split; [exact Hl2|]. exists now, (fst (fst (store_call h q (w_store w) (w_clock w)))).
  split; [|split; [exact Had|apply (a_calls _ _ _ _ _ _ _ Ha)]].
  assert (Hm' : monotone (snd (store_call h q (w_store w) (w_clock w)))) by eauto with gotime.
  pose proof (later_le _ _ (later_now _) Hm'). lia.
Qed.

(** The request was let through on the store's word. *)
Definition let_through (h : XAccelDedupHandler) (key : string) (c : served) : Prop :=
  reaches_store h (sv_req c) = true /\ key_of (sv_req c) = key /\ sv_calls c = redirect h (sv_req c).

Lemma answer_redirect h q r :
  FailOpen (h_cfg h) = false -> answer h q (verdict_decision r) = redirect h q -> r = (false, None).
Proof.
  intros Hf. destruct r as [[] [e|]]; simpl; rewrite ?Hf; [discriminate..|done].
Qed.

Lemma serve_held h key t reqs (w : world S D) log w' :
  0 < DedupWindow (h_cfg h) -> 0 <= DedupWindow (h_cfg h) - slack -> FailOpen (h_cfg h) = false ->
  monotone (w_clock w) -> serve h reqs w = (log, w') ->
  held key t (now_of (w_clock w)) (deadlines (w_store w)) ->
  forall c, c ∈ log -> let_through h key c -> t <= sv_end c.
Proof.
  intros Hw Hs Hf. revert w log. induction reqs as [|[[idle pick] q] reqs IH]; intros w log Hm E Hh c Hc Ht.
  { injection E as <- _. by apply not_elem_of_nil in Hc. }
  cbn [serve] in E. set (w0 := next_request idle w) in *.
  assert (Hl0 : later (w_clock w) (w_clock w0)) by apply next_request_later.
  assert (Hm0 : monotone (w_clock w0)) by eauto with gotime.
  destruct (Handle_step h pick q w0 Hw Hm0) as [Hl1 Hst].
  set (w1 := snd (Handle h pick q w0)) in *.
  pose proof (later_le _ _ Hl0 Hm). pose proof (later_le _ _ Hl1 Hm0).
  assert (Hh0 : held key t (now_of (w_clock w0)) (deadlines (w_store w0))) by (by eapply held_later).
  assert (Hh1 : held key t (now_of (w_clock w1)) (deadlines (w_store w1))).
  { destruct (reaches_store h q); [|rewrite Hst; by eapply held_later].
    destruct Hst as (now & r & Hn & Had & _).
    eapply held_later; [apply Hn|]. eapply held_admission; [..|exact Had|exact Hh0]; lia. }
  destruct (serve h reqs w1) as [log1 w2] eqn:E1. injection E as <- <-.
  apply elem_of_cons in Hc as [->|Hc]; [|by apply (IH w1 log1); eauto with gotime].
  destruct Ht as (Hrs & Hk & Hcalls). cbn [sv_req sv_end sv_calls] in *.
  rewrite Hrs in Hst. destruct Hst as (now & r & Hn & Had & Hca).
  rewrite Hca in Hcalls. apply (answer_redirect h q r Hf) in Hcalls as ->. rewrite Hk in Had.
  pose proof (held_not_new _ _ _ _ _ _ _ (proj1 Hn) Hh0 Had). lia.
Qed.
Lemma serve_apart h key reqs (w : world S D) log w' pre c1 mid c2 post :
  0 < DedupWindow (h_cfg h) -> 0 <= DedupWindow (h_cfg h) - slack -> FailOpen (h_cfg h) = false ->
  monotone (w_clock w) -> serve h reqs w = (log, w') ->
  log = pre ++ c1 :: mid ++ c2 :: post ->
  let_through h key c1 -> let_through h key c2 ->
  sv_begin c1 + DedupWindow (h_cfg h) - slack <= sv_end c2.
Proof.
  intros Hw Hs Hf. revert w log pre.
  induction reqs as [|[[idle pick] q] reqs IH]; intros w log pre Hm E Hlog H1 H2.
  { injection E as <- _. by destruct pre. }
  cbn [serve] in E. set (w0 := next_request idle w) in *.
  assert (Hm0 : monotone (w_clock w0)) by (eapply later_monotone; [apply next_request_later|done]).
  destruct (Handle_step h pick q w0 Hw Hm0) as [Hl1 Hst].
  set (w1 := snd (Handle h pick q w0)) in *.
  destruct (serve h reqs w1) as [log1 w2] eqn:E1. injection E as <- <-.
  destruct pre as [|c0 pre]; simplify_list_eq; [|by eapply (IH w1); eauto with gotime].
  destruct H1 as (Hrs & Hk & Hcalls). cbn [sv_req sv_end sv_calls] in *.
  rewrite Hrs in Hst. destruct Hst as (now & r & Hn & Had & Hca).
  rewrite Hca in Hcalls. apply (answer_redirect h q r Hf) in Hcalls as ->.
  inversion Had as [|? Hfree (d & m1 & He & Hd & Hdl)|]; subst; [done|].
  assert (now + DedupWindow (h_cfg h) - slack <= sv_end c2); [|cbn [sv_begin]; lia].
  eapply (serve_held h _ _ reqs w1); [..|exact E1| | |exact H2]; eauto with gotime.
  - right. exists d. rewrite Hdl. split; [by rewrite lookup_insert_eq|lia].
  - apply elem_of_app. right. by left.
Qed.
End HandleFacts.

(** ** Properties *)

Section Properties.
Context {U : UnicodeTables} {D : Type} `{!Hash D} {H : bytes -> bytes} `{!HashLaws D H} {S : Type} `{!Store S}.

(** C5: the decision table of the handler, for every request and every store.
    The handler always returns; a request of an excluded method is redirected
    without a look at its body, the store or the clock, one whose body cannot be
    read is answered as a store failure without a store call, and any other is
    exactly one call of the store with the key of method, URI and body, the
    configured window and deadline, answered by the store's verdict: redirect,
    409, or on an error redirect or 500 by [fail_open]. *)
Theorem handle_decides h pick q (w : world S D) :
  let d := decide_request (H:=H) h q (w_store w) (w_clock w) in
  exists w' lat, Handle h pick q w = (Returned (), w') /\
    w_calls w' = w_calls w ++ answer h q d /\
    w_metrics w' = w_metrics w ++ lat ++ [Inc DedupChecksTotal [decision_label d]] /\
    (reaches_store h q = true ->
       (exists t, lat = [Observe StoreLatency ["is_duplicate"] t]) /\
       w_store w' = snd (fst (store_call (H:=H) h q (w_store w) (w_clock w)))) /\
    (reaches_store h q = false -> lat = [] /\ w_store w' = w_store w /\ w_clock w' = w_clock w).
Proof.
  cbv zeta. destruct (Handle_total (H:=H) h pick q w) as (w' & lat & E & [Hc Hm _ _] & Hr).
  exists w', lat. do 3 (split; [done|]).
  destruct (reaches_store h q); split; intros [=]; tauto.
Qed.

(** Every request counts exactly once in [checks_total], under the label of
    its decision and no other, and every call the handler makes on a collector
    has the collector's kind and number of labels, so none can panic. *)
Theorem checks_counted_once h pick q (w : world S D) :
  let w' := snd (Handle h pick q w) in
  (forall l, inc_count DedupChecksTotal [l] (w_metrics w') =
     (inc_count DedupChecksTotal [l] (w_metrics w) +
      if decide (l = decision_label (decide_request (H:=H) h q (w_store w) (w_clock w))) then 1 else 0)%nat) /\
  exists new, w_metrics w' = w_metrics w ++ new /\ Forall event_ok new.
Proof.
  cbv zeta. destruct (Handle_total (H:=H) h pick q w) as (w' & lat & -> & [_ Hm _ _] & Hr). cbn [snd].
  set (d := decide_request _ _ _ _) in *.
  assert (Hlat : lat = [] \/ exists t, lat = [Observe StoreLatency ["is_duplicate"] t]).
  { destruct (reaches_store h q); [right|left]; tauto. }
  rewrite Hm. split.
  - intros l. unfold inc_count. rewrite !filter_app, !length_app.
    assert (filter (fun e => e = Inc DedupChecksTotal [l]) lat = []) as -> by (by destruct Hlat as [->|[t ->]]).
    rewrite filter_cons. simpl. case_decide as E1; case_decide as E2; try done; congruence.
  - eexists. split; [done|]. apply Forall_app. split.
    + destruct Hlat as [->|[t ->]]; [done|]. constructor; [|done].
      split; [|done]. apply (bool_decide_unpack _). vm_compute. exact I.
    + constructor; [|done]. split; [|done]. apply (bool_decide_unpack _). vm_compute. exact I.
Qed.

(** C9: in fail-closed mode nothing passes without the store's word: a request
    answered by the redirect is of an excluded method, or its body was read and
    the store said it is new. *)
Theorem fail_closed_redirects_only_new h pick q (w : world S D) :
  FailOpen (h_cfg h) = false -> w_calls w = [] ->
  w_calls (snd (Handle h pick q w)) = redirect h q ->
  excluded h q = true \/
  (snd (body_of q) = None /\ fst (fst (store_call (H:=H) h q (w_store w) (w_clock w))) = (false, None)).
Proof.
  intros Hf H0 Hc. destruct (Handle_total (H:=H) h pick q w) as (w' & lat & E & [Ha _ _ _] & _).
  rewrite E in Hc. cbn [snd] in Hc. rewrite Ha, H0 in Hc. cbn [app] in Hc.
  unfold decide_request in Hc. destruct (excluded h q); [by left|]. right.
  destruct (snd (body_of q)); [simpl in Hc; by rewrite Hf in Hc|].
  split; [done|]. by apply (answer_redirect h q) in Hc.
Qed.

(** C10: in fail-open mode the service never rejects a request for its own
    failures: an answer other than the redirect is the 409, given only when the
    store itself said "duplicate". *)
Theorem fail_open_rejects_only_duplicates h pick q (w : world S D) :
  FailOpen (h_cfg h) = true -> w_calls w = [] ->
  w_calls (snd (Handle h pick q w)) <> redirect h q ->
  w_calls (snd (Handle h pick q w)) = [CData 409 jsonContentType duplicateJSON] /\
  reaches_store h q = true /\
  fst (fst (store_call (H:=H) h q (w_store w) (w_clock w))) = (true, None).
Proof.
  intros Hf H0. destruct (Handle_total (H:=H) h pick q w) as (w' & lat & -> & [Ha _ _ _] & _).
  cbn [snd]. rewrite Ha, H0. cbn [app]. unfold decide_request, reaches_store.
  destruct (excluded h q); [done|].
  destruct (snd (body_of q)); [simpl; by rewrite Hf|]. cbn [negb andb].
  destruct (fst (fst (store_call (H:=H) h q (w_store w) (w_clock w)))) as [[] [e|]]; simpl; rewrite ?Hf; done.
Qed.

(** C35: a request whose body cannot be read never reaches the store, yet the
    client is told that the store is unreachable (fail-closed), or the request
    passes without any check (fail-open). *)
Theorem unreadable_body_is_a_store_failure h pick q (w : world S D) e :
  excluded h q = false -> snd (body_of q) = Some e ->
  exists w', Handle h pick q w = (Returned (), w') /\ w_store w' = w_store w /\
    w_calls w' = w_calls w ++
      (if FailOpen (h_cfg h) then redirect h q else [CData 500 jsonContentType storeErrJSON]).
Proof.
  intros He Hb. destruct (Handle_unreadable (H:=H) h pick q w e He Hb) as (w' & E & [Ha _ _ _] & Hs & _).
  by exists w'.
Qed.

(** The service's promise, end to end.  Over any store that honours the
    contract, from any state and for any sequence of requests with any time
    between them, in fail-closed mode two requests with the same key that are
    both let through lie a whole window apart, up to the store's resolution. *)
Theorem replay_blocked {deadlines : S -> gmap string Z} {slack : Z} `{L : !AdmissionLaws S deadlines slack}
    h key reqs (w : world S D) log w' pre c1 mid c2 post :
  0 < DedupWindow (h_cfg h) -> 0 <= DedupWindow (h_cfg h) - slack -> FailOpen (h_cfg h) = false ->
  monotone (w_clock w) -> serve h reqs w = (log, w') ->
  log = pre ++ c1 :: mid ++ c2 :: post ->
  let_through (H:=H) h key c1 -> let_through (H:=H) h key c2 ->
  sv_begin c1 + DedupWindow (h_cfg h) - slack <= sv_end c2.
Proof. apply serve_apart. Qed.

(** C6: the timeline of a replay over a store that honours the full contract
    (the MemoryStore, the RedisStore).  After a request that was let through, a
    request with the same key that the store can answer is refused with 409 when
    it is over before the window has passed, and let through again when it
    begins after it. *)
Theorem replay_timeline {deadlines : S -> gmap string Z} {slack : Z} `{L : !StoreLaws S deadlines slack}
    h pick1 pick2 idle q1 q2 (w : world S D) :
  let w1 := snd (Handle h pick1 q1 w) in
  let w2 := next_request idle w1 in
  let w3 := snd (Handle h pick2 q2 w2) in
  0 < DedupWindow (h_cfg h) -> monotone (w_clock w) ->
  reaches_store h q1 = true -> reaches_store h q2 = true -> key_of (H:=H) q1 = key_of (H:=H) q2 ->
  decide_request (H:=H) h q1 (w_store w) (w_clock w) = Allowed ->
  decide_request (H:=H) h q2 (w_store w2) (w_clock w2) <> Failed ->
  (now_of (w_clock w3) < now_of (w_clock w) + DedupWindow (h_cfg h) - slack ->
     w_calls w3 = [CData 409 jsonContentType duplicateJSON]) /\
  (now_of (w_clock w1) + DedupWindow (h_cfg h) + slack < now_of (w_clock w2) ->
     w_calls w3 = redirect h q2).
Proof.
  cbv zeta. intros Hw Hm R1 R2 Hk D1 D2.
  destruct (Handle_total (H:=H) h pick1 q1 w) as (w1 & lat1 & E1 & A1 & S1). rewrite R1 in S1.
  rewrite E1 in *. cbn [snd] in *. set (w2 := next_request idle w1) in *.
  destruct (Handle_total (H:=H) h pick2 q2 w2) as (w3 & lat3 & E3 & A3 & S3). rewrite R2 in S3.
  rewrite E3. cbn [snd]. rewrite (a_calls _ _ _ _ _ _ _ A3). change (w_calls w2) with (@nil gin_call). cbn [app].
  destruct S1 as (_ & Hs1 & Hc1), S3 as (_ & Hs3 & Hc3).
  assert (Hl12 : later (w_clock w1) (w_clock w2)) by apply next_request_later.
  destruct (store_call_outcome (H:=H) (deadlines:=deadlines) h q1 (w_store w) (w_clock w) Hw Hm)
    as (Hl1 & t1 & Ht1 & O1).
  rewrite decide_reaches in D1, D2 by done. rewrite decide_reaches by done.
  apply verdict_Allowed in D1. rewrite D1 in O1.
  inversion O1 as [|? Hfree (d & m1 & He & Hd & Hdl) E0 Em| |].
  assert (Hm2 : monotone (w_clock w2)).
  { eapply later_monotone; [exact Hl12|]. rewrite Hc1.
    eapply later_monotone; [apply later_now|]. by eapply later_monotone. }
  destruct (store_call_outcome (H:=H) (deadlines:=deadlines) h q2 (w_store w2) (w_clock w2) Hw Hm2)
    as (Hl2 & t2 & Ht2 & O2).
  assert (Hd2 : deadlines (w_store w2) !! key_of (H:=H) q2 = Some d).
  { simpl. by rewrite Hs1, Hdl, <-Hk, lookup_insert_eq. }
  assert (Hb1 : t1 <= now_of (w_clock w1)).
  { rewrite Hc1. pose proof (later_le _ _ (later_now (snd (store_call (H:=H) h q1 (w_store w) (w_clock w))))
      (later_monotone _ _ Hl1 Hm)). lia. }
  assert (Hb2 : t2 <= now_of (w_clock w3)).
  { rewrite Hc3. pose proof (later_le _ _ (later_now (snd (store_call (H:=H) h q2 (w_store w2) (w_clock w2))))
      (later_monotone _ _ Hl2 Hm2)). lia. }
  revert O2 D2. generalize (fst (fst (store_call (H:=H) h q2 (w_store w2) (w_clock w2)))) as r2.
  intros r2 O2 D2. clear -O2 D2 Hd2 Hb1 Hb2 Ht1 Ht2 Hd.
  destruct O2 as [d' m' Hd' Hge| m' Hfree2| |]; [| |done..].
  - split; [done|]. intros Hlate. assert (d' = d) by congruence. lia.
  - specialize (Hfree2 _ Hd2). split; [intros; lia|done].
Qed.
End Properties.

(** ** What is sent as JSON *)

(** the pre-serialised responses are what [encoding/json] would
    have made of the objects they stand for: an [errorBody] with the error and
    its details, and the healthy answer of a store without a cache. *)
Lemma prebuilt_json_is_Marshal :
  duplicateJSON = json_Marshal (errorBody_json (mkErrorBody "duplicate_request"
    "an identical request was received within the deduplication window")) /\
  storeErrJSON = json_Marshal (errorBody_json (mkErrorBody "store_unavailable"
    "deduplication store is unreachable; request rejected (fail-closed mode)")) /\
  healthOKJSON = json_Marshal (JMap [("status", JString "ok")]).
Proof. split_and!; vm_compute; reflexivity. Qed.

Lemma read_errorBody e :
  ValidString (eb_Error e) = true -> ValidString (eb_Details e) = true ->
  read_object (json_Marshal (errorBody_json e)) =
    Some (("error", JString (eb_Error e)) ::
          (if decide (eb_Details e = EmptyString) then [] else [("details", JString (eb_Details e))])).
Proof.
  intros H1 H2. rewrite read_Marshal. unfold errorBody_json. cbn [json_members map].
  case_decide; cbn [map]; unfold coerce_member; cbn [fst snd coerce_value];
    rewrite ?(coerce_valid (eb_Error e)), ?(coerce_valid (eb_Details e)) by done; reflexivity.
Qed.

(** C37: the JSON the health check answers can be read back.  Of an
    [errorBody] of any error text a client reads the error and, when there are
    any, the details, byte for byte when they are UTF-8 and with every other byte
    replaced by U+FFFD when they are not; two different bodies of UTF-8 text never
    look the same.  Of a healthy answer it reads the status and the exact size of
    the cache, in the order of the sorted keys. *)
Theorem health_json_roundtrip e n :
  read_object (json_Marshal (errorBody_json e)) =
    Some (("error", JString (coerce (eb_Error e))) ::
          (if decide (eb_Details e = EmptyString) then [] else [("details", JString (coerce (eb_Details e)))])) /\
  (ValidString (eb_Error e) = true -> ValidString (eb_Details e) = true ->
     read_object (json_Marshal (errorBody_json e)) = Some (json_members (errorBody_json e)) /\
     forall e', ValidString (eb_Error e') = true -> ValidString (eb_Details e') = true ->
       json_Marshal (errorBody_json e') = json_Marshal (errorBody_json e) -> e' = e) /\
  read_object (json_Marshal (health_json n)) = Some [("cache_size", JInt n); ("status", JString "ok")].
Proof.
  split_and!.
  - rewrite read_Marshal. unfold errorBody_json. cbn [json_members map].
    by case_decide.
  - intros H1 H2. split; [by apply read_errorBody|]. intros e' H1' H2' E.
    pose proof (read_errorBody e H1 H2) as R. pose proof (read_errorBody e' H1' H2') as R'.
    rewrite E, R in R'. destruct e as [x d], e' as [x' d']. cbn [eb_Error eb_Details] in *.
    repeat case_decide; congruence.
  - by rewrite read_Marshal.
Qed.

Section Health.
Context {S D : Type} `{!Store S} `{!DynamicStore S}.

(** The answer of the health check, by the ping and the store. *)
Definition health_answer (q : gin_request) (w : world S D) : gin_call :=
  let ping := Ping (q_Context q) (w_store w) (w_clock w) in
  match fst (fst ping) with
  | Some e => CJSON 503 (errorBody_json (mkErrorBody "store_unavailable" (error_text e)))
  | None => match cached_len (snd (fst ping)) with
            | Some n => CJSON 200 (JMap [("status", JString "ok"); ("cache_size", JInt n)])
            | None => CData 200 jsonContentType healthOKJSON
            end
  end.

(** The health check asks the store once, with the request's own deadline,
    counts nothing and never panics. *)
Lemma health_Handle_returns q (w : world S D) :
  let ping := Ping (q_Context q) (w_store w) (w_clock w) in
  exists w', health_Handle q w = (Returned (), w') /\
    w_store w' = snd (fst ping) /\ w_metrics w' = w_metrics w /\
    w_calls w' = w_calls w ++ [health_answer q w].
Proof.
  cbv zeta. unfold health_Handle, health_answer.
  destruct (Ping (q_Context q) (w_store w) (w_clock w)) as [[[e|] s'] clk'] eqn:E; cbn [fst snd].
  - eexists. split.
    { eapply runs_bind; [apply runs_with_store|]. rewrite E. cbn [fst snd]. cbn beta iota. run_all. }
    done.
  - destruct (cached_len s') as [n|] eqn:En; (eexists; split;
      [eapply runs_bind; [apply runs_with_store|]; rewrite E; cbn [fst snd]; cbn beta iota;
       eapply runs_bind; [apply runs_asks|]; cbn [w_store]; rewrite En; run_all|done]).
Qed.
End Health.

(** ** Witnesses: a MemoryStore, SHA-256 and the default configuration *)

Definition fail_closed : Config :=
  mkConfig ":8081" (10 * Second) "info" false EmptyString EmptyString "1.2" "log/app.log" 50 5 30 true
    "localhost:6379" EmptyString 0 (2 * Second) (200 * Millisecond) (200 * Millisecond) 100 20
    (10 * Second) 65536 false ["GET"; "HEAD"; "OPTIONS"] {["GET"; "HEAD"; "OPTIONS"]}
    "/internal/upstream" true 50 (500 * Millisecond) false.

Definition w_handler : XAccelDedupHandler := NewXAccelDedup fail_closed "/internal/upstream".
Definition w_open_handler : XAccelDedupHandler := NewXAccelDedup default_config "/internal/upstream".

Definition w_request (body : reader) : gin_request :=
  GinRequest (HTTPRequest "POST" "/api/orders" (Some body) [] "1.2.3.4:9000") "/api/orders" false
    (fun _ => EmptyString) EmptyString "1.2.3.4" "curl" context_Background 404.
Definition w_post : gin_request := w_request [(bytes_of "amount=", RNil); (bytes_of "100", REOF)].
Definition w_cut : gin_request := w_request [(bytes_of "amount=", RErr (ErrNew "http" "unexpected EOF"))].

Definition w_world (s : MemoryStore) (clk : clock) : world MemoryStore digest :=
  World [] [] [] s [] clk (fun _ => x00) 0.
Definition w_down : MemoryStore := mkMemoryStore ∅ (Some ErrUnavailable).

#[local] Existing Instance ascii_tables.

Lemma handle_decides_witness :
  exists w', Handle w_handler 0 w_post (w_world w_down (clock_of [5])) = (Returned (), w') /\
    w_calls w' = [CData 500 jsonContentType storeErrJSON].
Proof.
  destruct (handle_decides (H:=sha256_spec) w_handler 0 w_post (w_world w_down (clock_of [5])))
    as (w' & lat & E & Hc & _).
  exists w'. split; [exact E|]. rewrite Hc. vm_compute. reflexivity.
Defined.

Lemma checks_counted_once_witness :
  inc_count DedupChecksTotal ["error"] (w_metrics (snd (Handle w_handler 0 w_post (w_world w_down (clock_of [5]))))) = 1%nat.
Proof.
  rewrite (proj1 (checks_counted_once (H:=sha256_spec) w_handler 0 w_post (w_world w_down (clock_of [5]))) "error").
  vm_compute. reflexivity.
Defined.

Lemma fail_closed_redirects_only_new_witness :
  w_calls (snd (Handle w_handler 0 w_post (w_world NewMemory (clock_of [5])))) = redirect w_handler w_post /\
  fst (fst (store_call (H:=sha256_spec) w_handler w_post NewMemory (clock_of [5]))) = (false, None).
Proof.
  assert (E : w_calls (snd (Handle w_handler 0 w_post (w_world NewMemory (clock_of [5])))) = redirect w_handler w_post)
    by (vm_compute; reflexivity).
  split; [exact E|].
  destruct (fail_closed_redirects_only_new (H:=sha256_spec) w_handler 0 w_post (w_world NewMemory (clock_of [5]))
    eq_refl eq_refl E) as [Hx|[_ Hv]]; [vm_compute in Hx; discriminate Hx|exact Hv].
Defined.

(** The state after the first of two identical requests. *)
Definition w_after : world MemoryStore digest :=
  snd (Handle w_open_handler 0 w_post (w_world NewMemory (clock_of [5]))).

Lemma fail_open_rejects_only_duplicates_witness :
  w_calls (snd (Handle w_open_handler 0 w_post (next_request 0 w_after)))
    = [CData 409 jsonContentType duplicateJSON].
Proof.
  refine (proj1 (fail_open_rejects_only_duplicates (H:=sha256_spec) w_open_handler 0 w_post
    (next_request 0 w_after) eq_refl eq_refl _)).
  intros E. vm_compute in E. discriminate E.
Defined.

Lemma unreadable_body_is_a_store_failure_witness :
  exists w', Handle w_open_handler 0 w_cut (w_world NewMemory (clock_of [5])) = (Returned (), w') /\
    w_calls w' = redirect w_open_handler w_cut.
Proof.
  destruct (unreadable_body_is_a_store_failure (H:=sha256_spec) w_open_handler 0 w_cut
    (w_world NewMemory (clock_of [5])) (ErrNew "http" "unexpected EOF")
    ltac:(vm_compute; reflexivity) ltac:(vm_compute; reflexivity)) as (w' & E & _ & Hc).
  exists w'. split; [exact E|]. rewrite Hc. reflexivity.
Defined.

(** Three identical requests: at 0s, 0s and 20s. *)
Definition w_served : list served * world MemoryStore digest :=
  serve w_handler [(0, 0, w_post); (0, 0, w_post); (0, 0, w_post)]%nat
    (w_world NewMemory (step_clock 8 0 (20 * Second))).
Definition w_nth (i : nat) : served := nth i (fst w_served) (Served w_post 0 0 []).

Lemma replay_blocked_witness :
  fst w_served = [w_nth 0; w_nth 1; w_nth 2] /\
  sv_calls (w_nth 1) = [CData 409 jsonContentType duplicateJSON] /\
  sv_begin (w_nth 0) + 10 * Second - 0 <= sv_end (w_nth 2).
Proof.
  assert (E : fst w_served = [w_nth 0; w_nth 1; w_nth 2]) by (vm_compute; reflexivity).
  split; [exact E|]. split; [vm_compute; reflexivity|].
  refine (replay_blocked (H:=sha256_spec) (deadlines:=memory_deadlines) w_handler (key_of (H:=sha256_spec) w_post)
    [(0, 0, w_post); (0, 0, w_post); (0, 0, w_post)]%nat (w_world NewMemory (step_clock 8 0 (20 * Second)))
    (fst w_served) (snd w_served) [] (w_nth 0) [w_nth 1] (w_nth 2) [] _ _ eq_refl _ (surjective_pairing _) E _ _).
  - vm_compute. reflexivity.
  - vm_compute. discriminate.
  - apply step_clock_monotone. vm_compute. discriminate.
  - split_and!; vm_compute; reflexivity.
  - split_and!; vm_compute; reflexivity.
Defined.

Lemma replay_timeline_witness :
  w_calls (snd (Handle w_open_handler 0 w_post (next_request 0 w_after)))
    = [CData 409 jsonContentType duplicateJSON].
Proof.
  refine (proj1 (replay_timeline (H:=sha256_spec) (deadlines:=memory_deadlines) w_open_handler 0 0 0 w_post w_post
    (w_world NewMemory (clock_of [5])) _ _ _ _ eq_refl _ _) _).
  - vm_compute. reflexivity.
  - intros i j _. simpl. destruct i as [|[|]], j as [|[|]]; vm_compute; discriminate.
  - vm_compute. reflexivity.
  - vm_compute. reflexivity.
  - vm_compute. reflexivity.
  - vm_compute. discriminate.
  - vm_compute. reflexivity.
Defined.

(** A ping error whose text has a quote, a line break and angle brackets. *)
Definition w_body : errorBody :=
  mkErrorBody "store_unavailable" (string_of ([x22; x0a] ++ bytes_of "<redis>")).

Lemma health_json_roundtrip_witness :
  read_object (json_Marshal (errorBody_json w_body)) =
    Some [("error", JString "store_unavailable"); ("details", JString (eb_Details w_body))].
Proof.
  assert (H1 : ValidString (eb_Error w_body) = true) by (vm_compute; reflexivity).
  assert (H2 : ValidString (eb_Details w_body) = true) by (vm_compute; reflexivity).
  rewrite (proj1 (proj1 (proj2 (health_json_roundtrip w_body 0)) H1 H2)). vm_compute. reflexivity.
Defined.
