(* ===== verification/Middleware.v ===== *)
(** * Middleware: internal/middleware/middleware.go

    Each middleware is a program that runs [next], the rest of the chain
    ([c.Next()]), between what it does before and after.  A panic of [next]
    skips what comes after it, and [Recovery] ends it. *)

From S2P Require Import Prelude GoTime GoStrings GoJSON Fingerprint Metrics Gin.

Local Open Scope go_scope.
Local Open Scope Z_scope.

Definition RequestIDHeader : string := "X-Request-ID".
Definition hstsHeaderValue : string := "max-age=31536000; includeSubDomains".
Definition cspHeaderValue : string :=
  "default-src 'none'; base-uri 'none'; frame-ancestors 'none'; form-action 'none'".

Definition requestIDKey : string := "request_id".
Definition logFieldRequestID : string := "request_id".
Definition logFieldMethod : string := "method".
Definition logFieldPath : string := "path".
Definition logFieldStatus : string := "status".
Definition logFieldDurationMS : string := "duration_ms".
Definition logFieldRemoteAddr : string := "remote_addr".
Definition logFieldUserAgent : string := "user_agent".
Definition logFieldPanic : string := "panic".
Definition logMessage : string := "http".
Definition logMessagePanic : string := "panic recovered".
Definition jsonKeyError : string := "error".
Definition jsonErrorInternal : string := "internal_error".
Definition jsonErrorNotFound : string := "not_found".

Definition statusText : gmap Z string := list_to_map [
  (200, "200"); (201, "201"); (204, "204");
  (301, "301"); (302, "302"); (304, "304");
  (400, "400"); (401, "401"); (403, "403"); (404, "404");
  (405, "405"); (408, "408"); (409, "409");
  (500, "500"); (502, "502"); (503, "503"); (504, "504")]%string.

Definition statusStr (code : Z) : string :=
  match statusText !! code with Some s => s | None => strconv_Itoa code end.

(** [time.Duration.Milliseconds] *)
Definition Milliseconds (d : Z) : Z := Z.quot d Millisecond.

Section Middleware.
Context {G : Gin} {S D : Type}.
Abbreviation handler := (prog S D ()).

(** [c.Writer.Status()], [c.GetString(key)] *)
Definition Status (q : gin_request) : prog S D Z := asks (fun w => Writer_Status (q_status q) (w_calls w)).
Definition GetString (key : string) : prog S D string := asks (fun w => ctx_GetString (w_calls w) key).

Definition RequestID (q : gin_request) (next : handler) : handler :=
  let id := q_GetHeader q RequestIDHeader in
  do id <-
    (if decide (id = EmptyString)
     then (do buf <- rand_Read 16; ret (string_of (hex_encode buf)))
     else ret id);
  call (CSet requestIDKey id) ;;
  call (CHeader RequestIDHeader id) ;;
  next.

Definition Logging (disableRequestLogging : bool) (q : gin_request) (next : handler) : handler :=
  do start <- with_clock time_Now;
  next ;;
  do status <- Status q;
  do now <- with_clock time_Now;
  let duration := now - start in
  if disableRequestLogging then
    if (400 <=? status) || (100 * Millisecond <? duration) then
      do id <- GetString requestIDKey;
      log WarnLevel [(logFieldRequestID, LStr id); (logFieldMethod, LStr (r_Method (q_http q)));
                     (logFieldPath, LStr (q_Path q)); (logFieldStatus, LInt status);
                     (logFieldDurationMS, LInt (Milliseconds duration))] logMessage
    else ret ()
  else
    let evt :=
      if 500 <=? status then ErrorLevel
      else if ((400 <=? status) && negb (status =? 409)) || (100 * Millisecond <? duration) then WarnLevel
      else DebugLevel in
    do id <- GetString requestIDKey;
    log evt [(logFieldRequestID, LStr id); (logFieldMethod, LStr (r_Method (q_http q)));
             (logFieldPath, LStr (q_Path q)); (logFieldStatus, LInt status);
             (logFieldDurationMS, LInt (Milliseconds duration));
             (logFieldRemoteAddr, LStr (q_ClientIP q)); (logFieldUserAgent, LStr (q_UserAgent q))] logMessage.

Definition Recovery (q : gin_request) (next : handler) : handler :=
  recovering next (fun rec =>
    log ErrorLevel [(logFieldPanic, LAny rec); (logFieldMethod, LStr (r_Method (q_http q)));
                    (logFieldPath, LStr (q_Path q))] logMessagePanic ;;
    call (CAbortWithStatusJSON 500 (JMap [(jsonKeyError, JString jsonErrorInternal)]))).

Definition Metrics (q : gin_request) (next : handler) : handler :=
  do start <- with_clock time_Now;
  next ;;
  do code <- Status q;
  let status := statusStr code in
  let path := q_FullPath q in
  let path := if decide (path = EmptyString) then q_Path q else path in
  let method := r_Method (q_http q) in
  metric (Inc RequestsTotal [method; path; status]) ;;
  do now <- with_clock time_Now;
  metric (Observe RequestDuration [method; path] (now - start)).

Definition SecurityHeaders (q : gin_request) (next : handler) : handler :=
  (if q_TLS q || bool_decide (q_GetHeader q "X-Forwarded-Proto" = "https"%string)
   then call (CHeader "Strict-Transport-Security" hstsHeaderValue)
   else ret ()) ;;
  call (CHeader "Content-Security-Policy" cspHeaderValue) ;;
  next.

Definition NotFound (q : gin_request) : handler :=
  call (CJSON 404 (JMap [(jsonKeyError, JString jsonErrorNotFound)])).
End Middleware.

(** ** What each middleware makes of the rest of the chain *)

Section Facts.
Context {G : Gin} {S D : Type}.
Implicit Types (next : prog S D ()) (w : world S D).

(** The world with one more reading of the clock, log event or calls. *)
Definition tick_clock w : world S D :=
  World (w_calls w) (w_metrics w) (w_logs w) (w_store w) (w_pool w) (snd (time_Now (w_clock w)))
    (w_rand w) (w_rand_pos w).
Definition add_calls (cs : list gin_call) w : world S D :=
  World (w_calls w ++ cs) (w_metrics w) (w_logs w) (w_store w) (w_pool w) (w_clock w) (w_rand w) (w_rand_pos w).
Definition add_log (l : log_event) w : world S D :=
  World (w_calls w) (w_metrics w) (w_logs w ++ [l]) (w_store w) (w_pool w) (w_clock w) (w_rand w) (w_rand_pos w).
Definition add_metrics (es : list metric_event) w : world S D :=
  World (w_calls w) (w_metrics w ++ es) (w_logs w) (w_store w) (w_pool w) (w_clock w) (w_rand w) (w_rand_pos w).

Definition status_of (q : gin_request) w : Z := Writer_Status (q_status q) (w_calls w).

(** The id a request gets. *)
Definition request_id (q : gin_request) w : string :=
  if decide (q_GetHeader q RequestIDHeader = EmptyString)
  then string_of (hex_encode (map (w_rand w) (seq (w_rand_pos w) 16)))
  else q_GetHeader q RequestIDHeader.

Definition id_world (q : gin_request) w : world S D :=
  World (w_calls w ++ [CSet requestIDKey (request_id q w); CHeader RequestIDHeader (request_id q w)])
    (w_metrics w) (w_logs w) (w_store w) (w_pool w) (w_clock w) (w_rand w)
    (if decide (q_GetHeader q RequestIDHeader = EmptyString) then w_rand_pos w + 16 else w_rand_pos w)%nat.

Lemma RequestID_eq q next w : RequestID q next w = next (id_world q w).
Proof.
  unfold RequestID, id_world, request_id, bind, rand_Read, ret, call.
  destruct (decide (q_GetHeader q RequestIDHeader = EmptyString)); simpl; by rewrite <-app_assoc.
Qed.

Definition security_calls (q : gin_request) : list gin_call :=
  (if q_TLS q || bool_decide (q_GetHeader q "X-Forwarded-Proto" = "https"%string)
   then [CHeader "Strict-Transport-Security" hstsHeaderValue] else []) ++
  [CHeader "Content-Security-Policy" cspHeaderValue].

Lemma SecurityHeaders_eq q next w : SecurityHeaders q next w = next (add_calls (security_calls q) w).
Proof.
  unfold SecurityHeaders, security_calls, add_calls, bind, call, ret.
  destruct (q_TLS q || bool_decide _); simpl; [by rewrite <-app_assoc|done].
Qed.

(** The level of the line for a status and a duration, if there is one. *)
Definition line_level (disabled : bool) (status duration : Z) : option level :=
  let slow := 100 * Millisecond <? duration in
  if disabled then (if (400 <=? status) || slow then Some WarnLevel else None)
  else Some (if 500 <=? status then ErrorLevel
             else if ((400 <=? status) && negb (status =? 409)) || slow then WarnLevel else DebugLevel).

Lemma line_level_spec (disabled : bool) status duration :
  match line_level disabled status duration with Some l => [l] | None => [] end =
  if disabled
  then (if decide (400 <= status \/ 100 * Millisecond < duration) then [WarnLevel] else [])
  else (if decide (500 <= status) then [ErrorLevel]
        else if decide ((status < 400 \/ status = 409) /\ ~ 100 * Millisecond < duration)
             then [DebugLevel] else [WarnLevel]).
Proof.
  unfold line_level.
  destruct disabled, (Z.leb_spec 400 status), (Z.leb_spec 500 status), (Z.eqb_spec status 409),
    (Z.ltb_spec (100 * Millisecond) duration); simpl; repeat case_decide; try done; lia.
Qed.

Definition line_fields (disabled : bool) (q : gin_request) (id : string) (status duration : Z) :
    list (string * log_value) :=
  [("request_id", LStr id); ("method", LStr (r_Method (q_http q))); ("path", LStr (q_Path q));
   ("status", LInt status); ("duration_ms", LInt (Z.quot duration Millisecond))] ++
  (if disabled then [] else [("remote_addr", LStr (q_ClientIP q)); ("user_agent", LStr (q_UserAgent q))]).

(** What the middleware logs of a request whose chain returned. *)
Definition request_line (disabled : bool) (q : gin_request) (id : string) (status duration : Z) : list log_event :=
  match line_level disabled status duration with
  | Some l => [LogEvent l (line_fields disabled q id status duration) "http"]
  | None => []
  end.

(** The same, with the tests as propositions. *)
Lemma request_line_spec (disabled : bool) q id status duration :
  let slow := 100 * Millisecond < duration in
  let fields := [("request_id", LStr id); ("method", LStr (r_Method (q_http q))); ("path", LStr (q_Path q));
                 ("status", LInt status); ("duration_ms", LInt (Z.quot duration Millisecond))] in
  request_line disabled q id status duration =
  if disabled
  then (if decide (400 <= status \/ slow) then [LogEvent WarnLevel fields "http"] else [])
  else [LogEvent (if decide (500 <= status) then ErrorLevel
                  else if decide ((status < 400 \/ status = 409) /\ ~ slow) then DebugLevel else WarnLevel)
          (fields ++ [("remote_addr", LStr (q_ClientIP q)); ("user_agent", LStr (q_UserAgent q))]) "http"].
Proof.
  cbv zeta. unfold request_line, line_fields. pose proof (line_level_spec disabled status duration) as Hl.
  destruct disabled, (line_level _ status duration); revert Hl; repeat case_decide; by intros [=]; subst.
Qed.

Lemma Logging_returns b q next w w1 :
  next (tick_clock w) = (Returned (), w1) ->
  let duration := now_of (w_clock w1) - now_of (w_clock w) in
  Logging b q next w = (Returned (),
    match line_level b (status_of q w1) duration with
    | Some l => add_log (LogEvent l (line_fields b q (ctx_GetString (w_calls w1) requestIDKey)
                                       (status_of q w1) duration) "http") (tick_clock w1)
    | None => tick_clock w1
    end).
Proof.
  intros E. cbv zeta. apply (runs_bind _ _ _ (now_of (w_clock w)) (tick_clock w)); [done|].
  eapply runs_bind; [exact E|]. eapply runs_bind; [apply runs_asks|].
  eapply runs_bind; [apply (runs_with_clock time_Now)|].
  unfold line_level, line_fields, status_of. destruct b; [|eapply runs_bind; [apply runs_asks|apply runs_log]].
  change (fst (time_Now (w_clock w1))) with (now_of (w_clock w1)).
  destruct ((400 <=? _) || _); [eapply runs_bind; [apply runs_asks|apply runs_log]|apply runs_ret].
Qed.

Lemma Logging_line b q next w w1 :
  next (tick_clock w) = (Returned (), w1) ->
  exists w', Logging b q next w = (Returned (), w') /\
    w_calls w' = w_calls w1 /\ w_metrics w' = w_metrics w1 /\ w_store w' = w_store w1 /\
    w_pool w' = w_pool w1 /\ w_rand_pos w' = w_rand_pos w1 /\ w_clock w' = snd (time_Now (w_clock w1)) /\
    w_logs w' = w_logs w1 ++ request_line b q (ctx_GetString (w_calls w1) requestIDKey) (status_of q w1)
                               (now_of (w_clock w1) - now_of (w_clock w)).
Proof.
  intros E. eexists. split; [exact (Logging_returns b q next w w1 E)|]. unfold request_line.
  by destruct (line_level b _ _); rewrite ?app_nil_r.
Qed.

Lemma Logging_panics b q next w w1 v :
  next (tick_clock w) = (Panicked v, w1) -> Logging b q next w = (Panicked v, w1).
Proof.
  intros E. unfold Logging. unfold bind at 1.
  change (with_clock time_Now w) with (Returned (now_of (w_clock w)), tick_clock w).
  cbn beta iota. unfold bind at 1. by rewrite E.
Qed.

Definition metrics_path (q : gin_request) : string :=
  if decide (q_FullPath q = EmptyString) then q_Path q else q_FullPath q.

Lemma Metrics_returns q next w w1 :
  next (tick_clock w) = (Returned (), w1) ->
  Metrics q next w = (Returned (),
    tick_clock (add_metrics [Inc RequestsTotal [r_Method (q_http q); metrics_path q; statusStr (status_of q w1)];
                 Observe RequestDuration [r_Method (q_http q); metrics_path q]
                   (now_of (w_clock w1) - now_of (w_clock w))] w1)).
Proof.
  intros E. apply (runs_bind _ _ _ (now_of (w_clock w)) (tick_clock w)); [done|].
  eapply runs_bind; [exact E|]. eapply runs_bind; [apply runs_asks|].
  eapply runs_bind; [apply runs_metric|]. eapply runs_bind; [apply (runs_with_clock time_Now)|].
  unfold runs, metric, tick_clock, add_metrics. cbn [w_calls w_metrics w_logs w_store w_pool w_clock w_rand w_rand_pos].
  by rewrite <-app_assoc.
Qed.

Lemma Metrics_panics q next w w1 v :
  next (tick_clock w) = (Panicked v, w1) -> Metrics q next w = (Panicked v, w1).
Proof.
  intros E. unfold Metrics. unfold bind at 1.
  change (with_clock time_Now w) with (Returned (now_of (w_clock w)), tick_clock w).
  cbn beta iota. unfold bind at 1. by rewrite E.
Qed.

Definition panic_event (q : gin_request) (v : string) : log_event :=
  LogEvent ErrorLevel [("panic", LAny v); ("method", LStr (r_Method (q_http q))); ("path", LStr (q_Path q))]
    "panic recovered".

Lemma Recovery_eq q next w :
  Recovery q next w =
  match next w with
  | (Returned _, w1) => (Returned (), w1)
  | (Panicked v, w1) =>
      (Returned (), add_calls [CAbortWithStatusJSON 500 (JMap [("error", JString "internal_error")])]
                      (add_log (panic_event q v) w1))
  end.
Proof. done. Qed.

Lemma statusStr_Itoa code : statusStr code = strconv_Itoa code.
Proof.
  unfold statusStr. destruct (statusText !! code) as [s|] eqn:E; [|done].
  revert code s E. apply map_Forall_lookup. apply (bool_decide_unpack _). vm_compute. exact I.
Qed.
End Facts.

(** ** Properties *)

Section Properties.
Context {G : Gin} {L : GinLaws} {S D : Type}.
Implicit Types (next : prog S D ()) (w : world S D).

(** The table of status strings is only an optimisation: [statusStr] is
    [strconv.Itoa] on every code, listed or not. *)
Theorem statusStr_is_Itoa code : statusStr code = strconv_Itoa code.
Proof. apply statusStr_Itoa. Qed.

(** C31: [Recovery] lets no panic through, whatever the rest of the chain does.
    A chain that returns is left exactly as it was; one that panics is logged
    once and answered with the internal error, and the status is 500 unless a
    response had already been sent. *)
Theorem recovery_contains_panics q next w :
  let w' := snd (Recovery q next w) in
  fst (Recovery q next w) = Returned () /\
  match next w with
  | (Returned _, w1) => w' = w1
  | (Panicked v, w1) =>
      w_calls w' = w_calls w1 ++ [CAbortWithStatusJSON 500 (JMap [("error", JString "internal_error")])] /\
      w_logs w' = w_logs w1 ++ [panic_event q v] /\
      w_metrics w' = w_metrics w1 /\ w_store w' = w_store w1 /\
      (sent (w_calls w1) = false -> status_of q w' = 500)
  end.
Proof.
  cbv zeta. rewrite Recovery_eq. destruct (next w) as [[u|v] w1]; simpl; [done|].
  split_and!; try done. intros Hs. unfold status_of. simpl. by apply law_status_set.
Qed.

(** [RequestID] runs the rest of the chain exactly once, with an id in the
    context and in the response header that is the client's, if it sent one, and
    otherwise the 32 hexadecimal digits of 16 fresh random bytes, so that two
    generated ids are equal only if the bytes are; the id is never empty. *)
Theorem request_id_assigned q next w :
  exists id w1, RequestID q next w = next w1 /\ id <> EmptyString /\
    w_calls w1 = w_calls w ++ [CSet "request_id" id; CHeader "X-Request-ID" id] /\
    ctx_GetString (w_calls w1) "request_id" = id /\
    w_metrics w1 = w_metrics w /\ w_logs w1 = w_logs w /\ w_store w1 = w_store w /\ w_clock w1 = w_clock w /\
    let sent_id := q_GetHeader q "X-Request-ID" in
    (sent_id <> EmptyString -> id = sent_id /\ w_rand_pos w1 = w_rand_pos w) /\
    (sent_id = EmptyString ->
       String.length id = 32%nat /\ forallb is_hex_digit (bytes_of id) = true /\
       hex_decode (bytes_of id) = map (w_rand w) (seq (w_rand_pos w) 16) /\
       w_rand_pos w1 = (w_rand_pos w + 16)%nat).
Proof.
  exists (request_id q w), (id_world q w). split; [apply RequestID_eq|].
  unfold request_id, id_world. cbn [w_calls w_metrics w_logs w_store w_clock w_rand_pos].
  set (gen := string_of _).
  assert (Hgen : bytes_of gen = hex_encode (map (w_rand w) (seq (w_rand_pos w) 16)))
    by apply bytes_of_string_of.
  assert (Hlen : String.length gen = 32%nat).
  { by rewrite <-length_bytes_of, Hgen, length_hex_encode, length_map, length_seq. }
  split; [case_decide; [by intros E; rewrite E in Hlen|done]|].
  split; [done|]. split.
  { match goal with |- context [w_calls w ++ [?a; ?b]] =>
      replace (w_calls w ++ [a; b]) with ((w_calls w ++ [a]) ++ [b]) by (by rewrite <-app_assoc) end.
    rewrite law_GetString_keep by done. apply law_GetString_set. }
  do 4 (split; [done|]). cbv zeta. unfold RequestIDHeader in *. split; intros Hid.
  - split; by rewrite decide_False.
  - rewrite decide_True by done. split; [done|]. rewrite Hgen. split.
    + apply List.forallb_forall, List.Forall_forall, hex_encode_digits.
    + split; [apply hex_decode_encode|]. by rewrite decide_True.
Qed.

(** C38: the log line of a request whose chain returns.  By default there is
    exactly one line: at error level for a 5xx, at debug level for a fast answer
    that is no error (a 409 counts as none), at warn level otherwise; it carries
    the request id of the context, the method, the path, the status, the duration
    in milliseconds, the client's address and its user agent.  With request
    logging disabled there is one line, at warn level and without the last two,
    exactly for an error status or a slow request.  The middleware does nothing
    else but read the clock. *)
Theorem logging_levels disabled q next w w1 :
  next (tick_clock w) = (Returned (), w1) ->
  let status := status_of q w1 in
  let duration := now_of (w_clock w1) - now_of (w_clock w) in
  let slow := 100 * Millisecond < duration in
  let fields := [("request_id", LStr (ctx_GetString (w_calls w1) "request_id"));
                 ("method", LStr (r_Method (q_http q))); ("path", LStr (q_Path q));
                 ("status", LInt status); ("duration_ms", LInt (Z.quot duration Millisecond))] in
  exists w', Logging disabled q next w = (Returned (), w') /\
    w_calls w' = w_calls w1 /\ w_metrics w' = w_metrics w1 /\ w_store w' = w_store w1 /\
    w_pool w' = w_pool w1 /\ w_rand_pos w' = w_rand_pos w1 /\ w_clock w' = snd (time_Now (w_clock w1)) /\
    w_logs w' = w_logs w1 ++
      if disabled
      then (if decide (400 <= status \/ slow) then [LogEvent WarnLevel fields "http"] else [])
      else [LogEvent (if decide (500 <= status) then ErrorLevel
                      else if decide ((status < 400 \/ status = 409) /\ ~ slow) then DebugLevel else WarnLevel)
              (fields ++ [("remote_addr", LStr (q_ClientIP q)); ("user_agent", LStr (q_UserAgent q))]) "http"].
Proof.
  intros E. cbv zeta. rewrite <-request_line_spec.
  exact (Logging_line disabled q next w w1 E).
Qed.

(** With request logging disabled every blocked duplicate is logged, and at
    a higher level than with request logging enabled: a fast 409 is a warning
    there and a debug line here. *)
Theorem quiet_logging_raises_duplicates q next w w1 :
  next (tick_clock w) = (Returned (), w1) -> status_of q w1 = 409 ->
  now_of (w_clock w1) - now_of (w_clock w) <= 100 * Millisecond ->
  map l_level (w_logs (snd (Logging false q next w))) = map l_level (w_logs w1) ++ [DebugLevel] /\
  map l_level (w_logs (snd (Logging true q next w))) = map l_level (w_logs w1) ++ [WarnLevel].
Proof.
  intros E Hs Hd. rewrite !(Logging_returns _ q next w w1 E), Hs.
  unfold line_level. rewrite (proj2 (Z.ltb_ge _ _) Hd). simpl. by rewrite !map_app.
Qed.

(** [Metrics] counts a request whose chain returns exactly once, under its
    method, its route (the URL path where no route matched) and its final status,
    and observes one duration; every call is one its collector accepts.  A chain
    that panics is not counted at all. *)
Theorem metrics_counts_returning_requests q next w :
  match next (tick_clock w) with
  | (Returned _, w1) => exists w' path t, Metrics q next w = (Returned (), w') /\
      w_metrics w' = w_metrics w1 ++ [Inc RequestsTotal [r_Method (q_http q); path; strconv_Itoa (status_of q w1)];
                                      Observe RequestDuration [r_Method (q_http q); path] t] /\
      (q_FullPath q <> EmptyString -> path = q_FullPath q) /\
      (q_FullPath q = EmptyString -> path = q_Path q) /\
      w_calls w' = w_calls w1 /\ w_logs w' = w_logs w1 /\ w_store w' = w_store w1
  | (Panicked v, w1) => Metrics q next w = (Panicked v, w1)
  end.
Proof.
  destruct (next (tick_clock w)) as [[[]|v] w1] eqn:E; [|by apply Metrics_panics].
  rewrite (Metrics_returns q next w w1 E). eexists _, (metrics_path q), _. split; [reflexivity|].
  rewrite <-statusStr_Itoa. split; [reflexivity|]. unfold metrics_path.
  split; [intros; by rewrite decide_False|]. split; [intros; by rewrite decide_True|done].
Qed.

(** [SecurityHeaders] runs the rest of the chain exactly once, with the
    content security policy always set and the strict transport policy exactly
    for a request that came over TLS, directly or by the proxy's word; it does
    not touch the status or anything else. *)
Theorem security_headers_set q next w :
  exists cs w1, SecurityHeaders q next w = next w1 /\ w_calls w1 = w_calls w ++ cs /\
    CHeader "Content-Security-Policy"
      "default-src 'none'; base-uri 'none'; frame-ancestors 'none'; form-action 'none'" ∈ cs /\
    (CHeader "Strict-Transport-Security" "max-age=31536000; includeSubDomains" ∈ cs <->
       q_TLS q = true \/ q_GetHeader q "X-Forwarded-Proto" = "https"%string) /\
    status_of q w1 = status_of q w /\
    w_metrics w1 = w_metrics w /\ w_logs w1 = w_logs w /\ w_store w1 = w_store w /\ w_clock w1 = w_clock w.
Proof.
  exists (security_calls q), (add_calls (security_calls q) w). split; [apply SecurityHeaders_eq|].
  split; [done|]. unfold security_calls. split_and!; try done.
  - apply elem_of_app. right. by left.
  - destruct (q_TLS q) eqn:Et; simpl; [split; [by left|intros; by left]|].
    case_bool_decide as Eb; simpl.
    + split; [by right|intros; by left].
    + rewrite list_elem_of_singleton. split; [discriminate|intros [?|?]; done].
  - apply status_keeps. apply Forall_app. split; [|by repeat constructor].
    by destruct (q_TLS q || _); repeat constructor.
Qed.
End Properties.

(** ** Witnesses *)

Definition w_query (headers : string -> string) : gin_request :=
  GinRequest (HTTPRequest "POST" "/api/orders?x=1" None [] "1.2.3.4:9000") "/api/orders" false
    headers EmptyString "1.2.3.4" "curl" context_Background 404.
Definition no_headers : gin_request := w_query (fun _ => EmptyString).
Definition over_https : gin_request :=
  w_query (fun k => if decide (k = "X-Forwarded-Proto") then "https" else EmptyString).
Definition w_start : world () () := World [] [] [] () [] (clock_of [0; 0; 7000000]) (fun i => Z_byte (Z.of_nat i)) 0.

(** a handler that answers 409, and one that panics *)
Definition w_conflict : prog () () () := call (CData 409 "application/json" (bytes_of "{}")).
Definition w_panic : prog () () () := panic "nil map".

Lemma recovery_contains_panics_witness :
  let w' := snd (Recovery no_headers w_panic w_start) in
  w_calls w' = [CAbortWithStatusJSON 500 (JMap [("error", JString "internal_error")])] /\ status_of no_headers w' = 500.
Proof.
  destruct (recovery_contains_panics no_headers w_panic w_start) as [_ (Hc & _ & _ & _ & Hs)].
  split; [exact Hc|exact (Hs eq_refl)].
Defined.

Lemma request_id_assigned_witness :
  exists id w1, RequestID no_headers w_conflict w_start = w_conflict w1 /\
    id = "000102030405060708090a0b0c0d0e0f" /\ ctx_GetString (w_calls w1) "request_id" = id.
Proof.
  destruct (request_id_assigned no_headers w_conflict w_start) as (id & w1 & E & _ & Hc & Hg & _ & _ & _ & _ & _ & Hgen).
  exists id, w1. split; [exact E|]. split; [|exact Hg].
  destruct (Hgen eq_refl) as (_ & _ & Hd & _).
  assert (Hid : id = request_id no_headers w_start).
  { rewrite RequestID_eq in E. apply (f_equal (fun r => w_calls (snd r))) in E. simpl in E. rewrite Hc in E.
    simpl in E. congruence. }
  rewrite Hid. vm_compute. reflexivity.
Defined.

(** a fast 409, by default and with request logging disabled *)
Lemma logging_levels_witness :
  exists w1 w2, Logging false no_headers w_conflict w_start = (Returned (), w1) /\
    map l_level (w_logs w1) = [DebugLevel] /\ map (fun e => length (l_fields e)) (w_logs w1) = [7%nat] /\
    Logging true no_headers w_conflict w_start = (Returned (), w2) /\
    map l_level (w_logs w2) = [WarnLevel] /\ map (fun e => length (l_fields e)) (w_logs w2) = [5%nat].
Proof.
  destruct (logging_levels false no_headers w_conflict w_start _ eq_refl) as (w1 & E1 & _ & _ & _ & _ & _ & _ & H1).
  destruct (logging_levels true no_headers w_conflict w_start _ eq_refl) as (w2 & E2 & _ & _ & _ & _ & _ & _ & H2).
  exists w1, w2. split; [exact E1|]. rewrite H1. split; [vm_compute; reflexivity|]. split; [vm_compute; reflexivity|].
  split; [exact E2|]. rewrite H2. split; vm_compute; reflexivity.
Defined.

Lemma quiet_logging_raises_duplicates_witness :
  map l_level (w_logs (snd (Logging true no_headers w_conflict w_start))) = [WarnLevel].
Proof.
  exact (proj2 (quiet_logging_raises_duplicates no_headers w_conflict w_start _ eq_refl eq_refl
    ltac:(vm_compute; discriminate))).
Defined.

Lemma metrics_counts_returning_requests_witness :
  exists w' t, Metrics no_headers w_conflict w_start = (Returned (), w') /\
    w_metrics w' = [Inc RequestsTotal ["POST"; "/api/orders"; "409"];
                    Observe RequestDuration ["POST"; "/api/orders"] t].
Proof.
  destruct (metrics_counts_returning_requests no_headers w_conflict w_start) as (w' & path & t & E & Hm & _ & Hp & _).
  exists w', t. split; [exact E|]. rewrite Hm, (Hp eq_refl). reflexivity.
Defined.

Lemma security_headers_set_witness :
  exists (cs : list gin_call) w1, SecurityHeaders over_https w_conflict w_start = w_conflict w1 /\
    CHeader "Strict-Transport-Security" "max-age=31536000; includeSubDomains" ∈ cs.
Proof.
  destruct (security_headers_set over_https w_conflict w_start) as (cs & w1 & E & _ & _ & H & _).
  exists cs, w1. split; [exact E|]. apply H. right. reflexivity.
Defined.
