(* ===== verification/Server.v ===== *)
(** * Server: cmd/server/main.go

    The process: configuration, logging, the store with its fail-open fallback
    and cache, the router with its middleware chain, the HTTP server and the
    shutdown.  The operating system, the HTTP server and the traffic it carries
    are the parameter [Host]. *)

From S2P Require Import Prelude Sha256 GoTime GoStrings GoJSON GoDuration Fingerprint Store LocalCache Metrics.
From S2P Require Import CachedStore Config RedisStore Gin Handler Middleware.

Local Open Scope go_scope.
Local Open Scope Z_scope.

(** ** [filepath.Dir] *)

Fixpoint split_slash (s : bytes) : list bytes :=
  match s with
  | [] => [[]]
  | c :: s =>
      if decide (c = x2f) then [] :: split_slash s
      else match split_slash s with x :: l => (c :: x) :: l | [] => [[c]] end
  end.
Fixpoint join_slash (l : list bytes) : bytes :=
  match l with [] => [] | [x] => x | x :: l => x ++ x2f :: join_slash l end.

(** One element of the path, onto the reversed list of the elements kept. *)
Definition clean_step (rooted : bool) (acc : list bytes) (x : bytes) : list bytes :=
  if decide (x = [] \/ x = bytes_of ".") then acc
  else if decide (x = bytes_of "..") then
    match acc with
    | y :: acc' => if decide (y = bytes_of "..") then x :: acc else acc'
    | [] => if rooted : bool then [] else [x]
    end
  else x :: acc.

Definition filepath_Clean (s : bytes) : bytes :=
  let rooted := match s with c :: _ => bool_decide (c = x2f) | [] => false end in
  let out := join_slash (rev (foldl (clean_step rooted) [] (split_slash s))) in
  if rooted then x2f :: out else if decide (out = []) then bytes_of "." else out.

(** the part up to and including the last slash *)
Fixpoint dir_part (s : bytes) : bytes :=
  match s with
  | [] => []
  | c :: s' => if existsb (fun b => bool_decide (b = x2f)) s then c :: dir_part s' else []
  end.
Definition filepath_Dir (s : string) : string := string_of (filepath_Clean (dir_part (bytes_of s))).

Example filepath_Dir_samples :
  map filepath_Dir ["log/app.log"; "app.log"; "/app.log"; "a//b/../../../c"; "/../x/y"]
    = ["log"; "."; "/"; ".."; "/x"]%string.
Proof. vm_compute. reflexivity. Qed.

(** ** The store *)

Section Server.
Context {R : Type} `{!RedisClient R}.

(** [store.Store] as [initStore] returns it, and as the handlers get it. *)
Inductive any_store := SRedis (s : RedisStore R) | SMemory (s : MemoryStore).
Inductive dedup_store := Plain (s : any_store) | Cached (s : CachedStore any_store).

#[global] Instance any_store_ops : Store any_store := {|
  IsDuplicate ctx key ttl s clk :=
    match s with
    | SRedis s => let '(r, s, clk) := IsDuplicate ctx key ttl s clk in (r, SRedis s, clk)
    | SMemory s => let '(r, s, clk) := IsDuplicate ctx key ttl s clk in (r, SMemory s, clk)
    end;
  Ping ctx s clk :=
    match s with
    | SRedis s => let '(r, s, clk) := Ping ctx s clk in (r, SRedis s, clk)
    | SMemory s => let '(r, s, clk) := Ping ctx s clk in (r, SMemory s, clk)
    end;
  Close s clk :=
    match s with
    | SRedis s => let '(r, s, clk) := Close s clk in (r, SRedis s, clk)
    | SMemory s => let '(r, s, clk) := Close s clk in (r, SMemory s, clk)
    end |}.

#[global] Instance dedup_store_ops : Store dedup_store := {|
  IsDuplicate ctx key ttl s clk :=
    match s with
    | Plain s => let '(r, s, clk) := IsDuplicate ctx key ttl s clk in (r, Plain s, clk)
    | Cached s => let '(r, s, clk) := IsDuplicate ctx key ttl s clk in (r, Cached s, clk)
    end;
  Ping ctx s clk :=
    match s with
    | Plain s => let '(r, s, clk) := Ping ctx s clk in (r, Plain s, clk)
    | Cached s => let '(r, s, clk) := Ping ctx s clk in (r, Cached s, clk)
    end;
  Close s clk :=
    match s with
    | Plain s => let '(r, s, clk) := Close s clk in (r, Plain s, clk)
    | Cached s => let '(r, s, clk) := Close s clk in (r, Cached s, clk)
    end |}.

#[global] Instance dedup_dynamic : DynamicStore dedup_store := fun s =>
  match s with Plain _ => None | Cached s => Some (CacheLen s) end.

(** The functions [closeStore] may hold. *)
Inductive closer := CloseRedis | CloseNothing | CloseCached.

(** [initStore]: the store, its close function and what was logged. *)
Definition initStore (cfg : Config) (clk : clock) : res (any_store * closer) * list log_event * clock :=
  let '(r, _, clk) := NewRedis cfg clk in
  match r with
  | Err err =>
      if negb (FailOpen cfg)
      then (Err (ErrWrap "redis unavailable and fail-open is disabled" err), [], clk)
      else
        let mem := NewMemory in
        let mem := mkMemoryStore (m_data mem) (Some ErrUnavailable) in
        (Ok (SMemory mem, CloseNothing),
         [LogEvent WarnLevel [("error", LErr err); ("redis_addr", LStr (RedisAddr cfg))]
            "redis unavailable at startup; running fail-open (all requests allowed)"], clk)
  | Ok redisStore => (Ok (SRedis redisStore, CloseRedis), [], clk)
  end.

(** the L1 wrapping, and the close function that replaces the store's own *)
Definition wrap_store (cfg : Config) (s : any_store) (c : closer) : dedup_store * closer * list log_event :=
  if LocalCacheEnabled cfg
  then (Cached (NewCached s), CloseCached, [LogEvent InfoLevel [] "L1 local cache enabled"])
  else (Plain s, c, []).

Definition closeStore (c : closer) (s : dedup_store) (clk : clock) : dedup_store * list log_event * clock :=
  match c with
  | CloseNothing => (s, [], clk)
  | CloseCached => let '(_, s, clk) := Close s clk in (s, [], clk)
  | CloseRedis =>
      let '(err, s, clk) := Close s clk in
      (s, match err with
          | Some e => [LogEvent WarnLevel [("error", LErr e)] "redis close error"]
          | None => []
          end, clk)
  end.

(** ** The router *)

Inductive middleware := MRecovery | MRequestID | MSecurityHeaders | MLogging (disabled : bool) | MMetrics.
Inductive endpoint := HealthEndpoint | External (name : string) | XAccelEndpoint.

Record router := mkRouter {
  rt_Use : list middleware;                      (** in the order of [router.Use] *)
  rt_routes : list (string * string * endpoint); (** method, path, handler *)
  rt_NoRoute : endpoint;
}.

Definition new_router (cfg : Config) : router :=
  mkRouter [MRecovery; MRequestID; MSecurityHeaders; MLogging (DisableRequestLogging cfg); MMetrics]
    ([("GET", "/healthz", HealthEndpoint); ("GET", "/metrics", External "promhttp")] ++
     map (fun p => ("GET", "/debug/pprof" +:+ p, External p))
       ["/"; "/cmdline"; "/profile"; "/symbol"; "/trace"; "/allocs"; "/block"; "/goroutine"; "/heap";
        "/mutex"; "/threadcreate"])
    XAccelEndpoint.

Section Dispatch.
Context {U : UnicodeTables} {G : Gin} {D : Type} `{!Hash D}.
(** The handlers of other packages, by name. *)
Context (external : string -> gin_request -> prog dedup_store D ()).

Definition run_middleware (m : middleware) (q : gin_request) (next : prog dedup_store D ())
  : prog dedup_store D () :=
  match m with
  | MRecovery => Recovery q next
  | MRequestID => RequestID q next
  | MSecurityHeaders => SecurityHeaders q next
  | MLogging disabled => Logging disabled q next
  | MMetrics => Metrics q next
  end.

Definition run_endpoint (cfg : Config) (pick : nat) (e : endpoint) (q : gin_request) : prog dedup_store D () :=
  match e with
  | HealthEndpoint => health_Handle q
  | External name => external name q
  | XAccelEndpoint => Handle (NewXAccelDedup cfg (XAccelRedirectPrefix cfg)) pick q
  end.

(** The route gin matched is the one [FullPath] names.  A path that differs from a
    route by a trailing slash only is redirected by gin itself and comes neither
    here nor to the middlewares. *)
Definition route (rt : router) (q : gin_request) : endpoint :=
  match list_find (fun r => fst r = (r_Method (q_http q), q_FullPath q)) (rt_routes rt) with
  | Some (_, r) => snd r
  | None => rt_NoRoute rt
  end.

(** One request through the router: the middlewares around the handler. *)
Definition ServeHTTP (cfg : Config) (pick : nat) (q : gin_request) : prog dedup_store D () :=
  let rt := new_router cfg in
  foldr (fun m next => run_middleware m q next) (run_endpoint cfg pick (route rt q) q) (rt_Use rt).
End Dispatch.

(** ** The HTTP server *)

Definition VersionTLS12 : Z := 771.
Definition VersionTLS13 : Z := 772.

Record http_server := mkServer {
  srv_Addr : string;
  srv_ReadTimeout : Z; srv_WriteTimeout : Z; srv_IdleTimeout : Z;
  srv_TLSMinVersion : option Z;        (** [TLSConfig.MinVersion], [None] without a [TLSConfig] *)
}.

Definition new_server (cfg : Config) : http_server :=
  mkServer (ListenAddr cfg) (i64 (5 * RedisReadTimeout cfg)) (i64 (5 * RedisWriteTimeout cfg))
    (i64 (60 * RedisDialTimeout cfg))
    (if TLSEnabled cfg
     then Some (if decide (TLSMinVersion cfg = "1.3"%string) then VersionTLS13 else VersionTLS12)
     else None).
End Server.
Arguments any_store R : clear implicits.
Arguments dedup_store R : clear implicits.

(** ** The process *)

(** The rotated log file: [lumberjack.Logger] as [run] configures it. *)
Record log_rotator := LogRotator {
  lr_Filename : string; lr_MaxSize : Z; lr_MaxBackups : Z; lr_MaxAge : Z; lr_Compress : bool;
}.
Definition new_rotator (cfg : Config) : log_rotator :=
  LogRotator (LogFile cfg) (LogMaxSizeMB cfg) (LogMaxBackups cfg) (LogMaxAgeDays cfg) (LogCompress cfg).

(** What the program asks of its surroundings, in the order it does. *)
Inductive event :=
  | ESetGlobalLevel (l : string)
  | EMkdirAll (dir : string)
  | ENewLogger (file : log_rotator)              (** writes to stdout and to the rotated file *)
  | ELog (e : log_event)
  | ESetGCPercent (n : Z)
  | ESetMode (mode : string)                     (** [gin.SetMode] *)
  | ENotify (signals : list string)              (** [signal.Notify] *)
  | EListen (srv : http_server) (tls : option (string * string))   (** certificate and key files *)
  | EShutdown (deadline : context)
  | ECloseStore (c : closer)
  | ECloseLog.

(** The case of the [select] that is taken: the listener's channel, or a signal. *)
Inductive wakeup := ListenerDone | Signal (name : string).

Class Host (R : Type) := {
  zerolog_ParseLevel : string -> res string;
  os_MkdirAll : string -> option error;
  SetGCPercent : Z -> Z;                          (** the old percentage *)
  ListenAndServe : http_server -> option (string * string) -> option error;
  http_ErrServerClosed : error;
  selected : wakeup;
  Shutdown : context -> option error;
  (** what the requests served before the exit have made of the store *)
  traffic : dedup_store R -> clock -> dedup_store R * clock;
}.

(** How a run ended: its error, what it did, and the store, if one was opened. *)
Record outcome_run (R : Type) := RunOutcome {
  run_err : option error;
  run_events : list event;
  run_store : option (dedup_store R);
}.
Arguments RunOutcome {R}. Arguments run_err {R}. Arguments run_events {R}. Arguments run_store {R}.

Section Run.
Context {R : Type} `{!RedisClient R} `{!Host R} {U : UnicodeTables} {V : Type} `{!Viper V}.

Definition start_event (cfg : Config) : log_event :=
  LogEvent InfoLevel
    [("addr", LStr (ListenAddr cfg)); ("tls_enabled", LBool (TLSEnabled cfg));
     ("tls_min_version", LStr (TLSMinVersion cfg)); ("redis", LStr (RedisAddr cfg));
     ("redis_db", LInt (RedisDB cfg)); ("dedup_window", LStr (Duration_String (DedupWindow cfg)));
     ("max_body_bytes", LInt (MaxBodyBytes cfg)); ("fail_open", LBool (FailOpen cfg));
     ("exclude_methods", LStrs (ExcludeMethods cfg))]
    "starting dedup-service".

(** The goroutine that listens: what it logs, and what it sends before it
    closes the channel. *)
Definition tls_files (cfg : Config) : option (string * string) :=
  if TLSEnabled cfg then Some (TLSCertFile cfg, TLSKeyFile cfg) else None.
Definition listen_event (cfg : Config) : log_event :=
  if TLSEnabled cfg
  then LogEvent InfoLevel [("addr", LStr (ListenAddr cfg)); ("cert_file", LStr (TLSCertFile cfg));
         ("key_file", LStr (TLSKeyFile cfg)); ("tls_min_version", LStr (TLSMinVersion cfg))]
         "https server listening"
  else LogEvent InfoLevel [("addr", LStr (ListenAddr cfg))] "http server listening".
Definition listener_sends (cfg : Config) : option error :=
  match ListenAndServe (new_server cfg) (tls_files cfg) with
  | Some err => if errors_is err http_ErrServerClosed then None else Some (ErrWrap "http server" err)
  | None => None
  end.

(** from [signal.Notify] to the end, without the deferred calls *)
Definition serve_until_done (cfg : Config) (clk : clock) : option error * list event :=
  let events := [ENotify ["interrupt"; "terminated"]; ELog (listen_event cfg); EListen (new_server cfg) (tls_files cfg)] in
  let shutdown (events : list event) :=
    let '(ctx, _) := context_WithTimeout context_Background (ShutdownTimeout cfg) clk in
    match Shutdown ctx with
    | Some err => (Some (ErrWrap "graceful shutdown" err), events ++ [EShutdown ctx])
    | None => (None, events ++ [EShutdown ctx; ELog (LogEvent InfoLevel [] "server stopped")])
    end in
  match selected with
  | ListenerDone =>
      match listener_sends cfg with
      | Some err => (Some err, events)
      | None => shutdown events                  (* a nil from the closed channel *)
      end
  | Signal sig => shutdown (events ++ [ELog (LogEvent InfoLevel [("signal", LStr sig)] "shutdown signal received")])
  end.

Definition gc_events (cfg : Config) : list event :=
  if 0 <? GOGC cfg
  then [ESetGCPercent (GOGC cfg);
        ELog (LogEvent InfoLevel [("gogc_old", LInt (SetGCPercent (GOGC cfg))); ("gogc_new", LInt (GOGC cfg))]
                "GC tuning applied")]
  else [].

(** [run]; the deferred calls run last in, first out on every path after them. *)
Definition run_server (clk : clock) : outcome_run R :=
  match Load [] with
  | Err err => RunOutcome (Some (ErrWrap "config" err)) [] None
  | Ok cfg =>
      let lvl := match zerolog_ParseLevel (LogLevel cfg) with Ok l => l | Err _ => "info"%string end in
      let logDir := filepath_Dir (LogFile cfg) in
      let ev := [ESetGlobalLevel lvl; EMkdirAll logDir] in
      match os_MkdirAll logDir with
      | Some err => RunOutcome (Some (ErrWrap ("creating log directory " +:+ logDir) err)) ev None
      | None =>
          let ev := ev ++ [ENewLogger (new_rotator cfg); ELog (start_event cfg)] in
          let '(r, logs, clk) := initStore cfg clk in
          let ev := ev ++ map ELog logs in
          match r with
          | Err err => RunOutcome (Some err) (ev ++ [ECloseLog]) None
          | Ok (s, close) =>
              let ev := ev ++ gc_events cfg in
              let '(dedupStore, close, logs) := wrap_store cfg s close in
              let ev := ev ++ map ELog logs ++ [ESetMode "release"] ++
                [ELog (LogEvent InfoLevel [("redirect_prefix", LStr (XAccelRedirectPrefix cfg))]
                         "X-Accel-Redirect mode enabled (body-based dedup, Nginx forwards)")] in
              let '(dedupStore, clk) := traffic dedupStore clk in
              let '(err, served) := serve_until_done cfg clk in
              let '(dedupStore, logs, _) := closeStore close dedupStore clk in
              RunOutcome err (ev ++ served ++ [ECloseStore close] ++ map ELog logs ++ [ECloseLog])
                (Some dedupStore)
          end
      end
  end.

(** [main]: what goes to standard error, and the exit code. *)
Definition newline : string := string_of [x0a].
Definition main (clk : clock) : string * Z :=
  match run_err (run_server clk) with
  | Some err => (("fatal: " +:+ error_text err +:+ newline)%string, 1)
  | None => (EmptyString, 0)
  end.
End Run.

(** ** The store the process runs on honours the contract *)

Section Laws.
Context {R : Type} `{!RedisClient R} {keys : R -> gmap string Z} {slack : Z} `{L : !RedisLaws R keys slack}.

Definition any_deadlines (s : any_store R) : gmap string Z :=
  match s with SRedis s => redis_deadlines keys s | SMemory m => memory_deadlines m end.
Definition dedup_deadlines (s : dedup_store R) : gmap string Z :=
  match s with Plain s => any_deadlines s | Cached s => any_deadlines (backend s) end.

Lemma any_store_laws : 0 <= slack -> StoreLaws (any_store R) any_deadlines slack.
Proof.
  intros Hs. split.
  - intros ctx key ttl [s|s] clk r s' clk' Ht Hm E; simpl in E.
    + destruct (redis_IsDuplicate ctx key ttl s clk) as [[r1 s1] clk1] eqn:E1. injection E as <- <- <-.
      exact (law_IsDuplicate (StoreLaws:=redis_store_laws keys slack) _ _ _ _ _ _ _ _ Ht Hm E1).
    + destruct (memory_IsDuplicate ctx key ttl s clk) as [[r1 s1] clk1] eqn:E1. injection E as <- <- <-.
      destruct (law_IsDuplicate (StoreLaws:=memory_store_laws) _ _ _ _ _ _ _ _ Ht Hm E1) as (Hl & now & Hn & Ho).
      split; [exact Hl|]. exists now. split; [exact Hn|]. by eapply outcome_weaken.
  - intros ctx [s|s] clk r s' clk' Hm E; simpl in E.
    + destruct (redis_store_Ping ctx s clk) as [[r1 s1] clk1] eqn:E1. injection E as <- <- <-.
      exact (law_Ping (StoreLaws:=redis_store_laws keys slack) _ _ _ _ _ _ Hm E1).
    + injection E as <- <- <-. split; reflexivity.
Qed.

Lemma dedup_store_laws : 0 <= slack -> AdmissionLaws (dedup_store R) dedup_deadlines slack.
Proof.
  intros Hs. pose proof (any_store_laws Hs) as LA. intros ctx key ttl [s|s] clk r s' clk' Ht Hm E.
  - change ((let '(r1, s1, clk1) := IsDuplicate ctx key ttl s clk in (r1, Plain s1, clk1)) = (r, s', clk')) in E.
    destruct (IsDuplicate ctx key ttl s clk) as [[r1 s1] clk1] eqn:E1. injection E as <- <- <-.
    exact (law_admission (AdmissionLaws:=store_admission_laws _) _ _ _ _ _ _ _ _ Ht Hm E1).
  - change ((let '(r1, s1, clk1) := IsDuplicate ctx key ttl s clk in (r1, Cached s1, clk1)) = (r, s', clk')) in E.
    destruct (IsDuplicate ctx key ttl s clk) as [[r1 s1] clk1] eqn:E1. injection E as <- <- <-.
    exact (law_admission (AdmissionLaws:=cached_admission_laws) _ _ _ _ _ _ _ _ Ht Hm E1).
Qed.
End Laws.

(** ** One request through the whole chain *)

Section Chain.
Context {R : Type} `{!RedisClient R} {U : UnicodeTables} {G : Gin} {L : GinLaws} {D : Type} `{!Hash D}.
Context (external : string -> gin_request -> prog (dedup_store R) D ()).
Implicit Types (w : world (dedup_store R) D).

(** The world the handler gets. *)
Definition entry (q : gin_request) w : world (dedup_store R) D :=
  tick_clock (tick_clock (add_calls (security_calls q) (id_world q w))).

Abbreviation the_handler cfg pick q := (run_endpoint external cfg pick (route (new_router cfg) q) q).

Lemma ServeHTTP_eq cfg pick q w :
  ServeHTTP external cfg pick q w =
  Recovery q (fun w => Logging (DisableRequestLogging cfg) q (Metrics q (the_handler cfg pick q))
                         (add_calls (security_calls q) (id_world q w))) w.
Proof.
  unfold ServeHTTP, new_router. cbn [rt_Use foldr run_middleware]. rewrite !Recovery_eq.
  by rewrite RequestID_eq, SecurityHeaders_eq.
Qed.

Lemma ServeHTTP_returns cfg pick q w w1 :
  the_handler cfg pick q (entry q w) = (Returned (), w1) ->
  exists w', ServeHTTP external cfg pick q w = (Returned (), w') /\
    w_calls w' = w_calls w1 /\ w_store w' = w_store w1 /\
    w_logs w' = w_logs w1 ++ request_line (DisableRequestLogging cfg) q (ctx_GetString (w_calls w1) requestIDKey)
      (status_of q w1) (now_of (snd (time_Now (w_clock w1))) - now_of (w_clock w)) /\
    w_metrics w' = w_metrics w1 ++
      [Inc RequestsTotal [r_Method (q_http q); metrics_path q; strconv_Itoa (status_of q w1)];
       Observe RequestDuration [r_Method (q_http q); metrics_path q]
         (now_of (w_clock w1) - now_of (snd (time_Now (w_clock w))))].
Proof.
  intros E. rewrite ServeHTTP_eq, Recovery_eq.
  pose proof (Metrics_returns q _ _ _ E) as EM.
  change (entry q w) with (tick_clock (tick_clock (add_calls (security_calls q) (id_world q w)))) in EM.
  destruct (Logging_line (DisableRequestLogging cfg) q _ _ _ EM) as (w' & -> & Hc & Hm & Hs & _ & _ & _ & Hl).
  exists w'. rewrite Hc, Hm, Hs, Hl, <-statusStr_Itoa. by split_and!.
Qed.

Lemma ServeHTTP_panics cfg pick q w w1 v :
  the_handler cfg pick q (entry q w) = (Panicked v, w1) ->
  ServeHTTP external cfg pick q w =
    (Returned (), add_calls [CAbortWithStatusJSON 500 (JMap [("error", JString "internal_error")])]
                    (add_log (panic_event q v) w1)).
Proof.
  intros E. rewrite ServeHTTP_eq, Recovery_eq.
  pose proof (Metrics_panics q _ (tick_clock (add_calls (security_calls q) (id_world q w))) w1 v E) as EM.
  by rewrite (Logging_panics (DisableRequestLogging cfg) q _ _ _ _ EM).
Qed.

(** A request no route matched goes to the dedup handler. *)
Lemma route_unmatched cfg q : q_FullPath q = EmptyString -> route (new_router cfg) q = XAccelEndpoint.
Proof.
  intros Hp. unfold route.
  destruct (list_find _ _) as [[i r]|] eqn:E; [|done].
  apply list_find_Some in E as (Hr & Hf & _). exfalso.
  assert (HF : Forall (fun r => snd (fst r) <> EmptyString) (rt_routes (new_router cfg))).
  { simpl. repeat (constructor; [discriminate|]). constructor. }
  eapply Forall_lookup_1 in HF; [|exact Hr]. apply HF. by rewrite Hf.
Qed.

(** The context key and the status at the end of the chain. *)
Definition decision_status (cfg : Config) (d : decision) : Z :=
  match d with
  | Excluded | Allowed => 200
  | Duplicate => 409
  | Failed => if FailOpen cfg then 200 else 500
  end.

Lemma status_answer h q d tr init :
  sent tr = false -> Writer_Status init (tr ++ answer h q d) = decision_status (h_cfg h) d.
Proof.
  intros Hs.
  assert (Hred : Writer_Status init (tr ++ redirect h q) = 200).
  { unfold redirect.
    replace (tr ++ [CHeader _ _; CHeader _ _; CStatus 200]) with ((tr ++ [CHeader "X-Accel-Redirect"
      (h_redirectPrefix h +:+ r_RequestURI (q_http q)); CHeader "Content-Length" "0"]) ++ [CStatus 200])
      by (by rewrite <-app_assoc).
    apply law_status_set; [done|done|]. by rewrite sent_app, Hs. }
  destruct d; simpl; [done|done|by apply law_status_set|].
  destruct (FailOpen (h_cfg h)); [done|by apply law_status_set].
Qed.

Lemma answer_keeps_id h q d : Forall (fun c => forall v, c <> CSet requestIDKey v) (answer h q d).
Proof. destruct d; simpl; [| | |destruct (FailOpen _)]; repeat constructor; discriminate. Qed.

Lemma entry_calls q w :
  w_calls (entry q w) =
    w_calls w ++ [CSet "request_id" (request_id q w); CHeader "X-Request-ID" (request_id q w)] ++ security_calls q.
Proof. simpl. by rewrite <-app_assoc. Qed.

Lemma entry_id q w : ctx_GetString (w_calls (entry q w)) requestIDKey = request_id q w.
Proof.
  rewrite entry_calls. cbn [app].
  replace (w_calls w ++ CSet "request_id" (request_id q w) :: CHeader "X-Request-ID" (request_id q w) :: security_calls q)
    with ((w_calls w ++ [CSet "request_id" (request_id q w)]) ++ CHeader "X-Request-ID" (request_id q w) :: security_calls q)
    by (by rewrite <-app_assoc).
  rewrite GetString_keeps; [apply law_GetString_set|].
  constructor; [done|]. unfold security_calls. apply Forall_app.
  split; [by destruct (q_TLS q || _); repeat constructor|by repeat constructor].
Qed.
End Chain.

(** ** The fallback store *)

Section Degraded.
Context {R : Type} `{!RedisClient R} {U : UnicodeTables} {D : Type} `{!Hash D} {H : bytes -> bytes} `{!HashLaws D H}.

(** A store that answers every call with [ErrUnavailable], behind an empty cache. *)
Definition degraded_backend (s : any_store R) : Prop :=
  exists m, s = SMemory m /\ m_Err m = Some ErrUnavailable.
Definition degraded (s : dedup_store R) : Prop :=
  match s with
  | Plain s => degraded_backend s
  | Cached c => degraded_backend (backend c) /\ cache c = NewLocalCache
  end.

Lemma NewLocalCache_read key : lc_read NewLocalCache key = None.
Proof. by rewrite <-lookup_flat, flat_New by apply well_sharded_New. Qed.

Lemma degraded_backend_call ctx key ttl s clk :
  degraded_backend s -> IsDuplicate ctx key ttl s clk = ((false, Some ErrUnavailable), s, clk).
Proof. intros (m & -> & He). simpl. unfold memory_IsDuplicate. by rewrite He. Qed.

Lemma degraded_call ctx key ttl (s : dedup_store R) clk :
  degraded s ->
  exists s' clk', IsDuplicate ctx key ttl s clk = ((false, Some ErrUnavailable), s', clk') /\ degraded s'.
Proof.
  destruct s as [s|c]; intros Hd.
  - exists (Plain s), clk. split; [|done]. simpl IsDuplicate.
    pose proof (degraded_backend_call ctx key ttl s clk Hd) as E.
    change (match s with SRedis s => _ | SMemory s => _ end) with (IsDuplicate ctx key ttl s clk).
    by rewrite E.
  - destruct Hd as [Hb Hc].
    assert (Hlive : lc_live (cache c) key (now_of clk) = false).
    { unfold lc_live. by rewrite Hc, NewLocalCache_read. }
    assert (Hcon : Contains (cache c) key clk = (false, NewLocalCache, snd (time_Now clk))).
    { unfold Contains. rewrite Hc, NewLocalCache_read. done. }
    eexists _, _. split.
    + change (IsDuplicate ctx key ttl (Cached c) clk) with
        (let '(r, s, clk) := IsDuplicate ctx key ttl c clk in (r, @Cached R s, clk)).
      rewrite cached_miss by done. rewrite Hcon, degraded_backend_call by done. reflexivity.
    + done.
Qed.

Lemma degraded_Handle h pick q (w : world (dedup_store R) D) :
  FailOpen (h_cfg h) = true -> degraded (w_store w) ->
  exists w', Handle h pick q w = (Returned (), w') /\ w_calls w' = w_calls w ++ redirect h q /\
    degraded (w_store w').
Proof.
  intros Hf Hd. destruct (Handle_total (H:=H) h pick q w) as (w' & lat & E & [Hc _ _ _] & Hr).
  exists w'. split; [done|].
  destruct (reaches_store h q) eqn:Hrs.
  - rewrite decide_reaches in Hc by done. destruct Hr as (_ & Hs & _).
    destruct (store_call_begin (H:=H) h q (w_store w) (w_clock w)) as (ctx & clk0 & _ & Ec).
    destruct (degraded_call ctx (key_of (H:=H) q) (DedupWindow (h_cfg h)) (w_store w) clk0 Hd)
      as (s' & clk' & E' & Hd'). rewrite Ec, E' in Hc, Hs. simpl in Hc, Hs.
    rewrite Hf in Hc. split; [done|]. by rewrite Hs.
  - destruct Hr as (_ & Hs & _). rewrite Hs. split; [|done]. rewrite Hc. unfold decide_request.
    unfold reaches_store in Hrs. destruct (excluded h q); [done|].
    destruct (snd (body_of q)); [simpl; by rewrite Hf|done].
Qed.

Lemma degraded_serve h reqs (w : world (dedup_store R) D) :
  FailOpen (h_cfg h) = true -> degraded (w_store w) ->
  Forall (fun c => sv_calls c = redirect h (sv_req c)) (fst (serve h reqs w)) /\
  degraded (w_store (snd (serve h reqs w))).
Proof.
  intros Hf. revert w. induction reqs as [|[[idle pick] q] reqs IH]; intros w Hd; [by split; [constructor|]|].
  cbn [serve].
  destruct (degraded_Handle h pick q (next_request idle w) Hf Hd) as (w1 & E & Hc & Hd1). rewrite E. cbn [snd].
  destruct (IH w1 Hd1) as [HF Hd2]. destruct (serve h reqs w1) as [log w2]. split; [|done].
  constructor; [by rewrite Hc|done].
Qed.
End Degraded.

(** ** Properties *)

Section Properties.
Context {R : Type} `{!RedisClient R}.

(** [initStore] never gives a working-looking store for an unreachable Redis:
    a successful ping gives the RedisStore and its close function; a failed one
    is fatal in fail-closed mode, with the cause kept in the chain of the error,
    and in fail-open mode gives a store that refuses every call for ever. *)
Theorem initStore_cases cfg clk :
  match fst (fst (NewRedis cfg clk)) with
  | Ok s => fst (fst (initStore cfg clk)) = Ok (SRedis s, CloseRedis)
  | Err e =>
      (FailOpen cfg = false -> exists err, fst (fst (initStore cfg clk)) = Err err /\ errors_is err e = true) /\
      (FailOpen cfg = true -> exists s, fst (fst (initStore cfg clk)) = Ok (s, CloseNothing) /\
         degraded_backend s /\
         forall ctx key ttl clk, IsDuplicate ctx key ttl s clk = ((false, Some ErrUnavailable), s, clk))
  end.
Proof.
  unfold initStore. destruct (NewRedis cfg clk) as [[[s|e] c] clk1]; simpl; [done|].
  destruct (FailOpen cfg); simpl; split; intros [=].
  - exists (SMemory (mkMemoryStore ∅ (Some ErrUnavailable))). split; [done|].
    assert (Hd : degraded_backend (SMemory (R:=R) (mkMemoryStore ∅ (Some ErrUnavailable)))) by (by eexists).
    split; [exact Hd|]. intros ctx key ttl clk2. exact (degraded_backend_call ctx key ttl _ clk2 Hd).
  - eexists. split; [done|]. apply errors_is_wrap, errors_is_refl.
Qed.

(** C23: the service that came up without Redis.  In fail-open mode, with or
    without the cache, every request of every sequence is redirected, however
    often it is repeated; the store never recovers, and the health check
    reports it as unavailable all the while. *)
Theorem degraded_mode_allows_everything {U : UnicodeTables} {D : Type} `{!Hash D} {H : bytes -> bytes}
    `{!HashLaws D H} cfg clk s c e h reqs (w : world (dedup_store R) D) :
  fst (fst (NewRedis cfg clk)) = Err e -> FailOpen cfg = true ->
  fst (fst (initStore cfg clk)) = Ok (s, c) ->
  h_cfg h = cfg -> w_store w = fst (fst (wrap_store cfg s c)) ->
  Forall (fun r => sv_calls r = redirect h (sv_req r)) (fst (serve h reqs w)) /\
  forall ctx clk', fst (fst (Ping ctx (w_store (snd (serve h reqs w))) clk')) = Some ErrUnavailable.
Proof.
  intros He Hf Hi Hh Hw.
  assert (Hd : degraded (w_store w)).
  { revert Hi. unfold initStore. destruct (NewRedis cfg clk) as [[r c'] clk1]. simpl in He. subst r. rewrite Hf.
    simpl. intros [= <- <-]. rewrite Hw. unfold wrap_store. destruct (LocalCacheEnabled cfg); simpl;
      [split; [by eexists|done]|by eexists]. }
  subst cfg. destruct (degraded_serve (H:=H) h reqs w Hf Hd) as [HF Hd']. split; [exact HF|].
  intros ctx clk'. destruct (w_store (snd (serve h reqs w))) as [s'|c']; simpl in Hd'.
  - destruct Hd' as (m & -> & Hm). simpl. exact Hm.
  - destruct Hd' as [(m & Hb & Hm) _]. simpl. unfold cached_Ping. rewrite Hb. simpl. exact Hm.
Qed.

(** C1: the service's promise with the store it really runs on: over a Redis
    client with the documented semantics, with or without the cache (and with
    the fallback store), in fail-closed mode two requests with the same key that
    are both let through lie a whole window apart, up to Redis's resolution. *)
Theorem service_replay_blocked {U : UnicodeTables} {D : Type} `{!Hash D} {H : bytes -> bytes} `{!HashLaws D H}
    {keys : R -> gmap string Z} {slack : Z} `{L : !RedisLaws R keys slack}
    h key reqs (w : world (dedup_store R) D) log w' pre c1 mid c2 post :
  0 <= slack <= DedupWindow (h_cfg h) -> 0 < DedupWindow (h_cfg h) -> FailOpen (h_cfg h) = false ->
  monotone (w_clock w) -> serve h reqs w = (log, w') ->
  log = pre ++ c1 :: mid ++ c2 :: post ->
  let_through (H:=H) h key c1 -> let_through (H:=H) h key c2 ->
  sv_begin c1 + DedupWindow (h_cfg h) - slack <= sv_end c2.
Proof.
  intros Hs Hw Hf Hm E Hlog H1 H2.
  pose proof (dedup_store_laws (keys:=keys) (slack:=slack) ltac:(lia)) as LD.
  eapply (serve_apart (H:=H) (deadlines:=dedup_deadlines (keys:=keys))); eauto. lia.
Qed.

(** C4: a request that no route matched, through the whole chain.  It is answered,
    never aborted, by the request id and the security headers followed by the
    decision's answer; the status the client sees is 200, 409 or 500 by the
    decision.  Nothing is counted but the latency of the store, if it was asked,
    the decision, once, in [checks_total] and the request, once, in
    [http_requests_total] under the status that was sent, with its duration.
    Nothing is logged but the handler's lines and, where the level table of
    [logging_levels] asks for one, one request line with the id and the status
    that were sent. *)
Theorem service_answers {U : UnicodeTables} {G : Gin} {LG : GinLaws} {D : Type} `{!Hash D} {H : bytes -> bytes}
    `{!HashLaws D H} external cfg pick q (w : world (dedup_store R) D) :
  q_FullPath q = EmptyString -> w_calls w = [] ->
  let h := NewXAccelDedup cfg (XAccelRedirectPrefix cfg) in
  let s := w_store w in
  let start := w_clock w in                              (* [Logging] reads first, then [Metrics] *)
  let clk := w_clock (entry q w) in
  let d := decide_request (H:=H) h q s clk in
  let finish := handler_clock (H:=H) h q s clk in        (* [Metrics] reads first, then [Logging] *)
  exists w', ServeHTTP external cfg pick q w = (Returned (), w') /\
    w_calls w' = [CSet "request_id" (request_id q w); CHeader "X-Request-ID" (request_id q w)]
                 ++ security_calls q ++ answer h q d /\
    status_of q w' = decision_status cfg d /\
    w_metrics w' = w_metrics w ++ handler_latency (H:=H) h q s clk ++
      [Inc DedupChecksTotal [decision_label d];
       Inc RequestsTotal [r_Method (q_http q); q_Path q; strconv_Itoa (decision_status cfg d)];
       Observe RequestDuration [r_Method (q_http q); q_Path q] (now_of finish - now_of (snd (time_Now start)))] /\
    w_logs w' = w_logs w ++ handler_logs (H:=H) h q s clk ++
      request_line (DisableRequestLogging cfg) q (request_id q w) (decision_status cfg d)
        (now_of (snd (time_Now finish)) - now_of start).
Proof.
  cbv zeta. intros Hp H0.
  set (h := NewXAccelDedup cfg (XAccelRedirectPrefix cfg)).
  destruct (Handle_exact (H:=H) h pick q (entry q w)) as (w1 & E & [Hc Hme Hl _] & Hclk & _).
  set (d := decide_request (H:=H) h q (w_store w) (w_clock (entry q w))).
  change (w_store (entry q w)) with (w_store w) in *. fold d in Hc, Hme.
  assert (Eh : run_endpoint external cfg pick (route (new_router cfg) q) q (entry q w) = (Returned (), w1))
    by (by rewrite route_unmatched).
  destruct (ServeHTTP_returns external cfg pick q w w1 Eh) as (w' & ES & Hc' & _ & Hl' & Hm').
  assert (Hst : status_of q w1 = decision_status cfg d).
  { unfold status_of. rewrite Hc. apply (status_answer h).
    rewrite entry_calls, H0. cbn [app]. unfold security_calls. by destruct (q_TLS q || _). }
  assert (Hid : ctx_GetString (w_calls w1) requestIDKey = request_id q w).
  { rewrite Hc, GetString_keeps by apply answer_keeps_id. apply entry_id. }
  exists w'. split; [exact ES|].
  split; [by rewrite Hc', Hc, entry_calls, H0, <-!app_assoc|].
  split; [by unfold status_of in *; rewrite Hc'|]. split.
  - rewrite Hm', Hme, Hst, Hclk. unfold metrics_path. rewrite decide_True by done. by rewrite <-!app_assoc.
  - rewrite Hl', Hl, Hst, Hid, Hclk. by rewrite <-!app_assoc.
Qed.

Lemma Ping_Plain ctx (s : any_store R) clk :
  Ping ctx (Plain s) clk = let '(r, s, clk) := Ping ctx s clk in (r, Plain s, clk).
Proof. done. Qed.
Lemma Ping_Cached ctx (c : CachedStore (any_store R)) clk :
  Ping ctx (Cached c) clk =
  let '(r, b, clk) := Ping ctx (backend c) clk in (r, Cached (cs_with_backend b c), clk).
Proof.
  change (Ping ctx (Cached c) clk) with
    (let '(r, c, clk) := (let '(err, b, clk) := Ping ctx (backend c) clk in (err, cs_with_backend b c, clk)) in
     (r, Cached c, clk)).
  by destruct (Ping ctx (backend c) clk) as [[r b] clk'].
Qed.

(** C36: the health check, through the whole chain.  [GET /healthz] asks the store
    once and is answered 503 with the text of the error when the ping fails, and
    200 otherwise, with the number of cached keys exactly when the cache is on;
    the answer carries the request id and the security headers, the status the
    client sees is the one that is counted, under the path of the route, and
    neither the cache nor [checks_total] is touched. *)
Theorem health_served {U : UnicodeTables} {G : Gin} {LG : GinLaws} {D : Type} `{!Hash D}
    external cfg pick q (w : world (dedup_store R) D) :
  r_Method (q_http q) = "GET"%string -> q_FullPath q = "/healthz"%string -> w_calls w = [] ->
  let ping := Ping (q_Context q) (w_store w) (w_clock (entry q w)) in
  exists w' t, ServeHTTP external cfg pick q w = (Returned (), w') /\
    w_store w' = snd (fst ping) /\
    w_calls w' = [CSet "request_id" (request_id q w); CHeader "X-Request-ID" (request_id q w)]
                 ++ security_calls q ++
      [match fst (fst ping), w_store w with
       | Some e, _ => CJSON 503 (errorBody_json (mkErrorBody "store_unavailable" (error_text e)))
       | None, Cached c => CJSON 200 (JMap [("status", JString "ok"); ("cache_size", JInt (Len (cache c)))])
       | None, Plain _ => CData 200 jsonContentType healthOKJSON
       end] /\
    status_of q w' = (if fst (fst ping) is Some _ then 503 else 200) /\
    w_metrics w' = w_metrics w ++
      [Inc RequestsTotal ["GET"; "/healthz"; if fst (fst ping) is Some _ then "503" else "200"];
       Observe RequestDuration ["GET"; "/healthz"] t].
Proof.
  cbv zeta. intros Hm Hf H0.
  destruct (health_Handle_returns q (entry q w)) as (w1 & E & Hs & Hme & Hc).
  assert (Eh : run_endpoint external cfg pick (route (new_router cfg) q) q (entry q w) = (Returned (), w1)).
  { unfold route. by rewrite Hm, Hf. }
  destruct (ServeHTTP_returns external cfg pick q w w1 Eh) as (w' & ES & Hc' & Hs' & _ & Hm').
  assert (Ha : health_answer q (entry q w) =
    match fst (fst (Ping (q_Context q) (w_store w) (w_clock (entry q w)))), w_store w with
    | Some e, _ => CJSON 503 (errorBody_json (mkErrorBody "store_unavailable" (error_text e)))
    | None, Cached c => CJSON 200 (JMap [("status", JString "ok"); ("cache_size", JInt (Len (cache c)))])
    | None, Plain _ => CData 200 jsonContentType healthOKJSON
    end).
  { unfold health_answer. cbn [w_store entry tick_clock add_calls id_world].
    destruct (w_store w) as [s|c]; [rewrite Ping_Plain|rewrite Ping_Cached].
    - by destruct (Ping (q_Context q) s _) as [[[e|] s'] clk'].
    - by destruct (Ping (q_Context q) (backend c) _) as [[[e|] s'] clk']. }
  assert (Hst : status_of q w1 = (if fst (fst (Ping (q_Context q) (w_store w) (w_clock (entry q w)))) is Some _ then 503 else 200)).
  { unfold status_of. rewrite Hc, Ha. revert Hc. generalize (health_answer q (entry q w)) as c. intros c Hc.
    assert (Hsent : sent (w_calls (entry q w)) = false).
    { rewrite entry_calls, H0. cbn [app]. unfold security_calls. by destruct (q_TLS q || _). }
    destruct (fst (fst (Ping _ _ _))); [|destruct (w_store w)]; by apply law_status_set. }
  eexists w', _. split; [exact ES|]. split; [by rewrite Hs', Hs|].
  split; [by rewrite Hc', Hc, Ha, entry_calls, H0, <-!app_assoc|].
  split; [unfold status_of in *; by rewrite Hc'|].
  rewrite Hm', Hme, Hst, Hm. unfold metrics_path. rewrite Hf, decide_False by done.
  by destruct (fst (fst (Ping _ _ _))).
Qed.

(** C32: a handler that panics.  The client gets the 500 and the panic is logged,
    and the process goes on; but the request is not counted in
    [http_requests_total], has no duration observed and gets no request line,
    since those middlewares sit inside [Recovery] and are unwound. *)
Theorem panicking_requests_uncounted {U : UnicodeTables} {G : Gin} {LG : GinLaws} {D : Type} `{!Hash D}
    external cfg pick q (w w1 : world (dedup_store R) D) v :
  run_endpoint external cfg pick (route (new_router cfg) q) q (entry q w) = (Panicked v, w1) ->
  exists w', ServeHTTP external cfg pick q w = (Returned (), w') /\
    w_calls w' = w_calls w1 ++ [CAbortWithStatusJSON 500 (JMap [("error", JString "internal_error")])] /\
    (sent (w_calls w1) = false -> status_of q w' = 500) /\
    w_metrics w' = w_metrics w1 /\ w_logs w' = w_logs w1 ++ [panic_event q v].
Proof.
  intros E. rewrite (ServeHTTP_panics external cfg pick q w w1 v E).
  eexists. split; [reflexivity|]. split_and!; try done.
  intros Hs. unfold status_of. simpl. by apply law_status_set.
Qed.

(** The server's timeouts are the multiples of the Redis timeouts the code
    writes, as long as the products fit an [int64], about 4.8 years for the
    dial timeout; one step beyond, the idle timeout wraps to a negative number.
    Of a valid configuration, TLS is on exactly when enabled, and never below
    version 1.2. *)
Theorem server_timeouts cfg :
  let srv := new_server cfg in
  (- 2 ^ 63 <= 5 * RedisReadTimeout cfg < 2 ^ 63 -> srv_ReadTimeout srv = 5 * RedisReadTimeout cfg) /\
  (- 2 ^ 63 <= 5 * RedisWriteTimeout cfg < 2 ^ 63 -> srv_WriteTimeout srv = 5 * RedisWriteTimeout cfg) /\
  (- 2 ^ 63 <= 60 * RedisDialTimeout cfg < 2 ^ 63 -> srv_IdleTimeout srv = 60 * RedisDialTimeout cfg) /\
  (2 ^ 63 <= 60 * RedisDialTimeout cfg < 2 ^ 64 -> srv_IdleTimeout srv < 0) /\
  (valid cfg ->
     match srv_TLSMinVersion srv with
     | None => TLSEnabled cfg = false
     | Some v => TLSEnabled cfg = true /\
         ((TLSMinVersion cfg = "1.2" /\ v = 771) \/ (TLSMinVersion cfg = "1.3" /\ v = 772))
     end).
Proof.
  cbv zeta. unfold new_server. cbn [srv_ReadTimeout srv_WriteTimeout srv_IdleTimeout srv_TLSMinVersion].
  do 3 (split; [intros; by apply i64_id|]). split.
  { intros Hr. rewrite i64_overflow; lia. }
  intros Hv. destruct (TLSEnabled cfg); [|done]. split; [done|].
  assert (Hver : TLSMinVersion cfg ∈ ["1.2"; "1.3"]).
  { unfold valid in Hv. rewrite Forall_forall in Hv. apply (Hv ("server.tls_min_version", fun c => TLSMinVersion c ∈ ["1.2"; "1.3"])).
    unfold rules. do 3 right. by left. }
  rewrite !elem_of_cons, elem_of_nil in Hver.
  destruct Hver as [E|[E|[]]]; rewrite E; [left|right]; by split.
Qed.
End Properties.

(** ** The life of the process *)

Section RunFacts.
Context {R : Type} `{!RedisClient R} `{!Host R} {U : UnicodeTables} {V : Type} `{!Viper V}.

Definition is_close (e : event) : bool := match e with ECloseStore _ => true | _ => false end.
Definition is_listen (e : event) : bool := match e with EListen _ _ => true | _ => false end.

(** Events of the start: nothing is served and no store is closed. *)
Definition quiet (evs : list event) : Prop := Forall (fun e => is_close e = false /\ is_listen e = false) evs.

Lemma quiet_logs logs : quiet (map ELog logs).
Proof. induction logs; simpl; by constructor. Qed.
Lemma quiet_gc cfg : quiet (gc_events cfg).
Proof. unfold gc_events, quiet. destruct (0 <? GOGC cfg); by repeat constructor. Qed.
Lemma quiet_app a b : quiet a -> quiet b -> quiet (a ++ b).
Proof. intros. by apply Forall_app. Qed.

(** *** What a run comes to, apart from its events *)

(** The store that is opened, and what will close it. *)
Definition opened_backend (cfg : Config) (clk : clock) : any_store R :=
  match fst (fst (NewRedis cfg clk)) with
  | Ok r => SRedis r
  | Err _ => SMemory (mkMemoryStore ∅ (Some ErrUnavailable))
  end.
Definition opened_store (cfg : Config) (clk : clock) : dedup_store R :=
  if LocalCacheEnabled cfg then Cached (NewCached (opened_backend cfg clk)) else Plain (opened_backend cfg clk).
Definition opened_closer (cfg : Config) (clk : clock) : closer :=
  if LocalCacheEnabled cfg then CloseCached
  else match fst (fst (NewRedis cfg clk)) with Ok _ => CloseRedis | Err _ => CloseNothing end.
(** The store and the clock when serving ends. *)
Definition served_store (cfg : Config) (clk : clock) : dedup_store R * clock :=
  traffic (opened_store cfg clk) (snd (NewRedis cfg clk)).

(** Serving does not exchange a store for one of another kind. *)
Definition same_kind (d d' : dedup_store R) : Prop :=
  match d, d' with
  | Plain (SRedis _), Plain (SRedis _) | Plain (SMemory _), Plain (SMemory _) | Cached _, Cached _ => True
  | _, _ => False
  end.

(** A closed store: its Redis client is closed, and its sweeper stopped. *)
Definition closed_backend (s : any_store R) (clk : clock) : any_store R :=
  match s with
  | SRedis r => SRedis (mkRedisStore (snd (fst (redis_Close (client r) clk))))
  | SMemory m => SMemory m
  end.
Definition closed_store (d : dedup_store R) (clk : clock) : dedup_store R :=
  match d with
  | Plain s => Plain (closed_backend s clk)
  | Cached c => Cached (mkCachedStore (closed_backend (backend c) clk) (cache c) false (cs_metrics c))
  end.
(** Only the close function of a plain RedisStore reports an error. *)
Definition close_logs (d : dedup_store R) (clk : clock) : list log_event :=
  match d with
  | Plain (SRedis r) =>
      match fst (fst (redis_Close (client r) clk)) with
      | Some e => [LogEvent WarnLevel [("error", LErr e)] "redis close error"]
      | None => []
      end
  | _ => []
  end.

Lemma Close_closed (d : dedup_store R) clk : snd (fst (Close d clk)) = closed_store d clk.
Proof.
  destruct d as [[r|m]|[b c sw ms]]; try reflexivity; simpl.
  - unfold redis_store_Close. by destruct (redis_Close (client r) clk) as [[e c] clk'].
  - unfold cached_Close. destruct b as [r|m]; simpl; [|done].
    unfold redis_store_Close. by destruct (redis_Close (client r) clk) as [[e c'] clk'].
Qed.

Lemma closeStore_closes cfg clk d1 clk1 :
  same_kind (opened_store cfg clk) d1 ->
  fst (closeStore (opened_closer cfg clk) d1 clk1) = (closed_store d1 clk1, close_logs d1 clk1).
Proof.
  unfold opened_store, opened_closer, opened_backend. intros Hk.
  destruct (LocalCacheEnabled cfg); [|destruct (fst (fst (NewRedis cfg clk))) as [r|e]];
    destruct d1 as [[r1|m1]|c1]; try done; unfold closeStore.
  - rewrite <-Close_closed. by destruct (Close (Cached c1) clk1) as [[e d] clk2].
  - unfold close_logs. rewrite <-Close_closed. simpl. unfold redis_store_Close.
    by destruct (redis_Close (client r1) clk1) as [[e d] clk2].
Qed.

(** When the signals are waited for, and the deadline of the shutdown. *)
Definition shutdown_deadline (cfg : Config) (clk : clock) : context :=
  Some (now_of (snd (served_store cfg clk)) + ShutdownTimeout cfg).
(** The listener failed for another reason than being closed. *)
Definition listener_failed (cfg : Config) (e : error) : Prop :=
  selected = ListenerDone /\ ListenAndServe (new_server cfg) (tls_files cfg) = Some e /\
  errors_is e http_ErrServerClosed = false.

Lemma listener_sends_failed cfg :
  match selected with
  | ListenerDone => match listener_sends cfg with
                    | Some err => exists e, listener_failed cfg e /\ err = ErrWrap "http server" e
                    | None => forall e, ~ listener_failed cfg e
                    end
  | Signal _ => forall e, ~ listener_failed cfg e
  end.
Proof.
  unfold listener_sends, listener_failed. destruct selected as [|sig]; [|by intros e [? _]].
  destruct (ListenAndServe _ _) as [e|]; [|by intros e [_ [? _]]].
  destruct (errors_is e http_ErrServerClosed) eqn:Ee; [|by exists e].
  intros e' (_ & [= ->] & He'). congruence.
Qed.

(** From listening on. *)
Lemma serve_until_done_cases cfg clk :
  let ctx := Some (now_of clk + ShutdownTimeout cfg) in
  exists err rest, serve_until_done cfg clk =
    (err, [ENotify ["interrupt"; "terminated"]; ELog (listen_event cfg); EListen (new_server cfg) (tls_files cfg)] ++ rest) /\
    quiet rest /\
    ((exists e, listener_failed cfg e /\ err = Some (ErrWrap "http server" e)) \/
     (forall e, ~ listener_failed cfg e) /\ EShutdown ctx ∈ rest /\
       err = ErrWrap "graceful shutdown" <$> Shutdown ctx).
Proof.
  cbv zeta. unfold serve_until_done, context_WithTimeout, context_Background. simpl.
  change (ticks clk (pos clk)) with (now_of clk).
  pose proof (listener_sends_failed cfg) as Hl. destruct selected as [|sig].
  - destruct (listener_sends cfg) as [err|].
    + destruct Hl as (e & He & ->). eexists _, []. split; [done|]. split; [constructor|]. left. by exists e.
    + destruct (Shutdown _) as [e|]; eexists _, _; (split; [reflexivity|]; split; [by repeat constructor|]);
        right; (split; [exact Hl|]; split; [by left|done]).
  - destruct (Shutdown _) as [e|]; eexists _, (ELog _ :: _);
      (split; [reflexivity|]; split; [by repeat constructor|]);
      right; (split; [exact Hl|]; split; [right; by left|done]).
Qed.

Lemma initStore_opened cfg clk :
  initStore cfg clk =
  match fst (fst (NewRedis cfg clk)) with
  | Err e =>
      if FailOpen cfg
      then (Ok (opened_backend cfg clk, CloseNothing),
            [LogEvent WarnLevel [("error", LErr e); ("redis_addr", LStr (RedisAddr cfg))]
               "redis unavailable at startup; running fail-open (all requests allowed)"], snd (NewRedis cfg clk))
      else (Err (ErrWrap "redis unavailable and fail-open is disabled" e), [], snd (NewRedis cfg clk))
  | Ok _ => (Ok (opened_backend cfg clk, CloseRedis), [], snd (NewRedis cfg clk))
  end.
Proof.
  unfold initStore, opened_backend. destruct (NewRedis cfg clk) as [[[r|e] c] clk1]; simpl; [done|].
  by destruct (FailOpen cfg).
Qed.

(** The configuration is in place, the log directory exists and there is a store. *)
Definition started (cfg : Config) (clk : clock) : Prop :=
  Load [] = Ok cfg /\ os_MkdirAll (filepath_Dir (LogFile cfg)) = None /\
  (FailOpen cfg = true \/ exists r, fst (fst (NewRedis cfg clk)) = Ok r).

(** A run that started: its events up to listening, and how it ends. *)
Lemma run_started cfg clk :
  started cfg clk ->
  let d1 := fst (served_store cfg clk) in
  let clk1 := snd (served_store cfg clk) in
  let r := serve_until_done cfg clk1 in
  let closed := closeStore (opened_closer cfg clk) d1 clk1 in
  exists pre, quiet pre /\ run_server clk =
    RunOutcome (fst r)
      (pre ++ snd r ++ [ECloseStore (opened_closer cfg clk)] ++ map ELog (snd (fst closed)) ++ [ECloseLog])
      (Some (fst (fst closed))).
Proof.
  intros (HL & Hd & Hs). cbv zeta. unfold run_server. rewrite HL, Hd, initStore_opened.
  unfold served_store, opened_store, opened_closer, wrap_store.
  destruct (fst (fst (NewRedis cfg clk))) as [r|e].
  - destruct (LocalCacheEnabled cfg); destruct (traffic _ _) as [d1 clk1]; cbn [fst snd];
      destruct (serve_until_done cfg clk1) as [err served]; destruct (closeStore _ d1 clk1) as [[d2 logs] clk2];
      (eexists; split; [|reflexivity]);
      repeat first [apply quiet_app | apply quiet_logs | apply quiet_gc]; by repeat constructor.
  - destruct Hs as [->|[r Hr]]; [|discriminate Hr].
    destruct (LocalCacheEnabled cfg); destruct (traffic _ _) as [d1 clk1]; cbn [fst snd];
      destruct (serve_until_done cfg clk1) as [err served]; destruct (closeStore _ d1 clk1) as [[d2 logs] clk2];
      (eexists; split; [|reflexivity]);
      repeat first [apply quiet_app | apply quiet_logs | apply quiet_gc]; by repeat constructor.
Qed.

(** A run that did not start: its error, and that it did nothing of consequence. *)
Lemma run_not_started clk :
  (exists cfg, started cfg clk) \/
  run_store (run_server clk) = None /\ quiet (run_events (run_server clk)) /\
  ((exists e, Load [] = Err e /\ run_err (run_server clk) = Some (ErrWrap "config" e)) \/
   exists cfg, Load [] = Ok cfg /\
     let dir := filepath_Dir (LogFile cfg) in
     ((exists e, os_MkdirAll dir = Some e /\
         run_err (run_server clk) = Some (ErrWrap ("creating log directory " +:+ dir) e)) \/
      (exists e, os_MkdirAll dir = None /\ FailOpen cfg = false /\ fst (fst (NewRedis cfg clk)) = Err e /\
         run_err (run_server clk) = Some (ErrWrap "redis unavailable and fail-open is disabled" e)))).
Proof.
  unfold started, run_server. destruct (Load []) as [cfg|e].
  2:{ right. split; [done|]. split; [constructor|]. left. by exists e. }
  destruct (os_MkdirAll _) as [e|] eqn:Ed.
  { right. split; [done|]. split; [by repeat constructor|]. right. exists cfg. split; [done|]. left. by exists e. }
  rewrite initStore_opened. destruct (fst (fst (NewRedis cfg clk))) as [r|e] eqn:En; [left; eauto 10|].
  destruct (FailOpen cfg) eqn:Ef; [left; eauto 10|]. right. split; [done|].
  split; [by repeat constructor|]. right. exists cfg. split; [done|]. right. by exists e.
Qed.

(** C28: the store is closed, and the right one in the right way, exactly once on
    every path that opened it.  Either the run fails before there is a store, and
    then it has served nothing and closed nothing.  Or the store is the one the
    configuration and the ping of Redis call for; the run listens, and whatever
    then ends it, after that the close function of this very store runs: with the
    cache on it stops the sweeper and closes the client behind the cache, without
    the cache it closes the client and logs its error, and the fallback store has
    nothing to close.  The log file is closed last.  A run without an error has
    shut the server down. *)
Theorem run_closes_store clk :
  let o := run_server clk in
  match run_store o with
  | None => (exists e, run_err o = Some e) /\ quiet (run_events o)
  | Some s => exists cfg pre rest, Load [] = Ok cfg /\
      let (d1, clk1) := served_store cfg clk in
      (exists logs, run_events o = pre ++ [EListen (new_server cfg) (tls_files cfg)] ++ rest ++
                      [ECloseStore (opened_closer cfg clk)] ++ map ELog logs ++ [ECloseLog] /\
         (same_kind (opened_store cfg clk) d1 -> s = closed_store d1 clk1 /\ logs = close_logs d1 clk1)) /\
      quiet pre /\ quiet rest /\
      (run_err o = None -> exists ctx, EShutdown ctx ∈ rest /\ Shutdown ctx = None)
  end.
Proof.
  cbv zeta. destruct (run_not_started clk) as [[cfg Hs]|(-> & Hq & He)].
  2:{ split; [|done]. destruct He as [(e & _ & ->)|(cfg & _ & [(e & _ & ->)|(e & _ & _ & _ & ->)])]; by eexists. }
  destruct (run_started cfg clk Hs) as (pre & Hq & ->). pose proof (closeStore_closes cfg clk) as Hc.
  destruct (served_store cfg clk) as [d1 clk1] eqn:Ed. cbn [fst snd run_store run_events run_err].
  specialize (Hc d1 clk1).
  destruct (serve_until_done_cases cfg clk1) as (err & rest & -> & Hqr & Herr). cbn [fst snd].
  exists cfg, (pre ++ [ENotify ["interrupt"; "terminated"]; ELog (listen_event cfg)]), rest.
  split; [apply Hs|]. rewrite Ed. split.
  - eexists. split; [by rewrite <-!app_assoc|]. intros Hk. specialize (Hc Hk).
    by rewrite Hc.
  - split; [by apply quiet_app; [|repeat constructor]|]. split; [done|]. intros ->.
    destruct Herr as [(e & _ & [=])|(_ & Hin & Hsd)]. eexists. split; [exact Hin|].
    by destruct (Shutdown _).
Qed.

Lemma fatal_text p e :
  ("fatal: " +:+ error_text (ErrWrap p e) +:+ newline)%string =
  ("fatal: " +:+ p +:+ ": " +:+ error_text e +:+ newline)%string.
Proof. apply (inj bytes_of). simpl error_text. rewrite !bytes_of_app. by rewrite <-!app_assoc. Qed.

(** What the process says and its exit code, by the first step that fails. *)
Definition fatal (step : string) (e : error) : string * Z :=
  (("fatal: " +:+ step +:+ ": " +:+ error_text e +:+ newline)%string, 1).
Inductive ends (clk : clock) : string * Z -> Prop :=
  | ends_config e : Load [] = Err e -> ends clk (fatal "config" e)
  | ends_log_dir cfg e :
      Load [] = Ok cfg -> os_MkdirAll (filepath_Dir (LogFile cfg)) = Some e ->
      ends clk (fatal ("creating log directory " +:+ filepath_Dir (LogFile cfg)) e)
  | ends_redis cfg e :
      Load [] = Ok cfg -> os_MkdirAll (filepath_Dir (LogFile cfg)) = None ->
      FailOpen cfg = false -> fst (fst (NewRedis cfg clk)) = Err e ->
      ends clk (fatal "redis unavailable and fail-open is disabled" e)
  | ends_listener cfg e :
      started cfg clk -> listener_failed cfg e -> ends clk (fatal "http server" e)
  | ends_shutdown cfg e :
      started cfg clk -> (forall e, ~ listener_failed cfg e) -> Shutdown (shutdown_deadline cfg clk) = Some e ->
      ends clk (fatal "graceful shutdown" e)
  | ends_clean cfg :
      started cfg clk -> (forall e, ~ listener_failed cfg e) -> Shutdown (shutdown_deadline cfg clk) = None ->
      ends clk (EmptyString, 0).

Lemma listener_failed_unique cfg e e' : listener_failed cfg e -> listener_failed cfg e' -> e = e'.
Proof. intros (_ & H1 & _) (_ & H2 & _). congruence. Qed.

(** Each case determines the exit. *)
Lemma ends_main clk r : ends clk r -> main clk = r.
Proof.
  assert (Hstart : forall cfg, started cfg clk -> exists err, run_err (run_server clk) = err /\
    ((exists e, listener_failed cfg e /\ err = Some (ErrWrap "http server" e)) \/
     (forall e, ~ listener_failed cfg e) /\ err = ErrWrap "graceful shutdown" <$> Shutdown (shutdown_deadline cfg clk))).
  { intros cfg Hs. destruct (run_started cfg clk Hs) as (pre & _ & ->). cbn [run_err].
    destruct (serve_until_done_cases cfg (snd (served_store cfg clk))) as (err & rest & -> & _ & Herr).
    exists err. split; [done|]. destruct Herr as [?|(? & _ & ?)]; [by left|by right]. }
  unfold main. intros [e HL|cfg e HL Hd|cfg e HL Hd Hf Hr|cfg e Hs Hl|cfg e Hs Hl Hsd|cfg Hs Hl Hsd].
  - unfold run_server. rewrite HL. cbn [run_err]. by rewrite fatal_text.
  - unfold run_server. rewrite HL, Hd. cbn [run_err]. by rewrite fatal_text.
  - unfold run_server. rewrite HL, Hd, initStore_opened, Hr, Hf. cbn [run_err]. by rewrite fatal_text.
  - destruct (Hstart cfg Hs) as (err & -> & [(e' & Hl' & ->)|[Hn _]]); [|by destruct (Hn e)].
    rewrite (listener_failed_unique cfg e' e) by done. by rewrite fatal_text.
  - destruct (Hstart cfg Hs) as (err & -> & [(e' & Hl' & _)|[_ ->]]); [by destruct (Hl e')|].
    rewrite Hsd. cbn [fmap option_fmap option_map]. by rewrite fatal_text.
  - destruct (Hstart cfg Hs) as (err & -> & [(e' & Hl' & _)|[_ ->]]); [by destruct (Hl e')|].
    by rewrite Hsd.
Qed.

Lemma main_ends clk : ends clk (main clk).
Proof.
  unfold main. destruct (run_not_started clk) as [[cfg Hs]|(_ & _ & He)].
  - destruct (run_started cfg clk Hs) as (pre & _ & ->). cbn [run_err].
    destruct (serve_until_done_cases cfg (snd (served_store cfg clk))) as (err & rest & -> & _ & Herr). cbn [fst].
    destruct Herr as [(e & Hf & ->)|(Hf & _ & ->)]; [rewrite fatal_text; by eapply ends_listener|].
    change (Some (now_of (snd (served_store cfg clk)) + ShutdownTimeout cfg)) with (shutdown_deadline cfg clk).
    destruct (Shutdown (shutdown_deadline cfg clk)) as [e|] eqn:Es; cbn [fmap option_fmap option_map];
      [rewrite fatal_text; by eapply ends_shutdown|by eapply ends_clean].
  - destruct He as [(e & HL & ->)|(cfg & HL & [(e & Hd & ->)|(e & Hd & Hf & Hr & ->)])]; rewrite fatal_text.
    + by apply ends_config.
    + by apply ends_log_dir.
    + by eapply ends_redis.
Qed.

(** C29: how the process ends, in every case.  Its exit code and what it prints
    are determined by the first step that fails, in this order: the configuration,
    the log directory, Redis in fail-closed mode (in fail-open mode it is no
    failure), the listener, unless it was only closed, and the shutdown within
    its deadline; it then exits with 1 and one line on standard error that names
    the step and ends with the cause.  It exits with 0 and says nothing exactly
    when none of them fails, and then it has listened and shut the server down. *)
Theorem main_exits clk r :
  (main clk = r <-> ends clk r) /\
  (snd (main clk) = 0 -> exists cfg, started cfg clk /\
     EListen (new_server cfg) (tls_files cfg) ∈ run_events (run_server clk) /\
     EShutdown (shutdown_deadline cfg clk) ∈ run_events (run_server clk)).
Proof.
  split; [split; [intros <-; apply main_ends|apply ends_main]|].
  intros H0. pose proof (main_ends clk) as Hm. revert H0.
  destruct Hm as [e HL|cfg e HL _|cfg e HL _ _ _|cfg e Hs _|cfg e Hs _ _|cfg Hs Hf Hsd]; try discriminate.
  intros _.
  exists cfg. split; [exact Hs|]. destruct (run_started cfg clk Hs) as (pre & _ & ->). cbn [run_events].
  destruct (serve_until_done_cases cfg (snd (served_store cfg clk))) as (err & rest & -> & _ & Herr). cbn [snd].
  destruct Herr as [(e & Hf' & _)|(_ & Hin & _)]; [by destruct (Hf e)|].
  split; rewrite !elem_of_app, !elem_of_cons; tauto.
Qed.
End RunFacts.

(** ** Witnesses *)

#[local] Existing Instance ascii_tables.

(** The default configuration with Redis at an address where nothing listens. *)
Definition offline : Config :=
  mkConfig ":8081" (10 * Second) "info" false EmptyString EmptyString "1.2" "log/app.log" 50 5 30 true
    "redis:6379" EmptyString 0 (2 * Second) (200 * Millisecond) (200 * Millisecond) 100 20
    (10 * Second) 65536 true ["GET"; "HEAD"; "OPTIONS"] {["GET"; "HEAD"; "OPTIONS"]}
    "/internal/upstream" true 50 (500 * Millisecond) false.
Definition offline_handler : XAccelDedupHandler := NewXAccelDedup offline "/internal/upstream".
Definition refused : error := ErrWrap "redis ping" (ErrNew "net" "connection refused").
Definition fallback : any_store fake_redis := SMemory (mkMemoryStore ∅ (Some ErrUnavailable)).

Definition w_process (s : dedup_store fake_redis) (clk : clock) : world (dedup_store fake_redis) digest :=
  World [] [] [] s [] clk (fun i => Z_byte (Z.of_nat i)) 0.

Lemma initStore_cases_witness :
  exists s, fst (fst (initStore (R:=fake_redis) offline (clock_of [0]))) = Ok (s, CloseNothing) /\
    IsDuplicate context_Background "k" 10 s (clock_of [0]) = ((false, Some ErrUnavailable), s, clock_of [0]).
Proof.
  pose proof (initStore_cases (R:=fake_redis) offline (clock_of [0])) as Hcases.
  assert (E : fst (fst (NewRedis (R:=fake_redis) offline (clock_of [0]))) = Err refused) by (vm_compute; reflexivity).
  rewrite E in Hcases. destruct (proj2 Hcases eq_refl) as (s & Es & _ & Hd).
  exists s. split; [exact Es|]. apply Hd.
Defined.

Definition w_degraded : list served * world (dedup_store fake_redis) digest :=
  serve offline_handler [(0, 0, w_post); (0, 0, w_post)]%nat (w_process (Cached (NewCached fallback)) (clock_of [5])).

Lemma degraded_mode_allows_everything_witness :
  length (fst w_degraded) = 2%nat /\
  Forall (fun r => sv_calls r = redirect offline_handler (sv_req r)) (fst w_degraded).
Proof.
  split; [vm_compute; reflexivity|].
  refine (proj1 (degraded_mode_allows_everything (R:=fake_redis) (RedisClient0:=fake_client) (H:=sha256_spec)
    offline (clock_of [0]) fallback CloseNothing refused offline_handler [(0, 0, w_post); (0, 0, w_post)]%nat
    (w_process (Cached (NewCached fallback)) (clock_of [5])) _ _ _ _ _));
    vm_compute; reflexivity.
Defined.

(** Redis behind the cache; two identical requests, at 0s and at 20s. *)
Definition live_store : dedup_store fake_redis := Cached (NewCached (SRedis (mkRedisStore (FakeRedis ∅ true false)))).
Definition w_service : list served * world (dedup_store fake_redis) digest :=
  serve w_handler [(0, 0, w_post); (0, 0, w_post)]%nat (w_process live_store (step_clock 6 0 (20 * Second))).
Definition w_service_nth (i : nat) : served := nth i (fst w_service) (Served w_post 0 0 []).

Lemma service_replay_blocked_witness :
  fst w_service = [w_service_nth 0; w_service_nth 1] /\
  sv_begin (w_service_nth 0) + 10 * Second - 0 <= sv_end (w_service_nth 1).
Proof.
  assert (E : fst w_service = [w_service_nth 0; w_service_nth 1]) by (vm_compute; reflexivity).
  split; [exact E|].
  refine (service_replay_blocked (R:=fake_redis) (H:=sha256_spec) (keys:=fr_keys) (slack:=0) (L:=fake_laws)
    w_handler (key_of (H:=sha256_spec) w_post)
    [(0, 0, w_post); (0, 0, w_post)]%nat (w_process live_store (step_clock 6 0 (20 * Second)))
    (fst w_service) (snd w_service) [] (w_service_nth 0) [] (w_service_nth 1) []
    _ _ eq_refl _ (surjective_pairing _) E _ _).
  - split; [reflexivity|vm_compute; discriminate].
  - vm_compute. reflexivity.
  - apply step_clock_monotone. vm_compute. discriminate.
  - split_and!; vm_compute; reflexivity.
  - split_and!; vm_compute; reflexivity.
Defined.

(** Handlers of other packages: one that answers nothing, one that panics. *)
Definition silent (_ : string) (_ : gin_request) : prog (dedup_store fake_redis) digest () := ret ().
Definition crashing (_ : string) (_ : gin_request) : prog (dedup_store fake_redis) digest () := panic "nil map".

Lemma service_answers_witness :
  exists w', ServeHTTP silent fail_closed 0 w_post (w_process (Plain fallback) (clock_of [5])) = (Returned (), w') /\
    status_of w_post w' = 500 /\ map l_level (w_logs w') = [DebugLevel; WarnLevel; ErrorLevel].
Proof.
  destruct (service_answers (H:=sha256_spec) silent fail_closed 0 w_post (w_process (Plain fallback) (clock_of [5]))
    eq_refl eq_refl) as (w' & E & _ & Hs & _ & Hl).
  exists w'. split; [exact E|]. rewrite Hs, Hl. split; vm_compute; reflexivity.
Defined.

Definition w_health : gin_request :=
  GinRequest (HTTPRequest "GET" "/healthz" None [] "1.2.3.4:9000") "/healthz" false
    (fun _ => EmptyString) "/healthz" "1.2.3.4" "curl" context_Background 200.

Lemma health_served_witness :
  exists w', ServeHTTP silent offline 0 w_health (w_process (Cached (NewCached fallback)) (clock_of [5])) = (Returned (), w') /\
    status_of w_health w' = 503.
Proof.
  destruct (health_served silent offline 0 w_health (w_process (Cached (NewCached fallback)) (clock_of [5]))
    eq_refl eq_refl eq_refl) as (w' & t & E & _ & _ & Hs & _).
  exists w'. split; [exact E|]. rewrite Hs. vm_compute. reflexivity.
Defined.

Definition w_scrape : gin_request :=
  GinRequest (HTTPRequest "GET" "/metrics" None [] "1.2.3.4:9000") "/metrics" false
    (fun _ => EmptyString) "/metrics" "1.2.3.4" "curl" context_Background 200.

Lemma panicking_requests_uncounted_witness :
  exists w', ServeHTTP crashing offline 0 w_scrape (w_process (Plain fallback) (clock_of [5])) = (Returned (), w') /\
    w_metrics w' = [] /\ status_of w_scrape w' = 500.
Proof.
  destruct (panicking_requests_uncounted crashing offline 0 w_scrape (w_process (Plain fallback) (clock_of [5]))
    (entry w_scrape (w_process (Plain fallback) (clock_of [5]))) "nil map" eq_refl) as (w' & E & _ & Hs & Hm & _).
  exists w'. split; [exact E|]. split; [exact Hm|exact (Hs eq_refl)].
Defined.

Lemma server_timeouts_witness :
  srv_ReadTimeout (new_server offline) = Second /\ srv_IdleTimeout (new_server offline) = 2 * Minute.
Proof.
  split.
  - exact (proj1 (server_timeouts offline) ltac:(vm_compute; split; [discriminate|reflexivity])).
  - exact (proj1 (proj2 (proj2 (server_timeouts offline))) ltac:(vm_compute; split; [discriminate|reflexivity])).
Defined.

(** A host whose listener cannot bind its port, and one stopped by a signal. *)
Definition w_host (l : option error) (sel : wakeup) : Host fake_redis := {|
  zerolog_ParseLevel l := Ok l;
  os_MkdirAll _ := None;
  SetGCPercent _ := 100;
  ListenAndServe _ _ := l;
  http_ErrServerClosed := ErrNew "http" "http: Server closed";
  selected := sel;
  Shutdown _ := None;
  traffic s clk := (s, clk) |}.
Definition bind_error : error := ErrNew "net" "address already in use".

(** the default configuration: Redis answers, and the cache is on *)
Definition w_default_run : outcome_run fake_redis :=
  run_server (Host0:=w_host None (Signal "interrupt")) (Viper0:=file_viper ∅ (Some no_file)) (clock_of [0]).
Lemma run_closes_store_witness :
  exists c rest, run_store w_default_run = Some (Cached c) /\
    sweeping c = false /\ backend c = SRedis (mkRedisStore (FakeRedis ∅ true true)) /\
    quiet rest /\ exists pre, run_events w_default_run =
      pre ++ [EListen (new_server default_config) None] ++ rest ++ [ECloseStore CloseCached] ++ [ECloseLog].
Proof.
  pose proof (run_closes_store (Host0:=w_host None (Signal "interrupt"))
    (Viper0:=file_viper ∅ (Some no_file)) (clock_of [0])) as Hrun. cbv zeta in Hrun. fold w_default_run in Hrun.
  destruct (run_store w_default_run) as [s|] eqn:E; [|vm_compute in E; discriminate E].
  destruct Hrun as (cfg & pre & rest & El & Hrun).
  assert (cfg = default_config) as -> by (enough (Ok cfg = Ok default_config) by congruence;
    rewrite <-El; vm_compute; reflexivity).
  assert (Ed : served_store (Host0:=w_host None (Signal "interrupt")) default_config (clock_of [0]) =
    (Cached (NewCached (SRedis (mkRedisStore (FakeRedis ∅ true false)))), snd (time_Now (clock_of [0]))))
    by (vm_compute; reflexivity).
  rewrite Ed in Hrun. destruct Hrun as ((logs & Hev & Hs) & _ & Hq & _). destruct (Hs I) as [-> ->].
  eexists _, rest. split; [reflexivity|]. split; [reflexivity|]. split; [vm_compute; reflexivity|].
  split; [exact Hq|]. exists pre. exact Hev.
Defined.

(** The port is taken. *)
Lemma main_exits_witness :
  main (Host0:=w_host (Some bind_error) ListenerDone) (Viper0:=file_viper ∅ (Some no_file)) (clock_of [0])
    = fatal "http server" bind_error /\
  ends (Host0:=w_host (Some bind_error) ListenerDone) (Viper0:=file_viper ∅ (Some no_file)) (clock_of [0])
    (fatal "http server" bind_error).
Proof.
  assert (E : main (Host0:=w_host (Some bind_error) ListenerDone) (Viper0:=file_viper ∅ (Some no_file)) (clock_of [0])
    = fatal "http server" bind_error) by (vm_compute; reflexivity).
  split; [exact E|].
  exact (proj1 (proj1 (main_exits (Host0:=w_host (Some bind_error) ListenerDone) (Viper0:=file_viper ∅ (Some no_file))
    (clock_of [0]) (fatal "http server" bind_error))) E).
Defined.
