(* ===== verification/Service.v ===== *)
(** * Service: the handler among others

    The parts put together: a request's one call of the store and its deadline,
    requests answered concurrently by several instances with a cache each, and
    what the whole chain reports to the metrics. *)

From S2P Require Import Prelude Sha256 GoTime GoStrings GoJSON Fingerprint Store LocalCache Metrics.
From S2P Require Import CachedStore Interleaving Config RedisStore Gin Handler Middleware Server.

Local Open Scope go_scope.
Local Open Scope Z_scope.

(** ** A store that writes down what it is asked *)

Inductive asked :=
  | AskedDuplicate (ctx : context) (key : string) (ttl : Z) (at_ : Z)
  | AskedPing (ctx : context)
  | AskedClose.

Record spy (S : Type) := Spy { spied : S; asks_seen : list asked }.
Arguments Spy {S}. Arguments spied {S}. Arguments asks_seen {S}.

#[export] Instance spy_store {S} `{!Store S} : Store (spy S) := {|
  IsDuplicate ctx key ttl s clk :=
    let '(r, s', clk') := IsDuplicate ctx key ttl (spied s) clk in
    (r, Spy s' (asks_seen s ++ [AskedDuplicate ctx key ttl (now_of clk)]), clk');
  Ping ctx s clk :=
    let '(r, s', clk') := Ping ctx (spied s) clk in (r, Spy s' (asks_seen s ++ [AskedPing ctx]), clk');
  Close s clk :=
    let '(r, s', clk') := Close (spied s) clk in (r, Spy s' (asks_seen s ++ [AskedClose]), clk') |}.

(** A store that gives one verdict and is not changed by it. *)
Definition oracle : Type := bool * option error.
#[export] Instance oracle_store : Store oracle := {|
  IsDuplicate _ _ _ v clk := (v, v, clk); Ping _ v clk := (snd v, v, clk); Close v clk := (None, v, clk) |}.

(** The same world with another store. *)
Definition with_other_store {S T D} (s : T) (w : world S D) : world T D :=
  World (w_calls w) (w_metrics w) (w_logs w) s (w_pool w) (w_clock w) (w_rand w) (w_rand_pos w).

Section Facts.
Context {U : UnicodeTables} {D : Type} `{!Hash D} {H : bytes -> bytes} `{!HashLaws D H} {S : Type} `{!Store S}.

(** The handler knows of the store only its verdict. *)
Lemma Handle_by_verdict h pick q (w : world S D) :
  let v := fst (fst (store_call (H:=H) h q (w_store w) (w_clock w))) in
  w_calls (snd (Handle h pick q w)) = w_calls (snd (Handle h pick q (with_other_store (v : oracle) w))).
Proof.
  cbv zeta. set (v := fst (fst (store_call h q (w_store w) (w_clock w)))).
  destruct (Handle_total (H:=H) h pick q w) as (w1 & lat1 & E1 & [H1 _ _ _] & _).
  destruct (Handle_total (H:=H) h pick q (with_other_store (v : oracle) w)) as (w2 & lat2 & E2 & [H2 _ _ _] & _).
  rewrite E1, E2. cbn [snd]. rewrite H1, H2. f_equal. f_equal. unfold decide_request.
  destruct (excluded h q); [done|]. destruct (snd (body_of q)); [done|]. f_equal. cbn [w_store w_clock with_other_store].
  destruct (store_call_begin (H:=H) h q (v : oracle) (w_clock w)) as (ctx & clk & _ & ->). done.
Qed.

(** What the spy sees of the one call. *)
Lemma store_call_spy h q (s : spy S) clk :
  let ctx := if 0 <? StoreTimeout (h_cfg h)
             then fst (context_WithTimeout (q_Context q) (StoreTimeout (h_cfg h)) clk) else q_Context q in
  exists clk0, later clk clk0 /\
    fst (fst (store_call (H:=H) h q s clk)) = fst (fst (store_call (H:=H) h q (spied s) clk)) /\
    asks_seen (snd (fst (store_call (H:=H) h q s clk))) =
      asks_seen s ++ [AskedDuplicate ctx (key_of (H:=H) q) (DedupWindow (h_cfg h)) (now_of clk0)].
Proof.
  cbv zeta. unfold store_call. destruct (0 <? StoreTimeout (h_cfg h)) eqn:E.
  - set (clk0 := snd (time_Now (snd (time_Now clk)))). exists clk0.
    split; [etrans; apply later_now|]. unfold context_WithTimeout, time_Now in *. simpl in *.
    by destruct (IsDuplicate _ _ _ (spied s) _) as [[r s'] clk'].
  - exists (snd (time_Now clk)). split; [apply later_now|]. simpl.
    by destruct (IsDuplicate _ _ _ (spied s) _) as [[r s'] clk'].
Qed.
End Facts.

(** ** Requests answered concurrently *)

(** A request that has arrived: what the goroutine of the server has of its own
    (trace, clock, random bytes, the hasher it picked), and the goroutine of the
    system that makes its one call of the store, if it makes one. *)
Record arrival (D : Type) := Arrival {
  ar_request : gin_request;
  ar_pick : nat;
  ar_world : world () D;
  ar_thread : option nat;
}.
Arguments Arrival {D}. Arguments ar_request {D}. Arguments ar_pick {D}. Arguments ar_world {D}.
Arguments ar_thread {D}.

Record service (D : Type) := ServiceState { sv_system : system; sv_arrivals : list (arrival D) }.
Arguments ServiceState {D}. Arguments sv_system {D}. Arguments sv_arrivals {D}.

Section Concurrent.
Context {U : UnicodeTables} {D : Type} `{!Hash D} {H : bytes -> bytes} `{!HashLaws D H}.
Context (h : XAccelDedupHandler) (slack : Z).
Abbreviation window := (DedupWindow (h_cfg h)).

(** A request arrives at instance [inst], with an empty trace; one that reaches
    the store starts a goroutine with its key.  Everything else is a step of the
    concurrent system in which no goroutine starts. *)
Inductive service_step : service D -> service D -> Prop :=
  | service_asks now cs m ths hist ars inst q pick (w : world () D) :
      reaches_store h q = true -> w_calls w = [] -> (inst < length cs)%nat ->
      service_step (ServiceState (System now cs m ths hist) ars)
        (ServiceState (System now cs m (ths ++ [Thread inst (key_of (H:=H) q) PStart]) hist)
           (ars ++ [Arrival q pick w (Some (length ths))]))
  | service_asks_not s ars q pick (w : world () D) :
      reaches_store h q = false -> w_calls w = [] ->
      service_step (ServiceState s ars) (ServiceState s (ars ++ [Arrival q pick w None]))
  | service_runs s s' ars :
      step window slack s s' -> length (s_threads s') = length (s_threads s) ->
      service_step (ServiceState s ars) (ServiceState s' ars).

Definition service_reachable (n : nat) (t0 : Z) (s : service D) : Prop :=
  rtc service_step (ServiceState (initial n t0) []) s.

(** The verdict a request has got: that of its goroutine, once it has returned. *)
Definition verdict_of (s : service D) (a : arrival D) : option (bool * option error) :=
  match ar_thread a with
  | None => Some (false, Some ErrUnavailable)      (* it never asks *)
  | Some i =>
      match s_threads (sv_system s) !! i with
      | Some th => match t_pc th with PDone v _ => Some v | _ => None end
      | None => None
      end
  end.

(** What the handler answers once the store has returned. *)
Definition answer_of (s : service D) (a : arrival D) : option (list gin_call) :=
  match verdict_of s a with
  | Some v => Some (w_calls (snd (Handle h (ar_pick a) (ar_request a)
                                    (with_other_store (v : oracle) (ar_world a)))))
  | None => None
  end.

(** Sent to the upstream on the word of the store, with key [k]. *)
Definition forwarded (k : string) (s : service D) (a : arrival D) : Prop :=
  reaches_store h (ar_request a) = true /\ key_of (H:=H) (ar_request a) = k /\
  answer_of s a = Some (redirect h (ar_request a)).

(** *** Invariant: arrivals and goroutines correspond *)

Definition arrival_ok (s : service D) (a : arrival D) : Prop :=
  w_calls (ar_world a) = [] /\
  match ar_thread a with
  | None => reaches_store h (ar_request a) = false
  | Some i => exists th, s_threads (sv_system s) !! i = Some th /\
      t_key th = key_of (H:=H) (ar_request a) /\ reaches_store h (ar_request a) = true
  end.

Record SInv (n : nat) (t0 : Z) (s : service D) : Prop := {
  si_reachable : reachable window slack n t0 (sv_system s);
  si_arrivals : Forall (arrival_ok s) (sv_arrivals s);
  (** distinct arrivals have distinct goroutines *)
  si_own : forall j1 j2 a1 a2 i, sv_arrivals s !! j1 = Some a1 -> sv_arrivals s !! j2 = Some a2 ->
             ar_thread a1 = Some i -> ar_thread a2 = Some i -> j1 = j2;
}.

Lemma step_keeps_threads (s s' : system) i th :
  step window slack s s' -> s_threads s !! i = Some th ->
  exists th', s_threads s' !! i = Some th' /\ t_key th' = t_key th.
Proof.
  intros Hst Hi. destruct Hst as [j s s' Hst| | | |]; simpl in *; eauto.
  - destruct Hst; simpl in *; unfold with_pc;
      (destruct (decide (i = j)) as [->|Hne];
        [simplify_eq; eexists; split; [apply list_lookup_insert_eq; by eapply lookup_lt_Some|done]
        |eexists; split; [by rewrite list_lookup_insert_ne|done]]).
  - exists th. split; [by apply lookup_app_l_Some|done].
Qed.

Lemma arrival_ok_step s s' a :
  (forall i th, s_threads (sv_system s) !! i = Some th ->
     exists th', s_threads (sv_system s') !! i = Some th' /\ t_key th' = t_key th) ->
  arrival_ok s a -> arrival_ok s' a.
Proof.
  intros Hk [Hw Ha]. split; [done|]. destruct (ar_thread a) as [i|]; [|done].
  destruct Ha as (th & Hi & Hth & Hr). destruct (Hk i th Hi) as (th' & Hi' & E). exists th'.
  split_and!; [done|congruence|done].
Qed.

Lemma SInv_step n t0 s s' : service_step s s' -> SInv n t0 s -> SInv n t0 s'.
Proof.
  intros Hst [Hr Ha Ho]. destruct Hst as [now cs m ths hist ars inst q pick w Hq Hw Hi|s ars q pick w Hq Hw|s s' ars Hst Hl];
    simpl in *.
  - assert (Hst : step window slack (System now cs m ths hist)
      (System now cs m (ths ++ [Thread inst (key_of (H:=H) q) PStart]) hist)) by by constructor.
    split; simpl.
    + unfold reachable in *. etrans; [exact Hr|]. by apply rtc_once.
    + apply Forall_app. split.
      * eapply Forall_impl; [exact Ha|]. intros a. apply arrival_ok_step. intros i th. by apply step_keeps_threads.
      * constructor; [|done]. split; [done|]. simpl. eexists. by rewrite lookup_app_r, Nat.sub_diag by done.
    + assert (Hold : forall j a i, ars !! j = Some a -> ar_thread a = Some i -> (i < length ths)%nat).
      { intros j a i Hj Hai. destruct (Forall_lookup_1 _ _ _ _ Ha Hj) as [_ Hok]. rewrite Hai in Hok.
        destruct Hok as (th & Hth & _). by eapply lookup_lt_Some. }
      intros j1 j2 a1 a2 i H1 H2 E1 E2.
      apply lookup_snoc_Some in H1 as [[_ H1]|[-> <-]], H2 as [[_ H2]|[-> <-]]; simpl in *; eauto.
      * injection E2 as <-. specialize (Hold _ _ _ H1 E1). lia.
      * injection E1 as <-. specialize (Hold _ _ _ H2 E2). lia.
  - split; simpl; [done| |].
    + apply Forall_app. split; [exact Ha|]. by repeat constructor.
    + intros j1 j2 a1 a2 i H1 H2 E1 E2.
      apply lookup_snoc_Some in H1 as [[_ H1]|[-> <-]], H2 as [[_ H2]|[-> <-]]; simpl in *; eauto; done.
  - split; simpl; [|  |done].
    + unfold reachable in *. etrans; [exact Hr|]. by apply rtc_once.
    + eapply Forall_impl; [exact Ha|]. intros a. apply arrival_ok_step. intros i th. by apply step_keeps_threads.
Qed.

Lemma SInv_reachable n t0 s : service_reachable n t0 s -> SInv n t0 s.
Proof.
  intros Hr. unfold service_reachable in Hr.
  assert (H0 : SInv n t0 (ServiceState (initial n t0) [])).
  { split; simpl; [apply rtc_refl|constructor|done]. }
  induction Hr as [|s1 s2 s3 Hst _ IH]; [done|]. eauto using SInv_step.
Qed.

(** *** Counting the goroutines behind the answers *)

Lemma admitted_indices k ths (is_ : list nat) :
  NoDup is_ -> Forall (fun i => exists th, ths !! i = Some th /\ admitted k th) is_ ->
  (length is_ <= count_admitted k ths)%nat.
Proof.
  unfold count_admitted. revert is_. induction ths as [|th ths IH] using rev_ind; intros is_ Hnd Hf.
  - destruct is_ as [|i is_]; [done|]. inversion Hf as [|? ? (th & Hi & _)]; subst. done.
  - rewrite filter_app, length_app, filter_cons, filter_nil.
    pose proof (filter_app_complement (fun i => i <> length ths) is_) as Hp.
    apply Permutation_length in Hp. rewrite length_app in Hp.
    assert (H1 : (length (filter (fun i => i <> length ths) is_) <= length (filter (admitted k) ths))%nat).
    { apply IH; [by apply NoDup_filter|]. apply Forall_forall. intros i [Hne Hi]%list_elem_of_filter.
      rewrite Forall_forall in Hf. destruct (Hf i Hi) as (th' & Ht & Hadm). exists th'. split; [|done].
      apply lookup_snoc_Some in Ht as [[_ Ht]|[-> _]]; done. }
    assert (H2 : (length (filter (fun i => ~ i <> length ths) is_) <=
                  length (if decide (admitted k th) then [th] else []))%nat).
    { destruct (filter (fun i => ~ i <> length ths) is_) as [|i [|j l]] eqn:E; [simpl; lia| |].
      - assert (Hi : i ∈ filter (fun i => ~ i <> length ths) is_) by (rewrite E; left).
        apply list_elem_of_filter in Hi as [Hi%dec_stable Hin]. subst i.
        rewrite Forall_forall in Hf. destruct (Hf _ Hin) as (th' & Ht & Hadm).
        apply lookup_snoc_Some in Ht as [[Ht _]|[_ <-]]; [lia|]. by rewrite decide_True.
      - exfalso. assert (Hnd' : NoDup (i :: j :: l)) by (rewrite <-E; by apply NoDup_filter).
        assert (Hij : forall x, x ∈ i :: j :: l -> x = length ths).
        { intros x. rewrite <-E. intros [Hx%dec_stable _]%list_elem_of_filter. done. }
        apply NoDup_cons in Hnd' as [Hni _]. apply Hni.
        rewrite (Hij i), (Hij j) by (repeat constructor). left. }
    lia.
Qed.

Lemma choose_all {A B} (R : A -> B -> Prop) l :
  Forall (fun a => exists b, R a b) l -> exists l', Forall2 R l l'.
Proof.
  induction 1 as [|a l [b Hb] _ [l' IH]]; [by exists []|]. exists (b :: l'). by constructor.
Qed.

Lemma NoDup_image {A B} (R : A -> B -> Prop) l l' :
  (forall a1 a2 b, R a1 b -> R a2 b -> a1 = a2) -> Forall2 R l l' -> NoDup l -> NoDup l'.
Proof.
  intros Hinj HF. induction HF as [|a b l l' Hab HF IH]; [constructor|].
  intros [Hni Hnd]%NoDup_cons. constructor; [|by apply IH]. intros Hb. apply Hni.
  clear -Hinj HF Hab Hb. induction HF as [|a' b' l l' Hab' _ IH]; [by apply not_elem_of_nil in Hb|].
  apply elem_of_cons in Hb as [<-|Hb]; [|right; by apply IH]. rewrite (Hinj _ _ _ Hab Hab'). left.
Qed.

Lemma oracle_answer pick q (v : oracle) (w : world () D) :
  w_calls w = [] -> reaches_store h q = true ->
  w_calls (snd (Handle h pick q (with_other_store v w))) = answer h q (verdict_decision v).
Proof.
  intros Hw Hr. destruct (Handle_total (H:=H) h pick q (with_other_store v w)) as (w' & lat & -> & [Hc _ _ _] & _).
  cbn [snd]. rewrite Hc, decide_reaches by done. cbn [with_other_store w_calls w_store w_clock].
  destruct (store_call_begin (H:=H) h q v (w_clock w)) as (ctx & clk & _ & ->). by rewrite Hw.
Qed.

Lemma forwarded_admitted n t0 s k j a :
  FailOpen (h_cfg h) = false -> SInv n t0 s -> sv_arrivals s !! j = Some a -> forwarded k s a ->
  exists i th, ar_thread a = Some i /\ s_threads (sv_system s) !! i = Some th /\ admitted k th.
Proof.
  intros Hf [_ Ha _] Hj (Hr & Hk & Hans). destruct (Forall_lookup_1 _ _ _ _ Ha Hj) as [Hw Hok].
  unfold answer_of, verdict_of in Hans.
  destruct (ar_thread a) as [i|]; [|congruence]. destruct Hok as (th & Hi & Hkey & _).
  rewrite Hi in Hans. destruct (t_pc th) as [| | | | | |v t] eqn:Hpc; try discriminate Hans.
  injection Hans as Hans. rewrite oracle_answer in Hans by done.
  apply (answer_redirect h _ _ Hf) in Hans as ->. exists i, th. split_and!; [done..|].
  split; [congruence|by rewrite Hpc].
Qed.

Lemma forwarded_rate n t0 s k js :
  0 <= slack <= window -> FailOpen (h_cfg h) = false -> service_reachable n t0 s ->
  NoDup js -> Forall (fun j => exists a, sv_arrivals s !! j = Some a /\ forwarded k s a) js ->
  (Z.of_nat (length js) - 1) * (window - slack) <= s_now (sv_system s) - t0.
Proof.
  intros Hs Hf Hr Hnd HF. pose proof (SInv_reachable n t0 s Hr) as HI.
  set (R := fun j i => exists a th, sv_arrivals s !! j = Some a /\ ar_thread a = Some i /\
                         s_threads (sv_system s) !! i = Some th /\ admitted k th).
  assert (HR : Forall (fun j => exists i, R j i) js).
  { eapply Forall_impl; [exact HF|]. intros j (a & Hj & Ha).
    destruct (forwarded_admitted n t0 s k j a Hf HI Hj Ha) as (i & th & ? & ? & ?). by exists i, a, th. }
  apply choose_all in HR as [is_ HR].
  assert (Hnd' : NoDup is_).
  { eapply (NoDup_image R); [|exact HR|exact Hnd].
    intros j1 j2 i (a1 & th1 & ? & ? & _) (a2 & th2 & ? & ? & _). by eapply (si_own _ _ _ HI). }
  assert (Hle : (length js <= count_admitted k (s_threads (sv_system s)))%nat).
  { rewrite (Forall2_length _ _ _ HR). apply admitted_indices; [done|].
    clear -HR. induction HR as [|j i l l' (a & th & _ & _ & Hth & Hadm) _ IH]; constructor; [by exists th|done]. }
  pose proof (admitted_rate window slack ltac:(lia) ltac:(lia) n t0 _ k (si_reachable _ _ _ HI)). nia.
Qed.
End Concurrent.

(** ** What reaches the metrics *)

(** Every event recorded so far, by the chain and by the counters of the cache,
    is one its collector accepts. *)
Section MetricTypes.
Context {R : Type} `{!RedisClient R} {U : UnicodeTables} {G : Gin} {D : Type} `{!Hash D}.

Definition store_metrics (s : dedup_store R) : list metric_event :=
  match s with Plain _ => [] | Cached c => cs_metrics c end.
Definition metrics_ok (w : world (dedup_store R) D) : Prop :=
  Forall event_ok (w_metrics w) /\ Forall event_ok (store_metrics (w_store w)).

Definition keeps_metrics {A} (m : prog (dedup_store R) D A) : Prop :=
  forall w, metrics_ok w -> metrics_ok (snd (m w)).

Lemma keeps_bind {A B} (m : prog (dedup_store R) D A) (k : A -> prog (dedup_store R) D B) :
  keeps_metrics m -> (forall a, keeps_metrics (k a)) -> keeps_metrics (bind m k).
Proof.
  intros Hm Hk w Hw. unfold bind. specialize (Hm w Hw). destruct (m w) as [[a|v] w1]; [|done]. by apply Hk.
Qed.
Lemma keeps_ret {A} (a : A) : keeps_metrics (ret a).
Proof. by intros w. Qed.
Lemma keeps_call c : keeps_metrics (call c).
Proof. by intros w. Qed.
Lemma keeps_log l fs msg : keeps_metrics (log l fs msg).
Proof. by intros w. Qed.
Lemma keeps_metric e : event_ok e -> keeps_metrics (metric e).
Proof. intros He w [Hw Hs]. split; [|done]. simpl. apply Forall_app. split; [done|]. by apply Forall_singleton. Qed.
Lemma keeps_with_clock {A} (f : clock -> A * clock) : keeps_metrics (with_clock f).
Proof. intros w Hw. unfold with_clock. by destruct (f (w_clock w)). Qed.
Lemma keeps_with_pool {A} (f : list D -> A * list D) : keeps_metrics (with_pool f).
Proof. intros w Hw. unfold with_pool. by destruct (f (w_pool w)). Qed.
Lemma keeps_rand n : keeps_metrics (rand_Read n).
Proof. by intros w. Qed.
Lemma keeps_asks {A} (f : world (dedup_store R) D -> A) : keeps_metrics (asks f).
Proof. by intros w. Qed.
Lemma keeps_Status q : keeps_metrics (Status q).
Proof. apply keeps_asks. Qed.
Lemma keeps_GetString key : keeps_metrics (GetString key).
Proof. apply keeps_asks. Qed.
Lemma keeps_recovering m k : keeps_metrics m -> (forall v, keeps_metrics (k v)) -> keeps_metrics (recovering m k).
Proof.
  intros Hm Hk w Hw. unfold recovering. specialize (Hm w Hw). destruct (m w) as [[a|v] w1]; [done|]. by apply Hk.
Qed.

(** The counters of the cache, whatever is asked of the store. *)
Lemma IsDuplicate_metrics ctx key ttl (s : dedup_store R) clk :
  Forall event_ok (store_metrics s) -> Forall event_ok (store_metrics (snd (fst (IsDuplicate ctx key ttl s clk)))).
Proof.
  intros Hs. destruct s as [s|c].
  - change (IsDuplicate ctx key ttl (Plain s) clk) with
      (let '(r, s, clk) := IsDuplicate ctx key ttl s clk in (r, Plain s, clk)).
    by destruct (IsDuplicate ctx key ttl s clk) as [[r s'] clk'].
  - change (IsDuplicate ctx key ttl (Cached c) clk) with
      (let '(r, s, clk) := IsDuplicate ctx key ttl c clk in (r, Cached s, clk)).
    assert (Hh : event_ok (Inc CacheHitsTotal []) /\ event_ok (Inc CacheMissesTotal [])).
    { split; (split; [apply (bool_decide_unpack _); vm_compute; exact I|done]). }
    simpl in Hs.
    destruct (lc_live (cache c) key (now_of clk)) eqn:E; [rewrite cached_hit by done|rewrite cached_miss by done];
      destruct (Contains (cache c) key clk) as [[hit lc] clk1];
      [|destruct (IsDuplicate ctx key ttl (backend c) clk1) as [[[dup err] b] clk2]];
      simpl; apply Forall_app; (split; [done|]); constructor; tauto || constructor.
Qed.

Lemma keeps_IsDuplicate ctx key ttl : keeps_metrics (with_store (IsDuplicate ctx key ttl)).
Proof.
  intros w [Hw Hs]. unfold with_store. pose proof (IsDuplicate_metrics ctx key ttl (w_store w) (w_clock w) Hs) as H.
  by destruct (IsDuplicate ctx key ttl (w_store w) (w_clock w)) as [[r s'] clk'].
Qed.

Lemma keeps_Ping ctx : keeps_metrics (with_store (Ping ctx)).
Proof.
  intros w [Hw Hs]. unfold with_store. destruct (w_store w) as [s|c] eqn:Es; simpl in *.
  - by destruct s as [s|s]; simpl; [destruct (redis_store_Ping ctx s (w_clock w)) as [[r s'] clk']|].
  - unfold cached_Ping. destruct (backend c) as [s|s]; simpl;
      [destruct (redis_store_Ping ctx s (w_clock w)) as [[r s'] clk']|]; by split.
Qed.
End MetricTypes.

Create HintDb keeps.
#[export] Hint Resolve keeps_ret keeps_call keeps_log keeps_with_clock keeps_with_pool keeps_rand keeps_asks
  keeps_Status keeps_GetString keeps_IsDuplicate keeps_Ping : keeps.

(** An event of a collector of the package, with its number of labels. *)
Ltac event_typed :=
  apply keeps_metric; split; [apply (bool_decide_unpack _); vm_compute; exact I|done].
Ltac keeps_all :=
  repeat first
    [ progress intros
    | progress cbv zeta
    | solve [auto with keeps]
    | apply keeps_bind
    | event_typed
    | case_goal ].

(** The same configuration with another body limit. *)
Definition with_MaxBodyBytes (n : Z) (c : Config) : Config :=
  mkConfig (ListenAddr c) (ShutdownTimeout c) (LogLevel c)
    (TLSEnabled c) (TLSCertFile c) (TLSKeyFile c) (TLSMinVersion c)
    (LogFile c) (LogMaxSizeMB c) (LogMaxBackups c) (LogMaxAgeDays c) (LogCompress c)
    (RedisAddr c) (RedisPassword c) (RedisDB c)
    (RedisDialTimeout c) (RedisReadTimeout c) (RedisWriteTimeout c)
    (RedisPoolSize c) (RedisMinIdle c)
    (DedupWindow c) n (FailOpen c) (ExcludeMethods c) (excludeSet c)
    (XAccelRedirectPrefix c) (LocalCacheEnabled c) (GOGC c) (StoreTimeout c) (DisableRequestLogging c).

(** ** Properties *)

Section Properties.
Context {U : UnicodeTables} {D : Type} `{!Hash D} {H : bytes -> bytes} `{!HashLaws D H}.

(** C2: the service under concurrency.  Requests arrive at any number of
    instances, each with its own cache and sweeper, in any interleaving with one
    another, evictions and expiries; each makes its one call of the store under
    the key of its method, URI and body and is answered by the handler from the
    verdict of that call.  In fail-closed mode the requests with one key that have
    been forwarded to the upstream, in any reachable state, are at most one more
    than the whole windows (up to the store's resolution) that have passed since
    the start: in particular within the first window at most one. *)
Theorem concurrent_forwarding_rate h slack n t0 (s : service D) k js :
  0 <= slack <= DedupWindow (h_cfg h) -> FailOpen (h_cfg h) = false ->
  service_reachable (H:=H) h slack n t0 s ->
  NoDup js -> Forall (fun j => exists a, sv_arrivals s !! j = Some a /\ forwarded (H:=H) h k s a) js ->
  (Z.of_nat (length js) - 1) * (DedupWindow (h_cfg h) - slack) <= s_now (sv_system s) - t0 /\
  (s_now (sv_system s) < t0 + (DedupWindow (h_cfg h) - slack) -> (length js <= 1)%nat).
Proof.
  intros Hs Hf Hr Hnd HF. pose proof (forwarded_rate (H:=H) h slack n t0 s k js Hs Hf Hr Hnd HF) as Hle.
  split; [exact Hle|]. intros Hlt. nia.
Qed.

(** C7: the one call of the store.  Every request that reaches the store
    asks it exactly one thing, whether the key of its method, URI and body was
    seen within the configured window, and nothing else ever; a request that does
    not reach it asks nothing.  Watching the store does not change what the client
    gets.  Under a valid configuration the call carries a deadline, at most the
    store timeout after the handler's reading of the clock and never after the
    request's own. *)
Theorem store_asked_once {S : Type} `{!Store S} h pick q (w : world (spy S) D) :
  exists w' ctx at_,
    Handle h pick q w = (Returned (), w') /\
    w_calls w' = w_calls (snd (Handle h pick q (with_other_store (spied (w_store w)) w))) /\
    asks_seen (w_store w') = asks_seen (w_store w) ++
      (if reaches_store h q then [AskedDuplicate ctx (key_of (H:=H) q) (DedupWindow (h_cfg h)) at_] else []) /\
    (monotone (w_clock w) -> now_of (w_clock w) <= at_) /\
    (valid (h_cfg h) -> exists d, ctx = Some d /\ d <= now_of (w_clock w) + StoreTimeout (h_cfg h) /\
       (d = now_of (w_clock w) + StoreTimeout (h_cfg h) \/ q_Context q = Some d) /\
       forall p, q_Context q = Some p -> d <= p).
Proof.
  destruct (Handle_total (H:=H) h pick q w) as (w' & lat & E & [Hc _ _ _] & Hr).
  destruct (Handle_total (H:=H) h pick q (with_other_store (spied (w_store w)) w)) as (w2 & lat2 & E2 & [Hc2 _ _ _] & _).
  destruct (store_call_spy (H:=H) h q (w_store w) (w_clock w)) as (clk0 & Hl & Hv & Hseen).
  eexists w', _, (now_of clk0). split; [exact E|]. split.
  { rewrite E2. cbn [snd]. rewrite Hc, Hc2. f_equal. f_equal. unfold decide_request.
    cbn [w_store w_clock with_other_store]. by rewrite Hv. }
  split; [|split].
  - destruct (reaches_store h q); destruct Hr as (_ & -> & _); [exact Hseen|by rewrite app_nil_r].
  - intros Hm. by apply later_le.
  - intros Hv'. unfold valid in Hv'. rewrite Forall_forall in Hv'.
    specialize (Hv' ("performance.store_timeout", fun c => 0 < StoreTimeout c) ltac:(unfold rules; do 9 right; left)).
    simpl in Hv'. rewrite (proj2 (Z.ltb_lt _ _) Hv'). unfold context_WithTimeout, now_of. simpl.
    destruct (q_Context q) as [p|]; (eexists; split; [reflexivity|]); split_and!; try lia.
    + destruct (Z.min_spec p (ticks (w_clock w) (pos (w_clock w)) + StoreTimeout (h_cfg h))) as [[_ ->]|[_ ->]]; auto.
    + intros p' [= <-]. lia.
    + intros p' [=].
Qed.

(** C30: no metric call can panic or be dropped for its labels.  Whatever
    route a request takes, whatever the store answers and wherever a handler
    panics, every event the chain, the handlers and the cache report names a
    registered collector, with one value for each of its labels, and counts or
    observes as the collector can; given that the handlers of other packages keep
    to that. *)
Theorem metrics_well_typed {R : Type} `{!RedisClient R} {G : Gin} external cfg pick q
    (w : world (dedup_store R) D) :
  (forall name q, keeps_metrics (external name q)) ->
  metrics_ok w -> metrics_ok (snd (ServeHTTP external cfg pick q w)).
Proof.
  intros Hext Hw. revert w Hw. fold (keeps_metrics (ServeHTTP (R:=R) external cfg pick q)).
  unfold ServeHTTP. cbn [new_router rt_Use foldr run_middleware].
  assert (Hend : keeps_metrics (run_endpoint external cfg pick (route (new_router cfg) q) q)).
  { destruct (route (new_router cfg) q) as [|name|]; simpl; [|apply Hext|].
    - unfold health_Handle. keeps_all.
    - unfold Handle, handleStoreErr, allow. keeps_all. }
  revert Hend. generalize (run_endpoint external cfg pick (route (new_router cfg) q) q) as m. intros m Hm.
  apply keeps_recovering; [|keeps_all].
  unfold RequestID. keeps_all.
Qed.

(** C40: [dedup.max_body_bytes] has no effect.  Two configurations that differ
    in nothing else give the same store and the same answer, store calls, metrics
    and logs to every request in every state; and what decides whether two
    requests to one URI share a key is the hash of their whole bodies, however
    long. *)
Theorem max_body_bytes_has_no_effect {R : Type} `{!RedisClient R} {G : Gin} external cfg n pick q q'
    (w : world (dedup_store R) D) :
  ServeHTTP external (with_MaxBodyBytes n cfg) pick q w = ServeHTTP external cfg pick q w /\
  (forall clk, initStore (R:=R) (with_MaxBodyBytes n cfg) clk = initStore cfg clk) /\
  (forall m u b b', m = r_Method (q_http q) /\ m = r_Method (q_http q') ->
     u = r_RequestURI (q_http q) /\ u = r_RequestURI (q_http q') ->
     body_of q = (b, None) /\ body_of q' = (b', None) ->
     (key_of (H:=H) q = key_of (H:=H) q' <->
      H (bytes_of m ++ bytes_of u ++ b) = H (bytes_of m ++ bytes_of u ++ b'))).
Proof.
  split; [by destruct (route (new_router cfg) q)|]. split; [done|].
  intros m u b b' [Hm Hm'] [Hu Hu'] [Hb Hb']. unfold key_of. rewrite key_spec_eq.
  unfold hash_input. cbn [Method URI Body]. by rewrite <-Hm, <-Hm', <-Hu, <-Hu', Hb, Hb'.
Qed.
End Properties.

(** ** Witnesses *)

#[local] Existing Instance ascii_tables.

Definition w_own : world () digest := World [] [] [] () [] (clock_of [0]) (fun _ => x00) 0.
Abbreviation w_window := (DedupWindow (h_cfg w_handler)).
Abbreviation w_key := (key_of (H:=sha256_spec) w_post).

(** One instance: a request arrives, its goroutine runs alone, and it is forwarded. *)
Lemma sample_service :
  exists s, service_reachable (H:=sha256_spec) w_handler 0 1 0 s /\ s_now (sv_system s) = 0 /\
    exists a, sv_arrivals s !! 0%nat = Some a /\ forwarded (H:=sha256_spec) w_handler w_key s a.
Proof.
  assert (Hr : lc_read NewLocalCache w_key = None) by apply NewLocalCache_read.
  assert (Hq : reaches_store w_handler w_post = true) by (vm_compute; reflexivity).
  revert Hr. generalize w_key at 1 as k0. intros _ _.
  assert (Hrun : forall k, lc_read NewLocalCache k = None ->
    exists cs m hist, rtc (service_step (D:=digest) (H:=sha256_spec) w_handler 0)
      (ServiceState (System 0 [NewLocalCache] ∅ [Thread 0 k PStart] []) [Arrival w_post 0 w_own (Some 0%nat)])
      (ServiceState (System 0 cs m [Thread 0 k (PDone (false, None) 0)] hist) [Arrival w_post 0 w_own (Some 0%nat)])).
  { intros k Hr. eexists _, _, _.
    eapply rtc_l; [apply service_runs; [apply (step_thread _ _ 0); by apply step_contains|done]|]. unfold with_pc. simpl.
    eapply rtc_l; [apply service_runs; [apply (step_thread _ _ 0), step_lookup with (t := 0) (c := NewLocalCache); reflexivity|done]|].
    simpl t_key. rewrite Hr. simpl after_lookup. unfold with_pc. simpl.
    eapply rtc_l; [apply service_runs; [apply (step_thread _ _ 0), step_backend with (r := (false, None)) (m' := {[k := w_window]});
      [reflexivity|reflexivity|]|done]|].
    { apply outcome_new; [intros d; by rewrite lookup_empty|]. exists w_window, ∅. split; [reflexivity|]. split; [simpl; lia|done]. }
    unfold with_pc. simpl.
    eapply rtc_l; [apply service_runs; [apply (step_thread _ _ 0), step_read_clock with (dup := false) (t := 0); reflexivity|done]|].
    unfold with_pc. simpl.
    eapply rtc_l; [apply service_runs; [apply (step_thread _ _ 0), step_put with (c := NewLocalCache) (dup := false) (t := 0); reflexivity|done]|].
    apply rtc_refl. }
  destruct (Hrun w_key (NewLocalCache_read _)) as (cs & m & hist & Hrtc).
  eexists. split; [|split; [|exists (Arrival w_post 0 w_own (Some 0%nat)); split]].
  - unfold service_reachable, initial. simpl replicate.
    eapply rtc_l; [|exact Hrtc].
    apply (service_asks (H:=sha256_spec) w_handler 0 0 [NewLocalCache] ∅ [] [] [] 0 w_post 0 w_own); [exact Hq|done|simpl; lia].
  - done.
  - done.
  - split_and!; [exact Hq|done|vm_compute; reflexivity].
Qed.

Lemma concurrent_forwarding_rate_witness :
  exists s a, service_reachable (H:=sha256_spec) w_handler 0 1 0 s /\ sv_arrivals s !! 0%nat = Some a /\
    forwarded (H:=sha256_spec) w_handler w_key s a /\
    (Z.of_nat 1 - 1) * (w_window - 0) <= s_now (sv_system s) - 0.
Proof.
  destruct sample_service as (s & Hr & Hn & a & Hj & Ha). exists s, a. split; [exact Hr|]. split; [exact Hj|].
  split; [exact Ha|].
  refine (proj1 (concurrent_forwarding_rate (H:=sha256_spec) w_handler 0 1 0 s w_key [0%nat] _ eq_refl Hr _ _)).
  - split; [done|vm_compute; discriminate].
  - apply NoDup_singleton.
  - constructor; [by exists a|constructor].
Defined.

Lemma fail_closed_valid : valid fail_closed.
Proof.
  unfold valid, rules.
  constructor; [discriminate|]. constructor; [intros [=]|]. constructor; [intros [=]|].
  constructor; [left|]. constructor; [discriminate|].
  do 5 (constructor; [reflexivity|]). constructor; [vm_compute; discriminate|constructor].
Qed.

Lemma store_asked_once_witness :
  exists w' d at_, Handle w_handler 0 w_post (World [] [] [] (Spy NewMemory []) [] (clock_of [5]) (fun _ => x00) 0)
      = (Returned (), w') /\
    asks_seen (w_store w') = [AskedDuplicate (Some d) w_key w_window at_] /\ d <= 5 + 500 * Millisecond.
Proof.
  destruct (store_asked_once (H:=sha256_spec) w_handler 0 w_post
    (World [] [] [] (Spy NewMemory []) [] (clock_of [5]) (fun _ => x00) 0)) as (w' & ctx & at_ & E & _ & Ha & _ & Hv).
  destruct Hv as (d & -> & Hd & _).
  { exact fail_closed_valid. }
  exists w', d, at_. split; [exact E|]. split; [|exact Hd]. rewrite Ha. reflexivity.
Defined.

Lemma metrics_well_typed_witness :
  metrics_ok (snd (ServeHTTP silent fail_closed 0 w_post (w_process live_store (clock_of [5])))).
Proof.
  apply (metrics_well_typed silent fail_closed 0 w_post (w_process live_store (clock_of [5]))).
  - intros name q. apply keeps_ret.
  - split; constructor.
Defined.

Definition w_long : gin_request := w_request [(bytes_of "amount=", RNil); (bytes_of "1000", REOF)].

(** A limit of one byte does not make the two bodies alike. *)
Lemma max_body_bytes_has_no_effect_witness :
  key_of (H:=sha256_spec) w_post <> key_of (H:=sha256_spec) w_long /\
  ServeHTTP silent (with_MaxBodyBytes 1 fail_closed) 0 w_post (w_process live_store (clock_of [5])) =
  ServeHTTP silent fail_closed 0 w_post (w_process live_store (clock_of [5])).
Proof.
  destruct (max_body_bytes_has_no_effect (H:=sha256_spec) silent fail_closed 1 0 w_post w_long
    (w_process live_store (clock_of [5]))) as (E & _ & Hk).
  split; [|exact E]. intros Hkey.
  pose proof (proj1 (Hk "POST"%string "/api/orders"%string (bytes_of "amount=100") (bytes_of "amount=1000")
    (conj eq_refl eq_refl) (conj eq_refl eq_refl)
    ltac:(split; vm_compute; reflexivity)) Hkey) as Hsum. clear -Hsum. vm_compute in Hsum. discriminate Hsum.
Defined.
