(* ===== verification/Conformance.v ===== *)
(** * Conformance: the repository's unit tests, run on the model

    Every [Example] has the name of the Go test it transcribes (a suffix says
    which file, where two files use one name) and is evaluated on the
    definitions of this library with the real SHA-256: what the tests expect of
    the program, the model does.  An operation takes a clock that stands at the
    test's time in milliseconds; [time.Sleep] is a later clock for the next
    operation.  The tests of concurrent access, of bodies of many kilobytes and of
    the spread over the shards are left out: the first two are theorems
    ([Interleaving], [Fingerprint]), the third is a matter of statistics. *)

From S2P Require Import Prelude GoTime GoStrings GoJSON Sha256 Fingerprint Store LocalCache Metrics.
From S2P Require Import CachedStore Config Gin Handler Middleware.

Local Open Scope Z_scope.
#[local] Existing Instance ascii_tables.

Definition at_ms (t : Z) : clock := clock_of [t * Millisecond].

(** ** internal/fingerprint/fingerprint_test.go *)
Section FingerprintTest.

(** [httptest.NewRequest]: no reader where there is no body *)
Definition NewRequest (method uri body : string) (headers : list (string * string)) (addr : string) : http_request :=
  HTTPRequest method uri
    (if decide (body = EmptyString) then None else Some [(bytes_of body, REOF)]) headers addr.
Definition req (method uri body : string) : http_request := NewRequest method uri body [] "192.0.2.1:1234".

Definition hash_of (r : http_request) : option string :=
  match FromHTTP r with Ok f => Some (fst (Request_Hash (D:=digest) 0 f [])) | Err _ => None end.
Definition redis_key_of (r : http_request) : option string :=
  match FromHTTP r with Ok f => Some (fst (RedisKey (D:=digest) 0 f [])) | Err _ => None end.
Definition body_of (body : string) : reader := [(bytes_of body, REOF)].

Definition amount (n : string) : string :=
  string_of ([x7b; x22] ++ bytes_of "amount" ++ [x22; x3a] ++ bytes_of n ++ [x7d]).

Definition differ (r r' : http_request) : bool := negb (bool_decide (hash_of r = hash_of r')).
Definition same (r r' : http_request) : bool := bool_decide (hash_of r = hash_of r').

Example TestMethodDifferentiates : differ (req "POST" "/api/orders" "{}") (req "PUT" "/api/orders" "{}") = true.
Proof. vm_compute. reflexivity. Qed.
Example TestURIDifferentiates : differ (req "POST" "/api/orders/1" "{}") (req "POST" "/api/orders/2" "{}") = true.
Proof. vm_compute. reflexivity. Qed.
Example TestQueryStringDifferentiates :
  differ (req "POST" "/api/search?q=foo" "{}") (req "POST" "/api/search?q=bar" "{}") = true.
Proof. vm_compute. reflexivity. Qed.
Example TestBodyDifferentiates :
  differ (req "POST" "/api/orders" (amount "100")) (req "POST" "/api/orders" (amount "200")) = true.
Proof. vm_compute. reflexivity. Qed.

Example TestAuthHeaderIgnored :
  same (NewRequest "POST" "/api/orders" (amount "100") [("Authorization", "Bearer userA")] "192.0.2.1:1234")
       (NewRequest "POST" "/api/orders" (amount "100") [("Authorization", "Bearer userB")] "192.0.2.1:1234") = true.
Proof. vm_compute. reflexivity. Qed.
Example TestClientIPIgnored :
  same (NewRequest "POST" "/api/orders" (amount "100") [] "1.2.3.4:9000")
       (NewRequest "POST" "/api/orders" (amount "100") [] "9.9.9.9:9000") = true.
Proof. vm_compute. reflexivity. Qed.
Example TestXOriginalHeadersIgnored :
  same (req "POST" "/api/orders" "{}")
       (NewRequest "POST" "/api/orders" "{}"
          [("X-Original-Method", "DELETE"); ("X-Original-URI", "/api/other")] "192.0.2.1:1234") = true.
Proof. vm_compute. reflexivity. Qed.

Example TestRedisKeyPrefix :
  option_map (fun k => (String.prefix "dedup:" k, String.length k)) (redis_key_of (req "POST" "/api/orders" "{}"))
    = Some (true, 70%nat).
Proof. vm_compute. reflexivity. Qed.

Example TestStreamingRedisKeyEqualsBuffered :
  let body := amount "999" in
  Some (fst (fst (fst (StreamingRedisKey (D:=digest) 0 "POST" "/api/orders" (body_of body) []))))
    = redis_key_of (req "POST" "/api/orders" body).
Proof. vm_compute. reflexivity. Qed.
Example TestStreamingRedisKeyEmptyBody :
  let '(key, bodyLen, err) := fst (StreamingRedisKey (D:=digest) 0 "GET" "/api/status" [] []) in
  (String.prefix "dedup:" key, bodyLen, err) = (true, 0, None).
Proof. vm_compute. reflexivity. Qed.
Example TestStreamingHashEqualsBuffered :
  let body := amount "1" in
  Some (fst (fst (fst (StreamingHash (D:=digest) 0 "POST" "/api/data" (body_of body) []))))
    = hash_of (req "POST" "/api/data" body).
Proof. vm_compute. reflexivity. Qed.
End FingerprintTest.

(** ** internal/store/store_test.go and the CachedStore tests *)
Section StoreTest.
Context {S : Type} `{!Store S}.

(** The answers of [IsDuplicate] to calls at the given times. *)
Fixpoint asks_at (calls : list (Z * string * Z)) (s : S) : list (bool * option error) * S :=
  match calls with
  | [] => ([], s)
  | (t, key, ttl) :: calls =>
      let '(r, s, _) := IsDuplicate context_Background key (ttl * Millisecond) s (at_ms t) in
      let '(rs, s) := asks_at calls s in (r :: rs, s)
  end.
Definition answers_at (calls : list (Z * string * Z)) (s : S) : list (bool * option error) := fst (asks_at calls s).
End StoreTest.

Definition broken : MemoryStore := mkMemoryStore ∅ (Some ErrUnavailable).

Example TestMemoryStore_SecondCallIsDuplicate :
  answers_at [(0, "key:abc", 10000); (0, "key:abc", 10000)] NewMemory = [(false, None); (true, None)].
Proof. vm_compute. reflexivity. Qed.
Example TestMemoryStore_DifferentKeysAreIndependent :
  answers_at [(0, "key:aaa", 10000); (0, "key:bbb", 10000)] NewMemory = [(false, None); (false, None)].
Proof. vm_compute. reflexivity. Qed.
Example TestMemoryStore_ExpiryAllowsReuse :
  answers_at [(0, "key:abc", 30); (60, "key:abc", 30)] NewMemory = [(false, None); (false, None)].
Proof. vm_compute. reflexivity. Qed.
Example TestMemoryStore_ErrorPropagated :
  answers_at [(0, "key:abc", 10000)] broken = [(false, Some ErrUnavailable)].
Proof. vm_compute. reflexivity. Qed.
Example TestMemoryStore_Ping :
  (fst (fst (Ping context_Background broken (at_ms 0))), fst (fst (Ping context_Background NewMemory (at_ms 0))))
    = (Some ErrUnavailable, None).
Proof. vm_compute. reflexivity. Qed.

Example TestCachedStore_SecondCallIsDuplicate :
  answers_at [(0, "key:1", 10000); (0, "key:1", 10000)] (NewCached NewMemory) = [(false, None); (true, None)].
Proof. vm_compute. reflexivity. Qed.
Example TestCachedStore_DifferentKeysIndependent :
  answers_at [(0, "key:a", 10000); (0, "key:b", 10000)] (NewCached NewMemory) = [(false, None); (false, None)].
Proof. vm_compute. reflexivity. Qed.
Example TestCachedStore_TTLExpiry :
  answers_at [(0, "key:1", 30); (60, "key:1", 30)] (NewCached NewMemory) = [(false, None); (false, None)].
Proof. vm_compute. reflexivity. Qed.
Example TestCachedStore_ExpiryAllowsReuse :
  answers_at [(0, "key:1", 30); (0, "key:1", 30); (60, "key:1", 30)] (NewCached NewMemory)
    = [(false, None); (true, None); (false, None)].
Proof. vm_compute. reflexivity. Qed.
Example TestCachedStore_BackendErrorPropagated :
  answers_at [(0, "key:1", 5000)] (NewCached broken) = [(false, Some ErrUnavailable)].
Proof. vm_compute. reflexivity. Qed.

(** the backend breaks after the first call; the cache still knows the key *)
Example TestCachedStore_L1CacheHitSkipsBackend :
  let s := snd (asks_at [(0, "key:1", 5000)] (NewCached NewMemory)) in
  answers_at [(0, "key:1", 5000)] (cs_with_backend broken s) = [(true, None)].
Proof. vm_compute. reflexivity. Qed.
(** the key is in the backend, not in the cache *)
Example TestCachedStore_L1MissFallsToBackend :
  let m := snd (asks_at [(0, "key:1", 5000)] NewMemory) in
  answers_at [(0, "key:1", 5000)] (NewCached m) = [(true, None)].
Proof. vm_compute. reflexivity. Qed.
(** the wrapper counts the calls that reach the backend by their misses *)
Example TestCachedStore_L1CacheHit :
  cs_metrics (snd (asks_at [(0, "key:1", 10000); (0, "key:1", 10000)] (NewCached NewMemory)))
    = [Inc CacheMissesTotal []; Inc CacheHitsTotal []].
Proof. vm_compute. reflexivity. Qed.
Example TestCachedStore_CacheLen :
  (CacheLen (NewCached NewMemory),
   CacheLen (snd (asks_at [(0, "a", 5000); (0, "b", 5000)] (NewCached NewMemory)))) = (0, 2).
Proof. vm_compute. reflexivity. Qed.
Example TestCachedStore_Ping :
  (fst (fst (Ping context_Background (NewCached NewMemory) (at_ms 0))),
   fst (fst (Ping context_Background (NewCached broken) (at_ms 0)))) = (None, Some ErrUnavailable).
Proof. vm_compute. reflexivity. Qed.
Example TestCachedStore_CloseStopsSweep :
  let '(err, s, _) := cached_Close (NewCached NewMemory) (at_ms 0) in (err, sweeping s) = (None, false).
Proof. vm_compute. reflexivity. Qed.

(** ** internal/store/localcache_test.go and cache_test.go *)

(** [Set] at a time, of a key, for a time to live. *)
Definition sets (l : list (Z * string * Z)) : LocalCache :=
  foldl (fun c '(t, k, ttl) => fst (lc_Set c k (ttl * Millisecond) (at_ms t))) NewLocalCache l.
Definition contains_at (t : Z) (k : string) (c : LocalCache) : bool := fst (fst (Contains c k (at_ms t))).

Example TestLocalCache_SetAndContains :
  let c := sets [(0, "key1", 5000)] in (contains_at 0 "key1" c, contains_at 0 "key2" c) = (true, false).
Proof. vm_compute. reflexivity. Qed.
Example TestLocalCache_ContainsMiss : contains_at 0 "nonexistent" NewLocalCache = false.
Proof. vm_compute. reflexivity. Qed.
Example TestLocalCache_Expiry :
  let c := sets [(0, "key1", 30)] in (contains_at 0 "key1" c, contains_at 60 "key1" c) = (true, false).
Proof. vm_compute. reflexivity. Qed.
Example TestLocalCache_LazyEviction :
  let c := sets [(0, "key1", 30)] in (Len c, Len (snd (fst (Contains c "key1" (at_ms 60))))) = (1, 0).
Proof. vm_compute. reflexivity. Qed.
Example TestLocalCache_Sweep :
  let c := sets (map (fun i => (0, "k-" +:+ strconv_Itoa (Z.of_nat i), 30)) (seq 0 100)) in
  (Len c, Len (fst (sweep c (at_ms 60)))) = (100, 0).
Proof. vm_compute. reflexivity. Qed.
Example TestLocalCache_SweepLoop :
  let '(c, _, returned) := SweepLoop [TickerC; TickerC; TickerC; CtxDone] (sets [(0, "key1", 20)])
                             (clock_of (map (Z.mul Millisecond) [30; 60; 90])) in
  (Len c, returned) = (0, true).
Proof. vm_compute. reflexivity. Qed.
Example TestLocalCache_Sweep_external :
  let '(c, _, _) := SweepLoop [TickerC; CtxDone] (sets [(0, "expire-me", 10); (0, "keep-me", 5000)]) (at_ms 31) in
  (Len c, contains_at 50 "keep-me" c) = (1, true).
Proof. vm_compute. reflexivity. Qed.
Example TestLocalCache_Overwrite :
  contains_at 60 "key1" (sets [(0, "key1", 30); (0, "key1", 5000)]) = true.
Proof. vm_compute. reflexivity. Qed.
Example TestLocalCache_OverwriteResetsTTL :
  contains_at 40 "key1" (sets [(0, "key1", 30); (20, "key1", 100)]) = true.
Proof. vm_compute. reflexivity. Qed.
Example TestLocalCache_Len :
  (Len NewLocalCache, Len (sets [(0, "a", 3600000); (0, "b", 3600000); (0, "c", 3600000)])) = (0, 3).
Proof. vm_compute. reflexivity. Qed.

(** ** internal/config/config_test.go *)

(** [Load] with a file that has these settings, and without one. *)
Definition load_file (file : gmap string value) : res Config := Load (Viper0:=file_viper file None) ["config.json"].
Definition load_missing : res Config := Load (Viper0:=file_viper ∅ (Some no_file)) ["nonexistent.json"].
Definition rejects (r : res Config) : bool := match r with Ok _ => false | Err _ => true end.

Example TestLoadDefaults :
  match load_missing with
  | Ok c => (ListenAddr c, DedupWindow c, FailOpen c, XAccelRedirectPrefix c, TLSEnabled c, TLSMinVersion c)
            = (":8081", 10 * Second, true, "/internal/upstream", false, "1.2")%string
  | Err _ => False
  end.
Proof. vm_compute. reflexivity. Qed.

Example TestIsMethodExcluded :
  match load_missing with
  | Ok c => (map (IsMethodExcluded c) ["GET"; "get"; "HEAD"; "OPTIONS"],
             map (IsMethodExcluded c) ["POST"; "PUT"; "PATCH"; "DELETE"])%string
            = ([true; true; true; true], [false; false; false; false])
  | Err _ => False
  end.
Proof. vm_compute. reflexivity. Qed.

Example TestJSONOverrides :
  match load_file {["server.listen_addr" := VString ":9090"; "dedup.window" := VString "30s";
                    "dedup.fail_open" := VBool false; "dedup.exclude_methods" := VStrings ["GET"; "POST"]]} with
  | Ok c => (ListenAddr c, DedupWindow c, FailOpen c, IsMethodExcluded c "POST")
            = (":9090"%string, 30 * Second, false, true)
  | Err _ => False
  end.
Proof. vm_compute. reflexivity. Qed.

Example TestValidationRejectsZeroWindow : rejects (load_file {["dedup.window" := VString "0s"]}) = true.
Proof. vm_compute. reflexivity. Qed.
Example TestValidationRejectsEmptyAddr : rejects (load_file {["server.listen_addr" := VString EmptyString]}) = true.
Proof. vm_compute. reflexivity. Qed.
Example TestValidationRejectsTLSEnabledWithoutCertOrKey :
  rejects (load_file {["server.tls_enabled" := VBool true; "server.tls_min_version" := VString "1.2"]}) = true.
Proof. vm_compute. reflexivity. Qed.
Example TestValidationRejectsInvalidTLSMinVersion :
  rejects (load_file {["server.tls_min_version" := VString "1.1"]}) = true.
Proof. vm_compute. reflexivity. Qed.

(** ** internal/handler/xaccel_test.go *)

Definition testRedirectPrefix : string := "/internal/upstream".
(** [baseCfg]: the fields the tests leave at zero are not read by the handler *)
Definition baseCfg (failOpen : bool) (window : Z) : Config :=
  BuildExcludeSet (mkConfig EmptyString 0 EmptyString false EmptyString EmptyString EmptyString EmptyString 0 0 0 false
    EmptyString EmptyString 0 0 0 0 0 0 window 65536 failOpen ["GET"; "HEAD"; "OPTIONS"] ∅ EmptyString false 0 0 false).

Definition gin_of (r : http_request) : gin_request :=
  GinRequest r (r_RequestURI r) false (fun _ => EmptyString) "/*path" "127.0.0.1" "Go-http-client/1.1"
    context_Background 200.

(** The value of a response header: the last one set. *)
Definition Header_Get (k : string) (tr : list gin_call) : string :=
  foldl (fun v c => match c with CHeader k' v' => if decide (k' = k) then v' else v | _ => v end) EmptyString tr.

(** One request at a time: the status, and the redirect header. *)
Fixpoint serveXAccel (h : XAccelDedupHandler) (reqs : list (Z * http_request)) (s : MemoryStore)
  : list (Z * string) :=
  match reqs with
  | [] => []
  | (t, r) :: reqs =>
      let w := snd (Handle h 0 (gin_of r) (World [] [] [] s [] (at_ms t) (fun _ => x00) 0 : world MemoryStore digest)) in
      (Writer_Status 200 (w_calls w), Header_Get "X-Accel-Redirect" (w_calls w)) :: serveXAccel h reqs (w_store w)
  end.

Definition order (n : string) : http_request := req "POST" "/api/orders" (amount n).
Definition open_handler : XAccelDedupHandler := NewXAccelDedup (baseCfg true (10 * Second)) testRedirectPrefix.
Definition closed_handler : XAccelDedupHandler := NewXAccelDedup (baseCfg false (10 * Second)) testRedirectPrefix.
Definition redirected (uri : string) : Z * string := (200, testRedirectPrefix +:+ uri).

Example TestXAccelDuplicateBodyRejected :
  serveXAccel open_handler [(0, order "100"); (0, order "100")] NewMemory
    = [redirected "/api/orders"; (409, EmptyString)].
Proof. vm_compute. reflexivity. Qed.
Example TestXAccelDifferentBodyNotDuplicate :
  serveXAccel open_handler [(0, order "100"); (0, order "999")] NewMemory
    = [redirected "/api/orders"; redirected "/api/orders"].
Proof. vm_compute. reflexivity. Qed.
Example TestXAccelSameBodyDifferentURINotDuplicate :
  serveXAccel open_handler [(0, order "100"); (0, req "POST" "/api/payments" (amount "100"))] NewMemory
    = [redirected "/api/orders"; redirected "/api/payments"].
Proof. vm_compute. reflexivity. Qed.
Example TestXAccelGETBypassesDedup :
  let get := req "GET" "/api/orders" EmptyString in
  serveXAccel open_handler [(0, get); (0, get)] NewMemory = [redirected "/api/orders"; redirected "/api/orders"].
Proof. vm_compute. reflexivity. Qed.
Example TestXAccelFailOpenRedirects :
  serveXAccel open_handler [(0, order "100")] broken = [redirected "/api/orders"].
Proof. vm_compute. reflexivity. Qed.
Example TestXAccelFailClosedRejects :
  serveXAccel closed_handler [(0, order "100")] broken = [(500, EmptyString)].
Proof. vm_compute. reflexivity. Qed.
Example TestXAccelWindowExpiry :
  serveXAccel (NewXAccelDedup (baseCfg true (40 * Millisecond)) testRedirectPrefix)
    [(0, order "7"); (0, order "7"); (80, order "7")] NewMemory
    = [redirected "/api/orders"; (409, EmptyString); redirected "/api/orders"].
Proof. vm_compute. reflexivity. Qed.
Example TestXAccelRedirectPrefixConcatenation :
  serveXAccel open_handler [(0, req "POST" "/api/v2/orders?ref=abc" (amount "1"))] NewMemory
    = [redirected "/api/v2/orders?ref=abc"].
Proof. vm_compute. reflexivity. Qed.

(** ** internal/middleware/middleware_test.go *)

(** A chain over an endpoint: the calls made, and how it ended. *)
Definition run_chain (p : prog MemoryStore digest ()) : outcome_of () * list gin_call :=
  let '(o, w) := p (World [] [] [] NewMemory [] (at_ms 0) (fun i => Z_byte (Z.of_nat (7 * i))) 0) in (o, w_calls w).
Definition get_request (tls : bool) (headers : string -> string) : gin_request :=
  GinRequest (req "GET" "/test" EmptyString) "/test" tls headers "/test" "192.0.2.1" EmptyString context_Background 200.
Definition no_headers (_ : string) : string := EmptyString.
Definition endpoint : prog MemoryStore digest () := call (CStatus 200).

Example TestRequestID_GeneratesWhenMissing :
  let calls := snd (run_chain (RequestID (get_request false no_headers) endpoint)) in
  let id := Header_Get RequestIDHeader calls in
  (String.length id, bool_decide (ctx_GetString calls "request_id" = id)) = (32%nat, true).
Proof. vm_compute. reflexivity. Qed.
Example TestRequestID_ReusesClientProvided :
  let client k := if decide (k = RequestIDHeader) then "client-id-123"%string else EmptyString in
  Header_Get RequestIDHeader (snd (run_chain (RequestID (get_request false client) endpoint))) = "client-id-123"%string.
Proof. vm_compute. reflexivity. Qed.
Example TestLogging_DoesNotPanic :
  let '(o, calls) := run_chain (Logging false (get_request false no_headers) endpoint) in
  (o, Writer_Status 200 calls) = (Returned (), 200).
Proof. vm_compute. reflexivity. Qed.
Example TestRecovery_CatchesPanic :
  run_chain (Recovery (get_request false no_headers) (panic "test panic"))
    = (Returned (), [CAbortWithStatusJSON 500 (JMap [("error", JString "internal_error")])])%string.
Proof. vm_compute. reflexivity. Qed.
(** [wantBody]: the bytes of the two error responses *)
Example TestErrorBodies :
  let quoted s := [x22] ++ bytes_of s ++ [x22] in
  map json_Marshal [JMap [("error", JString jsonErrorInternal)]; JMap [("error", JString jsonErrorNotFound)]]%string
    = [[x7b] ++ quoted "error"%string ++ [x3a] ++ quoted "internal_error"%string ++ [x7d];
       [x7b] ++ quoted "error"%string ++ [x3a] ++ quoted "not_found"%string ++ [x7d]].
Proof. vm_compute. reflexivity. Qed.
Example TestMetrics_DoesNotPanic :
  let '(o, calls) := run_chain (Middleware.Metrics (get_request false no_headers) endpoint) in
  (o, Writer_Status 200 calls) = (Returned (), 200).
Proof. vm_compute. reflexivity. Qed.
Example TestSecurityHeaders_SetsHeaders :
  let headers tls := let calls := snd (run_chain (SecurityHeaders (get_request tls no_headers) endpoint)) in
    (Header_Get "Content-Security-Policy" calls, Header_Get "Strict-Transport-Security" calls) in
  (headers true, headers false) = ((cspHeaderValue, hstsHeaderValue), (cspHeaderValue, EmptyString)).
Proof. vm_compute. reflexivity. Qed.
Example TestNotFound_Returns404 :
  let '(o, calls) := run_chain (NotFound (get_request false no_headers)) in
  (o, Writer_Status 200 calls) = (Returned (), 404).
Proof. vm_compute. reflexivity. Qed.
Example TestStatusStr :
  map statusStr [200; 404; 409; 500; 418] = ["200"; "404"; "409"; "500"; "418"]%string.
Proof. vm_compute. reflexivity. Qed.
